(** * Backlog.md: task reconciliation, ordering and id generation

    A shallow embedding of the parts of the Backlog.md core that merge the
    task copies found on the working tree, on other local branches and on
    remotes ([Core.loadTasks]), filter them by the latest branch state
    snapshot, generate fresh task ids, reorder tasks inside a board column
    and apply field updates.

    Conventions of the embedding.
    - A JavaScript [Date] is modelled by its time value in milliseconds
      ([Date := Z]); the invalid date is outside the model.
    - A JavaScript number that holds an ordinal, an index or an id number
      is modelled by an integer; the values handled are far below 2^53.
    - [undefined] / absent optional fields are [None].
    - A function that throws returns [Err msg]; effects on the task store
      are recorded as a list of events. *)

From Stdlib Require Import ZArith List String Ascii Bool Lia Sorting.Sorted.
From stdpp Require Import base list gmap strings sorting.

Import ListNotations.
Local Open Scope string_scope.
Local Open Scope Z_scope.
Local Open Scope list_scope.

(** ** Data model (types/index.ts) *)

Definition Date : Type := Z.

Inductive Priority : Type := high | medium | low.

Inductive Source : Type := src_local | src_remote | src_completed | src_local_branch.

Record AcceptanceCriterion : Type := mkCriterion {
  index : Z;
  text : string;
  checked : bool
}.

Record AcceptanceCriterionInput : Type := mkCriterionInput {
  in_text : string;
  in_checked : option bool
}.

Record TaskHistoryEntry : Type := mkHistory {
  updatedAt : string;
  h_description : string;
  author : string;
  h_status : string
}.

Record Task : Type := mkTask {
  id : string;
  title : string;
  status : string;
  assignee : list string;
  reporter : option string;
  createdDate : string;
  updatedDate : option string;
  labels : list string;
  milestone : option string;
  dependencies : list string;
  rawContent : option string;
  description : option string;
  implementationPlan : option string;
  implementationNotes : option string;
  acceptanceCriteriaItems : option (list AcceptanceCriterion);
  parentTaskId : option string;
  subtasks : option (list string);
  priority : option Priority;
  branch : option string;
  ordinal : option Z;
  filePath : option string;
  lastModified : option Date;
  source : option Source;
  onStatusChange : option string;
  branchName : option string;
  gitTag : option string;
  prNumber : option string;
  history : option (list TaskHistoryEntry)
}.

Definition set_title (t : Task) (v : string) : Task :=
  {| id := id t; title := v; status := status t; assignee := assignee t;
     reporter := reporter t; createdDate := createdDate t;
     updatedDate := updatedDate t; labels := labels t;
     milestone := milestone t; dependencies := dependencies t;
     rawContent := rawContent t; description := description t;
     implementationPlan := implementationPlan t;
     implementationNotes := implementationNotes t;
     acceptanceCriteriaItems := acceptanceCriteriaItems t;
     parentTaskId := parentTaskId t; subtasks := subtasks t;
     priority := priority t; branch := branch t; ordinal := ordinal t;
     filePath := filePath t; lastModified := lastModified t;
     source := source t; onStatusChange := onStatusChange t;
     branchName := branchName t; gitTag := gitTag t; prNumber := prNumber t;
     history := history t |}.

Definition set_status (t : Task) (v : string) : Task :=
  {| id := id t; title := title t; status := v; assignee := assignee t;
     reporter := reporter t; createdDate := createdDate t;
     updatedDate := updatedDate t; labels := labels t;
     milestone := milestone t; dependencies := dependencies t;
     rawContent := rawContent t; description := description t;
     implementationPlan := implementationPlan t;
     implementationNotes := implementationNotes t;
     acceptanceCriteriaItems := acceptanceCriteriaItems t;
     parentTaskId := parentTaskId t; subtasks := subtasks t;
     priority := priority t; branch := branch t; ordinal := ordinal t;
     filePath := filePath t; lastModified := lastModified t;
     source := source t; onStatusChange := onStatusChange t;
     branchName := branchName t; gitTag := gitTag t; prNumber := prNumber t;
     history := history t |}.

Definition set_assignee (t : Task) (v : list string) : Task :=
  {| id := id t; title := title t; status := status t; assignee := v;
     reporter := reporter t; createdDate := createdDate t;
     updatedDate := updatedDate t; labels := labels t;
     milestone := milestone t; dependencies := dependencies t;
     rawContent := rawContent t; description := description t;
     implementationPlan := implementationPlan t;
     implementationNotes := implementationNotes t;
     acceptanceCriteriaItems := acceptanceCriteriaItems t;
     parentTaskId := parentTaskId t; subtasks := subtasks t;
     priority := priority t; branch := branch t; ordinal := ordinal t;
     filePath := filePath t; lastModified := lastModified t;
     source := source t; onStatusChange := onStatusChange t;
     branchName := branchName t; gitTag := gitTag t; prNumber := prNumber t;
     history := history t |}.

Definition set_updatedDate (t : Task) (v : option string) : Task :=
  {| id := id t; title := title t; status := status t;
     assignee := assignee t; reporter := reporter t;
     createdDate := createdDate t; updatedDate := v; labels := labels t;
     milestone := milestone t; dependencies := dependencies t;
     rawContent := rawContent t; description := description t;
     implementationPlan := implementationPlan t;
     implementationNotes := implementationNotes t;
     acceptanceCriteriaItems := acceptanceCriteriaItems t;
     parentTaskId := parentTaskId t; subtasks := subtasks t;
     priority := priority t; branch := branch t; ordinal := ordinal t;
     filePath := filePath t; lastModified := lastModified t;
     source := source t; onStatusChange := onStatusChange t;
     branchName := branchName t; gitTag := gitTag t; prNumber := prNumber t;
     history := history t |}.

Definition set_labels (t : Task) (v : list string) : Task :=
  {| id := id t; title := title t; status := status t;
     assignee := assignee t; reporter := reporter t;
     createdDate := createdDate t; updatedDate := updatedDate t; labels := v;
     milestone := milestone t; dependencies := dependencies t;
     rawContent := rawContent t; description := description t;
     implementationPlan := implementationPlan t;
     implementationNotes := implementationNotes t;
     acceptanceCriteriaItems := acceptanceCriteriaItems t;
     parentTaskId := parentTaskId t; subtasks := subtasks t;
     priority := priority t; branch := branch t; ordinal := ordinal t;
     filePath := filePath t; lastModified := lastModified t;
     source := source t; onStatusChange := onStatusChange t;
     branchName := branchName t; gitTag := gitTag t; prNumber := prNumber t;
     history := history t |}.

Definition set_milestone (t : Task) (v : option string) : Task :=
  {| id := id t; title := title t; status := status t;
     assignee := assignee t; reporter := reporter t;
     createdDate := createdDate t; updatedDate := updatedDate t;
     labels := labels t; milestone := v; dependencies := dependencies t;
     rawContent := rawContent t; description := description t;
     implementationPlan := implementationPlan t;
     implementationNotes := implementationNotes t;
     acceptanceCriteriaItems := acceptanceCriteriaItems t;
     parentTaskId := parentTaskId t; subtasks := subtasks t;
     priority := priority t; branch := branch t; ordinal := ordinal t;
     filePath := filePath t; lastModified := lastModified t;
     source := source t; onStatusChange := onStatusChange t;
     branchName := branchName t; gitTag := gitTag t; prNumber := prNumber t;
     history := history t |}.

Definition set_dependencies (t : Task) (v : list string) : Task :=
  {| id := id t; title := title t; status := status t;
     assignee := assignee t; reporter := reporter t;
     createdDate := createdDate t; updatedDate := updatedDate t;
     labels := labels t; milestone := milestone t; dependencies := v;
     rawContent := rawContent t; description := description t;
     implementationPlan := implementationPlan t;
     implementationNotes := implementationNotes t;
     acceptanceCriteriaItems := acceptanceCriteriaItems t;
     parentTaskId := parentTaskId t; subtasks := subtasks t;
     priority := priority t; branch := branch t; ordinal := ordinal t;
     filePath := filePath t; lastModified := lastModified t;
     source := source t; onStatusChange := onStatusChange t;
     branchName := branchName t; gitTag := gitTag t; prNumber := prNumber t;
     history := history t |}.

Definition set_description (t : Task) (v : option string) : Task :=
  {| id := id t; title := title t; status := status t;
     assignee := assignee t; reporter := reporter t;
     createdDate := createdDate t; updatedDate := updatedDate t;
     labels := labels t; milestone := milestone t;
     dependencies := dependencies t; rawContent := rawContent t;
     description := v; implementationPlan := implementationPlan t;
     implementationNotes := implementationNotes t;
     acceptanceCriteriaItems := acceptanceCriteriaItems t;
     parentTaskId := parentTaskId t; subtasks := subtasks t;
     priority := priority t; branch := branch t; ordinal := ordinal t;
     filePath := filePath t; lastModified := lastModified t;
     source := source t; onStatusChange := onStatusChange t;
     branchName := branchName t; gitTag := gitTag t; prNumber := prNumber t;
     history := history t |}.

Definition set_implementationPlan (t : Task) (v : option string) : Task :=
  {| id := id t; title := title t; status := status t;
     assignee := assignee t; reporter := reporter t;
     createdDate := createdDate t; updatedDate := updatedDate t;
     labels := labels t; milestone := milestone t;
     dependencies := dependencies t; rawContent := rawContent t;
     description := description t; implementationPlan := v;
     implementationNotes := implementationNotes t;
     acceptanceCriteriaItems := acceptanceCriteriaItems t;
     parentTaskId := parentTaskId t; subtasks := subtasks t;
     priority := priority t; branch := branch t; ordinal := ordinal t;
     filePath := filePath t; lastModified := lastModified t;
     source := source t; onStatusChange := onStatusChange t;
     branchName := branchName t; gitTag := gitTag t; prNumber := prNumber t;
     history := history t |}.

Definition set_implementationNotes (t : Task) (v : option string) : Task :=
  {| id := id t; title := title t; status := status t;
     assignee := assignee t; reporter := reporter t;
     createdDate := createdDate t; updatedDate := updatedDate t;
     labels := labels t; milestone := milestone t;
     dependencies := dependencies t; rawContent := rawContent t;
     description := description t;
     implementationPlan := implementationPlan t; implementationNotes := v;
     acceptanceCriteriaItems := acceptanceCriteriaItems t;
     parentTaskId := parentTaskId t; subtasks := subtasks t;
     priority := priority t; branch := branch t; ordinal := ordinal t;
     filePath := filePath t; lastModified := lastModified t;
     source := source t; onStatusChange := onStatusChange t;
     branchName := branchName t; gitTag := gitTag t; prNumber := prNumber t;
     history := history t |}.

Definition set_acceptanceCriteriaItems (t : Task) (v : option (list AcceptanceCriterion)) : Task :=
  {| id := id t; title := title t; status := status t;
     assignee := assignee t; reporter := reporter t;
     createdDate := createdDate t; updatedDate := updatedDate t;
     labels := labels t; milestone := milestone t;
     dependencies := dependencies t; rawContent := rawContent t;
     description := description t;
     implementationPlan := implementationPlan t;
     implementationNotes := implementationNotes t;
     acceptanceCriteriaItems := v; parentTaskId := parentTaskId t;
     subtasks := subtasks t; priority := priority t; branch := branch t;
     ordinal := ordinal t; filePath := filePath t;
     lastModified := lastModified t; source := source t;
     onStatusChange := onStatusChange t; branchName := branchName t;
     gitTag := gitTag t; prNumber := prNumber t; history := history t |}.

Definition set_priority (t : Task) (v : option Priority) : Task :=
  {| id := id t; title := title t; status := status t;
     assignee := assignee t; reporter := reporter t;
     createdDate := createdDate t; updatedDate := updatedDate t;
     labels := labels t; milestone := milestone t;
     dependencies := dependencies t; rawContent := rawContent t;
     description := description t;
     implementationPlan := implementationPlan t;
     implementationNotes := implementationNotes t;
     acceptanceCriteriaItems := acceptanceCriteriaItems t;
     parentTaskId := parentTaskId t; subtasks := subtasks t; priority := v;
     branch := branch t; ordinal := ordinal t; filePath := filePath t;
     lastModified := lastModified t; source := source t;
     onStatusChange := onStatusChange t; branchName := branchName t;
     gitTag := gitTag t; prNumber := prNumber t; history := history t |}.

Definition set_ordinal (t : Task) (v : option Z) : Task :=
  {| id := id t; title := title t; status := status t;
     assignee := assignee t; reporter := reporter t;
     createdDate := createdDate t; updatedDate := updatedDate t;
     labels := labels t; milestone := milestone t;
     dependencies := dependencies t; rawContent := rawContent t;
     description := description t;
     implementationPlan := implementationPlan t;
     implementationNotes := implementationNotes t;
     acceptanceCriteriaItems := acceptanceCriteriaItems t;
     parentTaskId := parentTaskId t; subtasks := subtasks t;
     priority := priority t; branch := branch t; ordinal := v;
     filePath := filePath t; lastModified := lastModified t;
     source := source t; onStatusChange := onStatusChange t;
     branchName := branchName t; gitTag := gitTag t; prNumber := prNumber t;
     history := history t |}.

Definition set_source (t : Task) (v : option Source) : Task :=
  {| id := id t; title := title t; status := status t;
     assignee := assignee t; reporter := reporter t;
     createdDate := createdDate t; updatedDate := updatedDate t;
     labels := labels t; milestone := milestone t;
     dependencies := dependencies t; rawContent := rawContent t;
     description := description t;
     implementationPlan := implementationPlan t;
     implementationNotes := implementationNotes t;
     acceptanceCriteriaItems := acceptanceCriteriaItems t;
     parentTaskId := parentTaskId t; subtasks := subtasks t;
     priority := priority t; branch := branch t; ordinal := ordinal t;
     filePath := filePath t; lastModified := lastModified t; source := v;
     onStatusChange := onStatusChange t; branchName := branchName t;
     gitTag := gitTag t; prNumber := prNumber t; history := history t |}.

Definition set_branchName (t : Task) (v : option string) : Task :=
  {| id := id t; title := title t; status := status t;
     assignee := assignee t; reporter := reporter t;
     createdDate := createdDate t; updatedDate := updatedDate t;
     labels := labels t; milestone := milestone t;
     dependencies := dependencies t; rawContent := rawContent t;
     description := description t;
     implementationPlan := implementationPlan t;
     implementationNotes := implementationNotes t;
     acceptanceCriteriaItems := acceptanceCriteriaItems t;
     parentTaskId := parentTaskId t; subtasks := subtasks t;
     priority := priority t; branch := branch t; ordinal := ordinal t;
     filePath := filePath t; lastModified := lastModified t;
     source := source t; onStatusChange := onStatusChange t; branchName := v;
     gitTag := gitTag t; prNumber := prNumber t; history := history t |}.

Definition set_gitTag (t : Task) (v : option string) : Task :=
  {| id := id t; title := title t; status := status t;
     assignee := assignee t; reporter := reporter t;
     createdDate := createdDate t; updatedDate := updatedDate t;
     labels := labels t; milestone := milestone t;
     dependencies := dependencies t; rawContent := rawContent t;
     description := description t;
     implementationPlan := implementationPlan t;
     implementationNotes := implementationNotes t;
     acceptanceCriteriaItems := acceptanceCriteriaItems t;
     parentTaskId := parentTaskId t; subtasks := subtasks t;
     priority := priority t; branch := branch t; ordinal := ordinal t;
     filePath := filePath t; lastModified := lastModified t;
     source := source t; onStatusChange := onStatusChange t;
     branchName := branchName t; gitTag := v; prNumber := prNumber t;
     history := history t |}.

Definition set_prNumber (t : Task) (v : option string) : Task :=
  {| id := id t; title := title t; status := status t;
     assignee := assignee t; reporter := reporter t;
     createdDate := createdDate t; updatedDate := updatedDate t;
     labels := labels t; milestone := milestone t;
     dependencies := dependencies t; rawContent := rawContent t;
     description := description t;
     implementationPlan := implementationPlan t;
     implementationNotes := implementationNotes t;
     acceptanceCriteriaItems := acceptanceCriteriaItems t;
     parentTaskId := parentTaskId t; subtasks := subtasks t;
     priority := priority t; branch := branch t; ordinal := ordinal t;
     filePath := filePath t; lastModified := lastModified t;
     source := source t; onStatusChange := onStatusChange t;
     branchName := branchName t; gitTag := gitTag t; prNumber := v;
     history := history t |}.

Definition set_history (t : Task) (v : option (list TaskHistoryEntry)) : Task :=
  {| id := id t; title := title t; status := status t;
     assignee := assignee t; reporter := reporter t;
     createdDate := createdDate t; updatedDate := updatedDate t;
     labels := labels t; milestone := milestone t;
     dependencies := dependencies t; rawContent := rawContent t;
     description := description t;
     implementationPlan := implementationPlan t;
     implementationNotes := implementationNotes t;
     acceptanceCriteriaItems := acceptanceCriteriaItems t;
     parentTaskId := parentTaskId t; subtasks := subtasks t;
     priority := priority t; branch := branch t; ordinal := ordinal t;
     filePath := filePath t; lastModified := lastModified t;
     source := source t; onStatusChange := onStatusChange t;
     branchName := branchName t; gitTag := gitTag t; prNumber := prNumber t;
     history := v |}.

#[global] Instance Priority_eq_dec : EqDecision Priority.
Proof. solve_decision. Defined.

#[global] Instance Source_eq_dec : EqDecision Source.
Proof. solve_decision. Defined.

#[global] Instance AcceptanceCriterion_eq_dec : EqDecision AcceptanceCriterion.
Proof. solve_decision. Defined.

(** One entry of the branch scan (task-loader.ts, [BranchTaskStateEntry]).
    The [type] field is kept as the string the code compares with. *)
Module StateEntry.
Record t : Type := mk {
  id : string;
  type : string;
  branch : string;
  path : string;
  lastModified : Date
}.
End StateEntry.

(** The part of [BacklogConfig] read by the functions below. *)
Inductive Strategy : Type := most_recent | most_progressed.

Record BacklogConfig : Type := mkConfig {
  statuses : list string;
  taskResolutionStrategy : option Strategy;
  checkActiveBranches : option bool;
  zeroPaddedIds : option Z;
  autoCommit : option bool;
  config_onStatusChange : option string
}.

(** Outcome of a function that may throw. *)
Inductive result (A : Type) : Type :=
| Ok (a : A)
| Err (msg : string).
Arguments Ok {A} a.
Arguments Err {A} msg.

#[global] Instance result_ret : MRet result := fun A a => Ok a.

#[global] Instance result_bind : MBind result := fun A B k m =>
  match m with
  | Ok a => k a
  | Err msg => Err msg
  end.

(** The fields of [TaskUpdateInput]; an absent field is [None], and
    [milestone] may also be [null] ([Some None]). *)
Module UpdateInput.
Record t : Type := mk {
  title : option string;
  description : option string;
  status : option string;
  priority : option string;
  milestone : option (option string);
  labels : option (list string);
  addLabels : option (list string);
  removeLabels : option (list string);
  assignee : option (list string);
  ordinal : option Z;
  dependencies : option (list string);
  addDependencies : option (list string);
  removeDependencies : option (list string);
  implementationPlan : option string;
  appendImplementationPlan : option (list string);
  clearImplementationPlan : option bool;
  implementationNotes : option string;
  appendImplementationNotes : option (list string);
  clearImplementationNotes : option bool;
  acceptanceCriteria : option (list AcceptanceCriterionInput);
  addAcceptanceCriteria : option (list (string + AcceptanceCriterionInput));
  removeAcceptanceCriteria : option (list Z);
  checkAcceptanceCriteria : option (list Z);
  uncheckAcceptanceCriteria : option (list Z);
  rawContent : option string;
  branchName : option string;
  gitTag : option string;
  prNumber : option string;
  addToHistory : option TaskHistoryEntry
}.

(** The input with no field set. *)
Definition empty : t :=
  mk None None None None None None None None None None None None None None None
     None None None None None None None None None None None None None None.
End UpdateInput.

(** ** JavaScript [Map] keyed by strings

    [new Map()] keeps its entries in insertion order; [set] on a key that
    is present replaces the value in place, on a new key it appends;
    [values()] lists the values in that order. *)
Module JsMap.
Section JsMap.
Context {V : Type}.

Definition t : Type := list (string * V).

Fixpoint get (k : string) (m : t) : option V :=
  match m with
  | [] => None
  | (k', v) :: m' => if String.eqb k k' then Some v else get k m'
  end.

Fixpoint set (k : string) (v : V) (m : t) : t :=
  match m with
  | [] => [(k, v)]
  | (k', v') :: m' =>
      if String.eqb k k' then (k', v) :: m' else (k', v') :: set k v m'
  end.

Definition has (k : string) (m : t) : bool :=
  match get k m with Some _ => true | None => false end.

Definition keys (m : t) : list string := map fst m.
Definition values (m : t) : list V := map snd m.

(** [new Map(entries)] *)
Definition of_entries (entries : list (string * V)) : t :=
  fold_left (fun m e => set (fst e) (snd e) m) entries [].

Lemma get_set_eq k v m : get k (set k v m) = Some v.
Proof.
  induction m as [|[k' v'] m IH]; simpl.
  - by rewrite String.eqb_refl.
  - destruct (String.eqb k k') eqn:E; simpl; rewrite E; auto.
Qed.

Lemma get_set_ne k k' v m : k <> k' -> get k' (set k v m) = get k' m.
Proof.
  intros Hne. induction m as [|[k0 v0] m IH]; simpl.
  - destruct (String.eqb k' k) eqn:E; auto.
    apply String.eqb_eq in E. congruence.
  - destruct (String.eqb k k0) eqn:E; simpl.
    + apply String.eqb_eq in E. subst k0.
      destruct (String.eqb k' k) eqn:E'; auto.
      apply String.eqb_eq in E'. congruence.
    + destruct (String.eqb k' k0); auto.
Qed.

Lemma get_set k k' v m :
  get k' (set k v m) = if String.eqb k k' then Some v else get k' m.
Proof.
  destruct (String.eqb k k') eqn:E.
  - apply String.eqb_eq in E. subst. apply get_set_eq.
  - apply String.eqb_neq in E. by apply get_set_ne.
Qed.

Lemma keys_set k v m :
  keys (set k v m) = if has k m then keys m else keys m ++ [k].
Proof.
  unfold has. induction m as [|[k' v'] m IH]; simpl; [done|].
  destruct (String.eqb k k') eqn:E; simpl; [done|].
  rewrite IH. by destruct (get k m).
Qed.

Lemma get_None_keys k m : get k m = None <-> k ∉ keys m.
Proof.
  induction m as [|[k' v'] m IH]; simpl.
  - split; [intros _; apply not_elem_of_nil|done].
  - rewrite not_elem_of_cons. destruct (String.eqb k k') eqn:E.
    + apply String.eqb_eq in E. subst. split; [discriminate|tauto].
    + apply String.eqb_neq in E. rewrite IH. tauto.
Qed.

Lemma NoDup_keys_set k v m : NoDup (keys m) -> NoDup (keys (set k v m)).
Proof.
  intros Hnd. rewrite keys_set. unfold has.
  destruct (get k m) eqn:E; [done|].
  apply get_None_keys in E.
  apply NoDup_app. repeat split; try done.
  - intros x Hx Hx'. apply list_elem_of_singleton in Hx'. by subst.
  - apply NoDup_singleton.
Qed.

Lemma elem_of_set_inv k v m e :
  e ∈ set k v m -> (fst e = k /\ snd e = v) \/ e ∈ m.
Proof.
  induction m as [|[k' v'] m IH]; simpl.
  - intros ->%list_elem_of_singleton. by left.
  - destruct (String.eqb k k') eqn:E; simpl.
    + apply String.eqb_eq in E. subst.
      intros [->|H]%elem_of_cons; [by left|].
      right. by apply elem_of_cons; right.
    + intros [->|H]%elem_of_cons.
      * right. apply elem_of_cons. by left.
      * destruct (IH H); [by left|].
        right. apply elem_of_cons. by right.
Qed.

Lemma get_fold_set_None k (entries : list (string * V)) m :
  get k (fold_left (fun m e => set (fst e) (snd e) m) entries m) = None ->
  (k ∉ map fst entries) /\ get k m = None.
Proof.
  revert m. induction entries as [|e es IH]; intros m; simpl.
  - intros H. split; [apply not_elem_of_nil|done].
  - intros H. apply IH in H as [Hes Hget]. rewrite get_set in Hget.
    destruct (String.eqb (fst e) k) eqn:E; [done|].
    apply String.eqb_neq in E. split; [|done].
    apply not_elem_of_cons. split; [congruence|done].
Qed.

Lemma get_fold_set_Some k v (entries : list (string * V)) m :
  get k (fold_left (fun m e => set (fst e) (snd e) m) entries m) = Some v ->
  (k, v) ∈ entries \/ get k m = Some v.
Proof.
  revert m. induction entries as [|e es IH]; intros m; simpl; [by right|].
  intros H. apply IH in H as [H|H].
  - left. apply elem_of_cons. by right.
  - rewrite get_set in H. destruct (String.eqb (fst e) k) eqn:E; [|by right].
    apply String.eqb_eq in E. injection H as <-. subst k.
    left. apply elem_of_cons. left. by destruct e.
Qed.

Lemma get_of_entries_None k entries :
  get k (of_entries entries) = None -> k ∉ map fst entries.
Proof. intros H. by apply get_fold_set_None in H as [H _]. Qed.

Lemma get_of_entries_Some k v entries :
  get k (of_entries entries) = Some v -> (k, v) ∈ entries.
Proof. intros H. by apply get_fold_set_Some in H as [H|H]. Qed.
End JsMap.
Arguments t : clear implicits.
End JsMap.

(** ** JavaScript strings and numbers

    A string is a sequence of UTF-16 code units below 256, one [ascii]
    each: the characters U+0000 to U+00FF. Text with other characters is
    outside the model. The functions below are the library calls the code
    makes, on such strings. *)
Module JsString.

Definition isDigit (c : ascii) : bool :=
  ((48 <=? nat_of_ascii c) && (nat_of_ascii c <=? 57))%nat.

Definition digitValue (c : ascii) : Z := Z.of_nat (nat_of_ascii c) - 48.

Definition digitChar (d : Z) : ascii := ascii_of_nat (Z.to_nat d + 48).

Fixpoint allDigits (s : string) : bool :=
  match s with
  | EmptyString => true
  | String c s' => isDigit c && allDigits s'
  end.

(** What [\d+] captures at the start of [s] (empty: no match). *)
Fixpoint leadingDigits (s : string) : string :=
  match s with
  | EmptyString => EmptyString
  | String c s' => if isDigit c then String c (leadingDigits s') else EmptyString
  end.

(** Decimal value of a run of digits, accumulated left to right. *)
Fixpoint parseDigits (acc : Z) (s : string) : Z :=
  match s with
  | EmptyString => acc
  | String c s' => parseDigits (acc * 10 + digitValue c) s'
  end.

Definition decimalValue (s : string) : Z := parseDigits 0 s.

(** White space and line terminators below 256: tab, line feed, vertical
    tab, form feed, carriage return, space and the no-break space. *)
Definition isWhiteSpace (c : ascii) : bool :=
  let n := nat_of_ascii c in
  ((n =? 32) || ((9 <=? n) && (n <=? 13)) || (n =? 160))%nat.

Fixpoint skipWhiteSpace (s : string) : string :=
  match s with
  | EmptyString => EmptyString
  | String c s' => if isWhiteSpace c then skipWhiteSpace s' else s
  end.

(** The double nearest to the integer [n], ties to the even mantissa: a
    JavaScript number holds 53 bits, so every integer up to 2^53 in
    magnitude is exact and larger ones are rounded. Magnitudes are taken
    below 2^1024, where a double is still finite. *)
Definition toDouble (n : Z) : Z :=
  let magnitude := Z.abs n in
  let shift := Z.log2 magnitude - 52 in
  if shift <=? 0 then n
  else
    let mantissa := Z.shiftr magnitude shift in
    let remainder := magnitude - Z.shiftl mantissa shift in
    let half := Z.shiftl 1 (shift - 1) in
    let rounded :=
      if (half <? remainder) || ((remainder =? half) && Z.odd mantissa)
      then mantissa + 1 else mantissa in
    Z.sgn n * Z.shiftl rounded shift.

(** The integer that [Number.parseInt(s, 10)] reads; [None] is NaN. *)
Definition parseInteger (s : string) : option Z :=
  let s := skipWhiteSpace s in
  let '(negative, s) :=
    match s with
    | String "-" r => (true, r)
    | String "+" r => (false, r)
    | _ => (false, s)
    end in
  let digits := leadingDigits s in
  if String.eqb digits "" then None
  else Some (if negative then - decimalValue digits else decimalValue digits).

(** [Number.parseInt(s, 10)]: the integer read, as a double. Up to twenty
    significant digits every implementation reads the same integer. *)
Definition parseInt (s : string) : option Z := toDouble <$> parseInteger s.

Fixpoint decimalDigits (fuel : nat) (n : Z) (acc : string) : string :=
  let acc' := String (digitChar (n mod 10)) acc in
  match fuel with
  | O => acc'
  | S fuel' => if n / 10 =? 0 then acc' else decimalDigits fuel' (n / 10) acc'
  end.

(** [String(n)] for an integer [n] below 10^21 in magnitude, where the
    digits are written out. *)
Definition numberToString (n : Z) : string :=
  if n <? 0 then String "-" (decimalDigits (Z.to_nat (- n)) (- n) "")
  else decimalDigits (Z.to_nat n) n "".

Fixpoint fillString (n : nat) (c : ascii) (s : string) : string :=
  match n with
  | O => s
  | S n' => String c (fillString n' c s)
  end.

(** [s.padStart(targetLength, fill)] with a one-character [fill]. *)
Definition padStart (targetLength : nat) (fill : ascii) (s : string) : string :=
  fillString (targetLength - String.length s) fill s.

(** [s.startsWith(p)], returning the rest of [s] after [p]. *)
Fixpoint stripPrefix (p s : string) : option string :=
  match p, s with
  | EmptyString, _ => Some s
  | String a p', String b s' => if Ascii.eqb a b then stripPrefix p' s' else None
  | String _ _, EmptyString => None
  end.

(** [s.split(sep)[0]] for a one-character separator. *)
Fixpoint firstSegment (sep : ascii) (s : string) : string :=
  match s with
  | EmptyString => EmptyString
  | String c s' => if Ascii.eqb c sep then EmptyString else String c (firstSegment sep s')
  end.

(** [s.trim()] *)
Fixpoint trimEnd (s : string) : string :=
  match s with
  | EmptyString => EmptyString
  | String c s' =>
      match trimEnd s' with
      | EmptyString => if isWhiteSpace c then EmptyString else String c EmptyString
      | r => String c r
      end
  end.

Definition trim (s : string) : string := trimEnd (skipWhiteSpace s).

(** [s] between two double quote characters. *)
Definition quoted (s : string) : string :=
  String (ascii_of_nat 34) (s +:+ String (ascii_of_nat 34) EmptyString).

(** [s.toLowerCase()]: the letters A to Z and, above 127, the capital
    letters U+00C0 to U+00DE but the multiplication sign. *)
Definition lowerChar (c : ascii) : ascii :=
  let n := nat_of_ascii c in
  if (((65 <=? n) && (n <=? 90)) ||
      ((192 <=? n) && (n <=? 222) && negb (n =? 215)))%nat
  then ascii_of_nat (n + 32) else c.

Fixpoint toLowerCase (s : string) : string :=
  match s with
  | EmptyString => EmptyString
  | String c s' => String (lowerChar c) (toLowerCase s')
  end.

(** [parts.join(sep)] *)
Fixpoint join (sep : string) (parts : list string) : string :=
  match parts with
  | [] => EmptyString
  | [x] => x
  | x :: rest => x +:+ sep +:+ join sep rest
  end.

Definition newline : string := String (ascii_of_nat 10) EmptyString.

Example parseInt_padded : parseInt "007" = Some 7.
Proof. reflexivity. Qed.

Example numberToString_120 : numberToString 120 = "120".
Proof. reflexivity. Qed.

Example numberToString_negative : numberToString (-42) = "-42".
Proof. reflexivity. Qed.

Example padStart_3 : padStart 3 "0" "42" = "042".
Proof. reflexivity. Qed.

Example trim_both : trim "  task-1 " = "task-1".
Proof. reflexivity. Qed.

(** *** Facts about digit strings *)

Lemma parseDigits_app acc s s' :
  parseDigits acc (s +:+ s') = parseDigits (parseDigits acc s) s'.
Proof. revert acc. induction s as [|c s IH]; intros acc; simpl; [done|apply IH]. Qed.

Lemma parseDigits_shift acc s :
  parseDigits acc s = acc * 10 ^ Z.of_nat (String.length s) + decimalValue s.
Proof.
  unfold decimalValue. revert acc. induction s as [|c s IH]; intros acc.
  - simpl. lia.
  - cbn [parseDigits String.length]. rewrite IH, (IH (0 * 10 + digitValue c)).
    rewrite Nat2Z.inj_succ, Z.pow_succ_r by lia. lia.
Qed.

Lemma digitValue_range c : isDigit c = true -> 0 <= digitValue c <= 9.
Proof.
  unfold isDigit, digitValue. intros H. apply andb_true_iff in H as [H1 H2].
  apply Nat.leb_le in H1, H2. lia.
Qed.

Lemma parseDigits_ge acc s :
  allDigits s = true -> 0 <= acc -> acc <= parseDigits acc s.
Proof.
  revert acc. induction s as [|c s IH]; intros acc Hs Hacc; simpl; [lia|].
  simpl in Hs. apply andb_true_iff in Hs as [Hc Hs].
  pose proof (digitValue_range c Hc).
  etransitivity; [|apply IH; [done|lia]]. lia.
Qed.

Lemma decimalValue_prefix_le ds ds' :
  allDigits ds = true -> allDigits ds' = true ->
  decimalValue ds <= decimalValue (ds +:+ ds').
Proof.
  intros Hds Hds'. unfold decimalValue. rewrite parseDigits_app.
  apply parseDigits_ge; [done|]. by apply parseDigits_ge.
Qed.

Lemma digitChar_spec d :
  0 <= d < 10 -> isDigit (digitChar d) = true /\ digitValue (digitChar d) = d.
Proof.
  intros Hd. unfold isDigit, digitValue, digitChar.
  rewrite nat_ascii_embedding by lia. split; [|lia].
  apply andb_true_iff. split; apply Nat.leb_le; lia.
Qed.

Lemma decimalValue_cons d acc :
  0 <= d < 10 ->
  decimalValue (String (digitChar d) acc) =
    d * 10 ^ Z.of_nat (String.length acc) + decimalValue acc.
Proof.
  intros Hd. destruct (digitChar_spec d Hd) as [_ Hv].
  unfold decimalValue. cbn [parseDigits]. rewrite parseDigits_shift, Hv.
  unfold decimalValue. lia.
Qed.

Lemma decimalDigits_spec fuel n acc :
  0 <= n <= Z.of_nat fuel -> allDigits acc = true ->
  allDigits (decimalDigits fuel n acc) = true /\
  decimalValue (decimalDigits fuel n acc) =
    n * 10 ^ Z.of_nat (String.length acc) + decimalValue acc.
Proof.
  revert n acc. induction fuel as [|fuel IH]; intros n acc Hn Hacc.
  - assert (n = 0) as -> by lia. cbn [decimalDigits].
    change (0 mod 10) with 0.
    destruct (digitChar_spec 0) as [Hd _]; [lia|].
    split; [cbn [allDigits]; by rewrite Hd|].
    rewrite decimalValue_cons by lia. done.
  - assert (Hm : 0 <= n mod 10 < 10) by (apply Z.mod_pos_bound; lia).
    destruct (digitChar_spec (n mod 10) Hm) as [Hd _].
    pose proof (decimalValue_cons (n mod 10) acc Hm) as Hstep.
    cbn [decimalDigits]. destruct (n / 10 =? 0) eqn:E.
    + apply Z.eqb_eq in E. split; [cbn [allDigits]; by rewrite Hd|].
      rewrite Hstep. rewrite (Z.div_mod n 10) at 2 by lia. rewrite E. lia.
    + apply Z.eqb_neq in E.
      destruct (IH (n / 10) (String (digitChar (n mod 10)) acc)) as [Ha Hval].
      * split; [apply Z.div_pos; lia|].
        assert (10 <= n).
        { destruct (Z_lt_le_dec n 10) as [Hlt|]; [|done].
          rewrite Z.div_small in E by lia. done. }
        assert (n / 10 < n) by (apply Z.div_lt; lia). lia.
      * cbn [allDigits]. by rewrite Hd.
      * split; [done|]. rewrite Hval, Hstep.
        cbn [String.length]. rewrite Nat2Z.inj_succ, Z.pow_succ_r by lia.
        rewrite (Z.div_mod n 10) at 3 by lia. lia.
Qed.

Lemma decimalDigits_nonempty fuel n acc : decimalDigits fuel n acc <> "".
Proof.
  revert n acc. induction fuel as [|fuel IH]; intros n acc; simpl; [done|].
  destruct (n / 10 =? 0); [done|apply IH].
Qed.

Lemma numberToString_spec n :
  0 <= n ->
  allDigits (numberToString n) = true /\
  decimalValue (numberToString n) = n /\
  numberToString n <> "".
Proof.
  intros Hn. unfold numberToString.
  destruct (Z.ltb_spec n 0) as [?|_]; [lia|].
  destruct (decimalDigits_spec (Z.to_nat n) n "") as [Ha Hv]; [lia|done|].
  split; [done|]. split; [|apply decimalDigits_nonempty].
  rewrite Hv. unfold decimalValue. simpl. lia.
Qed.

Lemma padStart_zero_spec w s :
  allDigits s = true ->
  allDigits (padStart w "0" s) = true /\
  decimalValue (padStart w "0" s) = decimalValue s /\
  (s <> "" -> padStart w "0" s <> "").
Proof.
  intros Hs. unfold padStart.
  induction (w - String.length s)%nat as [|k IH]; simpl; [done|].
  destruct IH as (Ha & Hv & _). split; [done|]. split; [|done].
  unfold decimalValue in *. by simpl.
Qed.

Lemma leadingDigits_allDigits s : allDigits (leadingDigits s) = true.
Proof.
  induction s as [|c s IH]; simpl; [done|].
  destruct (isDigit c) eqn:E; simpl; [by rewrite E|done].
Qed.

Lemma leadingDigits_app ds rest :
  allDigits ds = true -> leadingDigits (ds +:+ rest) = ds +:+ leadingDigits rest.
Proof.
  induction ds as [|c ds IH]; simpl; [done|].
  intros [Hc Hds]%andb_true_iff. rewrite Hc, IH by done. done.
Qed.

Lemma leadingDigits_self ds : allDigits ds = true -> leadingDigits ds = ds.
Proof.
  induction ds as [|c ds IH]; simpl; [done|].
  intros [Hc Hds]%andb_true_iff. rewrite Hc. f_equal. by apply IH.
Qed.

Lemma append_empty_r s : s +:+ "" = s.
Proof.
  induction s as [|c s IH]; [done|].
  change (String c (s +:+ "") = String c s). by rewrite IH.
Qed.

Lemma stripPrefix_app p r : stripPrefix p (p +:+ r) = Some r.
Proof.
  induction p as [|a p IH]; simpl; [by destruct r|].
  by rewrite Ascii.eqb_refl.
Qed.

Lemma stripPrefix_Some p s r : stripPrefix p s = Some r -> s = p +:+ r.
Proof.
  revert s. induction p as [|a p IH]; intros s; simpl.
  - destruct s; by intros [= <-].
  - destruct s as [|b s]; [done|].
    destruct (Ascii.eqb a b) eqn:E; [|done].
    apply Ascii.eqb_eq in E. subst b. intros H.
    change (String a s = String a (p +:+ r)). f_equal. by apply IH.
Qed.

Lemma parseInteger_digits ds :
  allDigits ds = true -> ds <> "" -> parseInteger ds = Some (decimalValue ds).
Proof.
  intros Hds Hne. destruct ds as [|c ds]; [done|].
  assert (Hl : leadingDigits (String c ds) = String c ds)
    by by apply leadingDigits_self.
  simpl in Hds. apply andb_true_iff in Hds as [Hc _].
  unfold parseInteger.
  assert (Hw : skipWhiteSpace (String c ds) = String c ds).
  { simpl. destruct (isWhiteSpace c) eqn:E; [|done].
    unfold isDigit in Hc. unfold isWhiteSpace in E.
    apply andb_true_iff in Hc as [H1 H2]. apply Nat.leb_le in H1, H2.
    apply orb_true_iff in E as [E|E]; [apply orb_true_iff in E as [E|E]|].
    - apply Nat.eqb_eq in E. lia.
    - apply andb_true_iff in E as [_ E]. apply Nat.leb_le in E. lia.
    - apply Nat.eqb_eq in E. lia. }
  rewrite Hw.
  assert (Hsign : c <> "-"%char /\ c <> "+"%char).
  { split; intros ->; discriminate Hc. }
  destruct Hsign as [Hm Hp].
  destruct c as [[] [] [] [] [] [] [] []]; try done; by rewrite Hl.
Qed.

(** *** Doubles *)

Example toDouble_rounds : toDouble (2 ^ 53 + 1) = 2 ^ 53.
Proof. reflexivity. Qed.

Example toDouble_rounds_up : toDouble (2 ^ 53 + 3) = 2 ^ 53 + 4.
Proof. reflexivity. Qed.

Lemma toDouble_exact n : - 2 ^ 53 <= n <= 2 ^ 53 -> toDouble n = n.
Proof.
  intros Hn.
  destruct (decide (Z.abs n = 2 ^ 53)) as [He|Hne].
  { destruct (Z.abs_eq_or_opp n) as [H|H]; rewrite H in He.
    - by rewrite He.
    - assert (n = - 2 ^ 53) as -> by lia. reflexivity. }
  unfold toDouble. cbv zeta.
  assert (Hlog : Z.log2 (Z.abs n) < 53).
  { destruct (decide (Z.abs n = 0)) as [->|H0]; [done|].
    apply Z.log2_lt_pow2; lia. }
  destruct (Z.leb_spec (Z.log2 (Z.abs n) - 52) 0); [done|lia].
Qed.

Lemma toDouble_nonpos n : n <= 0 -> toDouble n <= 0.
Proof.
  intros Hn. unfold toDouble. cbv zeta.
  destruct (Z.leb_spec (Z.log2 (Z.abs n) - 52) 0) as [|Hshift]; [done|].
  assert (n < 0).
  { destruct (decide (n = 0)) as [->|]; [|lia]. by vm_compute in Hshift. }
  rewrite (Z.sgn_neg n) by done.
  set (mantissa := Z.shiftr (Z.abs n) (Z.log2 (Z.abs n) - 52)).
  assert (0 <= mantissa) by (apply Z.shiftr_nonneg; lia).
  match goal with
  | |- -1 * Z.shiftl ?r ?k <= 0 => assert (0 <= Z.shiftl r k); [|lia]
  end.
  apply Z.shiftl_nonneg. by destruct (_ || _); lia.
Qed.

(** A number below 2^53 is read as it is written; a negative one stays
    at or below zero. *)
Lemma parseInt_below s v :
  parseInteger s = Some v -> v < 2 ^ 53 ->
  exists w, parseInt s = Some w /\ (0 <= v -> w = v) /\ (v <= 0 -> w <= 0).
Proof.
  intros Hs Hv. unfold parseInt. rewrite Hs. exists (toDouble v).
  split; [done|]. split.
  - intros H0. apply toDouble_exact. lia.
  - apply toDouble_nonpos.
Qed.

Lemma parseInt_digits ds :
  allDigits ds = true -> ds <> "" -> decimalValue ds <= 2 ^ 53 ->
  parseInt ds = Some (decimalValue ds).
Proof.
  intros Hds Hne Hv. unfold parseInt. rewrite parseInteger_digits by done.
  cbn. f_equal. apply toDouble_exact.
  pose proof (parseDigits_ge 0 ds Hds ltac:(lia)). unfold decimalValue in *. lia.
Qed.

End JsString.

(** ** More string operations

    [includes], [toUpperCase] and [split] on ASCII text, and facts about
    [trim]. *)
Module JsText.

(** [s.includes(needle)] *)
Fixpoint includes (s needle : string) : bool :=
  match JsString.stripPrefix needle s with
  | Some _ => true
  | None =>
      match s with
      | EmptyString => false
      | String _ rest => includes rest needle
      end
  end.

(** [s.toUpperCase()], on ASCII letters. *)
Definition upperChar (c : ascii) : ascii :=
  let n := nat_of_ascii c in
  if ((97 <=? n) && (n <=? 122))%nat then ascii_of_nat (n - 32) else c.

Fixpoint toUpperCase (s : string) : string :=
  match s with
  | EmptyString => EmptyString
  | String c s' => String (upperChar c) (toUpperCase s')
  end.

(** [s.split(sep)] for a one-character separator: the pieces between the
    separators, the empty ones included; never the empty list. *)
Fixpoint split (sep : ascii) (s : string) : list string :=
  match s with
  | EmptyString => [EmptyString]
  | String c s' =>
      if Ascii.eqb c sep then EmptyString :: split sep s'
      else
        match split sep s' with
        | piece :: pieces => String c piece :: pieces
        | [] => [String c EmptyString]
        end
  end.

Example includes_inside : includes "not done yet" "done" = true.
Proof. reflexivity. Qed.

Example split_commas : split "," "a,,b," = ["a"; ""; "b"; ""].
Proof. reflexivity. Qed.

Example split_empty : split "," "" = [""].
Proof. reflexivity. Qed.

(** *** [trim] *)

Lemma skipWhiteSpace_head s :
  JsString.skipWhiteSpace s = "" \/
  exists c r, JsString.skipWhiteSpace s = String c r /\ JsString.isWhiteSpace c = false.
Proof.
  induction s as [|c s IH]; [by left|]. cbn [JsString.skipWhiteSpace].
  destruct (JsString.isWhiteSpace c) eqn:E; [done|]. right. by exists c, s.
Qed.

Lemma trimEnd_head c s :
  JsString.isWhiteSpace c = false ->
  exists r, JsString.trimEnd (String c s) = String c r.
Proof.
  intros Hc. cbn [JsString.trimEnd]. destruct (JsString.trimEnd s); rewrite ?Hc; by eexists.
Qed.

Lemma trimEnd_idempotent s : JsString.trimEnd (JsString.trimEnd s) = JsString.trimEnd s.
Proof.
  induction s as [|c s IH]; [done|]. cbn [JsString.trimEnd].
  destruct (JsString.trimEnd s) as [|d r] eqn:E.
  - destruct (JsString.isWhiteSpace c) eqn:Ec; [done|].
    cbn [JsString.trimEnd]. by rewrite Ec.
  - change (JsString.trimEnd (String c (String d r))) with
      (match JsString.trimEnd (String d r) with
       | EmptyString => if JsString.isWhiteSpace c then EmptyString else String c EmptyString
       | x => String c x
       end).
    by rewrite IH.
Qed.

Lemma trim_idempotent s : JsString.trim (JsString.trim s) = JsString.trim s.
Proof.
  unfold JsString.trim.
  destruct (skipWhiteSpace_head s) as [->|(c & r & -> & Hc)]; [done|].
  destruct (trimEnd_head c r Hc) as [r' Hr]. rewrite Hr.
  cbn [JsString.skipWhiteSpace]. rewrite Hc, <- Hr. apply trimEnd_idempotent.
Qed.

Lemma length_zero_empty s : Nat.eqb (String.length s) 0 = true <-> s = "".
Proof. by destruct s. Qed.
End JsText.

(** ** Conflict resolver (task-loader.ts) *)
Module TaskLoader.
Section Resolver.
(** [new Date(s).getTime()] of the JavaScript runtime. *)
Variable parseDate : string -> Date.

(** What the resolver returns when neither record wins the comparison:
    [true] keeps its first argument, [false] takes the second. *)
Variable tieKeepsFirst : bool.

(** Modelled from the spec: the time stamp that [resolveTaskConflict]
    compares (task-loader.ts is not part of the sources at hand):
    the later lastModified/updatedDate, falling back to createdDate. *)
Definition taskTime (t : Task) : Date :=
  match lastModified t with
  | Some d => d
  | None =>
      match updatedDate t with
      | Some s => parseDate s
      | None => parseDate (createdDate t)
      end
  end.

(** [statuses.indexOf(s)]: position in the configured list, -1 when the
    status is unknown, which makes it the least progressed. *)
Fixpoint indexOfFrom (i : Z) (s : string) (l : list string) : Z :=
  match l with
  | [] => -1
  | x :: l' => if String.eqb x s then i else indexOfFrom (i + 1) s l'
  end.

Definition indexOf (s : string) (l : list string) : Z := indexOfFrom 0 s l.

Definition mostRecent (a b : Task) : Task :=
  if taskTime a <? taskTime b then b
  else if taskTime b <? taskTime a then a
  else if tieKeepsFirst then a else b.

(** Modelled from the spec: [resolveTaskConflict] of task-loader.ts,
    which is not part of the sources at hand. [most_recent]: the record
    with the later time stamp wins outright. [most_progressed]: the
    record whose status is further along the configured list wins, ties
    fall back to [most_recent]. The spec is silent on equal time stamps;
    that case is the parameter [tieKeepsFirst]. *)
Definition resolveTaskConflict
    (existing incoming : Task) (statuses : list string) (strategy : Strategy) : Task :=
  match strategy with
  | most_recent => mostRecent existing incoming
  | most_progressed =>
      let currentIdx := indexOf (status existing) statuses in
      let newIdx := indexOf (status incoming) statuses in
      if currentIdx <? newIdx then incoming
      else if newIdx <? currentIdx then existing
      else mostRecent existing incoming
  end.

(** Two records tie when the strategy's comparison separates them
    neither way. *)
Definition tied (statuses : list string) (strategy : Strategy) (a b : Task) : bool :=
  (taskTime a =? taskTime b) &&
  match strategy with
  | most_recent => true
  | most_progressed => indexOf (status a) statuses =? indexOf (status b) statuses
  end.

Lemma resolveTaskConflict_choice a b statuses strategy :
  resolveTaskConflict a b statuses strategy = a \/
  resolveTaskConflict a b statuses strategy = b.
Proof.
  unfold resolveTaskConflict, mostRecent.
  destruct strategy; repeat case_match; auto.
Qed.

(** The resolver picks a maximum of the strategy's preorder; candidates
    that do not tie can be offered in either order. *)
Lemma resolveTaskConflict_swap w b r statuses strategy :
  tied statuses strategy b r = false ->
  resolveTaskConflict (resolveTaskConflict w b statuses strategy) r statuses strategy =
  resolveTaskConflict (resolveTaskConflict w r statuses strategy) b statuses strategy.
Proof.
  unfold tied, resolveTaskConflict, mostRecent. intros Hne.
  destruct strategy; simpl in Hne.
  - rewrite andb_true_r in Hne. apply Z.eqb_neq in Hne.
    repeat (case_match; try lia; try done).
  - apply andb_false_iff in Hne.
    repeat rewrite Z.eqb_neq in Hne.
    repeat (case_match; try lia; try done).
Qed.

Lemma resolveTaskConflict_untied_sym b r statuses strategy :
  tied statuses strategy b r = false ->
  resolveTaskConflict b r statuses strategy = resolveTaskConflict r b statuses strategy.
Proof.
  unfold tied, resolveTaskConflict, mostRecent. intros Hne.
  destruct strategy; simpl in Hne.
  - rewrite andb_true_r in Hne. apply Z.eqb_neq in Hne.
    repeat (case_match; try lia; try done).
  - apply andb_false_iff in Hne.
    repeat rewrite Z.eqb_neq in Hne.
    repeat (case_match; try lia; try done).
Qed.
End Resolver.
End TaskLoader.

(** ** Ordinal repair (reorder.ts) *)
Module Reorder.

Record ResolveOptions : Type := mkOptions {
  defaultStep : Z;
  startOrdinal : Z;
  forceSequential : bool
}.

Definition sameOrdinal (a b : Task) : bool :=
  match ordinal a, ordinal b with
  | Some x, Some y => x =? y
  | _, _ => false
  end.

(** Modelled from the spec: the test of [resolveOrdinalConflicts] that
    some two adjacent tasks currently share an ordinal. *)
Fixpoint adjacentShare (tasks : list Task) : bool :=
  match tasks with
  | a :: rest =>
      match rest with
      | b :: _ => sameOrdinal a b || adjacentShare rest
      | [] => false
      end
  | [] => false
  end.

(** Modelled from the spec: the full rebalance of
    [resolveOrdinalConflicts], ordinals [next, next + step,
    next + 2 * step, ...] down the list. *)
Fixpoint assignSequential (next step : Z) (tasks : list Task) : list Task :=
  match tasks with
  | [] => []
  | t :: ts => set_ordinal t (Some next) :: assignSequential (next + step) step ts
  end.

(** Modelled from the spec: the minimal repair of
    [resolveOrdinalConflicts]. A task keeps its ordinal when it exceeds
    the ordinal given to the task before it; one that collides (no
    ordinal, or not above its predecessor's) is shifted one step past the
    predecessor, the first task of the list to [start]. *)
Fixpoint shiftColliding (last : option Z) (start step : Z) (tasks : list Task)
    : list Task :=
  match tasks with
  | [] => []
  | t :: ts =>
      let assigned :=
        match ordinal t, last with
        | Some o, None => o
        | Some o, Some l => if l <? o then o else l + step
        | None, None => start
        | None, Some l => l + step
        end in
      set_ordinal t (Some assigned) :: shiftColliding (Some assigned) start step ts
  end.

Definition ordinalChanged (before after : Task) : bool :=
  match ordinal before, ordinal after with
  | Some x, Some y => negb (x =? y)
  | None, None => false
  | _, _ => true
  end.

(** Modelled from the spec: [resolveOrdinalConflicts] of reorder.ts, which
    is not part of the sources at hand. With [forceSequential], or when two
    adjacent tasks share an ordinal, the whole list gets the ordinals
    [startOrdinal, startOrdinal + defaultStep, ...] and is returned.
    Otherwise only the changed tasks are returned: those whose ordinal has
    to shift to remove a collision ([shiftColliding] is the reading taken
    of that sentence). *)
Definition resolveOrdinalConflicts (tasks : list Task) (options : ResolveOptions)
    : list Task :=
  if forceSequential options || adjacentShare tasks then
    assignSequential (startOrdinal options) (defaultStep options) tasks
  else
    map snd
      (List.filter (fun p => ordinalChanged (fst p) (snd p))
         (zip tasks
            (shiftColliding None (startOrdinal options) (defaultStep options) tasks))).

(** The bucket after the updates are applied, as [reorderTask] does it: the
    updates go into a map keyed by id, and a task of the list is replaced
    by the update stored under its id. *)
Definition applyOrdinalUpdates (tasks updates : list Task) : list Task :=
  let updatesMap := JsMap.of_entries (map (fun u => (id u, u)) updates) in
  map (fun t => default t (JsMap.get (id t) updatesMap)) tasks.

(** The bucket with every task at its resolved ordinal. *)
Definition resolvedBucket (tasks : list Task) (options : ResolveOptions) : list Task :=
  if forceSequential options || adjacentShare tasks then
    assignSequential (startOrdinal options) (defaultStep options) tasks
  else shiftColliding None (startOrdinal options) (defaultStep options) tasks.

Lemma id_set_ordinal t o : id (set_ordinal t o) = id t.
Proof. done. Qed.

Lemma set_ordinal_same t : set_ordinal t (ordinal t) = t.
Proof. by destruct t. Qed.

Lemma assignSequential_ids next step tasks :
  map id (assignSequential next step tasks) = map id tasks.
Proof.
  revert next. induction tasks as [|t ts IH]; intros next; simpl; [done|].
  by rewrite IH.
Qed.

Lemma shiftColliding_ids last start step tasks :
  map id (shiftColliding last start step tasks) = map id tasks.
Proof.
  revert last. induction tasks as [|t ts IH]; intros last; simpl; [done|].
  by rewrite IH.
Qed.

Lemma assignSequential_sorted next step tasks :
  0 < step ->
  exists ords,
    map ordinal (assignSequential next step tasks) = map Some ords /\
    StronglySorted Z.lt ords /\ Forall (fun o => next <= o) ords.
Proof.
  intros Hstep. revert next.
  induction tasks as [|t ts IH]; intros next; simpl.
  - exists []. repeat split; constructor.
  - destruct (IH (next + step)) as (ords & Hmap & Hsorted & Hge).
    exists (next :: ords). split; [by rewrite Hmap|].
    split; [|constructor; [lia|]].
    + constructor; [done|]. eapply Forall_impl; [done|]. simpl. lia.
    + eapply Forall_impl; [done|]. simpl. lia.
Qed.

Lemma shiftColliding_sorted last start step tasks :
  0 < step ->
  exists ords,
    map ordinal (shiftColliding last start step tasks) = map Some ords /\
    StronglySorted Z.lt ords /\
    Forall (fun o => match last with Some l => l < o | None => True end) ords.
Proof.
  intros Hstep. revert last.
  induction tasks as [|t ts IH]; intros last; simpl.
  - exists []. repeat split; constructor.
  - set (assigned := match ordinal t, last with
                     | Some o, None => o
                     | Some o, Some l => if l <? o then o else l + step
                     | None, None => start
                     | None, Some l => l + step
                     end).
    destruct (IH (Some assigned)) as (ords & Hmap & Hsorted & Hgt).
    exists (assigned :: ords). split; [by rewrite Hmap|].
    assert (Hlast : match last with Some l => l < assigned | None => True end).
    { subst assigned. destruct last as [l|]; [|done].
      destruct (ordinal t) as [o|]; [|lia].
      destruct (l <? o) eqn:E; [apply Z.ltb_lt in E|]; lia. }
    split; [by constructor|]. constructor; [done|].
    eapply Forall_impl; [done|]. simpl. intros o Ho.
    destruct last as [l|]; [lia|done].
Qed.

Lemma resolvedBucket_ids tasks options :
  map id (resolvedBucket tasks options) = map id tasks.
Proof.
  unfold resolvedBucket. destruct (_ || _).
  - apply assignSequential_ids.
  - apply shiftColliding_ids.
Qed.

Lemma resolvedBucket_sorted tasks options :
  0 < defaultStep options ->
  exists ords,
    map ordinal (resolvedBucket tasks options) = map Some ords /\
    StronglySorted Z.lt ords.
Proof.
  intros Hstep. unfold resolvedBucket. destruct (_ || _).
  - destruct (assignSequential_sorted (startOrdinal options) _ tasks Hstep)
      as (ords & ? & ? & _). by exists ords.
  - destruct (shiftColliding_sorted None (startOrdinal options) _ tasks Hstep)
      as (ords & ? & ? & _). by exists ords.
Qed.

Lemma unique_by_id (l : list Task) (i : nat) r u :
  NoDup (map id l) -> l !! i = Some r -> u ∈ l -> id u = id r -> u = r.
Proof.
  intros Hnd Hr [j Hu]%list_elem_of_lookup Hid.
  assert (i = j) as ->; [|congruence].
  apply (NoDup_lookup (map id l) i j (id r)); [done| |].
  - by rewrite list_lookup_fmap, Hr.
  - rewrite list_lookup_fmap, Hu. simpl. by rewrite Hid.
Qed.

(** Applying a selection of the resolved tasks that leaves out only
    unchanged ones gives the resolved bucket. *)
Lemma applyOrdinalUpdates_selection (changed : Task * Task -> bool)
    (tasks resolved : list Task) :
  map id resolved = map id tasks -> NoDup (map id tasks) ->
  (forall t r, (t, r) ∈ zip tasks resolved -> changed (t, r) = false -> r = t) ->
  applyOrdinalUpdates tasks (map snd (List.filter changed (zip tasks resolved)))
    = resolved.
Proof.
  intros Hids Hnd Hsame. unfold applyOrdinalUpdates.
  set (updates := map snd (List.filter changed (zip tasks resolved))).
  assert (Hin : forall u, u ∈ updates ->
            exists t, (t, u) ∈ zip tasks resolved /\ changed (t, u) = true).
  { intros u Hu. apply list_elem_of_In, in_map_iff in Hu as ([t u'] & <- & Hf).
    apply filter_In in Hf as [Hf Hc]. exists t.
    split; [by apply list_elem_of_In|done]. }
  apply list_eq. intros i. rewrite list_lookup_fmap.
  assert (Hlen : length resolved = length tasks).
  { by rewrite <- (length_map id resolved), Hids, length_map. }
  destruct (tasks !! i) as [t|] eqn:Ht; simpl.
  - destruct (lookup_lt_is_Some_2 resolved i) as [r Hr].
    { rewrite Hlen. by apply lookup_lt_Some in Ht. }
    rewrite Hr. f_equal.
    assert (Hidr : id r = id t).
    { assert (map id resolved !! i = map id tasks !! i) as H by by rewrite Hids.
      rewrite !list_lookup_fmap, Hr, Ht in H. by injection H. }
    assert (Hzip : (t, r) ∈ zip tasks resolved).
    { apply list_elem_of_lookup. exists i.
      rewrite lookup_zip_with, Ht. simpl. by rewrite Hr. }
    rewrite <- Hids in Hnd.
    destruct (JsMap.get (id t) _) as [u|] eqn:G; simpl.
    + apply JsMap.get_of_entries_Some in G.
      apply list_elem_of_In, in_map_iff in G as (u' & [= Hidu <-] & Hu').
      apply list_elem_of_In in Hu'.
      destruct (Hin _ Hu') as (t' & Hz & _).
      apply elem_of_zip_r in Hz.
      apply (unique_by_id resolved i); [done|done|done|congruence].
    + apply JsMap.get_of_entries_None in G.
      destruct (changed (t, r)) eqn:C; [|symmetry; by apply Hsame].
      exfalso. apply G. rewrite map_map. simpl.
      apply list_elem_of_In, in_map_iff. exists r. split; [done|].
      apply in_map_iff. exists (t, r). split; [done|].
      apply filter_In. split; [by apply list_elem_of_In|done].
  - symmetry. apply lookup_ge_None. rewrite Hlen. by apply lookup_ge_None.
Qed.

Lemma selection_all (tasks resolved : list Task) :
  length resolved = length tasks ->
  resolved = map snd (List.filter (fun _ => true) (zip tasks resolved)).
Proof.
  revert resolved.
  induction tasks as [|t ts IH]; intros [|r rs] Hlen; simpl in *; try done.
  f_equal. apply IH. lia.
Qed.

Lemma applyOrdinalUpdates_resolved tasks options :
  NoDup (map id tasks) ->
  applyOrdinalUpdates tasks (resolveOrdinalConflicts tasks options) =
  resolvedBucket tasks options.
Proof.
  intros Hnd. unfold resolveOrdinalConflicts, resolvedBucket.
  destruct (_ || _).
  - set (resolved := assignSequential _ _ tasks).
    assert (Hids : map id resolved = map id tasks) by apply assignSequential_ids.
    assert (Hlen : length resolved = length tasks).
    { by rewrite <- (length_map id resolved), Hids, length_map. }
    rewrite <- (applyOrdinalUpdates_selection (fun _ => true) tasks resolved)
      at 2; [|done|done|done].
    f_equal. by apply selection_all.
  - apply applyOrdinalUpdates_selection; [apply shiftColliding_ids|done|].
    intros t r Hz Hc.
    assert (Hr : exists o, r = set_ordinal t o).
    { clear -Hz. revert Hz. generalize (@None Z).
      induction tasks as [|t' ts IH]; intros last Hz; simpl in Hz.
      - by apply elem_of_nil in Hz.
      - apply elem_of_cons in Hz as [[= -> ->]|Hz]; [by eexists|by eapply IH]. }
    destruct Hr as [o ->]. unfold ordinalChanged in Hc. simpl in Hc.
    destruct (ordinal t) as [x|] eqn:Ex, o as [y|]; try done.
    + apply negb_false_iff, Z.eqb_eq in Hc. subst y.
      rewrite <- Ex. apply set_ordinal_same.
    + rewrite <- Ex. apply set_ordinal_same.
Qed.

Lemma StronglySorted_lt_lookup (ords : list Z) (i j : nat) x y :
  StronglySorted Z.lt ords -> (i < j)%nat ->
  ords !! i = Some x -> ords !! j = Some y -> x < y.
Proof.
  intros Hs. revert i j. induction Hs as [|a l Hs IH Ha]; intros i j Hij Hx Hy.
  - done.
  - destruct j as [|j]; [lia|]. simpl in Hy. destruct i as [|i].
    + injection Hx as <-. rewrite Forall_forall in Ha. apply Ha.
      by apply list_elem_of_lookup_2 in Hy.
    + simpl in Hx. apply (IH i j); [lia|done|done].
Qed.

(** C3. Let the step be positive and the tasks of the bucket be distinct
    (no two share an id). Once the updates returned by
    [resolveOrdinalConflicts] are applied, the bucket lists the same tasks
    in the requested order, every task has an ordinal, the ordinals are
    strictly increasing down the list, and two tasks at different places
    have different ordinals. *)
Theorem resolveOrdinalConflicts_strictly_increasing tasks options :
  0 < defaultStep options -> NoDup (map id tasks) ->
  let after := applyOrdinalUpdates tasks (resolveOrdinalConflicts tasks options) in
  map id after = map id tasks /\
  (exists ords, map ordinal after = map Some ords /\ StronglySorted Z.lt ords) /\
  (forall (i j : nat) (A B : Task),
     i <> j -> after !! i = Some A -> after !! j = Some B -> ordinal A <> ordinal B).
Proof.
  intros Hstep Hnd. cbv zeta. rewrite applyOrdinalUpdates_resolved by done.
  destruct (resolvedBucket_sorted tasks options Hstep) as (ords & Hmap & Hsorted).
  split; [apply resolvedBucket_ids|]. split; [by exists ords|].
  intros i j A B Hij HA HB Heq.
  assert (HoA : map ordinal (resolvedBucket tasks options) !! i = Some (ordinal A))
    by by rewrite list_lookup_fmap, HA.
  assert (HoB : map ordinal (resolvedBucket tasks options) !! j = Some (ordinal B))
    by by rewrite list_lookup_fmap, HB.
  rewrite Hmap, list_lookup_fmap in HoA, HoB.
  destruct (ords !! i) as [x|] eqn:Ex; [|done].
  destruct (ords !! j) as [y|] eqn:Ey; [|done].
  simpl in HoA, HoB. injection HoA as HoA. injection HoB as HoB.
  assert (x = y) by congruence. subst y.
  destruct (Nat.lt_total i j) as [Hlt|[->|Hlt]]; [|done|].
  - pose proof (StronglySorted_lt_lookup ords i j x x Hsorted Hlt Ex Ey). lia.
  - pose proof (StronglySorted_lt_lookup ords j i x x Hsorted Hlt Ey Ex). lia.
Qed.

(** The bucket [1000, 1000] of the specification, rebalanced. *)
Definition bucketTask (id : string) (ordinal : option Z) : Task :=
  {| id := id; title := "Card"; status := "To Do"; assignee := [];
     reporter := None; createdDate := "2025-01-01 10:00"; updatedDate := None;
     labels := []; milestone := None; dependencies := []; rawContent := None;
     description := None; implementationPlan := None;
     implementationNotes := None; acceptanceCriteriaItems := None;
     parentTaskId := None; subtasks := None; priority := None;
     branch := None; ordinal := ordinal; filePath := None;
     lastModified := None; source := None; onStatusChange := None;
     branchName := None; gitTag := None; prNumber := None; history := None |}.

Example rebalance_duplicates :
  map ordinal
    (applyOrdinalUpdates
       [bucketTask "task-1" (Some 1000); bucketTask "task-2" (Some 1000)]
       (resolveOrdinalConflicts
          [bucketTask "task-1" (Some 1000); bucketTask "task-2" (Some 1000)]
          (mkOptions 1000 1000 true)))
  = [Some 1000; Some 2000].
Proof. reflexivity. Qed.

Example shift_one_collision :
  map (fun t => (id t, ordinal t))
    (resolveOrdinalConflicts
       [bucketTask "task-1" (Some 1000); bucketTask "task-3" (Some 500);
        bucketTask "task-2" (Some 2000)]
       (mkOptions 1000 1000 false))
  = [("task-3", Some 2000); ("task-2", Some 3000)].
Proof. reflexivity. Qed.

Lemma resolveOrdinalConflicts_example :
  let tasks := [bucketTask "task-1" (Some 1000); bucketTask "task-3" (Some 500);
                bucketTask "task-2" None] in
  let after :=
    applyOrdinalUpdates tasks (resolveOrdinalConflicts tasks (mkOptions 1000 1000 false)) in
  map id after = map id tasks /\
  (exists ords, map ordinal after = map Some ords /\ StronglySorted Z.lt ords) /\
  (forall (i j : nat) (A B : Task),
     i <> j -> after !! i = Some A -> after !! j = Some B -> ordinal A <> ordinal B).
Proof.
  apply (resolveOrdinalConflicts_strictly_increasing
           [bucketTask "task-1" (Some 1000); bucketTask "task-3" (Some 500);
            bucketTask "task-2" None]
           (mkOptions 1000 1000 false)).
  - simpl. lia.
  - simpl.
    repeat (apply NoDup_cons_2;
            [rewrite ?not_elem_of_cons; repeat split; try done;
             apply not_elem_of_nil|]).
    apply NoDup_nil_2.
Defined.

End Reorder.

(** ** Execution sequences (sequences.ts) *)
Module Sequences.

Record Sequence : Type := mkSequence {
  index : Z;
  tasks : list Task
}.

Record Sequences : Type := mkSequences {
  unsequenced : list Task;
  sequences : list Sequence
}.

(** Modelled from the spec: the test of [computeSequences] that every
    dependency of [t] is outside the active set or already placed in an
    earlier sequence. *)
Definition ready (active placed : gset string) (t : Task) : bool :=
  forallb (fun dep => bool_decide (dep ∉ active) || bool_decide (dep ∈ placed))
    (dependencies t).

(** Modelled from the spec: the layering loop of [computeSequences]. The
    waves from [index] on, for the tasks not placed yet, and the tasks
    left over when no task is ready. Every round places a task, so as many
    rounds as there are tasks suffice ([layer_stuck]). *)
Fixpoint layer (rounds : nat) (active placed : gset string) (index : Z)
    (remaining : list Task) : list Sequence * list Task :=
  match rounds with
  | O => ([], remaining)
  | S rounds' =>
      match List.filter (ready active placed) remaining with
      | [] => ([], remaining)
      | wave =>
          let rest := List.filter (fun t => negb (ready active placed t)) remaining in
          let placed' := placed ∪ list_to_set (map id wave) in
          let '(later, leftover) := layer rounds' active placed' (index + 1) rest in
          (mkSequence index wave :: later, leftover)
      end
  end.

(** Modelled from the spec: [computeSequences] of sequences.ts, which is
    not part of the sources at hand. Iterative layering: the tasks whose
    dependencies are all placed in prior sequences, or absent from the
    active set, form the next sequence (indices from 1), in input order;
    this repeats until no task is ready, and the tasks left are
    unsequenced. *)
Definition computeSequences (activeTasks : list Task) : Sequences :=
  let active : gset string := list_to_set (map id activeTasks) in
  let '(waves, leftover) := layer (length activeTasks) active ∅ 1 activeTasks in
  mkSequences leftover waves.

(** [t] sits in the sequence of index [i]. *)
Definition inWave (result : Sequences) (t : Task) (i : Z) : Prop :=
  exists s, s ∈ sequences result /\ index s = i /\ t ∈ tasks s.

Lemma ready_spec active placed t :
  ready active placed t = true <->
  forall dep, dep ∈ dependencies t -> dep ∈ active -> dep ∈ placed.
Proof.
  unfold ready. rewrite forallb_forall. split.
  - intros H dep Hdep Hact. apply list_elem_of_In, H in Hdep.
    apply orb_true_iff in Hdep as [Hd|Hd].
    + apply bool_decide_eq_true in Hd. done.
    + by apply bool_decide_eq_true in Hd.
  - intros H dep Hdep. apply list_elem_of_In in Hdep.
    destruct (decide (dep ∈ active)) as [Hact|Hact].
    + apply orb_true_iff. right. apply bool_decide_eq_true. by apply H.
    + apply orb_true_iff. left. by apply bool_decide_eq_true.
Qed.

Lemma layer_spec rounds active placed i remaining waves leftover :
  layer rounds active placed i remaining = (waves, leftover) ->
  forall s, s ∈ waves ->
    i <= index s /\
    forall t, t ∈ tasks s ->
      t ∈ remaining /\
      forall dep, dep ∈ dependencies t -> dep ∈ active ->
        dep ∈ placed \/
        exists s' t', s' ∈ waves /\ index s' < index s /\ t' ∈ tasks s' /\ id t' = dep.
Proof.
  revert placed i remaining waves leftover.
  induction rounds as [|rounds IH]; intros placed i remaining waves leftover;
    simpl.
  - intros [= <- <-] s Hs. by apply elem_of_nil in Hs.
  - destruct (List.filter (ready active placed) remaining) as [|w wave] eqn:Ew.
    + intros [= <- <-] s Hs. by apply elem_of_nil in Hs.
    + destruct (layer rounds active _ (i + 1) _) as [later left'] eqn:El.
      intros [= <- <-] s Hs.
      assert (Hwave : forall t, t ∈ w :: wave ->
                t ∈ remaining /\ ready active placed t = true).
      { intros t Ht. rewrite <- Ew in Ht.
        apply list_elem_of_In, filter_In in Ht as [Ht Hr].
        split; [by apply list_elem_of_In|done]. }
      apply elem_of_cons in Hs as [->|Hs].
      * simpl. split; [lia|]. intros t Ht. destruct (Hwave t Ht) as [Hin Hr].
        split; [done|]. intros dep Hdep Hact. left.
        by apply (ready_spec active placed t).
      * destruct (IH _ _ _ _ _ El s Hs) as [Hi Hts].
        split; [lia|]. intros t Ht. destruct (Hts t Ht) as [Hin Hdeps].
        split.
        { apply list_elem_of_In, filter_In in Hin as [Hin _].
          by apply list_elem_of_In. }
        intros dep Hdep Hact.
        destruct (Hdeps dep Hdep Hact) as [Hp|(s' & t' & Hs' & Hlt & Ht' & Hid)].
        -- apply elem_of_union in Hp as [Hp|Hp]; [by left|].
           right.
           assert (Hp' : dep ∈ map id (w :: wave)).
           { simpl. apply elem_of_union in Hp as [Hp|Hp].
             - apply elem_of_singleton in Hp. subst. apply elem_of_cons. by left.
             - apply elem_of_list_to_set in Hp. apply elem_of_cons. by right. }
           apply list_elem_of_In, in_map_iff in Hp' as (t' & Hid & Ht').
           exists (mkSequence i (w :: wave)), t'. simpl.
           split; [apply elem_of_cons; by left|].
           split; [lia|]. split; [by apply list_elem_of_In|done].
        -- right. exists s', t'. split; [apply elem_of_cons; by right|done].
Qed.

Lemma layer_first rounds active i remaining t :
  t ∈ remaining -> ready active ∅ t = true ->
  exists s, s ∈ (layer (S rounds) active ∅ i remaining).1 /\
            index s = i /\ t ∈ tasks s.
Proof.
  intros Ht Hr. simpl.
  assert (Hw : t ∈ List.filter (ready active ∅) remaining).
  { apply list_elem_of_In, filter_In. split; [by apply list_elem_of_In|done]. }
  destruct (List.filter (ready active ∅) remaining) as [|w wave] eqn:Ew.
  - by apply elem_of_nil in Hw.
  - destruct (layer rounds active _ (i + 1) _) as [later left'].
    exists (mkSequence i (w :: wave)). simpl.
    split; [apply elem_of_cons; by left|done].
Qed.

(** *** The rounds suffice *)

(** The ids of the tasks placed in [waves]. *)
Definition placedIds (waves : list Sequence) : gset string :=
  list_to_set (concat (map (fun s => map id (tasks s)) waves)).

Lemma filter_nil_not {A} (f : A -> bool) (l : list A) x :
  List.filter f l = [] -> x ∈ l -> f x = false.
Proof.
  intros Hnil Hx. destruct (f x) eqn:E; [|done].
  assert (x ∈ List.filter f l) as Hin.
  { apply list_elem_of_In, filter_In. split; [by apply list_elem_of_In|done]. }
  rewrite Hnil in Hin. by apply elem_of_nil in Hin.
Qed.

(** No task left over is ready, even with every sequenced task placed. *)
Lemma layer_stuck rounds active placed i remaining waves leftover :
  (length remaining <= rounds)%nat ->
  layer rounds active placed i remaining = (waves, leftover) ->
  forall t, t ∈ leftover -> ready active (placed ∪ placedIds waves) t = false.
Proof.
  revert placed i remaining waves leftover.
  induction rounds as [|rounds IH]; intros placed i remaining waves leftover Hlen.
  - simpl. intros [= <- <-] t Ht.
    destruct remaining; [by apply elem_of_nil in Ht|simpl in Hlen; lia].
  - simpl.
    destruct (List.filter (ready active placed) remaining) as [|w wave] eqn:Ew.
    + intros [= <- <-] t Ht.
      assert (placed ∪ placedIds [] = placed) as -> by apply union_empty_r_L.
      by apply (filter_nil_not _ remaining).
    + destruct (layer rounds active _ (i + 1) _) as [later left'] eqn:El.
      intros [= <- <-] t Ht.
      assert (Hrest : (length (List.filter (fun t => negb (ready active placed t))
                                 remaining) <= rounds)%nat).
      { pose proof (filter_length (ready active placed) remaining) as Hsum.
        rewrite Ew in Hsum. simpl in Hsum. lia. }
      pose proof (IH _ _ _ _ _ Hrest El t Ht) as Hstuck.
      assert (Heq : placed ∪ placedIds (mkSequence i (w :: wave) :: later) =
                    placed ∪ ({[id w]} ∪ list_to_set (map id wave)) ∪ placedIds later).
      { unfold placedIds. cbn [map concat tasks].
        rewrite list_to_set_app_L. by rewrite (assoc_L (∪)). }
      by rewrite Heq.
Qed.

Lemma not_ready_blocked active placed t :
  ready active placed t = false ->
  exists dep, dep ∈ dependencies t /\ dep ∈ active /\ dep ∉ placed.
Proof.
  unfold ready. induction (dependencies t) as [|d deps IH]; simpl; [done|].
  destruct (bool_decide (d ∉ active)) eqn:Ea; simpl.
  - intros H. destruct (IH H) as (dep & Hin & Hact & Hp).
    exists dep. split; [by apply elem_of_cons; right|done].
  - destruct (bool_decide (d ∈ placed)) eqn:Ep; simpl.
    + intros H. destruct (IH H) as (dep & Hin & Hact & Hp).
      exists dep. split; [by apply elem_of_cons; right|done].
    + intros _. exists d. apply bool_decide_eq_false in Ea, Ep.
      split; [by apply elem_of_cons; left|]. split; [|done].
      destruct (decide (d ∈ active)); [done|]. by exfalso; apply Ea.
Qed.

(** A task ends up unsequenced only because one of its dependencies is an
    active task that no sequence holds: the layering ran to its end. *)
Lemma computeSequences_unsequenced_blocked (activeTasks : list Task) t :
  t ∈ unsequenced (computeSequences activeTasks) ->
  exists dep,
    dep ∈ dependencies t /\ dep ∈ map id activeTasks /\
    forall s t', s ∈ sequences (computeSequences activeTasks) -> t' ∈ tasks s ->
                 id t' <> dep.
Proof.
  unfold computeSequences.
  destruct (layer (length activeTasks) _ ∅ 1 activeTasks) as [waves leftover] eqn:El.
  simpl. intros Ht.
  pose proof (layer_stuck _ _ _ _ _ _ _ (le_n _) El t Ht) as Hstuck.
  apply not_ready_blocked in Hstuck as (dep & Hdep & Hact & Hp).
  exists dep. split; [done|]. split; [by apply elem_of_list_to_set in Hact|].
  intros s t' Hs Ht' Hid. apply Hp. apply elem_of_union. right.
  unfold placedIds. apply elem_of_list_to_set, list_elem_of_In, in_concat.
  exists (map id (tasks s)). split.
  - apply in_map_iff. exists s. split; [done|by apply list_elem_of_In].
  - apply in_map_iff. exists t'. split; [done|by apply list_elem_of_In].
Qed.

(** C4. For a set of active tasks (no two with the same id), every task
    that [computeSequences] puts in a sequence has each dependency that
    is in the active set in a sequence of strictly smaller index, and a
    task none of whose dependencies is in the active set is in sequence
    1. *)
Theorem computeSequences_respects_dependencies (activeTasks : list Task) :
  NoDup (map id activeTasks) ->
  (forall t i dep t',
     inWave (computeSequences activeTasks) t i ->
     dep ∈ dependencies t -> t' ∈ activeTasks -> id t' = dep ->
     exists j, inWave (computeSequences activeTasks) t' j /\ j < i) /\
  (forall t,
     t ∈ activeTasks ->
     (forall dep, dep ∈ dependencies t -> dep ∉ map id activeTasks) ->
     inWave (computeSequences activeTasks) t 1).
Proof.
  intros Hnd. unfold inWave, computeSequences.
  destruct (layer (length activeTasks) _ ∅ 1 activeTasks) as [waves leftover] eqn:El.
  simpl. split.
  - intros t i dep t' (s & Hs & <- & Ht) Hdep Ht' Hid.
    destruct (layer_spec _ _ _ _ _ _ _ El s Hs) as [_ Hts].
    destruct (Hts t Ht) as [_ Hdeps].
    destruct (Hdeps dep Hdep) as [Hp|(s' & t'' & Hs' & Hlt & Ht'' & Hid'')].
    { apply elem_of_list_to_set, list_elem_of_In, in_map_iff.
      exists t'. split; [done|by apply list_elem_of_In]. }
    { by apply elem_of_empty in Hp. }
    exists (index s'). split; [|done]. exists s'. split; [done|]. split; [done|].
    destruct (layer_spec _ _ _ _ _ _ _ El s' Hs') as [_ Hts'].
    destruct (Hts' t'' Ht'') as [Hin'' _].
    assert (t'' = t') as <-; [|done].
    apply list_elem_of_lookup in Hin'' as [a Ha].
    apply list_elem_of_lookup in Ht' as [b Hb].
    assert (a = b) as ->; [|congruence].
    apply (NoDup_lookup (map id activeTasks) a b dep); [done| |].
    + rewrite list_lookup_fmap, Ha. simpl. by rewrite Hid''.
    + rewrite list_lookup_fmap, Hb. simpl. by rewrite Hid.
  - intros t Ht Hdeps.
    destruct activeTasks as [|a rest] eqn:Ea; [by apply elem_of_nil in Ht|].
    rewrite <- Ea in *.
    assert (Hlen : length activeTasks = S (length rest)) by by rewrite Ea.
    rewrite Hlen in El.
    destruct (layer_first (length rest) (list_to_set (map id activeTasks)) 1
                activeTasks t Ht) as (s & Hs & Hi & Hts).
    { apply ready_spec. intros dep Hdep Hact. exfalso.
      apply (Hdeps dep Hdep). by apply elem_of_list_to_set in Hact. }
    rewrite El in Hs. by exists s.
Qed.

Definition stepTask (id : string) (dependencies : list string) : Task :=
  {| id := id; title := "Step"; status := "To Do"; assignee := [];
     reporter := None; createdDate := "2025-01-01 10:00"; updatedDate := None;
     labels := []; milestone := None; dependencies := dependencies;
     rawContent := None; description := None; implementationPlan := None;
     implementationNotes := None; acceptanceCriteriaItems := None;
     parentTaskId := None; subtasks := None; priority := None;
     branch := None; ordinal := None; filePath := None;
     lastModified := None; source := None; onStatusChange := None;
     branchName := None; gitTag := None; prNumber := None; history := None |}.

(** The chain A, B (after A), C (after A and B) of the specification. *)
Example computeSequences_chain :
  let A := stepTask "task-1" [] in
  let B := stepTask "task-2" ["task-1"] in
  let C := stepTask "task-3" ["task-1"; "task-2"] in
  computeSequences [A; B; C] =
  mkSequences [] [mkSequence 1 [A]; mkSequence 2 [B]; mkSequence 3 [C]].
Proof. vm_compute. reflexivity. Qed.

(** Two tasks that wait for each other stay unsequenced; a task that waits
    only for a task outside the active set is in sequence 1. *)
Example computeSequences_cycle :
  let A := stepTask "task-1" ["task-2"] in
  let B := stepTask "task-2" ["task-1"] in
  let C := stepTask "task-3" ["task-9"] in
  computeSequences [A; B; C] = mkSequences [A; B] [mkSequence 1 [C]].
Proof. vm_compute. reflexivity. Qed.

Lemma computeSequences_example :
  let activeTasks :=
    [stepTask "task-1" []; stepTask "task-2" ["task-1"; "task-9"]] in
  (forall t i dep t',
     inWave (computeSequences activeTasks) t i ->
     dep ∈ dependencies t -> t' ∈ activeTasks -> id t' = dep ->
     exists j, inWave (computeSequences activeTasks) t' j /\ j < i) /\
  (forall t,
     t ∈ activeTasks ->
     (forall dep, dep ∈ dependencies t -> dep ∉ map id activeTasks) ->
     inWave (computeSequences activeTasks) t 1).
Proof.
  apply (computeSequences_respects_dependencies
           [stepTask "task-1" []; stepTask "task-2" ["task-1"; "task-9"]]).
  simpl. apply NoDup_cons_2.
  - rewrite not_elem_of_cons. split; [done|apply not_elem_of_nil].
  - apply NoDup_singleton.
Defined.

End Sequences.

(** ** Loading and merging tasks (core.ts) *)
Module Core.
Section Loading.
(** [new Date(s).getTime()] of the JavaScript runtime. *)
Variable parseDate : string -> Date.
(** [DEFAULT_STATUSES] of constants/index.ts. *)
Variable DEFAULT_STATUSES : list string.
(** [resolveTaskConflict] of task-loader.ts: the merge loops are stated
    for any resolver; [TaskLoader.resolveTaskConflict] is the one the
    specification describes. *)
Variable resolveTaskConflict : Task -> Task -> list string -> Strategy -> Task.

(** The [update] closure of [buildLatestStateMap]. *)
Definition update (latest : gmap string StateEntry.t) (entry : StateEntry.t)
    : gmap string StateEntry.t :=
  match latest !! StateEntry.id entry with
  | None => <[StateEntry.id entry := entry]> latest
  | Some existing =>
      if StateEntry.lastModified existing <? StateEntry.lastModified entry
      then <[StateEntry.id entry := entry]> latest
      else latest
  end.

(** The state entry that [buildLatestStateMap] makes of a local task. *)
Definition localStateEntry (task : Task) : StateEntry.t :=
  let lastModified :=
    match lastModified task with
    | Some d => d
    | None =>
        match updatedDate task with
        | Some s => if String.eqb s "" then 0 else parseDate s
        | None => 0
        end
    end in
  StateEntry.mk (id task) "task" "local" "" lastModified.

Definition buildLatestStateMap
    (stateEntries : list StateEntry.t) (localTasks : list Task)
    : gmap string StateEntry.t :=
  let latest := fold_left update stateEntries ∅ in
  fold_left
    (fun latest task =>
       if String.eqb (id task) "" then latest
       else update latest (localStateEntry task))
    localTasks latest.

Definition filterTasksByStateSnapshots
    (tasks : list Task) (latestState : gmap string StateEntry.t) : list Task :=
  List.filter
    (fun task =>
       match latestState !! id task with
       | None => true
       | Some latest => String.eqb (StateEntry.type latest) "task"
       end)
    tasks.

(** One turn of the merge loops of [loadTasks]. *)
Definition mergeTask (statuses : list string) (strategy : Strategy)
    (tasksById : JsMap.t Task) (incoming : Task) : JsMap.t Task :=
  match JsMap.get (id incoming) tasksById with
  | None => JsMap.set (id incoming) incoming tasksById
  | Some existing =>
      let resolved := resolveTaskConflict existing incoming statuses strategy in
      JsMap.set (id incoming) resolved tasksById
  end.

Definition mergeTasks (statuses : list string) (strategy : Strategy)
    (tasksById : JsMap.t Task) (incoming : list Task) : JsMap.t Task :=
  fold_left (mergeTask statuses strategy) incoming tasksById.

(** [new Map(localTasks.map((t) => [t.id, { ...t, source: "local" }]))] *)
Definition localTasksById (localTasks : list Task) : JsMap.t Task :=
  JsMap.of_entries (map (fun t => (id t, set_source t (Some src_local))) localTasks).

(** The map [loadAllTasksForStatistics] starts its merge loops from: the
    local tasks, then the completed tasks whose id is not taken. *)
Definition localAndCompletedById (localTasks completedTasks : list Task)
    : JsMap.t Task :=
  fold_left
    (fun tasksById completedTask =>
       if JsMap.has (id completedTask) tasksById then tasksById
       else JsMap.set (id completedTask)
              (set_source completedTask (Some src_completed)) tasksById)
    completedTasks (localTasksById localTasks).

Definition configStatuses (config : option BacklogConfig) : list string :=
  match config with
  | Some c => statuses c
  | None => DEFAULT_STATUSES
  end.

Definition configStrategy (config : option BacklogConfig) : Strategy :=
  match config with
  | Some c => default most_progressed (taskResolutionStrategy c)
  | None => most_progressed
  end.

(** [config?.checkActiveBranches === false] *)
Definition crossBranchDisabled (config : option BacklogConfig) : bool :=
  match config with
  | Some c =>
      match checkActiveBranches c with
      | Some false => true
      | _ => false
      end
  | None => false
  end.

(** The map built by [loadTasks] before the state filter. *)
Definition mergedTasksById (config : option BacklogConfig)
    (localTasks remoteTasks localBranchTasks : list Task) : JsMap.t Task :=
  let statuses := configStatuses config in
  let resolutionStrategy := configStrategy config in
  let tasksById := localTasksById localTasks in
  let tasksById := mergeTasks statuses resolutionStrategy tasksById localBranchTasks in
  mergeTasks statuses resolutionStrategy tasksById remoteTasks.

(** [Core.loadTasks]. The loaders of task-loader.ts are outside the
    model: their results [remoteTasks], [localBranchTasks] and the state
    entries they pushed, [branchStateEntries], are arguments. [aborted]
    tells whether the abort signal is raised at one of the checks. *)
Definition loadTasks (config : option BacklogConfig) (aborted : bool)
    (localTasks remoteTasks localBranchTasks : list Task)
    (branchStateEntries : list StateEntry.t) : result (list Task) :=
  if aborted then Err "Loading cancelled"
  else
    let tasksById := mergedTasksById config localTasks remoteTasks localBranchTasks in
    let tasks := JsMap.values tasksById in
    if crossBranchDisabled config then Ok tasks
    else
      Ok (filterTasksByStateSnapshots tasks
            (buildLatestStateMap branchStateEntries localTasks)).

(** *** Every value of the map carries its key as id *)
Section OnePerId.

(** The resolver selects one whole record: it returns one of the two
    copies it is given. *)
Hypothesis resolveTaskConflict_selects : forall a b statuses strategy,
  resolveTaskConflict a b statuses strategy = a \/
  resolveTaskConflict a b statuses strategy = b.

Definition keyed (m : JsMap.t Task) : Prop :=
  forall e, e ∈ m -> id (snd e) = fst e.

Lemma keyed_set k v m : keyed m -> id v = k -> keyed (JsMap.set k v m).
Proof.
  intros Hm Hv e He. apply JsMap.elem_of_set_inv in He as [[-> ->]|He]; auto.
Qed.

Lemma keyed_get k v m : keyed m -> JsMap.get k m = Some v -> id v = k.
Proof.
  intros Hm. induction m as [|[k' v'] m IH]; simpl; [done|].
  destruct (String.eqb k k') eqn:E.
  - intros [= <-]. apply String.eqb_eq in E. subst k'.
    apply (Hm (k, v')). apply elem_of_cons. by left.
  - apply IH. intros e He. apply Hm. apply elem_of_cons. by right.
Qed.

Lemma keyed_mergeTask statuses strategy m t :
  keyed m -> keyed (mergeTask statuses strategy m t).
Proof.
  intros Hm. unfold mergeTask.
  destruct (JsMap.get (id t) m) as [existing|] eqn:E.
  - apply keyed_set; [done|].
    destruct (resolveTaskConflict_selects existing t statuses strategy)
      as [-> | ->]; [|done].
    by apply (keyed_get _ _ m).
  - by apply keyed_set.
Qed.

Lemma NoDup_keys_mergeTask statuses strategy m t :
  NoDup (JsMap.keys m) -> NoDup (JsMap.keys (mergeTask statuses strategy m t)).
Proof.
  intros Hm. unfold mergeTask.
  destruct (JsMap.get (id t) m); by apply JsMap.NoDup_keys_set.
Qed.

Lemma mergeTasks_wf statuses strategy incoming m :
  keyed m /\ NoDup (JsMap.keys m) ->
  keyed (mergeTasks statuses strategy m incoming) /\
  NoDup (JsMap.keys (mergeTasks statuses strategy m incoming)).
Proof.
  unfold mergeTasks. revert m.
  induction incoming as [|t ts IH]; intros m [Hk Hn]; simpl; [done|].
  apply IH. split; [by apply keyed_mergeTask|by apply NoDup_keys_mergeTask].
Qed.

Lemma of_entries_wf (ts : list Task) (f : Task -> Task) :
  (forall t, id (f t) = id t) ->
  keyed (JsMap.of_entries (map (fun t => (id t, f t)) ts)) /\
  NoDup (JsMap.keys (JsMap.of_entries (map (fun t => (id t, f t)) ts))).
Proof.
  intros Hf. unfold JsMap.of_entries.
  assert (Hgen : forall (m : JsMap.t Task),
    keyed m /\ NoDup (JsMap.keys m) ->
    let m' := fold_left (fun m e => JsMap.set (fst e) (snd e) m)
                (map (fun t => (id t, f t)) ts) m in
    keyed m' /\ NoDup (JsMap.keys m')).
  { induction ts as [|t ts IH]; intros m [Hk Hn]; simpl; [done|].
    apply IH. split.
    - apply keyed_set; [done|apply Hf].
    - by apply JsMap.NoDup_keys_set. }
  apply Hgen. split.
  - intros e He. by apply elem_of_nil in He.
  - apply NoDup_nil_2.
Qed.

Lemma mergedTasksById_wf config localTasks remoteTasks localBranchTasks :
  keyed (mergedTasksById config localTasks remoteTasks localBranchTasks) /\
  NoDup (JsMap.keys (mergedTasksById config localTasks remoteTasks localBranchTasks)).
Proof.
  unfold mergedTasksById. do 2 apply mergeTasks_wf.
  apply (of_entries_wf localTasks (fun t => set_source t (Some src_local))).
  done.
Qed.

Lemma keyed_values_ids m : keyed m -> map id (JsMap.values m) = JsMap.keys m.
Proof.
  intros Hm. unfold JsMap.values, JsMap.keys.
  induction m as [|e m IH]; simpl; [done|]. f_equal.
  - apply Hm. apply elem_of_cons. by left.
  - apply IH. intros e' He'. apply Hm. apply elem_of_cons. by right.
Qed.

Lemma NoDup_map_filter {A B} (g : A -> B) (p : A -> bool) (l : list A) :
  NoDup (map g l) -> NoDup (map g (List.filter p l)).
Proof.
  induction l as [|x l IH]; simpl; [done|].
  intros [Hx Hl]%NoDup_cons. destruct (p x); simpl; [|by apply IH].
  apply NoDup_cons. split; [|by apply IH].
  intros Hin. apply Hx. apply list_elem_of_In in Hin.
  apply list_elem_of_In. apply in_map_iff in Hin as (y & Hy & Hiny).
  apply in_map_iff. exists y. split; [done|].
  apply filter_In in Hiny. tauto.
Qed.

(** C7. Whenever [loadTasks] returns (it throws only when the load is
    cancelled), the list it returns holds at most one task per id: the ids
    of the returned tasks are pairwise different, whatever the three
    collections contain. *)
Theorem loadTasks_one_task_per_id config aborted localTasks remoteTasks
    localBranchTasks branchStateEntries :
  match loadTasks config aborted localTasks remoteTasks localBranchTasks
          branchStateEntries with
  | Ok tasks =>
      NoDup (map id tasks) /\
      forall (i j : nat) (a b : Task),
        i <> j -> tasks !! i = Some a -> tasks !! j = Some b -> id a <> id b
  | Err _ => aborted = true
  end.
Proof.
  destruct (mergedTasksById_wf config localTasks remoteTasks localBranchTasks)
    as [Hk Hn].
  assert (Hmerged : NoDup (map id (JsMap.values
            (mergedTasksById config localTasks remoteTasks localBranchTasks)))).
  { by rewrite keyed_values_ids. }
  assert (Hpos : forall tasks : list Task, NoDup (map id tasks) ->
            forall (i j : nat) (a b : Task),
              i <> j -> tasks !! i = Some a -> tasks !! j = Some b -> id a <> id b).
  { intros tasks Hnd i j a b Hij Ha Hb Heq. apply Hij.
    apply (NoDup_lookup (map id tasks) i j (id a)); [done| |].
    - by rewrite list_lookup_fmap, Ha.
    - by rewrite list_lookup_fmap, Hb, Heq. }
  unfold loadTasks. destruct aborted; [done|].
  destruct (crossBranchDisabled config).
  - split; [done|by apply Hpos].
  - assert (Hf : NoDup (map id (filterTasksByStateSnapshots
              (JsMap.values (mergedTasksById config localTasks remoteTasks
                               localBranchTasks))
              (buildLatestStateMap branchStateEntries localTasks)))).
    { by apply NoDup_map_filter. }
    split; [done|by apply Hpos].
Qed.
End OnePerId.

(** *** The latest state entry per id *)

(** The state entries in the order [buildLatestStateMap] visits them: the
    scanned ones, then one per local task that has an id. *)
Definition localStateEntries (localTasks : list Task) : list StateEntry.t :=
  map localStateEntry
    (List.filter (fun task => negb (String.eqb (id task) "")) localTasks).

Definition entriesFor (k : string) (entries : list StateEntry.t) : list StateEntry.t :=
  List.filter (fun e => String.eqb (StateEntry.id e) k) entries.

(** [e] is the first of the entries, in list order, that carry the latest
    time. *)
Definition FirstLatest (entries : list StateEntry.t) (e : StateEntry.t) : Prop :=
  exists pre post,
    entries = pre ++ e :: post /\
    Forall (fun x => StateEntry.lastModified x < StateEntry.lastModified e) pre /\
    Forall (fun x => StateEntry.lastModified x <= StateEntry.lastModified e) post.

Definition IsFreshest (k : string) (entries : list StateEntry.t) (e : StateEntry.t) : Prop :=
  FirstLatest (entriesFor k entries) e.

(** What [update] does to the entry kept for one id. *)
Definition pick (cur : option StateEntry.t) (e : StateEntry.t) : option StateEntry.t :=
  match cur with
  | None => Some e
  | Some x =>
      if StateEntry.lastModified x <? StateEntry.lastModified e then Some e else Some x
  end.

Lemma lookup_update k latest e :
  update latest e !! k =
  if String.eqb (StateEntry.id e) k then pick (latest !! k) e else latest !! k.
Proof.
  unfold update, pick. destruct (String.eqb (StateEntry.id e) k) eqn:E.
  - apply String.eqb_eq in E. subst k.
    destruct (latest !! StateEntry.id e) as [x|] eqn:L.
    + destruct (StateEntry.lastModified x <? StateEntry.lastModified e).
      * by rewrite lookup_insert_eq.
      * done.
    + by rewrite lookup_insert_eq.
  - apply String.eqb_neq in E.
    destruct (latest !! StateEntry.id e) as [x|] eqn:L.
    + destruct (StateEntry.lastModified x <? StateEntry.lastModified e).
      * by rewrite lookup_insert_ne.
      * done.
    + by rewrite lookup_insert_ne.
Qed.

Lemma lookup_fold_update k entries latest :
  fold_left update entries latest !! k =
  fold_left pick (entriesFor k entries) (latest !! k).
Proof.
  revert latest. induction entries as [|e es IH]; intros latest; simpl; [done|].
  rewrite IH, lookup_update. by destruct (String.eqb (StateEntry.id e) k).
Qed.

Lemma buildLatestStateMap_fold stateEntries localTasks :
  buildLatestStateMap stateEntries localTasks =
  fold_left update (stateEntries ++ localStateEntries localTasks) ∅.
Proof.
  unfold buildLatestStateMap, localStateEntries. rewrite fold_left_app.
  generalize (fold_left update stateEntries ∅).
  induction localTasks as [|t ts IH]; intros latest; simpl; [done|].
  destruct (String.eqb (id t) ""); simpl; apply IH.
Qed.

Lemma FirstLatest_head_le x l e :
  FirstLatest (x :: l) e -> StateEntry.lastModified x <= StateEntry.lastModified e.
Proof.
  intros (pre & post & Hl & Hpre & _).
  destruct pre as [|y pre]; simpl in Hl; injection Hl as <- _; [lia|].
  apply Forall_cons in Hpre as [Hy _]. lia.
Qed.

Lemma fold_pick_Some l c :
  exists e, fold_left pick l (Some c) = Some e /\ FirstLatest (c :: l) e.
Proof.
  revert c. induction l as [|x l IH]; intros c; simpl.
  - exists c. split; [done|]. exists [], []. by repeat split.
  - destruct (StateEntry.lastModified c <? StateEntry.lastModified x) eqn:E.
    + apply Z.ltb_lt in E.
      destruct (IH x) as (e & He & Hfl).
      exists e. split; [done|].
      pose proof (FirstLatest_head_le _ _ _ Hfl) as Hxe.
      destruct Hfl as (pre & post & Hl & Hpre & Hpost).
      exists (c :: pre), post. split; [by rewrite Hl|].
      split; [|done]. constructor; [lia|done].
    + apply Z.ltb_ge in E.
      destruct (IH c) as (e & He & pre & post & Hl & Hpre & Hpost).
      exists e. split; [done|].
      destruct pre as [|y pre]; simpl in Hl; injection Hl as <- Hl.
      * exists [], (x :: post). split; [by rewrite Hl|].
        split; [constructor|]. constructor; [lia|done].
      * exists (c :: x :: pre), post. split; [by rewrite Hl|].
        apply Forall_cons in Hpre as [Hy Hpre].
        split; [|done]. constructor; [done|]. constructor; [lia|done].
Qed.

Lemma FirstLatest_unique l e e' : FirstLatest l e -> FirstLatest l e' -> e = e'.
Proof.
  intros (pre & post & Hl & Hpre & Hpost) (pre' & post' & Hl' & Hpre' & Hpost').
  subst l. revert pre' Hl' Hpre'.
  induction pre as [|y pre IH]; intros pre' Hl' Hpre'.
  - destruct pre' as [|y' pre']; simpl in Hl'; injection Hl' as -> ->; [done|].
    apply Forall_cons in Hpre' as [Hy' _].
    assert (e' ∈ pre' ++ e' :: post') as Hin by set_solver.
    rewrite Forall_forall in Hpost. specialize (Hpost _ Hin). lia.
  - apply Forall_cons in Hpre as [Hy Hpre].
    destruct pre' as [|y' pre']; simpl in Hl'; injection Hl' as -> Hl'.
    + assert (e ∈ pre ++ e :: post) as Hin by set_solver.
      rewrite Hl' in Hin.
      rewrite Forall_forall in Hpost'. specialize (Hpost' _ Hin). lia.
    + apply Forall_cons in Hpre' as [_ Hpre'].
      by apply (IH Hpre pre').
Qed.

Lemma buildLatestStateMap_None k stateEntries localTasks :
  buildLatestStateMap stateEntries localTasks !! k = None <->
  entriesFor k (stateEntries ++ localStateEntries localTasks) = [].
Proof.
  rewrite buildLatestStateMap_fold, lookup_fold_update, lookup_empty.
  destruct (entriesFor k _) as [|c l]; simpl; [done|].
  destruct (fold_pick_Some l c) as (e & -> & _). done.
Qed.

Lemma buildLatestStateMap_Some k stateEntries localTasks e :
  buildLatestStateMap stateEntries localTasks !! k = Some e <->
  IsFreshest k (stateEntries ++ localStateEntries localTasks) e.
Proof.
  unfold IsFreshest.
  rewrite buildLatestStateMap_fold, lookup_fold_update, lookup_empty.
  destruct (entriesFor k _) as [|c l]; simpl.
  - split; [done|]. intros (pre & post & Hl & _). by destruct pre.
  - destruct (fold_pick_Some l c) as (e0 & -> & H0). split.
    + by intros [= <-].
    + intros He. f_equal. by apply (FirstLatest_unique (c :: l)).
Qed.

(** C2, as the code has it. With cross-branch checking enabled a merged
    task is returned exactly when no state entry exists for its id or the
    freshest one has type "task"; the freshest entry of an id is the first,
    in the order scanned entries then local filesystem entries, among
    those with the latest lastModified, so on a tie a scanned entry is
    kept in preference to the local one. With [checkActiveBranches] set to
    false every merged task is returned. *)
Theorem loadTasks_state_snapshot_filter config localTasks remoteTasks
    localBranchTasks branchStateEntries :
  exists tasks,
    loadTasks config false localTasks remoteTasks localBranchTasks branchStateEntries
      = Ok tasks /\
    (crossBranchDisabled config = true ->
       tasks = JsMap.values
                 (mergedTasksById config localTasks remoteTasks localBranchTasks)) /\
    (crossBranchDisabled config = false ->
       forall t : Task,
         t ∈ tasks <->
         t ∈ JsMap.values
               (mergedTasksById config localTasks remoteTasks localBranchTasks) /\
         (entriesFor (id t) (branchStateEntries ++ localStateEntries localTasks) = [] \/
          exists e,
            IsFreshest (id t) (branchStateEntries ++ localStateEntries localTasks) e /\
            StateEntry.type e = "task")).
Proof.
  unfold loadTasks. destruct (crossBranchDisabled config).
  - eexists. split; [done|]. split; [done|discriminate].
  - eexists. split; [done|]. split; [discriminate|]. intros _ t.
    unfold filterTasksByStateSnapshots.
    rewrite list_elem_of_In, filter_In, <- list_elem_of_In.
    apply and_iff_compat_l.
    destruct (buildLatestStateMap branchStateEntries localTasks !! id t)
      as [e0|] eqn:L.
    + apply buildLatestStateMap_Some in L. rewrite String.eqb_eq. split.
      * intros Ht. right. by exists e0.
      * intros [Hnil|(e & He & Ht)].
        -- destruct L as (pre & post & Hl & _). rewrite Hnil in Hl.
           by destruct pre.
        -- by rewrite (FirstLatest_unique _ _ _ L He).
    + apply buildLatestStateMap_None in L. split; [by left|done].
Qed.

End Loading.

(** *** Order of the two merge loops, for the resolver of the specification *)
Section MergeOrder.
Variable parseDate : string -> Date.
Variable tieKeepsFirst : bool.

Abbreviation specResolver :=
  (TaskLoader.resolveTaskConflict parseDate tieKeepsFirst).

(** The entry of id [k] after task [t] has been offered to the map. *)
Definition offer (statuses : list string) (strategy : Strategy) (k : string)
    (winner : option Task) (t : Task) : option Task :=
  if String.eqb (id t) k then
    Some match winner with
         | None => t
         | Some existing => specResolver existing t statuses strategy
         end
  else winner.

Lemma get_mergeTask statuses strategy k m t :
  JsMap.get k (mergeTask specResolver statuses strategy m t) =
  offer statuses strategy k (JsMap.get k m) t.
Proof.
  unfold mergeTask, offer. destruct (String.eqb (id t) k) eqn:E.
  - apply String.eqb_eq in E. subst k.
    destruct (JsMap.get (id t) m); by rewrite JsMap.get_set_eq.
  - apply String.eqb_neq in E.
    destruct (JsMap.get (id t) m); by rewrite JsMap.get_set_ne.
Qed.

Lemma get_mergeTasks statuses strategy k ts m :
  JsMap.get k (mergeTasks specResolver statuses strategy m ts) =
  fold_left (offer statuses strategy k) ts (JsMap.get k m).
Proof.
  unfold mergeTasks. revert m.
  induction ts as [|t ts IH]; intros m; simpl; [done|].
  by rewrite IH, get_mergeTask.
Qed.

Lemma offer_swap statuses strategy k w b r :
  (id b = id r -> TaskLoader.tied parseDate statuses strategy b r = false) ->
  offer statuses strategy k (offer statuses strategy k w b) r =
  offer statuses strategy k (offer statuses strategy k w r) b.
Proof.
  intros Hne. unfold offer.
  destruct (String.eqb (id b) k) eqn:Eb, (String.eqb (id r) k) eqn:Er; try done.
  apply String.eqb_eq in Eb, Er. f_equal.
  assert (Ht : TaskLoader.tied parseDate statuses strategy b r = false)
    by (apply Hne; congruence).
  destruct w as [w|].
  - by apply TaskLoader.resolveTaskConflict_swap.
  - by apply TaskLoader.resolveTaskConflict_untied_sym.
Qed.

Lemma fold_offer_swap_one statuses strategy k b rs w :
  (forall r, r ∈ rs -> id b = id r ->
     TaskLoader.tied parseDate statuses strategy b r = false) ->
  fold_left (offer statuses strategy k) rs (offer statuses strategy k w b) =
  offer statuses strategy k (fold_left (offer statuses strategy k) rs w) b.
Proof.
  revert w. induction rs as [|r rs IH]; intros w Hne; simpl; [done|].
  rewrite offer_swap by (apply Hne; set_solver).
  apply IH. intros r' Hr'. apply Hne. set_solver.
Qed.

Lemma fold_offer_swap statuses strategy k bs rs w :
  (forall b r, b ∈ bs -> r ∈ rs -> id b = id r ->
     TaskLoader.tied parseDate statuses strategy b r = false) ->
  fold_left (offer statuses strategy k) rs
    (fold_left (offer statuses strategy k) bs w) =
  fold_left (offer statuses strategy k) bs
    (fold_left (offer statuses strategy k) rs w).
Proof.
  revert w. induction bs as [|b bs IH]; intros w Hne; simpl; [done|].
  rewrite IH by (intros b' r' Hb' Hr'; apply Hne; set_solver).
  rewrite fold_offer_swap_one by (intros r' Hr'; apply Hne; set_solver).
  done.
Qed.

(** C1, as amended. Starting from any id-keyed map (the local tasks of
    [loadTasks], or local and completed tasks of
    [loadAllTasksForStatistics]), folding the local-branch tasks before
    the remote tasks or after them leaves the same task under every id,
    provided no local-branch task ties with a remote task of the same id
    under the strategy's comparison. The order of the entries inside the
    map and tying candidates are not covered. *)
Theorem merge_order_irrelevant_without_ties statuses strategy
    (tasksById : JsMap.t Task) (localBranchTasks remoteTasks : list Task) :
  (forall b r, b ∈ localBranchTasks -> r ∈ remoteTasks -> id b = id r ->
     TaskLoader.tied parseDate statuses strategy b r = false) ->
  forall k,
    JsMap.get k
      (mergeTasks specResolver statuses strategy
         (mergeTasks specResolver statuses strategy tasksById localBranchTasks)
         remoteTasks) =
    JsMap.get k
      (mergeTasks specResolver statuses strategy
         (mergeTasks specResolver statuses strategy tasksById remoteTasks)
         localBranchTasks).
Proof.
  intros Hne k. rewrite !get_mergeTasks. by apply fold_offer_swap.
Qed.
End MergeOrder.

(** The claim as the specification words it: for every input the two
    orders of folding give the same task under every id. *)
Definition MergeOrderIrrelevant (tieKeepsFirst : bool) : Prop :=
  forall (parseDate : string -> Date) statuses strategy
         (localTasks localBranchTasks remoteTasks : list Task) (k : string),
    let resolver := TaskLoader.resolveTaskConflict parseDate tieKeepsFirst in
    JsMap.get k
      (mergeTasks resolver statuses strategy
         (mergeTasks resolver statuses strategy
            (localTasksById localTasks) localBranchTasks)
         remoteTasks) =
    JsMap.get k
      (mergeTasks resolver statuses strategy
         (mergeTasks resolver statuses strategy
            (localTasksById localTasks) remoteTasks)
         localBranchTasks).

(** *** Concrete runs *)

(** A copy of a task as one of the loaders reports it. *)
Definition taskCopy (id status : string) (modified : Date)
    (source : option Source) (branch : option string) : Task :=
  {| id := id; title := "Fix login"; status := status; assignee := [];
     reporter := None; createdDate := "2025-01-01 10:00"; updatedDate := None;
     labels := []; milestone := None; dependencies := []; rawContent := None;
     description := None; implementationPlan := None;
     implementationNotes := None; acceptanceCriteriaItems := None;
     parentTaskId := None; subtasks := None; priority := None;
     branch := branch; ordinal := None; filePath := None;
     lastModified := Some modified; source := source; onStatusChange := None;
     branchName := None; gitTag := None; prNumber := None; history := None |}.

Definition boardStatuses : list string := ["To Do"; "In Progress"; "Done"].

Definition epochDate : string -> Date := fun _ => 0.

(** C1, counterexample. task-1 is "To Do" locally (time 50) and
    "In Progress" both on local branch [feature] and on [origin/main],
    the two copies modified at the same time 100. Folding the local-branch
    copy first leaves a different record under task-1 than folding the
    remote copy first, whichever way the resolver breaks the tie. *)
Lemma merge_order_matters_on_ties :
  ~ MergeOrderIrrelevant true /\ ~ MergeOrderIrrelevant false.
Proof.
  split; intros H;
    specialize (H epochDate boardStatuses most_progressed
      [taskCopy "task-1" "To Do" 50 None None]
      [taskCopy "task-1" "In Progress" 100 (Some src_local_branch) (Some "feature")]
      [taskCopy "task-1" "In Progress" 100 (Some src_remote) (Some "origin/main")]
      "task-1");
    vm_compute in H; discriminate H.
Qed.

(** C1, the amended statement at work: the remote copy is newer than the
    local-branch copy, and both orders keep it. *)
Lemma merge_order_irrelevant_example :
  JsMap.get "task-1"
    (mergeTasks (TaskLoader.resolveTaskConflict epochDate true)
       boardStatuses most_progressed
       (mergeTasks (TaskLoader.resolveTaskConflict epochDate true)
          boardStatuses most_progressed
          (localTasksById [taskCopy "task-1" "To Do" 50 None None])
          [taskCopy "task-1" "In Progress" 100 (Some src_local_branch) (Some "feature")])
       [taskCopy "task-1" "In Progress" 120 (Some src_remote) (Some "origin/main")]) =
  JsMap.get "task-1"
    (mergeTasks (TaskLoader.resolveTaskConflict epochDate true)
       boardStatuses most_progressed
       (mergeTasks (TaskLoader.resolveTaskConflict epochDate true)
          boardStatuses most_progressed
          (localTasksById [taskCopy "task-1" "To Do" 50 None None])
          [taskCopy "task-1" "In Progress" 120 (Some src_remote) (Some "origin/main")])
       [taskCopy "task-1" "In Progress" 100 (Some src_local_branch) (Some "feature")]).
Proof.
  apply (merge_order_irrelevant_without_ties epochDate true
           boardStatuses most_progressed).
  intros b r Hb Hr _.
  apply list_elem_of_singleton in Hb, Hr. subst b r. reflexivity.
Defined.

(** C7 at work, with the resolver of the specification: task-1 comes
    from three places and is returned once. *)
Lemma loadTasks_one_task_per_id_example :
  match
    loadTasks epochDate boardStatuses
      (TaskLoader.resolveTaskConflict epochDate true) None false
      [taskCopy "task-1" "To Do" 50 None None;
       taskCopy "task-2" "To Do" 60 None None]
      [taskCopy "task-1" "In Progress" 120 (Some src_remote) (Some "origin/main")]
      [taskCopy "task-1" "In Progress" 100 (Some src_local_branch) (Some "feature");
       taskCopy "task-3" "Done" 70 (Some src_local_branch) (Some "feature")]
      []
  with
  | Ok tasks =>
      NoDup (map id tasks) /\
      forall (i j : nat) (a b : Task),
        i <> j -> tasks !! i = Some a -> tasks !! j = Some b -> id a <> id b
  | Err _ => false = true
  end.
Proof.
  apply (loadTasks_one_task_per_id epochDate boardStatuses
           (TaskLoader.resolveTaskConflict epochDate true)).
  apply TaskLoader.resolveTaskConflict_choice.
Defined.

Example loadTasks_three_sources :
  map (fun t => (id t, status t, source t)) <$>
    (match
       loadTasks epochDate boardStatuses
         (TaskLoader.resolveTaskConflict epochDate true) None false
         [taskCopy "task-1" "To Do" 50 None None;
          taskCopy "task-2" "To Do" 60 None None]
         [taskCopy "task-1" "In Progress" 120 (Some src_remote) (Some "origin/main")]
         [taskCopy "task-1" "In Progress" 100 (Some src_local_branch) (Some "feature");
          taskCopy "task-3" "Done" 70 (Some src_local_branch) (Some "feature")]
         []
     with Ok tasks => Some tasks | Err _ => None end)
  = Some [("task-1", "In Progress", Some src_remote);
          ("task-2", "To Do", Some src_local);
          ("task-3", "Done", Some src_local_branch)].
Proof. vm_compute. reflexivity. Qed.

(** The example of the specification: a local copy that is newer but
    "To Do" loses to a remote copy that is "In Progress". *)
Example progress_beats_recency :
  status <$>
    JsMap.get "task-1"
      (mergedTasksById boardStatuses (TaskLoader.resolveTaskConflict epochDate true)
         (Some (mkConfig boardStatuses (Some most_progressed) None None None None))
         [taskCopy "task-1" "To Do" 700 None None]
         [taskCopy "task-1" "In Progress" 100 (Some src_remote) (Some "origin/main")]
         [])
  = Some "In Progress".
Proof. reflexivity. Qed.

(** The claim's reading of "freshest": the latest lastModified, a local
    filesystem entry preferred to a scanned entry of the same time. *)
Definition IsFreshestLocalPreferred (parseDate : string -> Date) (k : string)
    (branchStateEntries : list StateEntry.t) (localTasks : list Task)
    (e : StateEntry.t) : Prop :=
  IsFreshest k (localStateEntries parseDate localTasks ++ branchStateEntries) e.

(** C2, counterexample. task-1 is on the local filesystem, modified at
    time 100; the scan found it archived on a branch at the same time. The
    local entry is the freshest one in the claim's reading and has type
    "task", so the claim keeps task-1; [loadTasks] drops it. *)
Lemma loadTasks_tie_prefers_scanned_entry :
  let localTasks := [taskCopy "task-1" "To Do" 100 None None] in
  let branchStateEntries :=
    [StateEntry.mk "task-1" "archived" "feature" "backlog/archive/tasks/task-1.md" 100] in
  let t := set_source (taskCopy "task-1" "To Do" 100 None None) (Some src_local) in
  t ∈ JsMap.values
        (mergedTasksById boardStatuses (TaskLoader.resolveTaskConflict epochDate true)
           None localTasks [] []) /\
  (exists e,
     IsFreshestLocalPreferred epochDate (id t) branchStateEntries localTasks e /\
     StateEntry.type e = "task") /\
  loadTasks epochDate boardStatuses (TaskLoader.resolveTaskConflict epochDate true)
    None false localTasks [] [] branchStateEntries = Ok [].
Proof.
  simpl. split; [|split].
  - vm_compute. apply list_elem_of_singleton. reflexivity.
  - exists (StateEntry.mk "task-1" "task" "local" "" 100). split; [|reflexivity].
    exists [], [StateEntry.mk "task-1" "archived" "feature"
                  "backlog/archive/tasks/task-1.md" 100].
    split; [reflexivity|]. split; [constructor|].
    constructor; [simpl; lia|constructor].
  - reflexivity.
Qed.

(** ** Id generation (core.ts, [generateNextId]) *)
Section Ids.
(** [taskIdsEqual] and [normalizeTaskId] of utils/task-path.ts. *)
Variable taskIdsEqual : string -> string -> bool.
Variable normalizeTaskId : string -> string.

(** [id.match(/^task-(\d+)/)]: the first capture group, if the id matches. *)
Definition matchTaskNumber (id : string) : option string :=
  match JsString.stripPrefix "task-" id with
  | Some rest =>
      let digits := JsString.leadingDigits rest in
      if String.eqb digits "" then None else Some digits
  | None => None
  end.

(** [if (num > max) max = num], where a NaN [num] compares false. *)
Definition raiseMax (max : Z) (num : option Z) : Z :=
  match num with
  | Some n => if max <? n then n else max
  | None => max
  end.

(** [s || fallback] on strings. *)
Definition orElse (s fallback : string) : string :=
  if String.eqb s "" then fallback else s.

(** [padding && padding > 0] *)
Definition zeroPadding (config : option BacklogConfig) : option Z :=
  match config with
  | Some c =>
      match zeroPaddedIds c with
      | Some padding => if 0 <? padding then Some padding else None
      | None => None
      end
  | None => None
  end.

Definition existingIds (tasks drafts archivedTasks completedTasks : list Task)
    : list string :=
  map id tasks ++ map id drafts ++ map id archivedTasks ++ map id completedTasks.

(** The loops for the highest number; the numbers compared are the doubles
    that [Number.parseInt] returns. *)
Definition maxTaskNumber (allIds : list string) : Z :=
  fold_left
    (fun max id =>
       match matchTaskNumber id with
       | Some digits => raiseMax max (JsString.parseInt (orElse digits "0"))
       | None => max
       end)
    allIds 0.

Definition maxSubtaskNumber (prefix : string) (allIds : list string) : Z :=
  fold_left
    (fun max id =>
       match JsString.stripPrefix (prefix +:+ ".") id with
       | Some rest =>
           raiseMax max
             (JsString.parseInt (orElse (JsString.firstSegment "." rest) "0"))
       | None => max
       end)
    allIds 0.

(** [tasks] are the tasks of the content store; the other three lists are
    what the filesystem lists as drafts, archived and completed tasks. The
    sums [max + 1] are sums of doubles. *)
Definition generateNextId (config : option BacklogConfig)
    (tasks drafts archivedTasks completedTasks : list Task)
    (parent : option string) : string :=
  let allIds := existingIds tasks drafts archivedTasks completedTasks in
  let topLevel :=
    let nextIdNumber := JsString.toDouble (maxTaskNumber allIds + 1) in
    match zeroPadding config with
    | Some padding =>
        "task-" +:+
        JsString.padStart (Z.to_nat padding) "0" (JsString.numberToString nextIdNumber)
    | None => "task-" +:+ JsString.numberToString nextIdNumber
    end in
  match parent with
  | Some parent =>
      if String.eqb parent "" then topLevel
      else
        let prefix :=
          match List.find (fun id => taskIdsEqual parent id) allIds with
          | Some id => id
          | None => normalizeTaskId parent
          end in
        let nextSubIdNumber := JsString.toDouble (maxSubtaskNumber prefix allIds + 1) in
        match zeroPadding config with
        | Some _ =>
            prefix +:+ "." +:+
            JsString.padStart 2 "0" (JsString.numberToString nextSubIdNumber)
        | None => prefix +:+ "." +:+ JsString.numberToString nextSubIdNumber
        end
  | None => topLevel
  end.

(** The number an id carries for the top-level numbering: what the digits
    after a leading lower-case "task-" spell. *)
Definition taskNumber (id : string) : option Z :=
  JsString.decimalValue <$> matchTaskNumber id.

(** Every number the ids carry is below 2^53, so that it and its successor
    are doubles. *)
Definition SafeTaskNumbers (allIds : list string) : Prop :=
  forall id number, id ∈ allIds -> taskNumber id = Some number -> number < 2 ^ 53.

Lemma raiseMax_ge max num : max <= raiseMax max num.
Proof.
  unfold raiseMax. destruct num as [n|]; [|lia].
  destruct (max <? n) eqn:E; [apply Z.ltb_lt in E|]; lia.
Qed.

Lemma raiseMax_Some_ge max n : n <= raiseMax max (Some n).
Proof.
  unfold raiseMax. destruct (max <? n) eqn:E; [|apply Z.ltb_ge in E]; lia.
Qed.

Lemma raiseMax_below max num bound :
  max < bound -> (forall n, num = Some n -> n < bound) -> raiseMax max num < bound.
Proof.
  intros Hmax Hnum. unfold raiseMax. destruct num as [n|]; [|done].
  destruct (max <? n); [by apply Hnum|done].
Qed.

Lemma matchTaskNumber_digits id digits :
  matchTaskNumber id = Some digits ->
  JsString.allDigits digits = true /\ digits <> "".
Proof.
  unfold matchTaskNumber. destruct (JsString.stripPrefix "task-" id) as [rest|]; [|done].
  cbv zeta. destruct (String.eqb_spec (JsString.leadingDigits rest) ""); [done|].
  intros [= <-]. split; [apply JsString.leadingDigits_allDigits|done].
Qed.

Lemma orElse_nonempty s fallback : s <> "" -> orElse s fallback = s.
Proof. intros Hne. unfold orElse. by destruct (String.eqb_spec s ""). Qed.

(** One round of the loop over the ids. *)
Lemma raise_task_number max id :
  0 <= max < 2 ^ 53 ->
  (forall number, taskNumber id = Some number -> number < 2 ^ 53) ->
  let max' :=
    match matchTaskNumber id with
    | Some digits => raiseMax max (JsString.parseInt (orElse digits "0"))
    | None => max
    end in
  max <= max' < 2 ^ 53 /\
  forall number, taskNumber id = Some number -> number <= max'.
Proof.
  intros Hmax Hsafe. unfold taskNumber in *.
  destruct (matchTaskNumber id) as [digits|] eqn:Hm; cbn in *; [|by split; [lia|]].
  destruct (matchTaskNumber_digits _ _ Hm) as [Hds Hne].
  pose proof (Hsafe _ eq_refl) as Hbelow.
  rewrite orElse_nonempty, JsString.parseInt_digits by (done || lia).
  split.
  - split; [apply raiseMax_ge|].
    apply raiseMax_below; [lia|]. by intros n [= <-].
  - intros number [= <-]. apply raiseMax_Some_ge.
Qed.

Lemma fold_maxTaskNumber_safe ids max :
  0 <= max < 2 ^ 53 -> SafeTaskNumbers ids ->
  let result :=
    fold_left
      (fun max id =>
         match matchTaskNumber id with
         | Some digits => raiseMax max (JsString.parseInt (orElse digits "0"))
         | None => max
         end)
      ids max in
  max <= result < 2 ^ 53 /\
  forall id number, id ∈ ids -> taskNumber id = Some number -> number <= result.
Proof.
  revert max. induction ids as [|i ids IH]; intros max Hmax Hsafe; cbn zeta.
  - cbn. split; [lia|]. intros id number Hin. by apply elem_of_nil in Hin.
  - cbn [fold_left].
    destruct (raise_task_number max i Hmax) as [Hstep Hi].
    { intros number. apply Hsafe. by left. }
    cbn zeta in Hstep, Hi.
    set (max' := match matchTaskNumber i with
                 | Some digits => raiseMax max (JsString.parseInt (orElse digits "0"))
                 | None => max
                 end) in *.
    destruct (IH max') as [Hrest Hids]; [lia| |].
    { intros id number Hin. apply Hsafe. by right. }
    cbn zeta in Hrest, Hids.
    split; [lia|]. intros id number [->|Hin]%elem_of_cons Hnum.
    + specialize (Hi _ Hnum). lia.
    + by apply (Hids id).
Qed.

Lemma maxTaskNumber_safe ids :
  SafeTaskNumbers ids ->
  0 <= maxTaskNumber ids < 2 ^ 53 /\
  forall id number, id ∈ ids -> taskNumber id = Some number ->
    number <= maxTaskNumber ids.
Proof.
  intros Hsafe. unfold maxTaskNumber.
  by destruct (fold_maxTaskNumber_safe ids 0 ltac:(lia) Hsafe).
Qed.

Lemma matchTaskNumber_task digits rest :
  digits <> "" -> JsString.allDigits digits = true ->
  exists more,
    JsString.allDigits more = true /\
    matchTaskNumber ("task-" +:+ digits +:+ rest) = Some (digits +:+ more).
Proof.
  intros Hne Hds. exists (JsString.leadingDigits rest).
  split; [apply JsString.leadingDigits_allDigits|].
  unfold matchTaskNumber. rewrite JsString.stripPrefix_app.
  rewrite JsString.leadingDigits_app by done.
  destruct digits as [|c ds]; [done|]. done.
Qed.

Lemma existing_number_below_next ids i digits rest :
  SafeTaskNumbers ids ->
  i ∈ ids -> i = "task-" +:+ digits +:+ rest ->
  digits <> "" -> JsString.allDigits digits = true ->
  JsString.decimalValue digits < maxTaskNumber ids + 1.
Proof.
  intros Hsafe Hin -> Hne Hds.
  destruct (matchTaskNumber_task digits rest Hne Hds) as (more & Hmore & Hm).
  destruct (maxTaskNumber_safe ids Hsafe) as [_ Hb].
  specialize (Hb _ (JsString.decimalValue (digits +:+ more)) Hin).
  unfold taskNumber in Hb. rewrite Hm in Hb. specialize (Hb eq_refl).
  pose proof (JsString.decimalValue_prefix_le digits more Hds Hmore). lia.
Qed.

Lemma SafeTaskNumbers_without_store tasks drafts archivedTasks completedTasks :
  SafeTaskNumbers (existingIds tasks drafts archivedTasks completedTasks) ->
  SafeTaskNumbers (existingIds [] drafts archivedTasks completedTasks).
Proof.
  intros Hsafe id number Hin. apply Hsafe.
  unfold existingIds in *. apply elem_of_app. by right.
Qed.

(** C9. Let every number written after a lower-case "task-" at the start of
    an id of the content store, the drafts, the archived and the completed
    tasks be below 2^53. Then, without a parent, [generateNextId] returns
    "task-" followed by the decimal digits of a number [n], zero-padded when
    [zeroPaddedIds] says so; [n] is greater than the number written after
    "task-" in every such id, and the returned id is none of the ids of the
    four lists, also when the store holds no task at all. *)
Theorem generateNextId_fresh config tasks drafts archivedTasks completedTasks :
  SafeTaskNumbers (existingIds tasks drafts archivedTasks completedTasks) ->
  exists (n : Z) (width : nat),
    generateNextId config tasks drafts archivedTasks completedTasks None =
      "task-" +:+ JsString.padStart width "0" (JsString.numberToString n) /\
    JsString.allDigits (JsString.padStart width "0" (JsString.numberToString n)) = true /\
    JsString.decimalValue (JsString.padStart width "0" (JsString.numberToString n)) = n /\
    (forall i digits rest,
       i ∈ existingIds tasks drafts archivedTasks completedTasks ->
       i = "task-" +:+ digits +:+ rest ->
       digits <> "" -> JsString.allDigits digits = true ->
       JsString.decimalValue digits < n) /\
    (generateNextId config tasks drafts archivedTasks completedTasks None
       ∉ existingIds tasks drafts archivedTasks completedTasks) /\
    (generateNextId config [] drafts archivedTasks completedTasks None
       ∉ existingIds [] drafts archivedTasks completedTasks).
Proof.
  intros Hstored.
  assert (Hgen : forall tasks',
    SafeTaskNumbers (existingIds tasks' drafts archivedTasks completedTasks) ->
    exists (n : Z) (width : nat),
      generateNextId config tasks' drafts archivedTasks completedTasks None =
        "task-" +:+ JsString.padStart width "0" (JsString.numberToString n) /\
      JsString.allDigits (JsString.padStart width "0" (JsString.numberToString n)) = true /\
      JsString.decimalValue (JsString.padStart width "0" (JsString.numberToString n)) = n /\
      (forall i digits rest,
         i ∈ existingIds tasks' drafts archivedTasks completedTasks ->
         i = "task-" +:+ digits +:+ rest ->
         digits <> "" -> JsString.allDigits digits = true ->
         JsString.decimalValue digits < n) /\
      generateNextId config tasks' drafts archivedTasks completedTasks None
        ∉ existingIds tasks' drafts archivedTasks completedTasks).
  { intros tasks'.
    set (ids := existingIds tasks' drafts archivedTasks completedTasks).
    intros Hsafe.
    set (n := maxTaskNumber ids + 1).
    destruct (maxTaskNumber_safe ids Hsafe) as [Hmax _].
    assert (Hn : 0 <= n) by (unfold n; lia).
    assert (Hexact : JsString.toDouble n = n)
      by (apply JsString.toDouble_exact; unfold n; lia).
    destruct (JsString.numberToString_spec n Hn) as (Hd & Hv & Hne).
    set (width := match zeroPadding config with
                  | Some padding => Z.to_nat padding
                  | None => 0%nat
                  end).
    destruct (JsString.padStart_zero_spec width _ Hd) as (Hpd & Hpv & Hpne).
    assert (Hid : generateNextId config tasks' drafts archivedTasks completedTasks None =
              "task-" +:+ JsString.padStart width "0" (JsString.numberToString n)).
    { unfold generateNextId, width. fold ids. fold n. rewrite Hexact.
      destruct (zeroPadding config); done. }
    assert (Hbound : forall i digits rest,
              i ∈ ids -> i = "task-" +:+ digits +:+ rest ->
              digits <> "" -> JsString.allDigits digits = true ->
              JsString.decimalValue digits < n).
    { intros i digits rest. by apply existing_number_below_next. }
    exists n, width. split; [done|]. split; [done|].
    split; [by rewrite Hpv|]. split; [done|].
    rewrite Hid. intros Hin.
    specialize (Hbound _ (JsString.padStart width "0" (JsString.numberToString n)) ""
                  Hin).
    rewrite Hpv, Hv in Hbound.
    assert (n < n); [|lia]. apply Hbound; [|by apply Hpne|done].
    by rewrite JsString.append_empty_r. }
  destruct (Hgen tasks Hstored) as (n & width & H1 & H2 & H3 & H4 & H5).
  exists n, width. repeat (split; [done|]).
  destruct (Hgen [] (SafeTaskNumbers_without_store _ _ _ _ Hstored))
    as (n' & width' & _ & _ & _ & _ & H5').
  done.
Qed.
End Ids.

(** The top-level path on a board whose tasks have all been archived or
    completed. *)
Example generateNextId_after_archive :
  generateNextId (fun _ _ => false) (fun s => s) None []
    []
    [taskCopy "task-7" "Done" 10 None None]
    [taskCopy "task-12" "Done" 20 None None; taskCopy "task-3.1" "Done" 5 None None]
    None = "task-13".
Proof. reflexivity. Qed.

Example generateNextId_padded :
  generateNextId (fun _ _ => false) (fun s => s)
    (Some (mkConfig boardStatuses None None (Some 3) None None))
    [taskCopy "task-007" "To Do" 10 None None] [] [] [] None = "task-008".
Proof. reflexivity. Qed.

(** The board of [generateNextId_after_archive] meets the bound, and the id
    made for it is new. *)
Lemma generateNextId_fresh_example :
  let archived := [taskCopy "task-7" "Done" 10 None None] in
  let completed :=
    [taskCopy "task-12" "Done" 20 None None; taskCopy "task-3.1" "Done" 5 None None] in
  SafeTaskNumbers (existingIds [] [] archived completed) /\
  generateNextId (fun _ _ => false) (fun s => s) None [] [] archived completed None
    ∉ existingIds [] [] archived completed.
Proof.
  intros archived completed.
  assert (Hsafe : SafeTaskNumbers (existingIds [] [] archived completed)).
  { intros id number Hin Hnumber. cbn in Hin.
    repeat (apply elem_of_cons in Hin as [->|Hin]);
      [vm_compute in Hnumber; injection Hnumber as <-; lia ..|].
    by apply elem_of_nil in Hin. }
  split; [exact Hsafe|].
  destruct (generateNextId_fresh (fun _ _ => false) (fun s => s) None
              [] [] archived completed Hsafe)
    as (n & width & _ & _ & _ & _ & Hnew & _).
  exact Hnew.
Defined.

(** Two boards outside the bound and the pattern. With the id numbered 2^53
    stored, [max + 1] rounds back to 2^53 and the stored id is returned
    again. An id spelled with upper-case letters is not counted: next to
    "task-15", the id "TASK-99" leaves the next number at 16. *)
Lemma generateNextId_repeats_large_id :
  (let stored := [taskCopy "task-9007199254740992" "To Do" 10 None None] in
   generateNextId (fun _ _ => false) (fun s => s) None stored [] [] [] None
     = "task-9007199254740992" /\
   generateNextId (fun _ _ => false) (fun s => s) None stored [] [] [] None
     ∈ existingIds stored [] [] []) /\
  (let stored :=
     [taskCopy "task-15" "To Do" 10 None None; taskCopy "TASK-99" "To Do" 20 None None] in
   generateNextId (fun _ _ => false) (fun s => s) None stored [] [] [] None = "task-16").
Proof.
  assert (Hlarge :
    generateNextId (fun _ _ => false) (fun s => s) None
      [taskCopy "task-9007199254740992" "To Do" 10 None None] [] [] [] None
    = "task-9007199254740992") by reflexivity.
  split; [|reflexivity]. cbv zeta. split; [exact Hlarge|].
  rewrite Hlarge. cbn. by left.
Qed.

(** ** Writes: the task store and the effects of a mutation *)

(** What a mutation leaves behind, oldest first. *)
Inductive Event : Type :=
| SaveTask (task : Task)
| CommitTaskFile (taskId : string)
| CommitAll (message : string)
| StatusCallback (command taskId oldStatus newStatus : string).

(** Modelled from the spec: the local record storage and the content store
    (file-system/operations.ts and content-store.ts are not part of the
    sources at hand). [files] are the task records of the working copy,
    addressed by id; [storeTasks] is the merged view the content store
    serves; [events] is the trace of writes. *)
Record World : Type := mkWorld {
  storeTasks : list Task;
  files : gmap string Task;
  events : list Event
}.

(** A computation that reads and writes the world and may throw; what was
    written before a throw stays written. *)
Definition M (A : Type) : Type := World -> result A * World.

#[global] Instance M_ret : MRet M := fun A a w => (Ok a, w).

#[global] Instance M_bind : MBind M := fun A B k m w =>
  match m w with
  | (Ok a, w') => k a w'
  | (Err msg, w') => (Err msg, w')
  end.

#[global] Instance M_throw : MThrow string M := fun A msg w => (Err msg, w).

(** Modelled from the spec: [fs.loadTask(id)] of the record storage. *)
Definition fs_loadTask (taskId : string) : M (option Task) :=
  fun w => (Ok (files w !! taskId), w).

(** Modelled from the spec: [fs.saveTask(task)] of the record storage. The
    write is taken to succeed, and so are the git calls recorded by [emit]:
    a failure of the disk or of git is outside the model, and what is
    stated of a call that returns holds of the runs in which these calls
    return. *)
Definition fs_saveTask (task : Task) : M unit :=
  fun w =>
    (Ok tt,
     mkWorld (storeTasks w) (<[id task := task]> (files w))
       (events w ++ [SaveTask task])).

Definition emit (e : Event) : M unit :=
  fun w => (Ok tt, mkWorld (storeTasks w) (files w) (events w ++ [e])).

Definition getStoreTasks : M (list Task) := fun w => (Ok (storeTasks w), w).

(** A computation that reads the world and may throw, but writes nothing. *)
Definition inWorld {A : Type} (f : World -> result A) : M A := fun w => (f w, w).

Fixpoint mapM {A B : Type} (f : A -> M B) (l : list A) : M (list B) :=
  match l with
  | [] => mret []
  | x :: xs => y ← f x; ys ← mapM f xs; mret (y :: ys)
  end.

Section Mutations.
(** [fs.loadConfig()] *)
Variable config : option BacklogConfig.
(** The clock: [new Date().toISOString().slice(0, 16).replace("T", " ")]. *)
Variable now : string.
(** utils/assignee.ts, utils/task-path.ts, reorder.ts: taken as given. *)
Variable normalizeAssignee : Task -> Task.
Variable taskIdsEqual : string -> string -> bool.
Variable normalizeTaskId : string -> string.
Variable DEFAULT_ORDINAL_STEP : Z.
Variable calculateNewOrdinal : option Task -> option Task -> Z -> Z * bool.
Variable resolveOrdinalConflicts : list Task -> Reorder.ResolveOptions -> list Task.

(** [shouldAutoCommit(overrideValue)] *)
Definition shouldAutoCommit (overrideValue : option bool) : bool :=
  match overrideValue with
  | Some b => b
  | None =>
      match config with
      | Some c => default false (autoCommit c)
      | None => false
      end
  end.

(** [executeStatusChangeCallback]: the per-task command takes precedence
    over the global one; a failing command is logged, never thrown. *)
Definition executeStatusChangeCallback (task : Task) (oldStatus newStatus : string)
    : M unit :=
  let callbackCommand :=
    match onStatusChange task with
    | Some c => Some c
    | None => config ≫= config_onStatusChange
    end in
  match callbackCommand with
  | Some command =>
      if String.eqb command "" then mret tt
      else emit (StatusCallback command (id task) oldStatus newStatus)
  | None => mret tt
  end.

(** [updateTask]. The task object is changed in place; the changed record
    is returned so that callers see it. Saving and committing are taken to
    succeed (see [fs_saveTask]). *)
Definition updateTask (task : Task) (autoCommit : option bool) : M Task :=
  let task := normalizeAssignee task in
  originalTask ← fs_loadTask (id task);
  let oldStatus := match originalTask with Some o => status o | None => "" end in
  let newStatus := status task in
  let statusChanged := negb (String.eqb oldStatus newStatus) in
  let task := set_updatedDate task (Some now) in
  fs_saveTask task;;
  (* the file just saved is found by [getTaskPath] *)
  (if shouldAutoCommit autoCommit then emit (CommitTaskFile (id task)) else mret tt);;
  (if statusChanged then executeStatusChangeCallback task oldStatus newStatus
   else mret tt);;
  mret task.

(** [updateTasksBulk], with saving and committing taken to succeed. *)
Definition updateTasksBulk (tasks : list Task) (commitMessage : option string)
    (autoCommit : option bool) : M (list Task) :=
  updated ← mapM (fun task => updateTask task (Some false)) tasks;
  (if shouldAutoCommit autoCommit then
     emit (CommitAll
             (match commitMessage with
              | Some m => if String.eqb m "" then
                            "Update " +:+ JsString.numberToString (Z.of_nat (length tasks))
                              +:+ " tasks"
                          else m
              | None => "Update " +:+ JsString.numberToString (Z.of_nat (length tasks))
                          +:+ " tasks"
              end))
   else mret tt);;
  mret updated.

(** [getTask]: the content store first, then the filesystem. *)
Definition getTask (taskId : string) : M (option Task) :=
  tasks ← getStoreTasks;
  match List.find (fun task => taskIdsEqual taskId (id task)) tasks with
  | Some task => mret (Some task)
  | None => fs_loadTask (normalizeTaskId taskId)
  end.

Record ReorderParams : Type := mkReorderParams {
  taskId : string;
  targetStatus : string;
  orderedTaskIds : list string;
  (** absent, [null], or a string *)
  targetMilestone : option (option string);
  commitMessage : option string;
  p_autoCommit : option bool;
  defaultStep : option Z
}.

(** The first id met a second time by the [seen] loop. *)
Fixpoint firstDuplicate (seen : gset string) (ids : list string) : option string :=
  match ids with
  | [] => None
  | i :: rest =>
      if bool_decide (i ∈ seen) then Some i else firstDuplicate (seen ∪ {[i]}) rest
  end.

(** [params.orderedTaskIds.map((id) => String(id || "").trim()).filter(Boolean)] *)
Definition trimmedIds (ids : list string) : list string :=
  List.filter (fun i => negb (String.eqb i "")) (map JsString.trim ids).

Fixpoint inb (x : string) (l : list string) : bool :=
  match l with
  | [] => false
  | y :: l' => String.eqb x y || inb x l'
  end.

Fixpoint indexOfId (x : string) (l : list string) : option nat :=
  match l with
  | [] => None
  | y :: l' => if String.eqb y x then Some O else S <$> indexOfId x l'
  end.

(** The checks made on the arguments before anything is loaded: the
    message thrown, if any. *)
Definition reorderValidation (params : ReorderParams) : option string :=
  let taskId := JsString.trim (taskId params) in
  let targetStatus := JsString.trim (targetStatus params) in
  let orderedTaskIds := trimmedIds (orderedTaskIds params) in
  if String.eqb taskId "" then Some "taskId is required"
  else if String.eqb targetStatus "" then Some "targetStatus is required"
  else if Nat.eqb (length orderedTaskIds) 0 then
    Some "orderedTaskIds must include at least one task"
  else if negb (inb taskId orderedTaskIds) then
    Some "orderedTaskIds must include the task being moved"
  else
    match firstDuplicate ∅ orderedTaskIds with
    | Some i => Some ("Duplicate task id " +:+ i +:+ " in orderedTaskIds")
    | None => None
    end.

Definition ordinalDiffers (a b : option Z) : bool :=
  match a, b with
  | Some x, Some y => negb (x =? y)
  | None, None => false
  | _, _ => true
  end.

Definition notFoundMessage (taskId : string) : string :=
  "Task " +:+ taskId +:+ " not found while reordering".

(** The message names the branch between double quotes. *)
Definition foreignBranchMessage (taskId branch : string) : string :=
  "Task " +:+ taskId +:+ " exists in branch " +:+ JsString.quoted branch +:+
  " and cannot be reordered from the current branch. " +:+
  "Switch to that branch to modify it.".

(** [reorderTask] *)
Definition reorderTask (params : ReorderParams) : M (Task * list Task) :=
  let taskId := JsString.trim (taskId params) in
  let targetStatus := JsString.trim (targetStatus params) in
  let orderedTaskIds := trimmedIds (orderedTaskIds params) in
  let defaultStep := default DEFAULT_ORDINAL_STEP (defaultStep params) in
  match reorderValidation params with
  | Some msg => mthrow msg
  | None =>
      loadedTasks ← mapM getTask orderedTaskIds;
      let validTasks := omap (fun t => t) loadedTasks in
      match List.find (fun t => String.eqb (id t) taskId) validTasks with
      | None => mthrow (notFoundMessage taskId)
      | Some movedTask =>
          match branch movedTask with
          | Some b =>
              if negb (String.eqb b "") then
                mthrow (foreignBranchMessage taskId b)
              else mret tt
          | None => mret tt
          end;;
          let hasTargetMilestone :=
            match targetMilestone params with Some _ => true | None => false end in
          let normalizedTargetMilestone :=
            match targetMilestone params with
            | Some (Some m) =>
                if String.eqb (JsString.trim m) "" then None else Some (JsString.trim m)
            | _ => None
            end in
          let validOrderedIds :=
            List.filter
              (fun i => existsb (fun t => String.eqb (id t) i) validTasks)
              orderedTaskIds in
          match indexOfId taskId validOrderedIds with
          | None =>
              mthrow "Implementation error: Task found in validTasks but index missing"
          | Some targetIndex =>
              let previousTask :=
                if (0 <? targetIndex)%nat then validTasks !! (targetIndex - 1)%nat
                else None in
              let nextTask :=
                if (Z.of_nat targetIndex <? Z.of_nat (length validTasks) - 1)
                then validTasks !! (targetIndex + 1)%nat
                else None in
              let '(newOrdinal, requiresRebalance) :=
                calculateNewOrdinal previousTask nextTask defaultStep in
              let updatedMoved :=
                set_ordinal
                  (let t := set_status movedTask targetStatus in
                   if hasTargetMilestone then set_milestone t normalizedTargetMilestone
                   else t)
                  (Some newOrdinal) in
              let tasksInOrder :=
                imap (fun index task =>
                        if Nat.eqb index targetIndex then updatedMoved else task)
                  validTasks in
              let resolutionUpdates :=
                resolveOrdinalConflicts tasksInOrder
                  (Reorder.mkOptions defaultStep defaultStep requiresRebalance) in
              let updatesMap :=
                JsMap.of_entries (map (fun u => (id u, u)) resolutionUpdates) in
              let updatesMap :=
                if JsMap.has (id updatedMoved) updatesMap then updatesMap
                else JsMap.set (id updatedMoved) updatedMoved updatesMap in
              let originalMap :=
                JsMap.of_entries (map (fun t => (id t, t)) validTasks) in
              let changedEntries :=
                List.filter
                  (fun e =>
                     match JsMap.get (id (snd e)) originalMap with
                     | None => true
                     | Some original =>
                         ordinalDiffers (ordinal original) (ordinal (snd e))
                         || negb (String.eqb (status original) (status (snd e)))
                         || negb (String.eqb (default "" (milestone original))
                                    (default "" (milestone (snd e))))
                     end)
                  updatesMap in
              let changedTasks := map snd changedEntries in
              saved ←
                (if Nat.eqb (length changedTasks) 0 then mret []
                 else
                   updateTasksBulk changedTasks
                     (Some (default ("Reorder tasks in " +:+ targetStatus)
                              (commitMessage params)))
                     (p_autoCommit params));
              (* the saved objects are the ones held by [updatesMap] *)
              let updatesMap :=
                fold_left (fun m p => JsMap.set (fst (fst p)) (snd p) m)
                  (zip changedEntries saved) updatesMap in
              let updatedTask := default updatedMoved (JsMap.get taskId updatesMap) in
              mret (updatedTask, saved)
          end
      end
  end.

(** *** Reading does not write *)

Definition findTask (w : World) (taskId : string) : option Task :=
  match List.find (fun task => taskIdsEqual taskId (id task)) (storeTasks w) with
  | Some task => Some task
  | None => files w !! normalizeTaskId taskId
  end.

Lemma getTask_reads taskId w : getTask taskId w = (Ok (findTask w taskId), w).
Proof.
  unfold getTask, findTask, getStoreTasks, mbind, M_bind.
  destruct (List.find _ (storeTasks w)); done.
Qed.

Lemma mapM_getTask_reads ids w :
  mapM getTask ids w = (Ok (map (findTask w) ids), w).
Proof.
  induction ids as [|i ids IH]; simpl; [done|].
  unfold mbind, M_bind at 1. rewrite getTask_reads.
  unfold mbind, M_bind at 1. rewrite IH. done.
Qed.

Lemma inb_spec x l : inb x l = true <-> x ∈ l.
Proof.
  induction l as [|y l IH]; simpl.
  - split; [done|]. intros H. by apply elem_of_nil in H.
  - rewrite orb_true_iff, IH, elem_of_cons, String.eqb_eq. done.
Qed.

Lemma firstDuplicate_None seen ids :
  firstDuplicate seen ids = None -> NoDup ids.
Proof.
  revert seen. induction ids as [|i ids IH]; intros seen; simpl.
  - intros _. apply NoDup_nil_2.
  - destruct (bool_decide (i ∈ seen)) eqn:E; [done|]. intros H.
    apply NoDup_cons_2; [|by apply (IH (seen ∪ {[i]}))].
    clear IH E. intros Hin.
    assert (Hgen : forall seen', i ∈ seen' -> firstDuplicate seen' ids <> None).
    { clear H. induction ids as [|j ids IH]; intros seen' Hs;
        [by apply elem_of_nil in Hin|]. simpl.
      destruct (bool_decide (j ∈ seen')) eqn:E; [done|].
      apply bool_decide_eq_false in E.
      apply elem_of_cons in Hin as [->|Hin]; [done|].
      apply IH; [done|]. set_solver. }
    apply (Hgen (seen ∪ {[i]})); [set_solver|done].
Qed.

(** C5. When the trimmed id list of a [reorderTask] call is empty, holds
    an id twice, or lacks the id of the task being moved, the call throws
    one of the validation messages and leaves the world as it was: no
    record is saved, nothing is committed, no callback runs. *)
Theorem reorderTask_rejects_malformed_order params w :
  trimmedIds (orderedTaskIds params) = [] \/
  ~ NoDup (trimmedIds (orderedTaskIds params)) \/
  JsString.trim (taskId params) ∉ trimmedIds (orderedTaskIds params) ->
  exists msg,
    reorderValidation params = Some msg /\
    reorderTask params w = (Err msg, w).
Proof.
  intros H.
  assert (Hv : exists msg, reorderValidation params = Some msg).
  { unfold reorderValidation.
    destruct (String.eqb (JsString.trim (taskId params)) ""); [by eexists|].
    destruct (String.eqb (JsString.trim (targetStatus params)) ""); [by eexists|].
    destruct (Nat.eqb (length (trimmedIds (orderedTaskIds params))) 0) eqn:El;
      [by eexists|].
    destruct (inb _ _) eqn:Ein; simpl; [|by eexists].
    destruct (firstDuplicate ∅ _) eqn:Ed; [by eexists|].
    exfalso. destruct H as [H|[H|H]].
    - rewrite H in El. done.
    - apply H. by apply (firstDuplicate_None ∅).
    - apply H. by apply inb_spec. }
  destruct Hv as [msg Hv]. exists msg. split; [done|].
  unfold reorderTask. by rewrite Hv.
Qed.

Lemma valid_loaded_tasks w ids :
  omap (fun t => t) (map (findTask w) ids) = omap (findTask w) ids.
Proof.
  induction ids as [|i l IH]; [done|].
  csimpl. destruct (findTask w i); csimpl; by rewrite IH.
Qed.

Lemma reorderTask_missing params w :
  reorderValidation params = None ->
  (forall i t,
     i ∈ trimmedIds (orderedTaskIds params) -> findTask w i = Some t ->
     id t <> JsString.trim (taskId params)) ->
  reorderTask params w = (Err (notFoundMessage (JsString.trim (taskId params))), w).
Proof.
  intros Hv Hnone. unfold reorderTask. rewrite Hv.
  unfold mbind, M_bind at 1. rewrite mapM_getTask_reads, valid_loaded_tasks.
  destruct (List.find _ _) as [t|] eqn:Hfind; [|done].
  exfalso. apply find_some in Hfind as [Hin Hid].
  apply String.eqb_eq in Hid.
  apply list_elem_of_In, list_elem_of_omap in Hin as (i & Hi & Hf).
  by apply (Hnone i t).
Qed.

(** C6. In a [reorderTask] call that passes the argument checks: when the
    record found for the task being moved carries a non-empty branch, the
    call throws the message that names that branch; when none of the
    requested ids loads a record with the id of the task being moved, it
    throws the not-found message. Either way the world is left as it was.
    In particular, where an id compares equal to itself and a stored
    record can be loaded by its own id, a task that [getTask] cannot load
    gets the not-found message. *)
Theorem reorderTask_rejects_foreign_or_missing params w :
  reorderValidation params = None ->
  (forall movedTask b,
     List.find (fun t => String.eqb (id t) (JsString.trim (taskId params)))
       (omap (findTask w) (trimmedIds (orderedTaskIds params))) = Some movedTask ->
     branch movedTask = Some b -> b <> "" ->
     reorderTask params w =
       (Err (foreignBranchMessage (JsString.trim (taskId params)) b), w)) /\
  ((forall i t,
      i ∈ trimmedIds (orderedTaskIds params) -> findTask w i = Some t ->
      id t <> JsString.trim (taskId params)) ->
   reorderTask params w = (Err (notFoundMessage (JsString.trim (taskId params))), w)) /\
  ((forall a, taskIdsEqual a a = true) ->
   (forall k t, files w !! k = Some t -> is_Some (files w !! normalizeTaskId (id t))) ->
   findTask w (JsString.trim (taskId params)) = None ->
   reorderTask params w = (Err (notFoundMessage (JsString.trim (taskId params))), w)).
Proof.
  intros Hv. split; [|split].
  - intros movedTask b Hfind Hb Hne.
    unfold reorderTask. rewrite Hv.
    unfold mbind, M_bind at 1.
    rewrite mapM_getTask_reads, valid_loaded_tasks, Hfind, Hb.
    destruct (String.eqb_spec b ""); [done|]. done.
  - by apply reorderTask_missing.
  - intros Hrefl Hown Hnone. apply reorderTask_missing; [done|].
    intros i t _ Hf Hid. unfold findTask in Hnone, Hf.
    destruct (List.find (fun task => taskIdsEqual (JsString.trim (taskId params)) (id task))
                (storeTasks w)) as [t0|] eqn:Hstore0; [done|].
    destruct (List.find (fun task => taskIdsEqual i (id task)) (storeTasks w))
      as [t1|] eqn:Hstore1.
    + injection Hf as ->. apply find_some in Hstore1 as [Hin _].
      apply (find_none _ _ Hstore0) in Hin. by rewrite Hid, Hrefl in Hin.
    + apply Hown in Hf as [t2 Ht2]. rewrite Hid in Ht2. congruence.
Qed.
End Mutations.

(** *** Concrete reorder calls *)

(** [reorderTask] with the helpers instantiated: ids compared literally,
    a moved task placed at the default step, the ordinal repair of the
    specification. *)
Definition sampleReorder : ReorderParams -> M (Task * list Task) :=
  reorderTask None "2025-06-01 12:00" (fun t => t) String.eqb (fun s => s) 1000
    (fun _ _ step => (step, false)) Reorder.resolveOrdinalConflicts.

Definition sampleWorld : World :=
  mkWorld []
    (list_to_map
       [("task-1", Reorder.bucketTask "task-1" (Some 1000));
        ("task-2", Reorder.bucketTask "task-2" (Some 2000));
        ("task-3", taskCopy "task-3" "To Do" 100 (Some src_local_branch) (Some "feature"))])
    [].

(** A well-formed call writes: moving task-2 in front of task-1 saves both. *)
Example reorderTask_writes :
  map (fun e => match e with SaveTask t => (id t, ordinal t) | _ => ("", None) end)
    (events
       (sampleReorder
          (mkReorderParams "task-2" "In Progress" ["task-2"; "task-1"]
             None None None None)
          sampleWorld).2)
  = [("task-2", Some 1000); ("task-1", Some 2000)].
Proof. vm_compute. reflexivity. Qed.

Lemma reorderTask_duplicate_example :
  exists msg,
    reorderValidation
      (mkReorderParams "task-2" "In Progress" ["task-2"; "task-1"; " task-2 "]
         None None None None) = Some msg /\
    sampleReorder
      (mkReorderParams "task-2" "In Progress" ["task-2"; "task-1"; " task-2 "]
         None None None None)
      sampleWorld = (Err msg, sampleWorld).
Proof.
  apply (reorderTask_rejects_malformed_order None "2025-06-01 12:00" (fun t => t)
           String.eqb (fun s => s) 1000 (fun _ _ step => (step, false))
           Reorder.resolveOrdinalConflicts).
  right. left. vm_compute. intros H.
  apply NoDup_cons in H as [H _]. apply H.
  apply elem_of_cons. right. apply elem_of_cons. by left.
Defined.

Lemma reorderTask_foreign_and_missing_example :
  sampleReorder
    (mkReorderParams "task-3" "In Progress" ["task-1"; "task-3"] None None None None)
    sampleWorld
    = (Err (foreignBranchMessage "task-3" "feature"), sampleWorld) /\
  sampleReorder
    (mkReorderParams "task-9" "In Progress" ["task-1"; "task-9"] None None None None)
    sampleWorld
    = (Err (notFoundMessage "task-9"), sampleWorld).
Proof.
  split.
  - apply (proj1 (reorderTask_rejects_foreign_or_missing None "2025-06-01 12:00"
             (fun t => t) String.eqb (fun s => s) 1000 (fun _ _ step => (step, false))
             Reorder.resolveOrdinalConflicts
             (mkReorderParams "task-3" "In Progress" ["task-1"; "task-3"]
                None None None None)
             sampleWorld eq_refl)
           (taskCopy "task-3" "To Do" 100 (Some src_local_branch) (Some "feature"))
           "feature"); [vm_compute; reflexivity|reflexivity|discriminate].
  - apply (proj1 (proj2 (reorderTask_rejects_foreign_or_missing None "2025-06-01 12:00"
             (fun t => t) String.eqb (fun s => s) 1000 (fun _ _ step => (step, false))
             Reorder.resolveOrdinalConflicts
             (mkReorderParams "task-9" "In Progress" ["task-1"; "task-9"]
                None None None None)
             sampleWorld eq_refl))).
    intros i t Hi Hf.
    apply elem_of_cons in Hi as [->|Hi].
    + vm_compute in Hf. injection Hf as <-. discriminate.
    + apply list_elem_of_singleton in Hi as ->. vm_compute in Hf. discriminate.
Defined.

(** ** Field updates (core.ts, [updateTaskFromInput]) *)
Section Updates.
Variable config : option BacklogConfig.
Variable now : string.
Variable normalizeAssignee : Task -> Task.
(** utils/task-builders.ts and utils/status.ts: taken as given. *)
Variable normalizeStringList : option (list string) -> option (list string).
Variable stringArraysEqual : list string -> list string -> bool.
Variable normalizeDependencies : option (list string) -> list string.
(** [validateDependencies(ids, core)]: the valid and the invalid ids. *)
Variable validateDependencies : World -> list string -> list string * list string.
Variable resolveCanonicalStatus : string -> option string.
Variable validStatuses : list string.

(** The task being edited and the [mutated] flag. *)
Definition UState : Type := Task * bool.

(** [requireCanonicalStatus] *)
Definition requireCanonicalStatus (status : string) : result string :=
  match resolveCanonicalStatus status with
  | Some canonical =>
      if negb (String.eqb canonical "") then Ok canonical
      else Err ("Invalid status: " +:+ status +:+ ". Valid statuses are: "
                +:+ JsString.join ", " validStatuses)
  | None =>
      Err ("Invalid status: " +:+ status +:+ ". Valid statuses are: "
           +:+ JsString.join ", " validStatuses)
  end.

(** [normalizePriority] *)
Definition normalizePriority (value : option string) : result (option Priority) :=
  match value with
  | None => Ok None
  | Some v =>
      if String.eqb v "" then Ok None
      else
        let normalized := JsString.toLowerCase v in
        if String.eqb normalized "high" then Ok (Some high)
        else if String.eqb normalized "medium" then Ok (Some medium)
        else if String.eqb normalized "low" then Ok (Some low)
        else Err ("Invalid priority: " +:+ v +:+ ". Valid values are: high, medium, low")
  end.

(** The [applyStringField] closure. *)
Definition applyStringField (value : option string) (current : Task -> option string)
    (assign : Task -> string -> Task) (s : UState) : UState :=
  match value with
  | Some next =>
      if negb (String.eqb (default "" (current (fst s))) next)
      then (assign (fst s) next, true)
      else s
  | None => s
  end.

Definition applyTitle (input : UpdateInput.t) (s : UState) : result UState :=
  match UpdateInput.title input with
  | Some v =>
      let trimmed := JsString.trim v in
      if Nat.eqb (String.length trimmed) 0 then Err "Title cannot be empty."
      else if negb (String.eqb (title (fst s)) trimmed)
           then Ok (set_title (fst s) trimmed, true)
           else Ok s
  | None => Ok s
  end.

Definition applyStatus (input : UpdateInput.t) (s : UState) : result UState :=
  match UpdateInput.status input with
  | Some v =>
      canonicalStatus ←
        (if String.eqb (JsString.toLowerCase (JsString.trim v)) "draft"
         then Ok "Draft" else requireCanonicalStatus v);
      if negb (String.eqb (status (fst s)) canonicalStatus)
      then Ok (set_status (fst s) canonicalStatus, true)
      else Ok s
  | None => Ok s
  end.

Definition applyPriority (input : UpdateInput.t) (s : UState) : result UState :=
  match UpdateInput.priority input with
  | Some v =>
      normalizedPriority ← normalizePriority (Some v);
      if bool_decide (priority (fst s) = normalizedPriority) then Ok s
      else Ok (set_priority (fst s) normalizedPriority, true)
  | None => Ok s
  end.

Definition applyMilestone (input : UpdateInput.t) (s : UState) : UState :=
  match UpdateInput.milestone input with
  | Some v =>
      let normalizedMilestone :=
        match v with
        | None => None
        | Some m => if String.eqb (JsString.trim m) "" then None else Some (JsString.trim m)
        end in
      if bool_decide (milestone (fst s) = normalizedMilestone) then s
      else (set_milestone (fst s) normalizedMilestone, true)
  | None => s
  end.

Definition applyOrdinal (input : UpdateInput.t) (s : UState) : result UState :=
  match UpdateInput.ordinal input with
  | Some o =>
      if o <? 0 then Err "Ordinal must be a non-negative number."
      else if bool_decide (ordinal (fst s) = Some o) then Ok s
      else Ok (set_ordinal (fst s) (Some o), true)
  | None => Ok s
  end.

Definition applyAssignee (input : UpdateInput.t) (s : UState) : UState :=
  match UpdateInput.assignee input with
  | Some v =>
      let sanitizedAssignee := default [] (normalizeStringList (Some v)) in
      if negb (stringArraysEqual sanitizedAssignee (assignee (fst s)))
      then (set_assignee (fst s) sanitizedAssignee, true)
      else s
  | None => s
  end.

(** The loop of [addLabels]: a label is pushed unless its lower-case form
    is in the set already. Returns the labels and whether one was pushed. *)
Fixpoint pushNewLabels (labelSet current toAdd : list string) : list string * bool :=
  match toAdd with
  | [] => (current, false)
  | label :: rest =>
      if inb (JsString.toLowerCase label) labelSet then
        pushNewLabels labelSet current rest
      else
        let '(final, _) :=
          pushNewLabels (labelSet ++ [JsString.toLowerCase label])
            (current ++ [label]) rest in
        (final, true)
  end.

(** [resolveLabelChanges] *)
Definition resolveLabelChanges (input : UpdateInput.t) (s : UState) : UState :=
  let '(task, mutated) := s in
  let currentLabels := labels task in
  let '(task, mutated, currentLabels) :=
    match UpdateInput.labels input with
    | Some v =>
        let sanitizedLabels := default [] (normalizeStringList (Some v)) in
        if negb (stringArraysEqual sanitizedLabels currentLabels)
        then (set_labels task sanitizedLabels, true, sanitizedLabels)
        else (task, mutated, sanitizedLabels)
    | None => (task, mutated, currentLabels)
    end in
  let labelsToAdd := default [] (normalizeStringList (UpdateInput.addLabels input)) in
  let '(task, mutated, currentLabels) :=
    match labelsToAdd with
    | [] => (task, mutated, currentLabels)
    | _ =>
        let '(final, pushed) :=
          pushNewLabels (map JsString.toLowerCase currentLabels) currentLabels
            labelsToAdd in
        (set_labels task final, mutated || pushed, final)
    end in
  let labelsToRemove := default [] (normalizeStringList (UpdateInput.removeLabels input)) in
  match labelsToRemove with
  | [] => (task, mutated)
  | _ =>
      let removalSet := map JsString.toLowerCase labelsToRemove in
      let filtered :=
        List.filter (fun label => negb (inb (JsString.toLowerCase label) removalSet))
          currentLabels in
      if negb (stringArraysEqual filtered currentLabels)
      then (set_labels task filtered, true)
      else (task, mutated)
  end.

(** The loop of [addDependencies]. *)
Fixpoint pushNewDependencies (depSet current toAdd : list string) : list string * bool :=
  match toAdd with
  | [] => (current, false)
  | dep :: rest =>
      if inb dep depSet then pushNewDependencies depSet current rest
      else
        let '(final, _) :=
          pushNewDependencies (depSet ++ [dep]) (current ++ [dep]) rest in
        (final, true)
  end.

Definition missingDependencies (invalid : list string) : string :=
  "The following dependencies do not exist: " +:+ JsString.join ", " invalid +:+
  ". Please create these tasks first or verify the IDs.".

(** [resolveDependencies] *)
Definition resolveDependencies (w : World) (input : UpdateInput.t) (s : UState)
    : result UState :=
  let '(task, mutated) := s in
  let currentDependencies := dependencies task in
  '(mutated, currentDependencies) ←
    match UpdateInput.dependencies input with
    | Some v =>
        let normalized := normalizeDependencies (Some v) in
        let '(valid, invalid) := validateDependencies w normalized in
        match invalid with
        | _ :: _ => Err (missingDependencies invalid)
        | [] =>
            if negb (stringArraysEqual valid currentDependencies)
            then Ok (true, valid)
            else Ok (mutated, currentDependencies)
        end
    | None => Ok (mutated, currentDependencies)
    end;
  '(mutated, currentDependencies) ←
    match UpdateInput.addDependencies input with
    | Some ((_ :: _) as v) =>
        let additions := normalizeDependencies (Some v) in
        let '(valid, invalid) := validateDependencies w additions in
        match invalid with
        | _ :: _ => Err (missingDependencies invalid)
        | [] =>
            let '(final, pushed) :=
              pushNewDependencies currentDependencies currentDependencies valid in
            Ok (mutated || pushed, final)
        end
    | _ => Ok (mutated, currentDependencies)
    end;
  let '(mutated, currentDependencies) :=
    match UpdateInput.removeDependencies input with
    | Some ((_ :: _) as v) =>
        let removals := normalizeDependencies (Some v) in
        let filtered :=
          List.filter (fun dep => negb (inb dep removals)) currentDependencies in
        if negb (stringArraysEqual filtered currentDependencies)
        then (true, filtered)
        else (mutated, currentDependencies)
    | _ => (mutated, currentDependencies)
    end in
  Ok (set_dependencies task currentDependencies, mutated).

(** [sanitizeAppendInput] *)
Definition sanitizeAppendInput (values : option (list string)) : list string :=
  match values with
  | None => []
  | Some vs =>
      List.filter (fun v => negb (Nat.eqb (String.length v) 0)) (map JsString.trim vs)
  end.

(** [appendBlock]: the new value and whether it changed. *)
Definition appendBlock (existing : option string) (additions : list string)
    : option string * bool :=
  let sanitizedAdditions :=
    List.filter (fun v => negb (Nat.eqb (String.length v) 0))
      (map JsString.trim additions) in
  match sanitizedAdditions with
  | [] => (existing, false)
  | _ =>
      let current := JsString.trim (default "" existing) in
      let additionBlock :=
        JsString.join (JsString.newline +:+ JsString.newline) sanitizedAdditions in
      if Nat.eqb (String.length current) 0 then (Some additionBlock, true)
      else (Some (current +:+ JsString.newline +:+ JsString.newline +:+ additionBlock),
            true)
  end.

(** Clear, set and append of one free-text section. *)
Definition applySection (clear : option bool) (value : option string)
    (appends : option (list string)) (current : Task -> option string)
    (assign : Task -> option string -> Task) (s : UState) : UState :=
  let s :=
    match clear with
    | Some true =>
        match current (fst s) with
        | Some _ => (assign (fst s) None, true)
        | None => s
        end
    | _ => s
    end in
  let s := applyStringField value current (fun t next => assign t (Some next)) s in
  match sanitizeAppendInput appends with
  | [] => s
  | additions =>
      let '(value, changed) := appendBlock (current (fst s)) additions in
      if changed then (assign (fst s) value, true) else s
  end.

(** Criteria with their indices renumbered from [from]. *)
Fixpoint numberFrom (from : Z) (items : list (string * bool)) : list AcceptanceCriterion :=
  match items with
  | [] => []
  | (text, checked) :: rest => mkCriterion from text checked :: numberFrom (from + 1) rest
  end.

(** [Math.max(...indices)] of a non-empty list. *)
Definition maxIndex (criteria : list AcceptanceCriterion) : Z :=
  match criteria with
  | [] => 0
  | c :: rest => fold_left Z.max (map index rest) (index c)
  end.

(** [criteria.find((item) => item.index === i).checked = checked]: the
    first criterion of that index; [None] when there is none. *)
Fixpoint toggleOne (i : Z) (state : bool) (criteria : list AcceptanceCriterion)
    : option (list AcceptanceCriterion * bool) :=
  match criteria with
  | [] => None
  | c :: rest =>
      if index c =? i then
        if Bool.eqb (checked c) state then Some (criteria, false)
        else Some (mkCriterion (index c) (text c) state :: rest, true)
      else
        match toggleOne i state rest with
        | Some (rest', changed) => Some (c :: rest', changed)
        | None => None
        end
  end.

(** [Array.from(new Set(indices))]: first occurrences, in order. *)
Fixpoint distinctIndices (seen indices : list Z) : list Z :=
  match indices with
  | [] => []
  | i :: rest =>
      if existsb (Z.eqb i) seen then distinctIndices seen rest
      else i :: distinctIndices (i :: seen) rest
  end.

Definition hashList (indices : list Z) : string :=
  JsString.join ", " (map (fun i => "#" +:+ JsString.numberToString i) indices).

(** [toggleCriteria]: every index is visited; the missing ones are
    reported together after the loop. *)
Fixpoint toggleAll (indices : list Z) (state : bool)
    (acc : list AcceptanceCriterion * bool * list Z)
    : list AcceptanceCriterion * bool * list Z :=
  match indices with
  | [] => acc
  | i :: rest =>
      let '(criteria, mutated, missing) := acc in
      match toggleOne i state criteria with
      | Some (criteria', changed) =>
          toggleAll rest state (criteria', mutated || changed, missing)
      | None => toggleAll rest state (criteria, mutated, missing ++ [i])
      end
  end.

Definition toggleCriteria (indices : option (list Z)) (state : bool)
    (criteria : list AcceptanceCriterion) (mutated : bool)
    : result (list AcceptanceCriterion * bool) :=
  match indices with
  | Some ((_ :: _) as l) =>
      let '(criteria', mutated', missing) := toggleAll l state (criteria, mutated, []) in
      match missing with
      | [] => Ok (criteria', mutated')
      | _ => Err ("Acceptance criterion " +:+ hashList missing +:+ " not found")
      end
  | _ => Ok (criteria, mutated)
  end.

(** The acceptance criteria after the input is applied. *)
Definition resolveCriteria (input : UpdateInput.t) (s : UState)
    : result (list AcceptanceCriterion * bool) :=
  let '(task, mutated) := s in
  let acceptanceCriteria := default [] (acceptanceCriteriaItems task) in
  let '(acceptanceCriteria, mutated) :=
    match UpdateInput.acceptanceCriteria input with
    | Some cs =>
        (numberFrom 1
           (List.filter (fun c => negb (Nat.eqb (String.length (fst c)) 0))
              (map (fun c => (JsString.trim (in_text c), default false (in_checked c)))
                 cs)),
         true)
    | None => (acceptanceCriteria, mutated)
    end in
  let '(acceptanceCriteria, mutated) :=
    match UpdateInput.addAcceptanceCriteria input with
    | Some ((_ :: _) as cs) =>
        let additions :=
          List.filter (fun text => negb (Nat.eqb (String.length text) 0))
            (map (fun c => match c with
                           | inl text => JsString.trim text
                           | inr c => JsString.trim (in_text c)
                           end) cs) in
        let first :=
          match acceptanceCriteria with
          | [] => 1
          | _ => maxIndex acceptanceCriteria + 1
          end in
        match additions with
        | [] => (acceptanceCriteria, mutated)
        | _ =>
            (acceptanceCriteria ++ numberFrom first (map (fun text => (text, false)) additions),
             true)
        end
    | _ => (acceptanceCriteria, mutated)
    end in
  '(acceptanceCriteria, mutated) ←
    match UpdateInput.removeAcceptanceCriteria input with
    | Some ((_ :: _) as removal) =>
        let kept :=
          List.filter (fun c => negb (existsb (Z.eqb (index c)) removal))
            acceptanceCriteria in
        if Nat.eqb (length kept) (length acceptanceCriteria) then
          Err ("Acceptance criterion " +:+ hashList (distinctIndices [] removal) +:+ " not found")
        else
          Ok (numberFrom 1 (map (fun c => (text c, checked c)) kept), true)
    | _ => Ok (acceptanceCriteria, mutated)
    end;
  '(acceptanceCriteria, mutated) ←
    toggleCriteria (UpdateInput.checkAcceptanceCriteria input) true
      acceptanceCriteria mutated;
  toggleCriteria (UpdateInput.uncheckAcceptanceCriteria input) false
    acceptanceCriteria mutated.

Definition applyCriteria (input : UpdateInput.t) (s : UState) : result UState :=
  '(acceptanceCriteria, mutated) ← resolveCriteria input s;
  Ok (set_acceptanceCriteriaItems (fst s) (Some acceptanceCriteria), mutated).

Definition applyHistory (input : UpdateInput.t) (s : UState) : UState :=
  match UpdateInput.addToHistory input with
  | Some entry => (set_history (fst s) (Some (default [] (history (fst s)) ++ [entry])), true)
  | None => s
  end.

(** The body of [updateTaskFromInput] between loading the task and the
    test of [mutated]. *)
Definition applyUpdateInput (w : World) (input : UpdateInput.t) (task : Task)
    : result UState :=
  s ← applyTitle input (task, false);
  let s := applyStringField (UpdateInput.description input) description
             (fun t next => set_description t (Some next)) s in
  s ← applyStatus input s;
  s ← applyPriority input s;
  let s := applyMilestone input s in
  s ← applyOrdinal input s;
  let s := applyAssignee input s in
  let s := resolveLabelChanges input s in
  s ← resolveDependencies w input s;
  let s := applySection (UpdateInput.clearImplementationPlan input)
             (UpdateInput.implementationPlan input)
             (UpdateInput.appendImplementationPlan input)
             implementationPlan set_implementationPlan s in
  let s := applySection (UpdateInput.clearImplementationNotes input)
             (UpdateInput.implementationNotes input)
             (UpdateInput.appendImplementationNotes input)
             implementationNotes set_implementationNotes s in
  s ← applyCriteria input s;
  let s := applyStringField (UpdateInput.branchName input) branchName
             (fun t next => set_branchName t (Some next)) s in
  let s := applyStringField (UpdateInput.gitTag input) gitTag
             (fun t next => set_gitTag t (Some next)) s in
  let s := applyStringField (UpdateInput.prNumber input) prNumber
             (fun t next => set_prNumber t (Some next)) s in
  Ok (applyHistory input s).

(** [updateTaskFromInput] *)
Definition updateTaskFromInput (taskId : string) (input : UpdateInput.t)
    (autoCommit : option bool) : M Task :=
  loaded ← fs_loadTask taskId;
  match loaded with
  | None => mthrow ("Task not found: " +:+ taskId)
  | Some task =>
      '(task, mutated) ← inWorld (fun w => applyUpdateInput w input task);
      if negb mutated then mret task
      else
        task ← updateTask config now normalizeAssignee task autoCommit;
        refreshed ← fs_loadTask taskId;
        mret (default task refreshed)
  end.

(** *** An update that flags no mutation changes no field *)

(** A step is quiet when it never lowers the flag and, if it leaves the
    flag down, leaves the task as it was. *)
Definition Quiet (step : UState -> result UState) : Prop :=
  forall t m t' m',
    step (t, m) = Ok (t', m') ->
    (m = true -> m' = true) /\ (m' = false -> t' = t).

Definition QuietPure (step : UState -> UState) : Prop :=
  Quiet (fun s => Ok (step s)).

Lemma quiet_applyStringField value current assign :
  QuietPure (applyStringField value current assign).
Proof.
  intros t m t' m'. unfold applyStringField. simpl.
  destruct value as [next|]; [|by intros [= <- <-]].
  destruct (negb _); by intros [= <- <-].
Qed.

Lemma quiet_applyTitle input : Quiet (applyTitle input).
Proof.
  intros t m t' m'. unfold applyTitle. simpl.
  destruct (UpdateInput.title input) as [v|]; [|by intros [= <- <-]].
  destruct (Nat.eqb _ _); [done|].
  destruct (negb _); by intros [= <- <-].
Qed.

Lemma quiet_applyStatus input : Quiet (applyStatus input).
Proof.
  intros t m t' m'. unfold applyStatus. simpl.
  destruct (UpdateInput.status input) as [v|]; [|by intros [= <- <-]].
  destruct (if String.eqb _ "draft" then _ else _) as [c|]; simpl; [|done].
  destruct (negb _); by intros [= <- <-].
Qed.

Lemma quiet_applyPriority input : Quiet (applyPriority input).
Proof.
  intros t m t' m'. unfold applyPriority. cbn [fst].
  destruct (UpdateInput.priority input) as [v|]; [|by intros [= <- <-]].
  destruct (normalizePriority (Some v)) as [c|]; cbn [mbind result_bind]; [|done].
  destruct (bool_decide _); by intros [= <- <-].
Qed.

Lemma quiet_applyMilestone input : QuietPure (applyMilestone input).
Proof.
  intros t m t' m'. unfold applyMilestone. simpl.
  destruct (UpdateInput.milestone input) as [v|]; [|by intros [= <- <-]].
  destruct (bool_decide _); by intros [= <- <-].
Qed.

Lemma quiet_applyOrdinal input : Quiet (applyOrdinal input).
Proof.
  intros t m t' m'. unfold applyOrdinal. simpl.
  destruct (UpdateInput.ordinal input) as [o|]; [|by intros [= <- <-]].
  destruct (o <? 0); [done|].
  destruct (bool_decide _); by intros [= <- <-].
Qed.

Lemma quiet_applyAssignee input : QuietPure (applyAssignee input).
Proof.
  intros t m t' m'. unfold applyAssignee. simpl.
  destruct (UpdateInput.assignee input) as [v|]; [|by intros [= <- <-]].
  destruct (negb _); by intros [= <- <-].
Qed.

Lemma quiet_applyHistory input : QuietPure (applyHistory input).
Proof.
  intros t m t' m'. unfold applyHistory. simpl.
  destruct (UpdateInput.addToHistory input); by intros [= <- <-].
Qed.

Lemma quiet_applySection clear value appends current assign :
  QuietPure (applySection clear value appends current assign).
Proof.
  intros t m t' m'. unfold applySection, QuietPure.
  set (s1 := match clear with
             | Some true => match current (fst (t, m)) with
                            | Some _ => (assign (fst (t, m)) None, true)
                            | None => (t, m)
                            end
             | _ => (t, m)
             end).
  assert (H1 : (m = true -> snd s1 = true) /\ (snd s1 = false -> fst s1 = t)).
  { subst s1. simpl. destruct clear as [[]|]; try done. by destruct (current t). }
  destruct s1 as [t1 m1]. simpl in H1.
  destruct (applyStringField value current (fun t next => assign t (Some next)) (t1, m1))
    as [t2 m2] eqn:E2.
  pose proof (quiet_applyStringField value current
                (fun t next => assign t (Some next)) t1 m1 t2 m2) as H2.
  simpl in H2. rewrite E2 in H2. specialize (H2 eq_refl).
  destruct (sanitizeAppendInput appends) as [|a additions].
  - intros [= <- <-]. split; [tauto|]. intros Hm. destruct H2 as [H2a H2b].
    rewrite H2b by done. apply H1. destruct m1; [by rewrite H2a in Hm|done].
  - destruct (appendBlock (current (fst (t2, m2))) (a :: additions)) as [v changed].
    destruct changed; intros [= <- <-]; [done|].
    split; [tauto|]. intros Hm. destruct H2 as [H2a H2b].
    rewrite H2b by done. apply H1. destruct m1; [by rewrite H2a in Hm|done].
Qed.

Lemma set_labels_same t : set_labels t (labels t) = t.
Proof. by destruct t. Qed.

Lemma set_dependencies_same t : set_dependencies t (dependencies t) = t.
Proof. by destruct t. Qed.

Lemma pushNewLabels_unpushed labelSet current toAdd final :
  pushNewLabels labelSet current toAdd = (final, false) -> final = current.
Proof.
  revert labelSet current. induction toAdd as [|l rest IH]; intros labelSet current; simpl.
  - by intros [= <-].
  - destruct (inb _ labelSet); [apply IH|].
    by destruct (pushNewLabels _ _ rest).
Qed.

Lemma pushNewDependencies_unpushed depSet current toAdd final :
  pushNewDependencies depSet current toAdd = (final, false) -> final = current.
Proof.
  revert depSet current. induction toAdd as [|l rest IH]; intros depSet current; simpl.
  - by intros [= <-].
  - destruct (inb _ depSet); [apply IH|].
    by destruct (pushNewDependencies _ _ rest).
Qed.

Section SoundComparison.
(** [stringArraysEqual] answers true only on equal arrays. *)
Hypothesis stringArraysEqual_sound : forall a b,
  stringArraysEqual a b = true -> a = b.

Lemma quiet_resolveLabelChanges input : QuietPure (resolveLabelChanges input).
Proof.
  intros t m t' m'. unfold resolveLabelChanges. simpl.
  set (first := match UpdateInput.labels input with
                | Some v =>
                    if negb (stringArraysEqual (default [] (normalizeStringList (Some v)))
                               (labels t))
                    then (set_labels t (default [] (normalizeStringList (Some v))), true,
                          default [] (normalizeStringList (Some v)))
                    else (t, m, default [] (normalizeStringList (Some v)))
                | None => (t, m, labels t)
                end).
  assert (H1 : (m = true -> first.1.2 = true) /\
               (first.1.2 = false -> first.1.1 = t /\ first.2 = labels t)).
  { subst first. destruct (UpdateInput.labels input) as [v|]; [|done].
    destruct (stringArraysEqual _ _) eqn:E; simpl; [|done].
    split; [done|]. intros _. split; [done|]. by apply stringArraysEqual_sound. }
  destruct first as [[t1 m1] l1]. simpl in H1.
  set (second := match default [] (normalizeStringList (UpdateInput.addLabels input)) with
                 | [] => (t1, m1, l1)
                 | _ :: _ =>
                     let '(final, pushed) :=
                       pushNewLabels (map JsString.toLowerCase l1) l1
                         (default [] (normalizeStringList (UpdateInput.addLabels input))) in
                     (set_labels t1 final, m1 || pushed, final)
                 end).
  assert (H2 : (m = true -> second.1.2 = true) /\
               (second.1.2 = false -> second.1.1 = t /\ second.2 = labels t)).
  { subst second.
    destruct (default [] (normalizeStringList (UpdateInput.addLabels input)))
      as [|a toAdd]; [done|].
    destruct (pushNewLabels _ l1 (a :: toAdd)) as [final pushed] eqn:Ep. simpl.
    split.
    - intros Hm. destruct H1 as [H1 _]. by rewrite H1.
    - intros [Hm1 Hp]%orb_false_iff. subst pushed.
      apply pushNewLabels_unpushed in Ep. subst final.
      destruct H1 as [_ H1]. destruct (H1 Hm1) as [-> ->].
      split; [apply set_labels_same|done]. }
  destruct second as [[t2 m2] l2]. simpl in H2.
  destruct (default [] (normalizeStringList (UpdateInput.removeLabels input)))
    as [|r toRemove].
  - intros [= <- <-]. split; [tauto|]. intros Hm. by apply H2.
  - destruct (negb _); intros [= <- <-]; [done|].
    split; [tauto|]. intros Hm. by apply H2.
Qed.
End SoundComparison.

Lemma quiet_resolveDependencies w input : Quiet (resolveDependencies w input).
Proof.
  intros t m t' m'. unfold resolveDependencies.
  set (first := match UpdateInput.dependencies input with
                | Some v =>
                    let '(valid, invalid) :=
                      validateDependencies w (normalizeDependencies (Some v)) in
                    match invalid with
                    | _ :: _ => Err (missingDependencies invalid)
                    | [] =>
                        if negb (stringArraysEqual valid (dependencies t))
                        then Ok (true, valid)
                        else Ok (m, dependencies t)
                    end
                | None => Ok (m, dependencies t)
                end).
  assert (H1 : forall m1 d1, first = Ok (m1, d1) ->
                 (m = true -> m1 = true) /\ (m1 = false -> d1 = dependencies t)).
  { subst first. intros m1 d1.
    destruct (UpdateInput.dependencies input) as [v|]; [|by intros [= <- <-]].
    destruct (validateDependencies w _) as [valid [|i invalid]]; [|done].
    destruct (negb _); by intros [= <- <-]. }
  destruct first as [[m1 d1]|]; [|done]. specialize (H1 m1 d1 eq_refl).
  cbn [mbind result_bind].
  set (second := match UpdateInput.addDependencies input with
                 | Some ((_ :: _) as v) =>
                     let '(valid, invalid) :=
                       validateDependencies w (normalizeDependencies (Some v)) in
                     match invalid with
                     | _ :: _ => Err (missingDependencies invalid)
                     | [] =>
                         let '(final, pushed) := pushNewDependencies d1 d1 valid in
                         Ok (m1 || pushed, final)
                     end
                 | _ => Ok (m1, d1)
                 end).
  assert (H2 : forall m2 d2, second = Ok (m2, d2) ->
                 (m1 = true -> m2 = true) /\ (m2 = false -> d2 = d1)).
  { subst second. intros m2 d2.
    destruct (UpdateInput.addDependencies input) as [[|a v]|];
      try by intros [= <- <-].
    destruct (validateDependencies w _) as [valid [|i invalid]]; [|done].
    destruct (pushNewDependencies d1 d1 valid) as [final pushed] eqn:Ep.
    intros [= <- <-]. split; [by intros ->|].
    intros [_ ->]%orb_false_iff. by apply pushNewDependencies_unpushed in Ep. }
  destruct second as [[m2 d2]|]; [|done]. specialize (H2 m2 d2 eq_refl).
  cbn [mbind result_bind].
  set (third := match UpdateInput.removeDependencies input with
                | Some ((_ :: _) as v) =>
                    if negb (stringArraysEqual
                               (List.filter
                                  (fun dep => negb (inb dep (normalizeDependencies (Some v))))
                                  d2) d2)
                    then (true, List.filter
                                  (fun dep => negb (inb dep (normalizeDependencies (Some v))))
                                  d2)
                    else (m2, d2)
                | _ => (m2, d2)
                end).
  assert (H3 : (m2 = true -> third.1 = true) /\ (third.1 = false -> third.2 = d2)).
  { subst third. destruct (UpdateInput.removeDependencies input) as [[|a v]|];
      try done. by destruct (negb _). }
  destruct third as [m3 d3]. simpl in H3. intros [= <- <-].
  split; [tauto|]. intros Hm3.
  destruct H3 as [H3a H3b]. destruct H2 as [H2a H2b]. destruct H1 as [H1a H1b].
  assert (m2 = false) by (destruct m2; [by rewrite H3a in Hm3|done]).
  assert (m1 = false) by (destruct m1; [rewrite H2a in *; done|done]).
  rewrite H3b, H2b, H1b by done. apply set_dependencies_same.
Qed.

Lemma toggleOne_unchanged i state criteria criteria' :
  toggleOne i state criteria = Some (criteria', false) -> criteria' = criteria.
Proof.
  revert criteria'. induction criteria as [|c rest IH]; intros criteria'; simpl; [done|].
  destruct (index c =? i).
  - destruct (Bool.eqb _ _); by intros [= <-].
  - destruct (toggleOne i state rest) as [[rest' changed]|]; [|done].
    intros [= <- ->]. by rewrite (IH rest').
Qed.

Lemma toggleAll_quiet indices state criteria mutated missing criteria' mutated' missing' :
  toggleAll indices state (criteria, mutated, missing) = (criteria', mutated', missing') ->
  (mutated = true -> mutated' = true) /\ (mutated' = false -> criteria' = criteria).
Proof.
  revert criteria mutated missing.
  induction indices as [|i rest IH]; intros criteria mutated missing; simpl.
  - by intros [= <- <- <-].
  - destruct (toggleOne i state criteria) as [[c1 changed]|] eqn:E1.
    + intros H. apply IH in H as [Ha Hb]. split.
      * intros ->. by apply Ha.
      * intros Hm. rewrite Hb by done.
        destruct mutated, changed; simpl in Ha; try (by rewrite Ha in Hm).
        by apply toggleOne_unchanged in E1.
    + apply IH.
Qed.

Lemma toggleCriteria_quiet indices state criteria mutated criteria' mutated' :
  toggleCriteria indices state criteria mutated = Ok (criteria', mutated') ->
  (mutated = true -> mutated' = true) /\ (mutated' = false -> criteria' = criteria).
Proof.
  unfold toggleCriteria. destruct indices as [[|i l]|]; try by intros [= <- <-].
  destruct (toggleAll (i :: l) state (criteria, mutated, [])) as [[c1 m1] missing] eqn:E.
  destruct missing; [|done]. intros [= <- <-].
  by apply toggleAll_quiet in E.
Qed.

Lemma resolveCriteria_quiet input t m criteria m' :
  resolveCriteria input (t, m) = Ok (criteria, m') ->
  (m = true -> m' = true) /\
  (m' = false -> criteria = default [] (acceptanceCriteriaItems t)).
Proof.
  unfold resolveCriteria.
  destruct (UpdateInput.acceptanceCriteria input) as [cs|].
  - (* a replacement always counts as a mutation *)
    set (c0 := numberFrom 1 _).
    set (second := match UpdateInput.addAcceptanceCriteria input with
                   | Some ((_ :: _) as cs) => _
                   | _ => (c0, true)
                   end).
    assert (H2 : second.2 = true).
    { subst second. destruct (UpdateInput.addAcceptanceCriteria input) as [[|a l]|];
        try done. by case_match. }
    destruct second as [c2 m2]. simpl in H2. subst m2.
    destruct (UpdateInput.removeAcceptanceCriteria input) as [[|r l]|];
      cbn [mbind result_bind].
    + destruct (toggleCriteria _ true c2 true) as [[c3 m3]|] eqn:E3; [|done].
      cbn [mbind result_bind]. intros E4.
      apply toggleCriteria_quiet in E3 as [E3 _], E4 as [E4 _].
      split; [by intros _; apply E4, E3|]. intros ->. by specialize (E4 (E3 eq_refl)).
    + destruct (Nat.eqb _ _); [done|]. cbn [mbind result_bind].
      destruct (toggleCriteria _ true _ true) as [[c3 m3]|] eqn:E3; [|done].
      cbn [mbind result_bind]. intros E4.
      apply toggleCriteria_quiet in E3 as [E3 _], E4 as [E4 _].
      split; [by intros _; apply E4, E3|]. intros ->. by specialize (E4 (E3 eq_refl)).
    + destruct (toggleCriteria _ true c2 true) as [[c3 m3]|] eqn:E3; [|done].
      cbn [mbind result_bind]. intros E4.
      apply toggleCriteria_quiet in E3 as [E3 _], E4 as [E4 _].
      split; [by intros _; apply E4, E3|]. intros ->. by specialize (E4 (E3 eq_refl)).
  - set (c0 := default [] (acceptanceCriteriaItems t)).
    set (second := match UpdateInput.addAcceptanceCriteria input with
                   | Some ((_ :: _) as cs) => _
                   | _ => (c0, m)
                   end).
    assert (H2 : (m = true -> second.2 = true) /\ (second.2 = false -> second.1 = c0)).
    { subst second. destruct (UpdateInput.addAcceptanceCriteria input) as [[|a l]|];
        try done. by case_match. }
    destruct second as [c2 m2]. simpl in H2.
    set (third := match UpdateInput.removeAcceptanceCriteria input with
                  | Some ((_ :: _) as removal) => _
                  | _ => Ok (c2, m2)
                  end).
    assert (H3 : forall c3 m3, third = Ok (c3, m3) ->
                   (m2 = true -> m3 = true) /\ (m3 = false -> c3 = c2)).
    { subst third. intros c3 m3.
      destruct (UpdateInput.removeAcceptanceCriteria input) as [[|r l]|];
        try by intros [= <- <-].
      destruct (Nat.eqb _ _); [done|]. by intros [= <- <-]. }
    destruct third as [[c3 m3]|]; [|done]. specialize (H3 c3 m3 eq_refl).
    cbn [mbind result_bind].
    destruct (toggleCriteria _ true c3 m3) as [[c4 m4]|] eqn:E4; [|done].
    cbn [mbind result_bind]. intros E5.
    apply toggleCriteria_quiet in E4 as [E4a E4b], E5 as [E5a E5b].
    destruct H2 as [H2a H2b], H3 as [H3a H3b].
    split; [tauto|]. intros Hm'.
    assert (m4 = false) by (destruct m4; [by rewrite E5a in Hm'|done]).
    assert (m3 = false) by (destruct m3; [rewrite E4a in *; done|done]).
    assert (m2 = false) by (destruct m2; [rewrite H3a in *; done|done]).
    rewrite E5b, E4b, H3b, H2b by done. done.
Qed.

Lemma quiet_back (t t' : Task) (m m' : bool) :
  (m = true -> m' = true) /\ (m' = false -> t' = t) ->
  m' = false -> m = false /\ t' = t.
Proof. intros [Ha Hb] Hm. split; [|by apply Hb]. destruct m; [by rewrite Ha in Hm|done]. Qed.

Section NoMutation.
Hypothesis stringArraysEqual_sound : forall a b,
  stringArraysEqual a b = true -> a = b.

(** The task that [applyUpdateInput] hands back with the flag down is the
    loaded task; only an absent criteria list has become the empty list. *)
Lemma applyUpdateInput_unflagged w input task task' :
  applyUpdateInput w input task = Ok (task', false) ->
  task' = set_acceptanceCriteriaItems task
            (Some (default [] (acceptanceCriteriaItems task))).
Proof.
  unfold applyUpdateInput.
  destruct (applyTitle input (task, false)) as [[t1 m1]|] eqn:E1; [|done].
  cbn [mbind result_bind]. cbv zeta.
  destruct (applyStringField (UpdateInput.description input) _ _ (t1, m1))
    as [t2 m2] eqn:E2.
  destruct (applyStatus input (t2, m2)) as [[t3 m3]|] eqn:E3; [|done].
  cbn [mbind result_bind].
  destruct (applyPriority input (t3, m3)) as [[t4 m4]|] eqn:E4; [|done].
  cbn [mbind result_bind].
  destruct (applyMilestone input (t4, m4)) as [t5 m5] eqn:E5.
  destruct (applyOrdinal input (t5, m5)) as [[t6 m6]|] eqn:E6; [|done].
  cbn [mbind result_bind].
  destruct (applyAssignee input (t6, m6)) as [t7 m7] eqn:E7.
  destruct (resolveLabelChanges input (t7, m7)) as [t8 m8] eqn:E8.
  destruct (resolveDependencies w input (t8, m8)) as [[t9 m9]|] eqn:E9; [|done].
  cbn [mbind result_bind].
  destruct (applySection (UpdateInput.clearImplementationPlan input) _ _ _ _ (t9, m9))
    as [t10 m10] eqn:E10.
  destruct (applySection (UpdateInput.clearImplementationNotes input) _ _ _ _ (t10, m10))
    as [t11 m11] eqn:E11.
  unfold applyCriteria.
  destruct (resolveCriteria input (t11, m11)) as [[criteria m12]|] eqn:E12; [|done].
  cbn [mbind result_bind fst].
  destruct (applyStringField (UpdateInput.branchName input) _ _ _) as [t13 m13] eqn:E13.
  destruct (applyStringField (UpdateInput.gitTag input) _ _ (t13, m13))
    as [t14 m14] eqn:E14.
  destruct (applyStringField (UpdateInput.prNumber input) _ _ (t14, m14))
    as [t15 m15] eqn:E15.
  intros E16. injection E16 as E16.
  apply (f_equal Ok) in E16, E15, E14, E13, E11, E10, E8, E7, E5, E2.
  apply quiet_applyHistory, quiet_back in E16 as [-> ->]; [|done].
  apply quiet_applyStringField, quiet_back in E15 as [-> ->]; [|done].
  apply quiet_applyStringField, quiet_back in E14 as [-> ->]; [|done].
  apply quiet_applyStringField, quiet_back in E13 as [-> ->]; [|done].
  apply resolveCriteria_quiet in E12 as [E12a E12b].
  rewrite E12b by done.
  assert (m11 = false) as -> by (destruct m11; [by specialize (E12a eq_refl)|done]).
  apply quiet_applySection, quiet_back in E11 as [-> ->]; [|done].
  apply quiet_applySection, quiet_back in E10 as [-> ->]; [|done].
  apply quiet_resolveDependencies, quiet_back in E9 as [-> ->]; [|done].
  apply quiet_resolveLabelChanges, quiet_back in E8 as [-> ->]; [|done|done].
  apply quiet_applyAssignee, quiet_back in E7 as [-> ->]; [|done].
  apply quiet_applyOrdinal, quiet_back in E6 as [-> ->]; [|done].
  apply quiet_applyMilestone, quiet_back in E5 as [-> ->]; [|done].
  apply quiet_applyPriority, quiet_back in E4 as [-> ->]; [|done].
  apply quiet_applyStatus, quiet_back in E3 as [-> ->]; [|done].
  apply quiet_applyStringField, quiet_back in E2 as [-> ->]; [|done].
  apply quiet_applyTitle, quiet_back in E1 as [_ ->]; [|done].
  done.
Qed.

End NoMutation.

(** *** The inputs that leave the flag down *)

(** A text field asks for nothing when it is absent or spells the current
    value, an absent value reading as the empty text. *)
Definition sameText (value current : option string) : Prop :=
  forall next, value = Some next -> default "" current = next.

(** The status that [input.status] stands for. *)
Definition givenStatus (v : string) : result string :=
  if String.eqb (JsString.toLowerCase (JsString.trim v)) "draft"
  then Ok "Draft" else requireCanonicalStatus v.

(** The milestone that [input.milestone] stands for. *)
Definition givenMilestone (v : option string) : option string :=
  match v with
  | None => None
  | Some m => if String.eqb (JsString.trim m) "" then None else Some (JsString.trim m)
  end.

(** [normalizeStringList(v) ?? []] *)
Definition listed (v : option (list string)) : list string :=
  default [] (normalizeStringList v).

(** The texts that [input.addAcceptanceCriteria] adds. *)
Definition givenCriteria (cs : list (string + AcceptanceCriterionInput)) : list string :=
  List.filter (fun text => negb (Nat.eqb (String.length text) 0))
    (map (fun c => match c with
                   | inl text => JsString.trim text
                   | inr c => JsString.trim (in_text c)
                   end) cs).

(** [criteria.find((item) => item.index === i)] *)
Definition criterionAt (i : Z) (criteria : list AcceptanceCriterion)
    : option AcceptanceCriterion :=
  List.find (fun c => index c =? i) criteria.

(** The input asks for nothing that the task does not have already: every
    field supplied stands for the value the task carries, what is to be
    added is there, what is to be removed is not, nothing is cleared or
    appended, and neither a list of acceptance criteria nor a history entry
    is supplied. *)
Record Unchanging (w : World) (input : UpdateInput.t) (task : Task) : Prop := {
  idle_title : forall v, UpdateInput.title input = Some v ->
    JsString.trim v = title task /\ title task <> "";
  idle_description : sameText (UpdateInput.description input) (description task);
  idle_status : forall v, UpdateInput.status input = Some v ->
    givenStatus v = Ok (status task);
  idle_priority : forall v, UpdateInput.priority input = Some v ->
    normalizePriority (Some v) = Ok (priority task);
  idle_milestone : forall v, UpdateInput.milestone input = Some v ->
    givenMilestone v = milestone task;
  idle_ordinal : forall o, UpdateInput.ordinal input = Some o ->
    0 <= o /\ ordinal task = Some o;
  idle_assignee : forall v, UpdateInput.assignee input = Some v ->
    listed (Some v) = assignee task;
  idle_labels : forall v, UpdateInput.labels input = Some v ->
    listed (Some v) = labels task;
  idle_addLabels : forall label, label ∈ listed (UpdateInput.addLabels input) ->
    JsString.toLowerCase label ∈ map JsString.toLowerCase (labels task);
  idle_removeLabels : forall label, label ∈ labels task ->
    JsString.toLowerCase label ∉
      map JsString.toLowerCase (listed (UpdateInput.removeLabels input));
  idle_dependencies : forall v, UpdateInput.dependencies input = Some v ->
    validateDependencies w (normalizeDependencies (Some v)) = (dependencies task, []);
  idle_addDependencies : forall v, UpdateInput.addDependencies input = Some v ->
    v <> [] ->
    exists valid,
      validateDependencies w (normalizeDependencies (Some v)) = (valid, []) /\
      forall dep, dep ∈ valid -> dep ∈ dependencies task;
  idle_removeDependencies : forall v, UpdateInput.removeDependencies input = Some v ->
    v <> [] ->
    forall dep, dep ∈ dependencies task -> dep ∉ normalizeDependencies (Some v);
  idle_clearImplementationPlan :
    UpdateInput.clearImplementationPlan input = Some true ->
    implementationPlan task = None;
  idle_implementationPlan :
    sameText (UpdateInput.implementationPlan input) (implementationPlan task);
  idle_appendImplementationPlan :
    sanitizeAppendInput (UpdateInput.appendImplementationPlan input) = [];
  idle_clearImplementationNotes :
    UpdateInput.clearImplementationNotes input = Some true ->
    implementationNotes task = None;
  idle_implementationNotes :
    sameText (UpdateInput.implementationNotes input) (implementationNotes task);
  idle_appendImplementationNotes :
    sanitizeAppendInput (UpdateInput.appendImplementationNotes input) = [];
  idle_acceptanceCriteria : UpdateInput.acceptanceCriteria input = None;
  idle_addAcceptanceCriteria : forall cs,
    UpdateInput.addAcceptanceCriteria input = Some cs -> givenCriteria cs = [];
  idle_removeAcceptanceCriteria : forall l,
    UpdateInput.removeAcceptanceCriteria input = Some l -> l = [];
  idle_checkAcceptanceCriteria : forall l i,
    UpdateInput.checkAcceptanceCriteria input = Some l -> i ∈ l ->
    exists c,
      criterionAt i (default [] (acceptanceCriteriaItems task)) = Some c /\
      checked c = true;
  idle_uncheckAcceptanceCriteria : forall l i,
    UpdateInput.uncheckAcceptanceCriteria input = Some l -> i ∈ l ->
    exists c,
      criterionAt i (default [] (acceptanceCriteriaItems task)) = Some c /\
      checked c = false;
  idle_branchName : sameText (UpdateInput.branchName input) (branchName task);
  idle_gitTag : sameText (UpdateInput.gitTag input) (gitTag task);
  idle_prNumber : sameText (UpdateInput.prNumber input) (prNumber task);
  idle_addToHistory : UpdateInput.addToHistory input = None
}.

(** The task handed back when nothing changed: the loaded task, an absent
    list of acceptance criteria reading as the empty list. *)
Definition untouched (task : Task) : Task :=
  set_acceptanceCriteriaItems task (Some (default [] (acceptanceCriteriaItems task))).

Section Unchanged.
(** [stringArraysEqual] answers true on equal arrays and on no others. *)
Hypothesis stringArraysEqual_spec : forall a b,
  stringArraysEqual a b = true <-> a = b.

Lemma stringArraysEqual_same a : stringArraysEqual a a = true.
Proof. by apply stringArraysEqual_spec. Qed.

Lemma stringArraysEqual_differ a b : stringArraysEqual a b = false <-> a <> b.
Proof.
  destruct (stringArraysEqual a b) eqn:E.
  - apply stringArraysEqual_spec in E. by split.
  - split; [|done]. intros _ He. apply stringArraysEqual_spec in He. congruence.
Qed.

Lemma applyStringField_idle value current assign t t' :
  applyStringField value current assign (t, false) = (t', false) <->
  sameText value (current t) /\ t' = t.
Proof.
  unfold applyStringField, sameText. cbn [fst]. destruct value as [next|].
  - destruct (String.eqb_spec (default "" (current t)) next) as [He|Hne]; cbn [negb].
    + split; [|by intros [_ ->]]. intros [= <-]. split; [|done]. by intros ? [= <-].
    + split; [done|]. intros [H _]. destruct Hne. by apply H.
  - split; [|by intros [_ ->]]. intros [= <-]. by split.
Qed.

Lemma applyTitle_idle input t t' :
  applyTitle input (t, false) = Ok (t', false) <->
  (forall v, UpdateInput.title input = Some v ->
     JsString.trim v = title t /\ title t <> "") /\
  t' = t.
Proof.
  unfold applyTitle. cbn [fst]. destruct (UpdateInput.title input) as [v|]; cbv zeta.
  - destruct (Nat.eqb (String.length (JsString.trim v)) 0) eqn:El.
    + apply JsText.length_zero_empty in El. split; [done|]. intros [H _].
      destruct (H v eq_refl) as [H1 H2]. congruence.
    + assert (Hne : JsString.trim v <> "").
      { intros He. apply JsText.length_zero_empty in He. congruence. }
      destruct (String.eqb_spec (title t) (JsString.trim v)) as [He|Hd]; cbn [negb].
      * split; [|by intros [_ ->]]. intros [= <-]. split; [|done].
        intros ? [= <-]. split; [done|congruence].
      * split; [done|]. intros [H _]. destruct (H v eq_refl) as [H1 _]. congruence.
  - split; [|by intros [_ ->]]. intros [= <-]. by split.
Qed.

Lemma applyStatus_idle input t t' :
  applyStatus input (t, false) = Ok (t', false) <->
  (forall v, UpdateInput.status input = Some v -> givenStatus v = Ok (status t)) /\
  t' = t.
Proof.
  unfold applyStatus. cbn [fst]. destruct (UpdateInput.status input) as [v|].
  - change (if String.eqb (JsString.toLowerCase (JsString.trim v)) "draft"
            then Ok "Draft" else requireCanonicalStatus v) with (givenStatus v).
    destruct (givenStatus v) as [c|msg] eqn:Eg; cbn [mbind result_bind].
    + destruct (String.eqb_spec (status t) c) as [He|Hd]; cbn [negb].
      * split; [|by intros [_ ->]]. intros [= <-]. split; [|done].
        intros ? [= <-]. by rewrite Eg, He.
      * split; [done|]. intros [H _]. specialize (H v eq_refl). congruence.
    + split; [done|]. intros [H _]. specialize (H v eq_refl). congruence.
  - split; [|by intros [_ ->]]. intros [= <-]. by split.
Qed.

Lemma applyPriority_idle input t t' :
  applyPriority input (t, false) = Ok (t', false) <->
  (forall v, UpdateInput.priority input = Some v ->
     normalizePriority (Some v) = Ok (priority t)) /\
  t' = t.
Proof.
  unfold applyPriority. cbn [fst]. destruct (UpdateInput.priority input) as [v|].
  - destruct (normalizePriority (Some v)) as [p|msg] eqn:Eg; cbn [mbind result_bind].
    + case_bool_decide as Hp.
      * split; [|by intros [_ ->]]. intros [= <-]. split; [|done].
        intros ? [= <-]. by rewrite Eg, Hp.
      * split; [done|]. intros [H _]. specialize (H v eq_refl). congruence.
    + split; [done|]. intros [H _]. specialize (H v eq_refl). congruence.
  - split; [|by intros [_ ->]]. intros [= <-]. by split.
Qed.

Lemma applyMilestone_idle input t t' :
  applyMilestone input (t, false) = (t', false) <->
  (forall v, UpdateInput.milestone input = Some v -> givenMilestone v = milestone t) /\
  t' = t.
Proof.
  unfold applyMilestone. cbn [fst]. destruct (UpdateInput.milestone input) as [v|].
  - cbv zeta.
    change (match v with
            | None => None
            | Some m =>
                if String.eqb (JsString.trim m) "" then None else Some (JsString.trim m)
            end) with (givenMilestone v).
    case_bool_decide as Hp.
    + split; [|by intros [_ ->]]. intros [= <-]. split; [|done].
      intros ? [= <-]. by rewrite Hp.
    + split; [done|]. intros [H _]. specialize (H v eq_refl). congruence.
  - split; [|by intros [_ ->]]. intros [= <-]. by split.
Qed.

Lemma applyOrdinal_idle input t t' :
  applyOrdinal input (t, false) = Ok (t', false) <->
  (forall o, UpdateInput.ordinal input = Some o -> 0 <= o /\ ordinal t = Some o) /\
  t' = t.
Proof.
  unfold applyOrdinal. cbn [fst]. destruct (UpdateInput.ordinal input) as [o|].
  - destruct (Z.ltb_spec o 0) as [Hneg|Hpos].
    + split; [done|]. intros [H _]. destruct (H o eq_refl). lia.
    + case_bool_decide as Hp.
      * split; [|by intros [_ ->]]. intros [= <-]. split; [|done]. by intros ? [= <-].
      * split; [done|]. intros [H _]. by destruct (H o eq_refl).
  - split; [|by intros [_ ->]]. intros [= <-]. by split.
Qed.

Lemma applyAssignee_idle input t t' :
  applyAssignee input (t, false) = (t', false) <->
  (forall v, UpdateInput.assignee input = Some v -> listed (Some v) = assignee t) /\
  t' = t.
Proof.
  unfold applyAssignee, listed. cbn [fst].
  destruct (UpdateInput.assignee input) as [v|]; cbv zeta.
  - destruct (stringArraysEqual _ (assignee t)) eqn:E; cbn [negb].
    + apply stringArraysEqual_spec in E.
      split; [|by intros [_ ->]]. intros [= <-]. split; [|done]. by intros ? [= <-].
    + apply stringArraysEqual_differ in E.
      split; [done|]. intros [H _]. by specialize (H v eq_refl).
  - split; [|by intros [_ ->]]. intros [= <-]. by split.
Qed.

Lemma applyHistory_idle input t t' :
  applyHistory input (t, false) = (t', false) <->
  UpdateInput.addToHistory input = None /\ t' = t.
Proof.
  unfold applyHistory. destruct (UpdateInput.addToHistory input) as [entry|].
  - split; [done|]. by intros [? _].
  - split; [|by intros [_ ->]]. intros [= <-]. by split.
Qed.
Lemma filter_all_iff {A : Type} (f : A -> bool) (l : list A) :
  List.filter f l = l <-> forall x, x ∈ l -> f x = true.
Proof.
  induction l as [|a l IH]; cbn [List.filter].
  - split; [|done]. intros _ x H. by apply elem_of_nil in H.
  - destruct (f a) eqn:E.
    + split.
      * intros [= H] x [->|Hin]%elem_of_cons; [done|]. by apply IH.
      * intros H. f_equal. apply IH. intros x Hin. apply H. by right.
    + split.
      * intros H. pose proof (List.filter_length_le f l) as Hl.
        rewrite H in Hl. cbn in Hl. lia.
      * intros H. rewrite H in E; [done|by left].
Qed.

Lemma pushNewLabels_pushed labelSet current toAdd :
  (pushNewLabels labelSet current toAdd).2 = false <->
  forall label, label ∈ toAdd -> JsString.toLowerCase label ∈ labelSet.
Proof.
  revert labelSet current.
  induction toAdd as [|l rest IH]; intros labelSet current; cbn [pushNewLabels].
  - split; [|done]. intros _ label H. by apply elem_of_nil in H.
  - destruct (inb (JsString.toLowerCase l) labelSet) eqn:E.
    + rewrite IH. apply inb_spec in E. split.
      * intros H label [->|Hin]%elem_of_cons; [done|by apply H].
      * intros H label Hin. apply H. by right.
    + destruct (pushNewLabels _ _ rest) as [final p]. cbn [snd]. split; [done|].
      intros H. assert (Hin : JsString.toLowerCase l ∈ labelSet) by (apply H; by left).
      apply inb_spec in Hin. congruence.
Qed.

Lemma pushNewDependencies_pushed depSet current toAdd :
  (pushNewDependencies depSet current toAdd).2 = false <->
  forall dep, dep ∈ toAdd -> dep ∈ depSet.
Proof.
  revert depSet current.
  induction toAdd as [|l rest IH]; intros depSet current; cbn [pushNewDependencies].
  - split; [|done]. intros _ dep H. by apply elem_of_nil in H.
  - destruct (inb l depSet) eqn:E.
    + rewrite IH. apply inb_spec in E. split.
      * intros H dep [->|Hin]%elem_of_cons; [done|by apply H].
      * intros H dep Hin. apply H. by right.
    + destruct (pushNewDependencies _ _ rest) as [final p]. cbn [snd]. split; [done|].
      intros H. assert (Hin : l ∈ depSet) by (apply H; by left).
      apply inb_spec in Hin. congruence.
Qed.

Lemma resolveLabelChanges_idle input t t' :
  resolveLabelChanges input (t, false) = (t', false) <->
  ((forall v, UpdateInput.labels input = Some v -> listed (Some v) = labels t) /\
   (forall label, label ∈ listed (UpdateInput.addLabels input) ->
      JsString.toLowerCase label ∈ map JsString.toLowerCase (labels t)) /\
   (forall label, label ∈ labels t ->
      JsString.toLowerCase label ∉
        map JsString.toLowerCase (listed (UpdateInput.removeLabels input)))) /\
  t' = t.
Proof.
  unfold resolveLabelChanges.
  change (default [] (normalizeStringList (UpdateInput.addLabels input)))
    with (listed (UpdateInput.addLabels input)).
  change (default [] (normalizeStringList (UpdateInput.removeLabels input)))
    with (listed (UpdateInput.removeLabels input)).
  set (first := match UpdateInput.labels input with
                | Some v => _
                | None => (t, false, labels t)
                end).
  assert (H1 : (first.1.2 = false <->
                forall v, UpdateInput.labels input = Some v -> listed (Some v) = labels t) /\
               (first.1.2 = false -> first.1.1 = t /\ first.2 = labels t)).
  { subst first. destruct (UpdateInput.labels input) as [v|]; [|by split].
    cbv zeta. fold (listed (Some v)).
    destruct (stringArraysEqual (listed (Some v)) (labels t)) eqn:E; cbn.
    - apply stringArraysEqual_spec in E.
      split; [|done]. split; [|done]. by intros _ ? [= <-].
    - apply stringArraysEqual_differ in E.
      split; [|done]. split; [done|]. intros H. by specialize (H v eq_refl). }
  destruct first as [[t1 m1] l1]. cbn [fst snd] in H1. destruct H1 as [H1 H1'].
  set (second := match listed (UpdateInput.addLabels input) with
                 | [] => (t1, m1, l1)
                 | _ :: _ => _
                 end).
  assert (H2 : (second.1.2 = false <->
                m1 = false /\
                forall label, label ∈ listed (UpdateInput.addLabels input) ->
                  JsString.toLowerCase label ∈ map JsString.toLowerCase l1) /\
               (second.1.2 = false -> second.1.1 = set_labels t1 l1 /\ second.2 = l1) /\
               (m1 = true -> second.1.2 = true)).
  { subst second. destruct (listed (UpdateInput.addLabels input)) as [|a toAdd] eqn:Ea.
    - cbn [fst snd]. split; [|split; [|done]].
      + split; [|by intros [? _]]. intros ->. split; [done|].
        intros label H. by apply elem_of_nil in H.
      + intros ->. destruct H1' as [-> ->]; [done|]. split; [|done].
        symmetry. apply set_labels_same.
    - pose proof (pushNewLabels_pushed (map JsString.toLowerCase l1) l1 (a :: toAdd)) as Hp.
      pose proof (pushNewLabels_unpushed (map JsString.toLowerCase l1) l1 (a :: toAdd)) as Hu.
      destruct (pushNewLabels _ l1 (a :: toAdd)) as [final pushed]. cbn [fst snd] in *.
      split; [|split].
      + rewrite orb_false_iff, Hp. done.
      + intros [_ ->]%orb_false_iff. by rewrite (Hu final eq_refl).
      + by intros ->. }
  destruct second as [[t2 m2] l2]. cbn [fst snd] in H2. destruct H2 as (H2 & H2' & H2'').
  assert (Hkeep : forall l,
            List.filter
              (fun label =>
                 negb (inb (JsString.toLowerCase label)
                         (map JsString.toLowerCase (listed (UpdateInput.removeLabels input)))))
              l = l <->
            forall label, label ∈ l ->
              JsString.toLowerCase label ∉
                map JsString.toLowerCase (listed (UpdateInput.removeLabels input))).
  { intros l. rewrite filter_all_iff. apply forall_proper. intros label.
    apply forall_proper. intros _. rewrite negb_true_iff, <- not_true_iff_false, inb_spec.
    done. }
  assert (Hall : (m2 = false /\
                  forall label, label ∈ l2 ->
                    JsString.toLowerCase label ∉
                      map JsString.toLowerCase (listed (UpdateInput.removeLabels input))) <->
                 ((forall v, UpdateInput.labels input = Some v ->
                     listed (Some v) = labels t) /\
                  (forall label, label ∈ listed (UpdateInput.addLabels input) ->
                     JsString.toLowerCase label ∈ map JsString.toLowerCase (labels t)) /\
                  (forall label, label ∈ labels t ->
                     JsString.toLowerCase label ∉
                       map JsString.toLowerCase (listed (UpdateInput.removeLabels input))))).
  { split.
    - intros [Hm2 Hr]. apply H2 in Hm2 as Hm1. destruct Hm1 as [Hm1 Ha].
      destruct (H1' Hm1) as [-> ->]. destruct (H2' Hm2) as [-> ->].
      split; [by apply H1|]. by split.
    - intros (Hl & Ha & Hr). apply H1 in Hl as Hm1. destruct (H1' Hm1) as [-> ->].
      assert (Hm2 : m2 = false) by (by apply H2).
      destruct (H2' Hm2) as [-> ->]. by split. }
  assert (Htask : m2 = false -> t2 = t).
  { intros Hm2. apply H2 in Hm2 as Hm1. destruct Hm1 as [Hm1 _].
    destruct (H1' Hm1) as [-> ->]. destruct (H2' Hm2) as [-> _]. apply set_labels_same. }
  rewrite <- Hall.
  destruct (listed (UpdateInput.removeLabels input)) as [|r toRemove] eqn:Er.
  - split.
    + intros [= -> ->]. split; [|by apply Htask]. split; [done|].
      intros label _ H. by apply elem_of_nil in H.
    + intros [[-> _] ->]. by rewrite Htask.
  - set (removalSet := map JsString.toLowerCase (r :: toRemove)) in *.
    destruct (stringArraysEqual _ l2) eqn:E; cbn [negb].
    + apply stringArraysEqual_spec in E. pose proof (proj1 (Hkeep l2) E) as Hr. split.
      * intros [= -> ->]. split; [done|by apply Htask].
      * intros [[-> _] ->]. by rewrite Htask.
    + apply stringArraysEqual_differ in E. split; [done|].
      intros [[_ Hr] _]. destruct (E (proj2 (Hkeep l2) Hr)).
Qed.
Lemma resolveDependencies_idle w input t t' :
  resolveDependencies w input (t, false) = Ok (t', false) <->
  ((forall v, UpdateInput.dependencies input = Some v ->
      validateDependencies w (normalizeDependencies (Some v)) = (dependencies t, [])) /\
   (forall v, UpdateInput.addDependencies input = Some v -> v <> [] ->
      exists valid,
        validateDependencies w (normalizeDependencies (Some v)) = (valid, []) /\
        forall dep, dep ∈ valid -> dep ∈ dependencies t) /\
   (forall v, UpdateInput.removeDependencies input = Some v -> v <> [] ->
      forall dep, dep ∈ dependencies t -> dep ∉ normalizeDependencies (Some v))) /\
  t' = t.
Proof.
  unfold resolveDependencies.
  set (Added := fun current : list string =>
         forall v, UpdateInput.addDependencies input = Some v -> v <> [] ->
           exists valid,
             validateDependencies w (normalizeDependencies (Some v)) = (valid, []) /\
             forall dep, dep ∈ valid -> dep ∈ current).
  set (Removed := fun current : list string =>
         forall v, UpdateInput.removeDependencies input = Some v -> v <> [] ->
           forall dep, dep ∈ current -> dep ∉ normalizeDependencies (Some v)).
  set (Given :=
         forall v, UpdateInput.dependencies input = Some v ->
           validateDependencies w (normalizeDependencies (Some v)) = (dependencies t, [])).
  set (first := match UpdateInput.dependencies input with
                | Some v => _
                | None => Ok (false, dependencies t)
                end).
  assert (H1 : match first with
               | Ok (m1, d1) => (m1 = false <-> Given) /\ (m1 = false -> d1 = dependencies t)
               | Err _ => ~ Given
               end).
  { subst first Given. destruct (UpdateInput.dependencies input) as [v|]; [|by split].
    cbv zeta.
    destruct (validateDependencies w (normalizeDependencies (Some v)))
      as [valid [|i invalid]] eqn:Ev.
    - destruct (stringArraysEqual valid (dependencies t)) eqn:E; cbn [negb].
      + apply stringArraysEqual_spec in E. subst valid.
        split; [|done]. split; [|done]. by intros _ ? [= <-].
      + apply stringArraysEqual_differ in E.
        split; [|done]. split; [done|]. intros H. specialize (H v eq_refl). congruence.
    - intros H. specialize (H v eq_refl). congruence. }
  destruct first as [[m1 d1]|msg1]; cbn [mbind result_bind].
  2:{ split; [done|]. by intros [[? _] _]. }
  destruct H1 as [H1 H1'].
  set (second := match UpdateInput.addDependencies input with
                 | Some ((_ :: _) as v) => _
                 | _ => Ok (m1, d1)
                 end).
  assert (H2 : match second with
               | Ok (m2, d2) =>
                   (m2 = false <-> m1 = false /\ Added d1) /\ (m2 = false -> d2 = d1)
               | Err _ => forall current, ~ Added current
               end).
  { subst second Added.
    destruct (UpdateInput.addDependencies input) as [[|a v]|].
    - split; [|done]. split; [|by intros [? _]]. intros ->. split; [done|]. by intros ? [= <-].
    - destruct (validateDependencies w (normalizeDependencies (Some (a :: v))))
        as [valid [|i invalid]] eqn:Ev.
      + pose proof (pushNewDependencies_pushed d1 d1 valid) as Hp.
        pose proof (pushNewDependencies_unpushed d1 d1 valid) as Hu.
        destruct (pushNewDependencies d1 d1 valid) as [final pushed]. cbn [snd] in Hp.
        split.
        * rewrite orb_false_iff, Hp. split.
          -- intros [-> Hin]. split; [done|]. intros ? [= <-] _. by exists valid.
          -- intros [-> H]. split; [done|].
             destruct (H (a :: v) eq_refl ltac:(done)) as (valid' & Hv & Hin).
             rewrite Ev in Hv. by injection Hv as <-.
        * intros [_ ->]%orb_false_iff. by apply Hu.
      + intros current H.
        destruct (H (a :: v) eq_refl ltac:(done)) as (valid' & Hv & _). congruence.
    - split; [|done]. split; [|by intros [? _]]. intros ->. by split. }
  destruct second as [[m2 d2]|msg2]; cbn [mbind result_bind].
  2:{ split; [done|]. intros [(_ & Ha & _) _]. by apply H2 in Ha. }
  destruct H2 as [H2 H2'].
  set (third := match UpdateInput.removeDependencies input with
                | Some ((_ :: _) as v) => _
                | _ => (m2, d2)
                end).
  assert (H3 : (third.1 = false <-> m2 = false /\ Removed d2) /\
               (third.1 = false -> third.2 = d2)).
  { subst third Removed.
    destruct (UpdateInput.removeDependencies input) as [[|a v]|]; cbn [fst snd].
    - split; [|done]. split; [|by intros [? _]]. intros ->. split; [done|]. by intros ? [= <-].
    - cbv zeta.
      assert (Hkeep :
        List.filter (fun dep => negb (inb dep (normalizeDependencies (Some (a :: v))))) d2 = d2
        <-> forall dep, dep ∈ d2 -> dep ∉ normalizeDependencies (Some (a :: v))).
      { rewrite filter_all_iff. apply forall_proper. intros dep.
        apply forall_proper. intros _.
        rewrite negb_true_iff, <- not_true_iff_false, inb_spec. done. }
      destruct (stringArraysEqual _ d2) eqn:E; cbn [negb fst snd].
      + apply stringArraysEqual_spec in E. pose proof (proj1 Hkeep E) as Hr.
        split; [|done]. split; [|by intros [? _]]. intros ->. split; [done|].
        by intros ? [= <-] _.
      + apply stringArraysEqual_differ in E. split; [|done]. split; [done|].
        intros [_ H]. destruct E. apply Hkeep. by apply (H (a :: v)).
    - split; [|done]. split; [|by intros [? _]]. intros ->. by split. }
  destruct third as [m3 d3]. cbn [fst snd] in H3. destruct H3 as [H3 H3'].
  split.
  - intros [= <- ->]. destruct (proj1 H3 eq_refl) as [-> Hr].
    destruct (proj1 H2 eq_refl) as [-> Ha].
    rewrite (H3' eq_refl), (H2' eq_refl), (H1' eq_refl) in *.
    split; [|apply set_dependencies_same]. split; [by apply H1|]. by split.
  - intros [(Hg & Ha & Hr) ->].
    assert (m1 = false) as -> by (by apply H1). rewrite (H1' eq_refl) in *.
    assert (m2 = false) as -> by (by apply H2). rewrite (H2' eq_refl) in *.
    assert (m3 = false) as -> by (by apply H3). rewrite (H3' eq_refl).
    by rewrite set_dependencies_same.
Qed.
Lemma sanitizeAppendInput_head appends a rest :
  sanitizeAppendInput appends = a :: rest -> JsString.trim a = a /\ a <> "".
Proof.
  unfold sanitizeAppendInput. destruct appends as [vs|]; [|done]. intros H.
  assert (Hin : In a (List.filter (fun v => negb (Nat.eqb (String.length v) 0))
                        (map JsString.trim vs))) by (rewrite H; by left).
  apply filter_In in Hin as [Hin Hne]. apply in_map_iff in Hin as (v & <- & _).
  split; [apply JsText.trim_idempotent|]. intros He. by rewrite He in Hne.
Qed.

Lemma appendBlock_changes existing a rest :
  JsString.trim a = a -> a <> "" -> (appendBlock existing (a :: rest)).2 = true.
Proof.
  intros Ht Hne. unfold appendBlock. cbn [map List.filter]. rewrite Ht.
  destruct a as [|c a]; [done|]. cbn [String.length Nat.eqb negb].
  by destruct (Nat.eqb _ 0).
Qed.

Lemma applySection_idle clear value appends current assign t t' :
  applySection clear value appends current assign (t, false) = (t', false) <->
  ((clear = Some true -> current t = None) /\
   sameText value (current t) /\
   sanitizeAppendInput appends = []) /\
  t' = t.
Proof.
  unfold applySection. cbn [fst].
  set (s1 := match clear with
             | Some true => match current t with
                            | Some _ => (assign t None, true)
                            | None => (t, false)
                            end
             | _ => (t, false)
             end).
  assert (H1 : (s1 = (t, false) /\ (clear = Some true -> current t = None)) \/
               (s1.2 = true /\ ~ (clear = Some true -> current t = None))).
  { subst s1. destruct clear as [[|]|]; [|by left ..].
    destruct (current t); [right|by left]. split; [done|]. intros H. by specialize (H eq_refl). }
  destruct s1 as [t1 m1].
  destruct (applyStringField value current (fun t next => assign t (Some next)) (t1, m1))
    as [t2 m2] eqn:E2.
  assert (H2 : (m2 = false /\ t2 = t /\ (clear = Some true -> current t = None) /\
                sameText value (current t)) \/
               (m2 = true /\
                ~ ((clear = Some true -> current t = None) /\ sameText value (current t)))).
  { destruct H1 as [[[= -> ->] Hc]|[Hm Hc]].
    - destruct m2.
      + right. split; [done|]. intros [_ Hs].
        assert (E : applyStringField value current (fun t next => assign t (Some next))
                      (t, false) = (t, false)) by (by apply applyStringField_idle).
        congruence.
      + apply applyStringField_idle in E2 as [Hs ->]. by left.
    - right. cbn [snd] in Hm. subst m1. split; [|by intros [? _]].
      apply (f_equal Ok) in E2. by apply quiet_applyStringField in E2 as [E2 _]; apply E2. }
  destruct (sanitizeAppendInput appends) as [|a additions] eqn:Ea.
  - destruct H2 as [(-> & -> & Hc & Hs)|[-> Hn]].
    + split; [|by intros [_ ->]]. intros [= <-]. by split.
    + split; [done|]. intros [(Hc & Hs & _) _]. by destruct Hn.
  - destruct (sanitizeAppendInput_head _ _ _ Ea) as [Ht Hne].
    pose proof (appendBlock_changes (current (t2, m2).1) a additions Ht Hne) as Hch.
    destruct (appendBlock _ (a :: additions)) as [v changed]. cbn [snd] in Hch. subst changed.
    split; [done|]. by intros [(_ & _ & ?) _].
Qed.

Lemma toggleOne_spec i state criteria :
  match criterionAt i criteria with
  | Some c =>
      exists criteria',
        toggleOne i state criteria = Some (criteria', negb (Bool.eqb (checked c) state))
  | None => toggleOne i state criteria = None
  end.
Proof.
  unfold criterionAt. induction criteria as [|c rest IH]; cbn [List.find toggleOne]; [done|].
  destruct (index c =? i).
  - destruct (Bool.eqb (checked c) state); by eexists.
  - destruct (List.find _ rest) as [found|].
    + destruct IH as [rest' ->]. by eexists.
    + by rewrite IH.
Qed.

Lemma toggleAll_missing indices state criteria mutated missing criteria' mutated' :
  toggleAll indices state (criteria, mutated, missing) = (criteria', mutated', []) ->
  missing = [].
Proof.
  revert criteria mutated missing.
  induction indices as [|i rest IH]; intros criteria mutated missing; cbn [toggleAll].
  - by intros [= _ _ ->].
  - destruct (toggleOne i state criteria) as [[c1 changed]|]; [apply IH|].
    intros H. apply IH in H. by destruct missing.
Qed.

Lemma toggleAll_idle indices state criteria missing criteria' :
  toggleAll indices state (criteria, false, missing) = (criteria', false, []) <->
  (missing = [] /\
   forall i, i ∈ indices ->
     exists c, criterionAt i criteria = Some c /\ checked c = state) /\
  criteria' = criteria.
Proof.
  revert missing. induction indices as [|i rest IH]; intros missing; cbn [toggleAll].
  - split.
    + intros [= <- ->]. split; [|done]. split; [done|]. intros i H. by apply elem_of_nil in H.
    + by intros [[-> _] ->].
  - pose proof (toggleOne_spec i state criteria) as Hone.
    destruct (criterionAt i criteria) as [c|] eqn:Ec.
    + destruct Hone as [c1 Hone]. rewrite Hone.
      destruct (Bool.eqb_spec (checked c) state) as [Hs|Hs]; cbn [negb orb].
      * apply toggleOne_unchanged in Hone as ->. rewrite IH. split.
        -- intros [[-> Hall] ->]. split; [|done]. split; [done|].
           intros j [->|Hj]%elem_of_cons; [by exists c|by apply Hall].
        -- intros [[-> Hall] ->]. split; [|done]. split; [done|].
           intros j Hj. apply Hall. by right.
      * split.
        -- intros H. apply toggleAll_quiet in H as [H _]. by specialize (H eq_refl).
        -- intros [[_ Hall] _]. destruct (Hall i) as (c' & Hc' & Hst); [by left|].
           congruence.
    + rewrite Hone. split.
      * intros H. apply toggleAll_missing in H. by destruct missing.
      * intros [[_ Hall] _]. destruct (Hall i) as (c' & Hc' & _); [by left|]. congruence.
Qed.

Lemma toggleCriteria_idle indices state criteria criteria' :
  toggleCriteria indices state criteria false = Ok (criteria', false) <->
  (forall l i, indices = Some l -> i ∈ l ->
     exists c, criterionAt i criteria = Some c /\ checked c = state) /\
  criteria' = criteria.
Proof.
  unfold toggleCriteria. destruct indices as [[|i l]|].
  - split; [|by intros [_ ->]]. intros [= <-]. split; [|done].
    intros ? j [= <-] H. by apply elem_of_nil in H.
  - split.
    + destruct (toggleAll (i :: l) state (criteria, false, [])) as [[c1 m1] missing] eqn:E.
      destruct missing; [|done]. intros [= -> ->].
      apply toggleAll_idle in E as [[_ Hall] ->]. split; [|done].
      intros ? j [= <-]. apply Hall.
    + intros [Hall ->].
      assert (E : toggleAll (i :: l) state (criteria, false, []) = (criteria, false, [])).
      { apply toggleAll_idle. split; [|done]. split; [done|].
        intros j Hj. by apply (Hall _ j eq_refl). }
      by rewrite E.
  - split; [|by intros [_ ->]]. intros [= <-]. by split.
Qed.

Lemma toggleCriteria_raised indices state criteria criteria' mutated' :
  toggleCriteria indices state criteria true = Ok (criteria', mutated') -> mutated' = true.
Proof. intros H. apply toggleCriteria_quiet in H as [H _]. by apply H. Qed.

Lemma resolveCriteria_idle input t criteria' :
  resolveCriteria input (t, false) = Ok (criteria', false) <->
  (UpdateInput.acceptanceCriteria input = None /\
   (forall cs, UpdateInput.addAcceptanceCriteria input = Some cs -> givenCriteria cs = []) /\
   (forall l, UpdateInput.removeAcceptanceCriteria input = Some l -> l = []) /\
   (forall l i, UpdateInput.checkAcceptanceCriteria input = Some l -> i ∈ l ->
      exists c,
        criterionAt i (default [] (acceptanceCriteriaItems t)) = Some c /\
        checked c = true) /\
   (forall l i, UpdateInput.uncheckAcceptanceCriteria input = Some l -> i ∈ l ->
      exists c,
        criterionAt i (default [] (acceptanceCriteriaItems t)) = Some c /\
        checked c = false)) /\
  criteria' = default [] (acceptanceCriteriaItems t).
Proof.
  destruct (UpdateInput.acceptanceCriteria input) as [cs|] eqn:Hcs.
  { split; [|by intros [[? _] _]]. intros H.
    assert (H' : resolveCriteria input (t, true) = Ok (criteria', false)).
    { rewrite <- H. unfold resolveCriteria. by rewrite Hcs. }
    apply resolveCriteria_quiet in H' as [H' _]. by specialize (H' eq_refl). }
  unfold resolveCriteria. rewrite Hcs.
  set (c0 := default [] (acceptanceCriteriaItems t)).
  set (second := match UpdateInput.addAcceptanceCriteria input with
                 | Some ((_ :: _) as cs) => _
                 | _ => (c0, false)
                 end).
  assert (H2 : (second = (c0, false) /\
                forall cs, UpdateInput.addAcceptanceCriteria input = Some cs ->
                  givenCriteria cs = []) \/
               (second.2 = true /\
                ~ forall cs, UpdateInput.addAcceptanceCriteria input = Some cs ->
                    givenCriteria cs = [])).
  { subst second. destruct (UpdateInput.addAcceptanceCriteria input) as [[|a l]|].
    - left. split; [done|]. by intros ? [= <-].
    - cbv zeta. fold (givenCriteria (a :: l)).
      destruct (givenCriteria (a :: l)) as [|x xs] eqn:Eg.
      + left. split; [done|]. by intros ? [= <-].
      + right. split; [done|]. intros H. specialize (H _ eq_refl). congruence.
    - left. by split. }
  destruct second as [c2 m2].
  set (third := match UpdateInput.removeAcceptanceCriteria input with
                | Some ((_ :: _) as removal) => _
                | _ => Ok (c2, m2)
                end).
  assert (H3 : (third = Ok (c2, m2) /\
                forall l, UpdateInput.removeAcceptanceCriteria input = Some l -> l = []) \/
               ((forall c3 m3, third = Ok (c3, m3) -> m3 = true) /\
                ~ forall l, UpdateInput.removeAcceptanceCriteria input = Some l -> l = [])).
  { subst third. destruct (UpdateInput.removeAcceptanceCriteria input) as [[|r l]|].
    - left. split; [done|]. by intros ? [= <-].
    - right. split; [|intros H; by specialize (H _ eq_refl)].
      intros c3 m3. cbv zeta. destruct (Nat.eqb _ _); [done|]. by intros [= _ <-].
    - left. by split. }
  destruct third as [[c3 m3]|msg3]; cbn [mbind result_bind].
  2:{ split; [done|]. intros [(_ & _ & Hr & _) _].
      destruct H3 as [[? _]|[_ Hn]]; [done|by destruct Hn]. }
  destruct (toggleCriteria (UpdateInput.checkAcceptanceCriteria input) true c3 m3)
    as [[c4 m4]|msg4] eqn:E4; cbn [mbind result_bind].
  - split.
    + intros E5.
      assert (m4 = false) as ->.
      { destruct m4; [|done]. by apply toggleCriteria_raised in E5. }
      assert (m3 = false) as ->.
      { destruct m3; [|done]. by apply toggleCriteria_raised in E4. }
      destruct H3 as [[H3 Hr]|[Hn _]]; [|by specialize (Hn _ _ eq_refl)].
      injection H3 as <- <-.
      destruct H2 as [[H2 Ha]|[Hn _]]; [|by cbn in Hn].
      injection H2 as ->.
      apply toggleCriteria_idle in E4 as [Hc ->].
      apply toggleCriteria_idle in E5 as [Hu ->]. done.
    + intros [(_ & Ha & Hr & Hc & Hu) ->].
      destruct H2 as [[[= -> ->] _]|[_ Hn]]; [|by destruct Hn].
      destruct H3 as [[[= -> ->] _]|[_ Hn]]; [|by destruct Hn].
      assert (E4' : toggleCriteria (UpdateInput.checkAcceptanceCriteria input) true c0 false
                    = Ok (c0, false)) by (by apply toggleCriteria_idle).
      rewrite E4' in E4. injection E4 as <- <-. by apply toggleCriteria_idle.
  - split; [done|]. intros [(_ & Ha & Hr & Hc & Hu) _].
    destruct H2 as [[[= -> ->] _]|[_ Hn]]; [|by destruct Hn].
    destruct H3 as [[[= -> ->] _]|[_ Hn]]; [|by destruct Hn].
    assert (E4' : toggleCriteria (UpdateInput.checkAcceptanceCriteria input) true c0 false
                  = Ok (c0, false)) by (by apply toggleCriteria_idle).
    congruence.
Qed.
Lemma stringArraysEqual_sound a b : stringArraysEqual a b = true -> a = b.
Proof. apply stringArraysEqual_spec. Qed.

(** The flag stays down exactly on the inputs that ask for nothing new. *)
Lemma applyUpdateInput_idle w input task task' :
  applyUpdateInput w input task = Ok (task', false) <->
  Unchanging w input task /\ task' = untouched task.
Proof.
  split.
  - intros Happly.
    pose proof (applyUpdateInput_unflagged stringArraysEqual_sound w input task task' Happly)
      as Htask.
    split; [|exact Htask]. revert Happly. unfold applyUpdateInput.
    destruct (applyTitle input (task, false)) as [[t1 m1]|] eqn:E1; [|done].
    cbn [mbind result_bind]. cbv zeta.
    destruct (applyStringField (UpdateInput.description input) _ _ (t1, m1))
      as [t2 m2] eqn:E2.
    destruct (applyStatus input (t2, m2)) as [[t3 m3]|] eqn:E3; [|done].
    cbn [mbind result_bind].
    destruct (applyPriority input (t3, m3)) as [[t4 m4]|] eqn:E4; [|done].
    cbn [mbind result_bind].
    destruct (applyMilestone input (t4, m4)) as [t5 m5] eqn:E5.
    destruct (applyOrdinal input (t5, m5)) as [[t6 m6]|] eqn:E6; [|done].
    cbn [mbind result_bind].
    destruct (applyAssignee input (t6, m6)) as [t7 m7] eqn:E7.
    destruct (resolveLabelChanges input (t7, m7)) as [t8 m8] eqn:E8.
    destruct (resolveDependencies w input (t8, m8)) as [[t9 m9]|] eqn:E9; [|done].
    cbn [mbind result_bind].
    destruct (applySection (UpdateInput.clearImplementationPlan input) _ _ _ _ (t9, m9))
      as [t10 m10] eqn:E10.
    destruct (applySection (UpdateInput.clearImplementationNotes input) _ _ _ _ (t10, m10))
      as [t11 m11] eqn:E11.
    unfold applyCriteria.
    destruct (resolveCriteria input (t11, m11)) as [[criteria m12]|] eqn:E12; [|done].
    cbn [mbind result_bind fst].
    destruct (applyStringField (UpdateInput.branchName input) _ _ _) as [t13 m13] eqn:E13.
    destruct (applyStringField (UpdateInput.gitTag input) _ _ (t13, m13))
      as [t14 m14] eqn:E14.
    destruct (applyStringField (UpdateInput.prNumber input) _ _ (t14, m14))
      as [t15 m15] eqn:E15.
    intros E16. injection E16 as E16.
    pose proof E16 as F16. pose proof E15 as F15. pose proof E14 as F14.
    pose proof E13 as F13. pose proof E12 as F12. pose proof E11 as F11.
    pose proof E10 as F10. pose proof E9 as F9. pose proof E8 as F8.
    pose proof E7 as F7. pose proof E6 as F6. pose proof E5 as F5.
    pose proof E4 as F4. pose proof E3 as F3. pose proof E2 as F2.
    pose proof E1 as F1.
    apply (f_equal Ok) in F16, F15, F14, F13, F11, F10, F8, F7, F5, F2.
    apply quiet_applyHistory, quiet_back in F16 as [-> _]; [|done].
    apply quiet_applyStringField, quiet_back in F15 as [-> ->]; [|done].
    apply quiet_applyStringField, quiet_back in F14 as [-> ->]; [|done].
    apply quiet_applyStringField, quiet_back in F13 as [-> ->]; [|done].
    apply resolveCriteria_quiet in F12 as [F12 _].
    assert (m11 = false) as -> by (destruct m11; [by specialize (F12 eq_refl)|done]).
    apply quiet_applySection, quiet_back in F11 as [-> ->]; [|done].
    apply quiet_applySection, quiet_back in F10 as [-> ->]; [|done].
    apply quiet_resolveDependencies, quiet_back in F9 as [-> ->]; [|done].
    apply quiet_resolveLabelChanges, quiet_back in F8 as [-> ->];
      [|done || apply stringArraysEqual_sound ..].
    apply quiet_applyAssignee, quiet_back in F7 as [-> ->]; [|done].
    apply quiet_applyOrdinal, quiet_back in F6 as [-> ->]; [|done].
    apply quiet_applyMilestone, quiet_back in F5 as [-> ->]; [|done].
    apply quiet_applyPriority, quiet_back in F4 as [-> ->]; [|done].
    apply quiet_applyStatus, quiet_back in F3 as [-> ->]; [|done].
    apply quiet_applyStringField, quiet_back in F2 as [-> ->]; [|done].
    apply quiet_applyTitle, quiet_back in F1 as [_ ->]; [|done].
    apply applyTitle_idle in E1 as [C1 _].
    apply applyStringField_idle in E2 as [C2 _].
    apply applyStatus_idle in E3 as [C3 _].
    apply applyPriority_idle in E4 as [C4 _].
    apply applyMilestone_idle in E5 as [C5 _].
    apply applyOrdinal_idle in E6 as [C6 _].
    apply applyAssignee_idle in E7 as [C7 _].
    apply resolveLabelChanges_idle in E8 as [(C8a & C8b & C8c) _].
    apply resolveDependencies_idle in E9 as [(C9a & C9b & C9c) _].
    apply applySection_idle in E10 as [(C10a & C10b & C10c) _].
    apply applySection_idle in E11 as [(C11a & C11b & C11c) _].
    apply resolveCriteria_idle in E12 as [(C12a & C12b & C12c & C12d & C12e) _].
    apply applyStringField_idle in E13 as [C13 _].
    apply applyStringField_idle in E14 as [C14 _].
    apply applyStringField_idle in E15 as [C15 _].
    apply applyHistory_idle in E16 as [C16 _].
    by constructor.
  - intros [H ->]. destruct H.
    unfold applyUpdateInput.
    rewrite (proj2 (applyTitle_idle input task task)) by done.
    cbn [mbind result_bind]. cbv zeta.
    rewrite (proj2 (applyStringField_idle (UpdateInput.description input) description _
                      task task)) by done.
    rewrite (proj2 (applyStatus_idle input task task)) by done.
    cbn [mbind result_bind].
    rewrite (proj2 (applyPriority_idle input task task)) by done.
    cbn [mbind result_bind].
    rewrite (proj2 (applyMilestone_idle input task task)) by done.
    rewrite (proj2 (applyOrdinal_idle input task task)) by done.
    cbn [mbind result_bind].
    rewrite (proj2 (applyAssignee_idle input task task)) by done.
    rewrite (proj2 (resolveLabelChanges_idle input task task)) by done.
    rewrite (proj2 (resolveDependencies_idle w input task task)) by done.
    cbn [mbind result_bind].
    rewrite (proj2 (applySection_idle (UpdateInput.clearImplementationPlan input)
                      (UpdateInput.implementationPlan input)
                      (UpdateInput.appendImplementationPlan input)
                      implementationPlan set_implementationPlan task task)) by done.
    rewrite (proj2 (applySection_idle (UpdateInput.clearImplementationNotes input)
                      (UpdateInput.implementationNotes input)
                      (UpdateInput.appendImplementationNotes input)
                      implementationNotes set_implementationNotes task task)) by done.
    unfold applyCriteria.
    rewrite (proj2 (resolveCriteria_idle input task
                      (default [] (acceptanceCriteriaItems task)))) by done.
    cbn [mbind result_bind fst]. fold (untouched task).
    rewrite (proj2 (applyStringField_idle (UpdateInput.branchName input) branchName _
                      (untouched task) (untouched task))) by done.
    rewrite (proj2 (applyStringField_idle (UpdateInput.gitTag input) gitTag _
                      (untouched task) (untouched task))) by done.
    rewrite (proj2 (applyStringField_idle (UpdateInput.prNumber input) prNumber _
                      (untouched task) (untouched task))) by done.
    by rewrite (proj2 (applyHistory_idle input (untouched task) (untouched task))).
Qed.
Lemma untouched_same task :
  is_Some (acceptanceCriteriaItems task) -> untouched task = task.
Proof. intros [cs H]. unfold untouched. destruct task. cbn in *. by rewrite H. Qed.

End Unchanged.
End Updates.

(** *** Concrete updates *)

Definition exactArraysEqual (a b : list string) : bool := bool_decide (a = b).

(** [updateTaskFromInput] with the helpers instantiated: lists taken as
    they come, arrays compared element by element, every dependency
    valid, the statuses of the board canonical. *)
Definition sampleUpdate : string -> UpdateInput.t -> option bool -> M Task :=
  updateTaskFromInput None "2025-06-01 12:00" (fun t => t) (fun l => l)
    exactArraysEqual (fun l => default [] l) (fun _ l => (l, []))
    (fun s => if inb s boardStatuses then Some s else None) boardStatuses.

Definition sampleApply : World -> UpdateInput.t -> Task -> result (Task * bool) :=
  applyUpdateInput (fun l => l) exactArraysEqual (fun l => default [] l)
    (fun _ l => (l, []))
    (fun s => if inb s boardStatuses then Some s else None) boardStatuses.

(** A task with one unchecked acceptance criterion. *)
Definition reviewedTask : Task :=
  {| id := "task-1"; title := "Fix login"; status := "To Do"; assignee := [];
     reporter := None; createdDate := "2025-01-01 10:00"; updatedDate := None;
     labels := ["auth"]; milestone := None; dependencies := []; rawContent := None;
     description := None; implementationPlan := None;
     implementationNotes := None;
     acceptanceCriteriaItems := Some [mkCriterion 1 "Login works" false];
     parentTaskId := None; subtasks := None; priority := Some high;
     branch := None; ordinal := Some 1000; filePath := None;
     lastModified := None; source := None; onStatusChange := None;
     branchName := None; gitTag := None; prNumber := None; history := None |}.

Definition reviewedWorld : World :=
  mkWorld [] {[ "task-1" := reviewedTask ]} [].

(** The input that sends the acceptance criteria the task already has. *)
Definition sameCriteria : UpdateInput.t :=
  UpdateInput.mk None None None None None None None None None None None None None
    None None None None None None
    (Some [mkCriterionInput "Login works" None])
    None None None None None None None None None.

(** The input that repeats the title, status and priority of the task. *)
Definition sameFields : UpdateInput.t :=
  UpdateInput.mk (Some " Fix login ") None (Some "To Do") (Some "HIGH") None
    (Some ["auth"]) None None None (Some 1000) None None None
    None None None None None None None None None None None None None None None None.

(** The input that adds a label and removes it again. *)
Definition labelAddedAndRemoved : UpdateInput.t :=
  UpdateInput.mk None None None None None None (Some ["urgent"]) (Some ["urgent"]) None
    None None None None None None None None None None None None None None None None None
    None None None.

(** The input that checks the first criterion and unchecks it again. *)
Definition checkedAndUnchecked : UpdateInput.t :=
  UpdateInput.mk None None None None None None None None None None None None None
    None None None None None None None None None (Some [1]) (Some [1]) None None None
    None None.


Lemma exactArraysEqual_spec a b : exactArraysEqual a b = true <-> a = b.
Proof. apply bool_decide_eq_true. Qed.

(** [Unchanging] with the helpers of [sampleUpdate]. *)
Definition sampleUnchanging : World -> UpdateInput.t -> Task -> Prop :=
  Unchanging (fun l => l) (fun l => default [] l) (fun _ l => (l, []))
    (fun s => if inb s boardStatuses then Some s else None) boardStatuses.


(** ** What a mutation writes *)

(** The records saved, the per-file commits and the bulk commits of a
    trace, each in the order of the trace. *)
Definition savedTasks (es : list Event) : list Task :=
  omap (fun e => match e with SaveTask t => Some t | _ => None end) es.

Definition fileCommits (es : list Event) : list string :=
  omap (fun e => match e with CommitTaskFile i => Some i | _ => None end) es.

Definition bulkCommits (es : list Event) : list string :=
  omap (fun e => match e with CommitAll m => Some m | _ => None end) es.

Lemma savedTasks_app es es' : savedTasks (es ++ es') = savedTasks es ++ savedTasks es'.
Proof. apply omap_app. Qed.

Lemma fileCommits_app es es' : fileCommits (es ++ es') = fileCommits es ++ fileCommits es'.
Proof. apply omap_app. Qed.

Lemma bulkCommits_app es es' : bulkCommits (es ++ es') = bulkCommits es ++ bulkCommits es'.
Proof. apply omap_app. Qed.

Section WriteEffects.
Variable config : option BacklogConfig.
Variable now : string.
Variable normalizeAssignee : Task -> Task.

(** The record [updateTask] stores for [task]. *)
Definition stamped (task : Task) : Task :=
  set_updatedDate (normalizeAssignee task) (Some now).

(** With saving and committing taken to succeed, [updateTask] returns: it
    stores the stamped record under its id and appends the save, then at
    most a commit of that file and a callback. *)
Lemma updateTask_run task autoCommit w :
  exists extra,
    updateTask config now normalizeAssignee task autoCommit w =
      (Ok (stamped task),
       mkWorld (storeTasks w) (<[id (stamped task) := stamped task]> (files w))
         (events w ++ SaveTask (stamped task) :: extra)) /\
    savedTasks extra = [] /\ bulkCommits extra = [] /\
    fileCommits extra =
      (if shouldAutoCommit config autoCommit then [id (stamped task)] else []).
Proof.
  unfold updateTask, executeStatusChangeCallback, fs_loadTask, fs_saveTask, emit.
  unfold mbind, M_bind, mret, M_ret. fold (stamped task). cbn [storeTasks files events].
  destruct (shouldAutoCommit config autoCommit);
    destruct (negb _);
    repeat match goal with
    | |- context [match ?o with Some _ => _ | None => _ end] =>
        destruct o; cbn [storeTasks files events]
    | |- context [if String.eqb ?a ?b then _ else _] =>
        destruct (String.eqb a b); cbn [storeTasks files events]
    end;
    cbn [storeTasks files events]; rewrite <- ?app_assoc; cbn [app];
    eexists; (split; [reflexivity|]); done.
Qed.

Lemma mapM_updateTask_run tasks w :
  exists new w',
    mapM (fun task => updateTask config now normalizeAssignee task (Some false)) tasks w
      = (Ok (map stamped tasks), w') /\
    storeTasks w' = storeTasks w /\
    events w' = events w ++ new /\
    savedTasks new = map stamped tasks /\
    fileCommits new = [] /\ bulkCommits new = [].
Proof.
  revert w. induction tasks as [|t ts IH]; intros w.
  - exists [], w. simpl. rewrite app_nil_r. done.
  - destruct (updateTask_run t (Some false) w) as (extra & Hrun & Hs & Hb & Hf).
    simpl in Hf.
    destruct (IH (mkWorld (storeTasks w) (<[id (stamped t) := stamped t]> (files w))
                    (events w ++ SaveTask (stamped t) :: extra)))
      as (new & w' & Hrest & Hst & Hev & Hsv & Hfc & Hbc).
    exists (SaveTask (stamped t) :: extra ++ new), w'.
    cbn [mapM]. unfold mbind at 1. unfold M_bind. rewrite Hrun.
    unfold mbind at 1. rewrite Hrest. unfold mret, M_ret.
    split; [done|]. split; [done|].
    split; [rewrite Hev; cbn [events]; by rewrite <- app_assoc|].
    change (SaveTask (stamped t) :: extra ++ new)
      with ([SaveTask (stamped t)] ++ extra ++ new).
    rewrite !savedTasks_app, !fileCommits_app, !bulkCommits_app.
    rewrite Hs, Hb, Hf, Hsv, Hfc, Hbc. done.
Qed.

Lemma updateTasksBulk_run tasks commitMessage autoCommit w :
  exists body tail w',
    updateTasksBulk config now normalizeAssignee tasks commitMessage autoCommit w
      = (Ok (map stamped tasks), w') /\
    storeTasks w' = storeTasks w /\
    events w' = events w ++ body ++ tail /\
    savedTasks body = map stamped tasks /\
    fileCommits body = [] /\ bulkCommits body = [] /\
    (if shouldAutoCommit config autoCommit
     then exists message,
            tail = [CommitAll message] /\
            (forall m, commitMessage = Some m -> m <> "" -> message = m)
     else tail = []).
Proof.
  destruct (mapM_updateTask_run tasks w) as (new & w1 & Hrun & Hst & Hev & Hsv & Hfc & Hbc).
  unfold updateTasksBulk. unfold mbind at 1. unfold M_bind. rewrite Hrun.
  destruct (shouldAutoCommit config autoCommit).
  - eexists new, _, _. unfold emit, mbind, M_bind, mret, M_ret.
    split; [reflexivity|]. cbn [storeTasks events].
    split; [done|]. split; [by rewrite Hev, <- app_assoc|].
    do 3 (split; [done|]). eexists. split; [reflexivity|].
    intros m -> Hm. by destruct (String.eqb_spec m "").
  - exists new, [], w1. unfold mbind, M_bind, mret, M_ret.
    split; [done|]. split; [done|]. rewrite app_nil_r. done.
Qed.

(** [updateTasksBulk] returns normally, having saved every task once, in
    the order given, with [updatedDate] set. It commits no single file,
    also where the configuration asks for automatic commits; it commits at
    most once, after the last save, and only when automatic commits are
    on. The tasks the content store serves are left as they were. *)
Theorem updateTasksBulk_saves_each_commits_once tasks commitMessage autoCommit w :
  exists body tail w',
    updateTasksBulk config now normalizeAssignee tasks commitMessage autoCommit w
      = (Ok (map stamped tasks), w') /\
    storeTasks w' = storeTasks w /\
    events w' = events w ++ body ++ tail /\
    savedTasks body = map stamped tasks /\
    Forall (fun t => updatedDate t = Some now) (savedTasks body) /\
    fileCommits body = [] /\ bulkCommits body = [] /\
    (if shouldAutoCommit config autoCommit
     then exists message,
            tail = [CommitAll message] /\
            (forall m, commitMessage = Some m -> m <> "" -> message = m)
     else tail = []).
Proof.
  destruct (updateTasksBulk_run tasks commitMessage autoCommit w)
    as (body & tail & w' & H1 & H2 & H3 & H4 & H5 & H6 & H7).
  exists body, tail, w'. repeat (split; [done|]).
  split; [|done]. rewrite H4. apply Forall_forall. intros t Ht.
  apply list_elem_of_fmap in Ht as (t0 & -> & _). done.
Qed.
End WriteEffects.

(** *** A call that throws has written nothing *)
Section Atomicity.
Variable config : option BacklogConfig.
Variable now : string.
Variable normalizeAssignee : Task -> Task.
Variable taskIdsEqual : string -> string -> bool.
Variable normalizeTaskId : string -> string.
Variable DEFAULT_ORDINAL_STEP : Z.
Variable calculateNewOrdinal : option Task -> option Task -> Z -> Z * bool.
Variable resolveOrdinalConflicts : list Task -> Reorder.ResolveOptions -> list Task.
Variable normalizeStringList : option (list string) -> option (list string).
Variable stringArraysEqual : list string -> list string -> bool.
Variable normalizeDependencies : option (list string) -> list string.
Variable validateDependencies : World -> list string -> list string * list string.
Variable resolveCanonicalStatus : string -> option string.
Variable validStatuses : list string.


Lemma elem_of_zip_map {A B} (g : A -> B) (l : list A) p :
  p ∈ zip l (map g l) -> snd p = g (fst p) /\ fst p ∈ l.
Proof.
  induction l as [|x l IH]; simpl; [by intros H%elem_of_nil|].
  intros [->|H]%elem_of_cons.
  - split; [done|]. apply elem_of_cons. by left.
  - destruct (IH H) as [H1 H2]. split; [done|]. apply elem_of_cons. by right.
Qed.

Lemma keyed_fold_set (ps : list (string * Task * Task)) (m : JsMap.t Task) :
  keyed m -> (forall p, p ∈ ps -> id (snd p) = fst (fst p)) ->
  keyed (fold_left (fun m p => JsMap.set (fst (fst p)) (snd p) m) ps m).
Proof.
  revert m. induction ps as [|p ps IH]; intros m Hm Hps; simpl; [done|].
  apply IH.
  - apply keyed_set; [done|]. apply Hps. apply elem_of_cons. by left.
  - intros q Hq. apply Hps. apply elem_of_cons. by right.
Qed.

(** The task handed back by a reorder carries the key it is looked up
    with, and the records saved have pairwise different ids. *)
Lemma reorder_outcome (updatesMap changedEntries : JsMap.t Task) (updatedMoved : Task)
    (key : string) (keep : string * Task -> bool) :
  (forall t, id (normalizeAssignee t) = id t) ->
  keyed updatesMap -> NoDup (JsMap.keys updatesMap) ->
  changedEntries = List.filter keep updatesMap ->
  id updatedMoved = key ->
  let saved := map (stamped now normalizeAssignee) (map snd changedEntries) in
  id (default updatedMoved
        (JsMap.get key
           (fold_left (fun m p => JsMap.set (fst (fst p)) (snd p) m)
              (zip changedEntries saved) updatesMap))) = key /\
  NoDup (map id saved).
Proof.
  intros Hid Hk Hn -> Hmoved saved. split.
  - destruct (JsMap.get key _) as [v|] eqn:Hget; [|done]. simpl.
    apply (keyed_get _ _ _) in Hget; [done|].
    apply keyed_fold_set; [done|]. intros p Hp. unfold saved in Hp.
    rewrite map_map in Hp.
    apply (elem_of_zip_map (fun e => stamped now normalizeAssignee (snd e))) in Hp
      as [Hs Hin].
    rewrite Hs. unfold stamped. cbn. rewrite Hid. apply Hk.
    apply list_elem_of_In in Hin. apply filter_In in Hin as [Hin _].
    by apply list_elem_of_In.
  - unfold saved. rewrite !map_map.
    assert (Heq : map (fun x => id (stamped now normalizeAssignee (snd x)))
                    (List.filter keep updatesMap)
                  = map fst (List.filter keep updatesMap)).
    { apply map_ext_in. intros e He. apply filter_In in He as [He _].
      unfold stamped. cbn. rewrite Hid. apply Hk. by apply list_elem_of_In. }
    rewrite Heq. by apply NoDup_map_filter.
Qed.

(** When [reorderTask] returns, and [normalizeAssignee] leaves ids alone:
    the task handed back carries the id that was asked for; the changed
    tasks have pairwise different ids and are exactly the records saved,
    in that order, each saved once; no single file is committed and at
    most one commit is made; with no changed task the world is left as it
    was; the tasks the content store serves are never touched. *)
Theorem reorderTask_saves_changed_tasks params w updatedTask changedTasks w' :
  (forall t, id (normalizeAssignee t) = id t) ->
  reorderTask config now normalizeAssignee taskIdsEqual normalizeTaskId
    DEFAULT_ORDINAL_STEP calculateNewOrdinal resolveOrdinalConflicts params w
  = (Ok (updatedTask, changedTasks), w') ->
  id updatedTask = JsString.trim (taskId params) /\
  NoDup (map id changedTasks) /\
  storeTasks w' = storeTasks w /\
  (exists new,
     events w' = events w ++ new /\ savedTasks new = changedTasks /\
     fileCommits new = [] /\ (length (bulkCommits new) <= 1)%nat) /\
  (changedTasks = [] -> w' = w).
Proof.
  intros Hid. unfold reorderTask.
  destruct (reorderValidation params); [done|].
  unfold mbind at 1. unfold M_bind at 1.
  rewrite mapM_getTask_reads, valid_loaded_tasks.
  set (validTasks := omap _ _).
  destruct (List.find _ _) as [movedTask|] eqn:Hfind; [|done].
  unfold mbind at 1. unfold M_bind at 1.
  assert (Hguard :
    (match branch movedTask with
     | Some b =>
         if negb (String.eqb b "")
         then mthrow (foreignBranchMessage (JsString.trim (taskId params)) b)
         else mret tt
     | None => mret tt
     end : M unit) w = (Ok tt, w) \/
    exists m,
      (match branch movedTask with
       | Some b =>
           if negb (String.eqb b "")
           then mthrow (foreignBranchMessage (JsString.trim (taskId params)) b)
           else mret tt
       | None => mret tt
       end : M unit) w = (Err m, w)).
  { destruct (branch movedTask) as [b|]; [|by left].
    destruct (negb (String.eqb b "")); [right; by eexists|by left]. }
  destruct Hguard as [-> | [m ->]]; [|done].
  destruct (indexOfId _ _) as [targetIndex|]; [|done].
  destruct (calculateNewOrdinal _ _ _) as [newOrdinal requiresRebalance].
  set (updatedMoved := set_ordinal _ (Some newOrdinal)).
  set (updates := resolveOrdinalConflicts _ _).
  set (updatesMap := if JsMap.has _ _ then _ else _).
  set (changedEntries := List.filter _ updatesMap).
  assert (Hmoved : id updatedMoved = JsString.trim (taskId params)).
  { apply find_some in Hfind as [_ Heq]. apply String.eqb_eq in Heq.
    rewrite <- Heq. unfold updatedMoved.
    by destruct (targetMilestone params). }
  assert (Hwf : keyed updatesMap /\ NoDup (JsMap.keys updatesMap)).
  { destruct (of_entries_wf updates (fun t => t)) as [Hk Hn]; [done|].
    unfold updatesMap. destruct (JsMap.has _ _); [done|].
    split; [by apply keyed_set|by apply JsMap.NoDup_keys_set]. }
  destruct Hwf as [Hk Hn].
  pose proof (reorder_outcome updatesMap changedEntries updatedMoved
                (JsString.trim (taskId params)) _ Hid Hk Hn eq_refl Hmoved)
    as [Hout1 Hout2].
  unfold mbind at 1. unfold M_bind at 1.
  destruct (Nat.eqb (length (map snd changedEntries)) 0) eqn:Hlen.
  - apply Nat.eqb_eq in Hlen. rewrite length_map in Hlen.
    apply nil_length_inv in Hlen. rewrite Hlen in *.
    intros [= <- <- <-]. split; [done|]. split; [apply NoDup_nil_2|].
    split; [done|]. split; [|done].
    exists []. rewrite app_nil_r. cbn. repeat split; lia.
  - destruct (updateTasksBulk_run config now normalizeAssignee (map snd changedEntries)
                (Some (default ("Reorder tasks in " +:+ JsString.trim (targetStatus params))
                         (commitMessage params)))
                (p_autoCommit params) w)
      as (body & tail & w1 & -> & Hst & Hev & Hsv & Hfc & Hbc & Htail).
    intros [= <- <- <-]. split; [done|]. split; [done|]. split; [done|].
    split.
    + exists (body ++ tail). split; [done|].
      rewrite savedTasks_app, fileCommits_app, bulkCommits_app, Hsv, Hfc, Hbc.
      destruct (shouldAutoCommit config (p_autoCommit params)).
      * destruct Htail as (message & -> & _). cbn. rewrite app_nil_r. done.
      * rewrite Htail. cbn. rewrite app_nil_r. split; [done|]. split; [done|lia].
    + intros Hnil. apply map_eq_nil in Hnil. rewrite Hnil in Hlen. done.
Qed.
End Atomicity.

(** *** Concrete calls *)

(** An update whose title is blank. *)
Definition blankTitle : UpdateInput.t :=
  UpdateInput.mk (Some "   ") None (Some "Done") None None None None None None None
    None None None None None None None None None None None None None None None None
    None None None.


Lemma reorderTask_swap_example :
  exists updatedTask changedTasks w',
    sampleReorder
      (mkReorderParams "task-2" "In Progress" ["task-2"; "task-1"] None None None None)
      sampleWorld = (Ok (updatedTask, changedTasks), w') /\
    (id updatedTask = JsString.trim "task-2" /\
     NoDup (map id changedTasks) /\
     storeTasks w' = storeTasks sampleWorld /\
     (exists new,
        events w' = events sampleWorld ++ new /\ savedTasks new = changedTasks /\
        fileCommits new = [] /\ (length (bulkCommits new) <= 1)%nat) /\
     (changedTasks = [] -> w' = sampleWorld)).
Proof.
  eexists _, _, _. split; [vm_compute; reflexivity|].
  apply (reorderTask_saves_changed_tasks None "2025-06-01 12:00" (fun t => t)
           String.eqb (fun s => s) 1000 (fun _ _ step => (step, false))
           Reorder.resolveOrdinalConflicts
           (mkReorderParams "task-2" "In Progress" ["task-2"; "task-1"]
              None None None None)
           sampleWorld).
  - reflexivity.
  - vm_compute. reflexivity.
Defined.

(** ** Acceptance criteria (core.ts, [addAcceptanceCriteria],
    [removeAcceptanceCriteria], [checkAcceptanceCriteria]) *)

(** [list.sort((a, b) => a - b)] and [list.sort((a, b) => b - a)] on
    numbers. *)
Definition sortAscending (l : list Z) : list Z := merge_sort Z.le l.
Definition sortDescending (l : list Z) : list Z := merge_sort (flip Z.le) l.

Section Criteria.
Variable config : option BacklogConfig.
Variable now : string.
Variable normalizeAssignee : Task -> Task.

(** [addAcceptanceCriteria] *)
Definition addAcceptanceCriteria (taskId : string) (criteria : list string)
    (autoCommit : option bool) : M unit :=
  loaded ← fs_loadTask taskId;
  match loaded with
  | None => mthrow ("Task not found: " +:+ taskId)
  | Some task =>
      let current := default [] (acceptanceCriteriaItems task) in
      let nextIndex :=
        match current with
        | [] => 1
        | _ => maxIndex current + 1
        end in
      let newCriteria := numberFrom nextIndex (map (fun text => (text, false)) criteria) in
      let task := set_acceptanceCriteriaItems task (Some (current ++ newCriteria)) in
      updateTask config now normalizeAssignee task autoCommit;;
      mret tt
  end.

(** The loop of [removeAcceptanceCriteria]: the criteria left and the
    indices that removed something. *)
Fixpoint removeEach (sortedIndices : list Z) (items : list AcceptanceCriterion)
    (removed : list Z) : list AcceptanceCriterion * list Z :=
  match sortedIndices with
  | [] => (items, removed)
  | idx :: rest =>
      let items' := List.filter (fun c => negb (index c =? idx)) items in
      if (length items' <? length items)%nat
      then removeEach rest items' (removed ++ [idx])
      else removeEach rest items' removed
  end.

(** [removeAcceptanceCriteria] *)
Definition removeAcceptanceCriteria (taskId : string) (indices : list Z)
    (autoCommit : option bool) : M (list Z) :=
  loaded ← fs_loadTask taskId;
  match loaded with
  | None => mthrow ("Task not found: " +:+ taskId)
  | Some task =>
      let items := default [] (acceptanceCriteriaItems task) in
      let sortedIndices := sortDescending indices in
      let '(items, removed) := removeEach sortedIndices items [] in
      if Nat.eqb (length removed) 0 then
        mthrow "No criteria were removed. Check that the specified indices exist."
      else
        let items := numberFrom 1 (map (fun c => (text c, checked c)) items) in
        let task := set_acceptanceCriteriaItems task (Some items) in
        updateTask config now normalizeAssignee task autoCommit;;
        mret (sortAscending removed)
  end.

(** The loop of [checkAcceptanceCriteria]: an index that some criterion
    carries sets the state of every criterion of that index and is
    recorded once for each of them. *)
Fixpoint checkEach (indices : list Z) (state : bool) (items : list AcceptanceCriterion)
    (updated : list Z) : list AcceptanceCriterion * list Z :=
  match indices with
  | [] => (items, updated)
  | idx :: rest =>
      if existsb (fun c => index c =? idx) items then
        let items' :=
          map (fun c => if index c =? idx then mkCriterion (index c) (text c) state else c)
            items in
        let pushed := map (fun _ => idx) (List.filter (fun c => index c =? idx) items) in
        checkEach rest state items' (updated ++ pushed)
      else checkEach rest state items updated
  end.

(** [checkAcceptanceCriteria] *)
Definition checkAcceptanceCriteria (taskId : string) (indices : list Z) (state : bool)
    (autoCommit : option bool) : M (list Z) :=
  loaded ← fs_loadTask taskId;
  match loaded with
  | None => mthrow ("Task not found: " +:+ taskId)
  | Some task =>
      let items := default [] (acceptanceCriteriaItems task) in
      let '(items, updated) := checkEach indices state items [] in
      if Nat.eqb (length updated) 0 then mthrow "No criteria were updated."
      else
        let task := set_acceptanceCriteriaItems task (Some items) in
        updateTask config now normalizeAssignee task autoCommit;;
        mret (sortAscending updated)
  end.

(** [listAcceptanceCriteria] *)
Definition listAcceptanceCriteria (taskId : string) : M (list AcceptanceCriterion) :=
  loaded ← fs_loadTask taskId;
  match loaded with
  | None => mthrow ("Task not found: " +:+ taskId)
  | Some task => mret (default [] (acceptanceCriteriaItems task))
  end.

(** *** Sorting and list facts *)

Lemma existsb_eqb_elem (v : Z) (l : list Z) : existsb (Z.eqb v) l = true <-> v ∈ l.
Proof.
  rewrite existsb_exists. split.
  - intros (x & Hx & ->%Z.eqb_eq). by apply list_elem_of_In.
  - intros H. exists v. split; [by apply list_elem_of_In|apply Z.eqb_refl].
Qed.

Lemma filter_length_lt {A} (p : A -> bool) (l : list A) :
  (length (List.filter p l) <? length l)%nat = existsb (fun x => negb (p x)) l.
Proof.
  induction l as [|x l IH]; [done|]. cbn [List.filter existsb].
  destruct (p x); cbn [negb orb length].
  - exact IH.
  - apply Nat.ltb_lt. pose proof (filter_length_le p l). lia.
Qed.

Lemma filter_all {A} (p : A -> bool) (l : list A) :
  existsb (fun x => negb (p x)) l = false -> List.filter p l = l.
Proof.
  induction l as [|x l IH]; [done|]. cbn [List.filter existsb].
  destruct (p x); cbn [negb orb]; [|done]. intros H. by rewrite IH.
Qed.

Lemma numberFrom_index from items :
  map index (numberFrom from items) = seqZ from (Z.of_nat (length items)).
Proof.
  revert from. induction items as [|[t c] items IH]; intros from; [done|].
  cbn [numberFrom map length]. rewrite IH.
  rewrite (seqZ_cons from) by lia. f_equal. f_equal; lia.
Qed.

Lemma numberFrom_length from items : length (numberFrom from items) = length items.
Proof.
  revert from. induction items as [|[t c] items IH]; intros from; [done|].
  cbn [numberFrom length]. by rewrite IH.
Qed.

Lemma numberFrom_unchecked from texts :
  map text (numberFrom from (map (fun t => (t, false)) texts)) = texts /\
  Forall (fun a => checked a = false) (numberFrom from (map (fun t => (t, false)) texts)).
Proof.
  revert from. induction texts as [|t texts IH]; intros from; [by split|].
  cbn [numberFrom map]. destruct (IH (from + 1)) as [H1 H2].
  split; [by rewrite H1|by constructor].
Qed.

Lemma fold_max_ge (l : list Z) (m : Z) :
  m <= fold_left Z.max l m /\ Forall (fun x => x <= fold_left Z.max l m) l.
Proof.
  revert m. induction l as [|x l IH]; intros m; simpl; [split; [lia|constructor]|].
  destruct (IH (Z.max m x)) as [H1 H2]. split; [lia|]. constructor; [lia|done].
Qed.

Lemma maxIndex_bound (criteria : list AcceptanceCriterion) :
  Forall (fun c => index c <= maxIndex criteria) criteria.
Proof.
  destruct criteria as [|c rest]; [constructor|]. unfold maxIndex.
  destruct (fold_max_ge (map index rest) (index c)) as [H1 H2].
  constructor; [done|]. apply Forall_forall. intros x Hx.
  rewrite Forall_forall in H2. apply H2. by apply list_elem_of_fmap_2.
Qed.

(** *** The loops *)

Lemma removeEach_spec sortedIndices items removed :
  exists more,
    removeEach sortedIndices items removed =
      (List.filter (fun c => negb (existsb (Z.eqb (index c)) sortedIndices)) items,
       removed ++ more) /\
    NoDup more /\
    (forall x, x ∈ more <-> x ∈ sortedIndices /\ exists c, c ∈ items /\ index c = x).
Proof.
  revert items removed.
  induction sortedIndices as [|idx rest IH]; intros items removed.
  - exists []. cbn [removeEach existsb negb]. rewrite app_nil_r.
    split; [|split; [apply NoDup_nil_2|]].
    + f_equal. symmetry. apply filter_all. by induction items.
    + intros x. split; [by intros H%elem_of_nil|by intros [H%elem_of_nil _]].
  - cbn [removeEach]. rewrite filter_length_lt.
    set (items' := List.filter (fun c => negb (index c =? idx)) items).
    assert (Hfilter :
      List.filter (fun c => negb (existsb (Z.eqb (index c)) rest)) items' =
      List.filter (fun c => negb (existsb (Z.eqb (index c)) (idx :: rest))) items).
    { unfold items'. clear. induction items as [|c items IHi]; [done|].
      cbn [List.filter existsb]. destruct (index c =? idx); cbn [negb orb List.filter];
        [done|]. destruct (negb _); by rewrite IHi. }
    assert (Hin' : forall c, c ∈ items' <-> c ∈ items /\ index c <> idx).
    { intros c. unfold items'. rewrite !list_elem_of_In, filter_In.
      rewrite negb_true_iff, Z.eqb_neq. done. }
    destruct (existsb _ items) eqn:Hhit.
    + destruct (IH items' (removed ++ [idx])) as (more & Hrun & Hnd & Hmem).
      exists (idx :: more). rewrite Hrun, Hfilter, <- app_assoc.
      split; [done|]. split.
      * apply NoDup_cons. split; [|done]. intros Hx. apply Hmem in Hx as [_ (c & Hc & Hi)].
        apply Hin' in Hc as [_ Hne]. done.
      * intros x. rewrite !elem_of_cons, Hmem. split.
        -- intros [->|[Hx (c & Hc & Hi)]].
           ++ split; [by left|]. apply existsb_exists in Hhit as (c & Hc & Hi).
              exists c. split; [by apply list_elem_of_In|].
              apply negb_true_iff, negb_false_iff, Z.eqb_eq in Hi. done.
           ++ split; [by right|]. exists c. apply Hin' in Hc as [Hc _]. done.
        -- intros [[->|Hx] (c & Hc & Hi)]; [by left|].
           destruct (decide (x = idx)) as [->|Hne]; [by left|].
           right. split; [done|]. exists c. split; [|done]. apply Hin'. split; [done|].
           by rewrite Hi.
    + destruct (IH items' removed) as (more & Hrun & Hnd & Hmem).
      exists more. rewrite Hrun, Hfilter. split; [done|]. split; [done|].
      assert (Hnone : forall c, c ∈ items -> index c <> idx).
      { intros c Hc Hi. apply not_true_iff_false in Hhit. apply Hhit.
        apply existsb_exists. exists c. split; [by apply list_elem_of_In|].
        apply negb_true_iff, negb_false_iff, Z.eqb_eq. done. }
      intros x. rewrite elem_of_cons, Hmem. split.
      * intros [Hx (c & Hc & Hi)]. split; [by right|]. exists c.
        apply Hin' in Hc as [Hc _]. done.
      * intros [[->|Hx] (c & Hc & Hi)]; [by apply Hnone in Hc|].
        split; [done|]. exists c. split; [|done]. apply Hin'. split; [done|].
        by apply Hnone.
Qed.

Lemma checkEach_spec indices state items updated :
  exists more,
    checkEach indices state items updated =
      (map (fun c => if existsb (Z.eqb (index c)) indices
                     then mkCriterion (index c) (text c) state else c) items,
       updated ++ more) /\
    (forall x, x ∈ more <-> x ∈ indices /\ exists c, c ∈ items /\ index c = x).
Proof.
  revert items updated. induction indices as [|idx rest IH]; intros items updated.
  - exists []. cbn [checkEach existsb]. rewrite app_nil_r, map_id.
    split; [done|]. intros x.
    split; [by intros H%elem_of_nil|by intros [H%elem_of_nil _]].
  - cbn [checkEach].
    set (toggle := fun c => if index c =? idx then mkCriterion (index c) (text c) state
                            else c).
    assert (Hmap : forall l : list AcceptanceCriterion,
      map (fun c => if existsb (Z.eqb (index c)) rest
                    then mkCriterion (index c) (text c) state else c) (map toggle l) =
      map (fun c => if existsb (Z.eqb (index c)) (idx :: rest)
                    then mkCriterion (index c) (text c) state else c) l).
    { intros l. rewrite map_map. apply map_ext. intros c. unfold toggle.
      cbn [existsb]. destruct (index c =? idx); cbn [orb index text]; [|done].
      by destruct (existsb _ rest). }
    assert (Htoggle : forall x,
      (exists c, c ∈ map toggle items /\ index c = x) <->
      (exists c, c ∈ items /\ index c = x)).
    { intros x. split.
      - intros (c & Hc & Hi). apply list_elem_of_fmap in Hc as (c0 & -> & Hc0).
        exists c0. split; [done|]. rewrite <- Hi. unfold toggle.
        by destruct (index c0 =? idx).
      - intros (c & Hc & Hi). exists (toggle c). split; [by apply list_elem_of_fmap_2|].
        rewrite <- Hi. unfold toggle. by destruct (index c =? idx). }
    destruct (existsb _ items) eqn:Hhit.
    + destruct (IH (map toggle items)
                  (updated ++ map (fun _ => idx)
                     (List.filter (fun c => index c =? idx) items)))
        as (more & Hrun & Hmem).
      eexists (_ ++ more). fold toggle. rewrite Hrun, Hmap, <- app_assoc.
      split; [reflexivity|]. intros x. rewrite elem_of_app, elem_of_cons, Hmem, Htoggle.
      split.
      * intros [Hx|[Hx Hc]]; [|by split; [right|]].
        apply list_elem_of_fmap in Hx as (c & -> & Hc).
        apply list_elem_of_In, filter_In in Hc as [Hc Hi]. apply Z.eqb_eq in Hi.
        split; [by left|]. exists c. split; [by apply list_elem_of_In|done].
      * intros [[->|Hx] (c & Hc & Hi)]; [|right; split; [done|by exists c]].
        left. apply (list_elem_of_fmap_2' _ _ c); [|done].
        apply list_elem_of_In, filter_In. split; [by apply list_elem_of_In|].
        by apply Z.eqb_eq.
    + destruct (IH items updated) as (more & Hrun & Hmem).
      assert (Hnone : forall c, c ∈ items -> index c <> idx).
      { intros c Hc Hi. apply not_true_iff_false in Hhit. apply Hhit.
        apply existsb_exists. exists c. split; [by apply list_elem_of_In|].
        by apply Z.eqb_eq. }
      exists more. rewrite Hrun. split.
      * f_equal. apply map_ext_in. intros c Hc%list_elem_of_In. cbn [existsb].
        apply Hnone in Hc. apply Z.eqb_neq in Hc. by rewrite Hc.
      * intros x. rewrite elem_of_cons, Hmem. split.
        -- intros [Hx Hc]. by split; [right|].
        -- intros [[->|Hx] (c & Hc & Hi)]; [by apply Hnone in Hc|].
           split; [done|by exists c].
Qed.

#[local] Instance flip_le_total : Total (flip Z.le).
Proof. intros x y. unfold flip. lia. Qed.

(** [addAcceptanceCriteria] on a stored task always saves. The criteria
    the task had are kept in front, in order; the new ones carry the given
    texts, unchecked, numbered consecutively from an index that is above
    every index the task had (from 1 when it had none). *)
Theorem addAcceptanceCriteria_appends_fresh taskId criteria autoCommit w task :
  files w !! taskId = Some task ->
  exists first added extra w',
    addAcceptanceCriteria taskId criteria autoCommit w = (Ok tt, w') /\
    events w' = events w ++
      SaveTask (stamped now normalizeAssignee
                  (set_acceptanceCriteriaItems task
                     (Some (default [] (acceptanceCriteriaItems task) ++ added))))
      :: extra /\
    savedTasks extra = [] /\
    map text added = criteria /\
    Forall (fun a => checked a = false) added /\
    map index added = seqZ first (Z.of_nat (length criteria)) /\
    Forall (fun c => index c < first) (default [] (acceptanceCriteriaItems task)) /\
    (default [] (acceptanceCriteriaItems task) = [] -> first = 1).
Proof.
  intros Hfile. unfold addAcceptanceCriteria, fs_loadTask.
  unfold mbind at 1. unfold M_bind. rewrite Hfile.
  set (current := default [] (acceptanceCriteriaItems task)).
  set (first := match current with [] => 1 | _ => maxIndex current + 1 end).
  set (added := numberFrom first (map (fun text => (text, false)) criteria)).
  destruct (updateTask_run config now normalizeAssignee
              (set_acceptanceCriteriaItems task (Some (current ++ added))) autoCommit w)
    as (extra & Hrun & Hs & _).
  exists first, added, extra. eexists.
  unfold mbind at 1. rewrite Hrun. unfold mret, M_ret.
  split; [reflexivity|]. split; [done|]. split; [done|].
  destruct (numberFrom_unchecked first criteria) as [Htext Hchecked].
  split; [done|]. split; [done|].
  split; [unfold added; by rewrite numberFrom_index, length_map|].
  split.
  - pose proof (maxIndex_bound current) as Hb. unfold first.
    destruct current as [|c rest]; [constructor|].
    eapply Forall_impl; [exact Hb|]. intros x Hx. cbv beta in Hx |- *. lia.
  - unfold first. by intros ->.
Qed.

(** [removeAcceptanceCriteria] on a stored task. When none of the given
    indices is the index of a criterion, it throws and writes nothing.
    Otherwise it saves the task with the criteria of the other indices, in
    their order, renumbered 1, 2, ..., and returns in ascending order,
    each once, the given indices that some criterion carried. *)
Theorem removeAcceptanceCriteria_renumbers taskId indices autoCommit w task :
  files w !! taskId = Some task ->
  ((forall c, c ∈ default [] (acceptanceCriteriaItems task) -> index c ∉ indices) ->
   removeAcceptanceCriteria taskId indices autoCommit w =
     (Err "No criteria were removed. Check that the specified indices exist.", w)) /\
  ((exists c, c ∈ default [] (acceptanceCriteriaItems task) /\ index c ∈ indices) ->
   exists removed remaining extra w',
     removeAcceptanceCriteria taskId indices autoCommit w = (Ok removed, w') /\
     events w' = events w ++
       SaveTask (stamped now normalizeAssignee
                   (set_acceptanceCriteriaItems task (Some remaining))) :: extra /\
     savedTasks extra = [] /\
     remaining =
       numberFrom 1
         (map (fun c => (text c, checked c))
            (List.filter (fun c => negb (existsb (Z.eqb (index c)) indices))
               (default [] (acceptanceCriteriaItems task)))) /\
     map index remaining = seqZ 1 (Z.of_nat (length remaining)) /\
     Sorted Z.le removed /\ NoDup removed /\
     (forall x, x ∈ removed <->
        x ∈ indices /\
        exists c, c ∈ default [] (acceptanceCriteriaItems task) /\ index c = x)).
Proof.
  intros Hfile.
  set (items := default [] (acceptanceCriteriaItems task)).
  destruct (removeEach_spec (sortDescending indices) items [])
    as (removed & Hloop & Hnd & Hmem). cbn [app] in Hloop.
  assert (Hsorted : forall x, x ∈ sortDescending indices <-> x ∈ indices).
  { intros x. unfold sortDescending. by rewrite merge_sort_Permutation. }
  assert (Hkept :
    List.filter (fun c => negb (existsb (Z.eqb (index c)) (sortDescending indices))) items
    = List.filter (fun c => negb (existsb (Z.eqb (index c)) indices)) items).
  { apply filter_ext. intros c. f_equal. apply eq_true_iff_eq.
    by rewrite !existsb_eqb_elem, Hsorted. }
  rewrite Hkept in Hloop.
  set (remaining :=
         numberFrom 1
           (map (fun c => (text c, checked c))
              (List.filter (fun c => negb (existsb (Z.eqb (index c)) indices)) items))).
  assert (Hcall :
    removeAcceptanceCriteria taskId indices autoCommit w =
    (if Nat.eqb (length removed) 0
     then mthrow "No criteria were removed. Check that the specified indices exist."
     else updateTask config now normalizeAssignee
            (set_acceptanceCriteriaItems task (Some remaining)) autoCommit;;
          mret (sortAscending removed)) w).
  { unfold removeAcceptanceCriteria, fs_loadTask.
    unfold mbind at 1. unfold M_bind at 1. rewrite Hfile. fold items.
    by rewrite Hloop. }
  rewrite Hcall. split.
  - intros Hnone. destruct removed as [|x removed]; [done|]. exfalso.
    destruct (proj1 (Hmem x)) as (Hx & c & Hc & Hi); [apply elem_of_cons; by left|].
    apply (Hnone c Hc). rewrite Hi. by apply Hsorted.
  - intros (c & Hc & Hi).
    assert (Hne : removed <> []).
    { intros ->. assert (H' : index c ∈ []); [|by apply elem_of_nil in H'].
      apply Hmem. split; [by apply Hsorted|by exists c]. }
    destruct removed as [|x removed]; [done|]. cbn [length Nat.eqb].
    destruct (updateTask_run config now normalizeAssignee
                (set_acceptanceCriteriaItems task (Some remaining)) autoCommit w)
      as (extra & Hrun & Hs & _).
    exists (sortAscending (x :: removed)), remaining, extra. eexists.
    unfold mbind at 1. unfold M_bind at 1. rewrite Hrun. unfold mret, M_ret.
    split; [reflexivity|]. split; [done|]. split; [done|]. split; [done|].
    split.
    { subst remaining. by rewrite numberFrom_index, numberFrom_length. }
    split; [apply Sorted_merge_sort; apply _|].
    split; [unfold sortAscending; by rewrite merge_sort_Permutation|].
    intros y. unfold sortAscending. rewrite merge_sort_Permutation, Hmem, Hsorted. done.
Qed.

(** [checkAcceptanceCriteria] on a stored task. When none of the given
    indices is the index of a criterion, it throws and writes nothing.
    Otherwise indices that no criterion carries are ignored: the task is
    saved with the same criteria, in the same order, with the same indices
    and texts, where those of a given index have the requested state and
    the others the state they had; the indices returned are in ascending
    order and are the given indices that some criterion carried. *)
Theorem checkAcceptanceCriteria_sets_requested taskId indices state autoCommit w task :
  files w !! taskId = Some task ->
  ((forall c, c ∈ default [] (acceptanceCriteriaItems task) -> index c ∉ indices) ->
   checkAcceptanceCriteria taskId indices state autoCommit w =
     (Err "No criteria were updated.", w)) /\
  ((exists c, c ∈ default [] (acceptanceCriteriaItems task) /\ index c ∈ indices) ->
   exists updated extra w',
     checkAcceptanceCriteria taskId indices state autoCommit w = (Ok updated, w') /\
     events w' = events w ++
       SaveTask (stamped now normalizeAssignee
                   (set_acceptanceCriteriaItems task
                      (Some (map (fun c => if existsb (Z.eqb (index c)) indices
                                           then mkCriterion (index c) (text c) state
                                           else c)
                               (default [] (acceptanceCriteriaItems task))))))
       :: extra /\
     savedTasks extra = [] /\
     Sorted Z.le updated /\
     (forall x, x ∈ updated <->
        x ∈ indices /\
        exists c, c ∈ default [] (acceptanceCriteriaItems task) /\ index c = x)).
Proof.
  intros Hfile.
  set (items := default [] (acceptanceCriteriaItems task)).
  destruct (checkEach_spec indices state items []) as (updated & Hloop & Hmem).
  cbn [app] in Hloop.
  set (toggled := map _ items) in *.
  assert (Hcall :
    checkAcceptanceCriteria taskId indices state autoCommit w =
    (if Nat.eqb (length updated) 0 then mthrow "No criteria were updated."
     else updateTask config now normalizeAssignee
            (set_acceptanceCriteriaItems task (Some toggled)) autoCommit;;
          mret (sortAscending updated)) w).
  { unfold checkAcceptanceCriteria, fs_loadTask.
    unfold mbind at 1. unfold M_bind at 1. rewrite Hfile. fold items.
    by rewrite Hloop. }
  rewrite Hcall. split.
  - intros Hnone. destruct updated as [|x updated]; [done|]. exfalso.
    destruct (proj1 (Hmem x)) as (Hx & c & Hc & Hi); [apply elem_of_cons; by left|].
    apply (Hnone c Hc). by rewrite Hi.
  - intros (c & Hc & Hi).
    assert (Hne : updated <> []).
    { intros ->. assert (H' : index c ∈ []); [|by apply elem_of_nil in H'].
      apply Hmem. split; [done|by exists c]. }
    destruct updated as [|x updated]; [done|]. cbn [length Nat.eqb].
    destruct (updateTask_run config now normalizeAssignee
                (set_acceptanceCriteriaItems task (Some toggled)) autoCommit w)
      as (extra & Hrun & Hs & _).
    exists (sortAscending (x :: updated)), extra. eexists.
    unfold mbind at 1. unfold M_bind at 1. rewrite Hrun. unfold mret, M_ret.
    split; [reflexivity|]. split; [done|]. split; [done|].
    split; [apply Sorted_merge_sort; apply _|].
    intros y. unfold sortAscending. rewrite merge_sort_Permutation, Hmem. done.
Qed.
End Criteria.

(** *** Concrete calls on the task with one criterion *)

Lemma addAcceptanceCriteria_example :
  files reviewedWorld !! "task-1" = Some reviewedTask /\
  exists first added extra w',
    addAcceptanceCriteria None "2025-06-01 12:00" (fun t => t) "task-1"
      ["Logout works"; "Session expires"] None reviewedWorld = (Ok tt, w') /\
    events w' = events reviewedWorld ++
      SaveTask (stamped "2025-06-01 12:00" (fun t => t)
                  (set_acceptanceCriteriaItems reviewedTask
                     (Some (default [] (acceptanceCriteriaItems reviewedTask) ++ added))))
      :: extra /\
    savedTasks extra = [] /\
    map text added = ["Logout works"; "Session expires"] /\
    Forall (fun a => checked a = false) added /\
    map index added = seqZ first (Z.of_nat (length ["Logout works"; "Session expires"])) /\
    Forall (fun c => index c < first) (default [] (acceptanceCriteriaItems reviewedTask)) /\
    (default [] (acceptanceCriteriaItems reviewedTask) = [] -> first = 1).
Proof.
  split; [reflexivity|].
  apply (addAcceptanceCriteria_appends_fresh None "2025-06-01 12:00" (fun t => t)
           "task-1" ["Logout works"; "Session expires"] None reviewedWorld reviewedTask).
  reflexivity.
Defined.

Lemma removeAcceptanceCriteria_example :
  files reviewedWorld !! "task-1" = Some reviewedTask /\
  removeAcceptanceCriteria None "2025-06-01 12:00" (fun t => t) "task-1" [4; 2] None
    reviewedWorld =
    (Err "No criteria were removed. Check that the specified indices exist.",
     reviewedWorld).
Proof.
  split; [reflexivity|].
  apply (proj1 (removeAcceptanceCriteria_renumbers None "2025-06-01 12:00" (fun t => t)
                  "task-1" [4; 2] None reviewedWorld reviewedTask eq_refl)).
  intros c Hc Hin. apply list_elem_of_singleton in Hc. subst c.
  apply elem_of_cons in Hin as [Hin|Hin]; [done|].
  apply list_elem_of_singleton in Hin. done.
Defined.

Lemma checkAcceptanceCriteria_example :
  files reviewedWorld !! "task-1" = Some reviewedTask /\
  exists updated extra w',
    checkAcceptanceCriteria None "2025-06-01 12:00" (fun t => t) "task-1" [7; 1] true None
      reviewedWorld = (Ok updated, w') /\
    events w' = events reviewedWorld ++
      SaveTask (stamped "2025-06-01 12:00" (fun t => t)
                  (set_acceptanceCriteriaItems reviewedTask
                     (Some (map (fun c => if existsb (Z.eqb (index c)) [7; 1]
                                          then mkCriterion (index c) (text c) true
                                          else c)
                              (default [] (acceptanceCriteriaItems reviewedTask))))))
      :: extra /\
    savedTasks extra = [] /\
    Sorted Z.le updated /\
    (forall x, x ∈ updated <->
       x ∈ [7; 1] /\
       exists c, c ∈ default [] (acceptanceCriteriaItems reviewedTask) /\ index c = x).
Proof.
  split; [reflexivity|].
  apply (proj2 (checkAcceptanceCriteria_sets_requested None "2025-06-01 12:00"
                  (fun t => t) "task-1" [7; 1] true None reviewedWorld reviewedTask
                  eq_refl)).
  exists (mkCriterion 1 "Login works" false).
  split; [by apply list_elem_of_singleton|].
  apply elem_of_cons. right. by apply list_elem_of_singleton.
Defined.

(** ** Ids of subtasks ([generateNextId] with a parent) *)

Lemma append_assoc (a b c : string) : (a +:+ b) +:+ c = a +:+ (b +:+ c).
Proof.
  induction a as [|x a IH]; [done|].
  change (String x ((a +:+ b) +:+ c) = String x (a +:+ (b +:+ c))). by rewrite IH.
Qed.

Lemma firstSegment_digits ds :
  JsString.allDigits ds = true -> JsString.firstSegment "." ds = ds.
Proof.
  induction ds as [|c ds IH]; [done|]. cbn [JsString.allDigits JsString.firstSegment].
  intros [Hc Hds]%andb_true_iff. rewrite IH by done.
  destruct (Ascii.eqb_spec c "."); [by subst c|done].
Qed.

(** The number an id carries below the parent [prefix]: what
    [Number.parseInt] reads in the first dot-separated segment after the
    prefix and its dot, before rounding. *)
Definition subtaskNumber (prefix id : string) : option Z :=
  match JsString.stripPrefix (prefix +:+ ".") id with
  | Some rest => JsString.parseInteger (orElse (JsString.firstSegment "." rest) "0")
  | None => None
  end.

(** Every number the ids carry below [prefix] is below 2^53. *)
Definition SafeSubtaskNumbers (prefix : string) (allIds : list string) : Prop :=
  forall id number,
    id ∈ allIds -> subtaskNumber prefix id = Some number -> number < 2 ^ 53.

(** One comparison [if (num > max) max = num] with a number read below
    2^53. *)
Lemma raiseMax_parseInt max s :
  0 <= max < 2 ^ 53 ->
  (forall v, JsString.parseInteger s = Some v -> v < 2 ^ 53) ->
  max <= raiseMax max (JsString.parseInt s) < 2 ^ 53 /\
  forall v, JsString.parseInteger s = Some v -> v <= raiseMax max (JsString.parseInt s).
Proof.
  intros Hmax Hsafe. destruct (JsString.parseInteger s) as [v|] eqn:Hs.
  - destruct (JsString.parseInt_below s v Hs (Hsafe _ eq_refl)) as (w & -> & Hpos & Hneg).
    unfold raiseMax. destruct (max <? w) eqn:E;
      [apply Z.ltb_lt in E|apply Z.ltb_ge in E].
    + assert (0 <= v) by lia. specialize (Hpos ltac:(lia)). subst w.
      pose proof (Hsafe _ eq_refl).
      split; [lia|]. intros ? [= <-]. lia.
    + split; [lia|]. intros ? [= <-].
      destruct (Z.le_gt_cases 0 v) as [H0|H0]; [rewrite <- (Hpos H0)|]; lia.
  - unfold JsString.parseInt. rewrite Hs. cbn. split; [lia|done].
Qed.

Lemma fold_maxSubtaskNumber_safe prefix ids max :
  0 <= max < 2 ^ 53 -> SafeSubtaskNumbers prefix ids ->
  let result :=
    fold_left
      (fun max id =>
         match JsString.stripPrefix (prefix +:+ ".") id with
         | Some rest =>
             raiseMax max
               (JsString.parseInt (orElse (JsString.firstSegment "." rest) "0"))
         | None => max
         end)
      ids max in
  max <= result < 2 ^ 53 /\
  forall id number,
    id ∈ ids -> subtaskNumber prefix id = Some number -> number <= result.
Proof.
  revert max. induction ids as [|i ids IH]; intros max Hmax Hsafe; cbn zeta.
  - cbn. split; [lia|]. intros id number Hin. by apply elem_of_nil in Hin.
  - cbn [fold_left].
    set (max' := match JsString.stripPrefix (prefix +:+ ".") i with
                 | Some rest =>
                     raiseMax max
                       (JsString.parseInt (orElse (JsString.firstSegment "." rest) "0"))
                 | None => max
                 end).
    assert (Hstep : max <= max' < 2 ^ 53 /\
                    forall number, subtaskNumber prefix i = Some number -> number <= max').
    { pose proof (Hsafe i) as Hi. specialize (fun number => Hi number ltac:(by left)).
      unfold max', subtaskNumber in *.
      destruct (JsString.stripPrefix (prefix +:+ ".") i) as [rest|];
        [by apply raiseMax_parseInt|].
      split; [lia|done]. }
    destruct Hstep as [Hstep Hi].
    destruct (IH max') as [Hrest Hids]; [lia| |].
    { intros id number Hin. apply Hsafe. by right. }
    cbn zeta in Hrest, Hids.
    split; [lia|]. intros id number [->|Hin]%elem_of_cons Hnum.
    + specialize (Hi _ Hnum). lia.
    + by apply (Hids id).
Qed.

Lemma maxSubtaskNumber_safe prefix ids :
  SafeSubtaskNumbers prefix ids ->
  0 <= maxSubtaskNumber prefix ids < 2 ^ 53 /\
  forall id number,
    id ∈ ids -> subtaskNumber prefix id = Some number ->
    number <= maxSubtaskNumber prefix ids.
Proof.
  intros Hsafe. unfold maxSubtaskNumber.
  by destruct (fold_maxSubtaskNumber_safe prefix ids 0 ltac:(lia) Hsafe).
Qed.

Section SubtaskIds.
Variable taskIdsEqual : string -> string -> bool.
Variable normalizeTaskId : string -> string.

End SubtaskIds.


Example generateNextId_subtask_next :
  generateNextId String.eqb (fun s => s) None []
    []
    [taskCopy "task-3" "Done" 10 None None]
    [taskCopy "task-3.1" "Done" 20 None None; taskCopy "task-3.02" "Done" 5 None None]
    (Some "task-3") = "task-3.3".
Proof. reflexivity. Qed.

(** Past 2^53 the sum [max + 1] rounds back: with the subtask numbered 2^53
    stored, its id is returned again. *)
Example generateNextId_subtask_repeats_large_id :
  generateNextId String.eqb (fun s => s) None []
    []
    [taskCopy "task-1" "Done" 10 None None]
    [taskCopy "task-1.9007199254740992" "Done" 20 None None]
    (Some "task-1") = "task-1.9007199254740992".
Proof. reflexivity. Qed.

(** ** Queries (types/index.ts, [isLocalEditableTask]; core.ts,
    [applyTaskFilters], [filterLocalEditableTasks], [queryTasks]) *)

(** The fields of [TaskListFilter]. *)
Module TaskListFilter.
Record t : Type := mk {
  status : option string;
  assignee : option string;
  priority : option string;
  parentTaskId : option string;
  labels : option (list string)
}.
End TaskListFilter.

(** [isLocalEditableTask] *)
Definition isLocalEditableTask (task : Task) : bool :=
  match source task with
  | None => true
  | Some src_local => true
  | Some src_completed => true
  | Some _ => false
  end.

(** The string a priority is stored as. *)
Definition priorityName (p : Priority) : string :=
  match p with
  | high => "high"
  | medium => "medium"
  | low => "low"
  end.

(** A string option that passes an [if (value)] test: present and not
    empty. *)
Definition truthy (value : option string) : option string :=
  match value with
  | Some s => if String.eqb s "" then None else Some s
  | None => None
  end.

(** [searchService.search] finds tasks, documents and decisions. *)
Inductive SearchResult : Type :=
| TaskResult (task : Task)
| DocumentResult (documentId : string)
| DecisionResult (decisionId : string).

(** The fields of [SearchFilters] that [queryTasks] sets. *)
Module SearchFilters.
Record t : Type := mk {
  status : option string;
  priority : option string;
  assignee : option string;
  labels : option (list string)
}.
End SearchFilters.

(** The fields of [TaskQueryOptions]. *)
Module TaskQueryOptions.
Record t : Type := mk {
  filters : option TaskListFilter.t;
  query : option string;
  limit : option Z;
  includeCrossBranch : option bool
}.
End TaskQueryOptions.

Section Queries.
Variable taskIdsEqual : string -> string -> bool.

(** [applyTaskFilters] *)
Definition applyTaskFilters (tasks : list Task) (filters : option TaskListFilter.t)
    : list Task :=
  match filters with
  | None => tasks
  | Some filters =>
      let result := tasks in
      let result :=
        match truthy (TaskListFilter.status filters) with
        | Some s =>
            let statusLower := JsString.toLowerCase s in
            List.filter
              (fun task => String.eqb (JsString.toLowerCase (status task)) statusLower)
              result
        | None => result
        end in
      let result :=
        match truthy (TaskListFilter.assignee filters) with
        | Some a =>
            let assigneeLower := JsString.toLowerCase a in
            List.filter
              (fun task =>
                 existsb (fun value => String.eqb (JsString.toLowerCase value) assigneeLower)
                   (assignee task))
              result
        | None => result
        end in
      let result :=
        match truthy (TaskListFilter.priority filters) with
        | Some p =>
            let priorityLower := JsString.toLowerCase p in
            List.filter
              (fun task =>
                 String.eqb
                   (JsString.toLowerCase
                      (match priority task with Some q => priorityName q | None => "" end))
                   priorityLower)
              result
        | None => result
        end in
      let result :=
        match truthy (TaskListFilter.parentTaskId filters) with
        | Some parentFilter =>
            List.filter
              (fun task =>
                 match truthy (parentTaskId task) with
                 | Some parent => taskIdsEqual parentFilter parent
                 | None => false
                 end)
              result
        | None => result
        end in
      match TaskListFilter.labels filters with
      | Some ((_ :: _) as filterLabels) =>
          let requiredLabels :=
            List.filter (fun label => negb (String.eqb label ""))
              (map JsString.toLowerCase filterLabels) in
          match requiredLabels with
          | [] => result
          | _ =>
              List.filter
                (fun task =>
                   let taskLabels := map JsString.toLowerCase (labels task) in
                   match taskLabels with
                   | [] => false
                   | _ => existsb (fun label => inb label taskLabels) requiredLabels
                   end)
                result
          end
      | _ => result
      end
  end.

(** [filterLocalEditableTasks] *)
Definition filterLocalEditableTasks (tasks : list Task) : list Task :=
  List.filter isLocalEditableTask tasks.

(** [searchService.search({ query, limit, types: ["task"], filters })] of
    search-service.ts, taken as given. *)
Variable search : string -> option Z -> option SearchFilters.t -> list SearchResult.

(** The loop over the search results: the tasks found, a task whose id
    was seen before left out. *)
Fixpoint firstById (seen : gset string) (results : list SearchResult) : list Task :=
  match results with
  | [] => []
  | TaskResult task :: rest =>
      if bool_decide (id task ∈ seen) then firstById seen rest
      else task :: firstById (seen ∪ {[id task]}) rest
  | _ :: rest => firstById seen rest
  end.

(** [queryTasks]; [w] holds the tasks the content store serves. *)
Definition queryTasks (w : World) (options : TaskQueryOptions.t) : list Task :=
  let filters := TaskQueryOptions.filters options in
  let limit := TaskQueryOptions.limit options in
  let trimmedQuery := JsString.trim <$> TaskQueryOptions.query options in
  let includeCrossBranch := default true (TaskQueryOptions.includeCrossBranch options) in
  let applyFiltersAndLimit (collection : list Task) : list Task :=
    let filtered := applyTaskFilters collection filters in
    let filtered :=
      if negb includeCrossBranch then filterLocalEditableTasks filtered else filtered in
    match limit with
    | Some n => if 0 <=? n then take (Z.to_nat n) filtered else filtered
    | None => filtered
    end in
  match truthy trimmedQuery with
  | None => applyFiltersAndLimit (storeTasks w)
  | Some trimmedQuery =>
      let searchFilters :=
        SearchFilters.mk
          (filters ≫= fun f => truthy (TaskListFilter.status f))
          (filters ≫= fun f => truthy (TaskListFilter.priority f))
          (filters ≫= fun f => truthy (TaskListFilter.assignee f))
          (filters ≫= TaskListFilter.labels) in
      let searchResults :=
        search trimmedQuery limit
          (match searchFilters with
           | SearchFilters.mk None None None None => None
           | _ => Some searchFilters
           end) in
      applyFiltersAndLimit (firstById ∅ searchResults)
  end.

(** *** Filters keep order and select by every filter that is set *)

Lemma filter_sublist {A} (p : A -> bool) (l : list A) : List.filter p l `sublist_of` l.
Proof.
  induction l as [|x l IH]; simpl; [constructor|].
  destruct (p x); by constructor.
Qed.

Lemma applyTaskFilters_sublist tasks filters :
  applyTaskFilters tasks filters `sublist_of` tasks.
Proof.
  destruct filters as [f|]; [|done]. unfold applyTaskFilters.
  destruct (truthy (TaskListFilter.status f));
    destruct (truthy (TaskListFilter.assignee f));
    destruct (truthy (TaskListFilter.priority f));
    destruct (truthy (TaskListFilter.parentTaskId f));
    destruct (TaskListFilter.labels f) as [[|l ls]|];
    try destruct (List.filter _ (map JsString.toLowerCase (l :: ls)));
    repeat (etrans; [apply filter_sublist|]); done.
Qed.

Lemma toLowerCase_empty s : JsString.toLowerCase s = "" <-> s = "".
Proof. by destruct s. Qed.

Lemma truthy_Some value s : truthy value = Some s <-> value = Some s /\ s <> "".
Proof.
  unfold truthy. destruct value as [v|]; [|by split; [|intros []]].
  destruct (String.eqb_spec v "") as [->|Hne].
  - split; [done|]. by intros [[= <-] H].
  - split; [by intros [= <-]|by intros [[= <-] _]].
Qed.

Lemma truthy_None value : truthy value = None <-> forall s, value = Some s -> s = "".
Proof.
  unfold truthy. destruct value as [v|]; [|by split].
  destruct (String.eqb_spec v "") as [->|Hne].
  - split; [by intros _ s [= <-]|done].
  - split; [done|]. intros H. by specialize (H v eq_refl).
Qed.

Lemma elem_of_filter {A} (p : A -> bool) (l : list A) x :
  x ∈ List.filter p l <-> x ∈ l /\ p x = true.
Proof. by rewrite !list_elem_of_In, filter_In. Qed.

(** [applyTaskFilters] keeps the order of the tasks and returns those
    that pass every filter that is set to a non-empty value: the status
    equal up to letter case; some assignee equal up to letter case; the
    priority equal up to letter case; a non-empty parent id that
    [taskIdsEqual] the one asked for; and, of the labels asked for, at
    least one non-empty label that the task carries up to letter case. An
    empty filter value filters nothing. *)
Theorem applyTaskFilters_selects tasks (f : TaskListFilter.t) t :
  applyTaskFilters tasks (Some f) `sublist_of` tasks /\
  (t ∈ applyTaskFilters tasks (Some f) <->
   t ∈ tasks /\
   (forall s, TaskListFilter.status f = Some s -> s <> "" ->
      JsString.toLowerCase (status t) = JsString.toLowerCase s) /\
   (forall a, TaskListFilter.assignee f = Some a -> a <> "" ->
      exists value, value ∈ assignee t /\
        JsString.toLowerCase value = JsString.toLowerCase a) /\
   (forall p, TaskListFilter.priority f = Some p -> p <> "" ->
      exists q, priority t = Some q /\ priorityName q = JsString.toLowerCase p) /\
   (forall p, TaskListFilter.parentTaskId f = Some p -> p <> "" ->
      exists parent, parentTaskId t = Some parent /\ parent <> "" /\
        taskIdsEqual p parent = true) /\
   (forall ls, TaskListFilter.labels f = Some ls ->
      (exists l, l ∈ ls /\ l <> "") ->
      exists l value, l ∈ ls /\ l <> "" /\ value ∈ labels t /\
        JsString.toLowerCase value = JsString.toLowerCase l)).
Proof.
  split; [apply applyTaskFilters_sublist|].
  unfold applyTaskFilters.
  set (r1 := match truthy (TaskListFilter.status f) with
             | Some s => List.filter _ tasks | None => tasks end).
  set (r2 := match truthy (TaskListFilter.assignee f) with
             | Some a => List.filter _ r1 | None => r1 end).
  set (r3 := match truthy (TaskListFilter.priority f) with
             | Some p => List.filter _ r2 | None => r2 end).
  set (r4 := match truthy (TaskListFilter.parentTaskId f) with
             | Some p => List.filter _ r3 | None => r3 end).
  assert (H1 : t ∈ r1 <-> t ∈ tasks /\
            (forall s, TaskListFilter.status f = Some s -> s <> "" ->
               JsString.toLowerCase (status t) = JsString.toLowerCase s)).
  { unfold r1. destruct (truthy (TaskListFilter.status f)) as [s|] eqn:E.
    - apply truthy_Some in E as [E Hne]. rewrite elem_of_filter, String.eqb_eq.
      split; [intros [? ?]; split; [done|]; intros s' Hs' _; congruence|].
      intros [? H]. split; [done|]. by apply H.
    - rewrite truthy_None in E. split; [|tauto]. intros ?. split; [done|].
      intros s Hs Hne. by apply E in Hs. }
  assert (H2 : t ∈ r2 <-> t ∈ r1 /\
            (forall a, TaskListFilter.assignee f = Some a -> a <> "" ->
               exists value, value ∈ assignee t /\
                 JsString.toLowerCase value = JsString.toLowerCase a)).
  { unfold r2. destruct (truthy (TaskListFilter.assignee f)) as [a|] eqn:E.
    - apply truthy_Some in E as [E Hne]. rewrite elem_of_filter, existsb_exists.
      split.
      + intros [? (v & Hv & Heq)]. split; [done|]. intros a' Ha' _.
        assert (a' = a) as -> by congruence. exists v.
        split; [by apply list_elem_of_In|by apply String.eqb_eq].
      + intros [? H]. split; [done|]. destruct (H a E Hne) as (v & Hv & Heq).
        exists v. split; [by apply list_elem_of_In|by apply String.eqb_eq].
    - rewrite truthy_None in E. split; [|tauto]. intros ?. split; [done|].
      intros a Ha Hne. by apply E in Ha. }
  assert (H3 : t ∈ r3 <-> t ∈ r2 /\
            (forall p, TaskListFilter.priority f = Some p -> p <> "" ->
               exists q, priority t = Some q /\ priorityName q = JsString.toLowerCase p)).
  { unfold r3. destruct (truthy (TaskListFilter.priority f)) as [p|] eqn:E.
    - apply truthy_Some in E as [E Hne]. rewrite elem_of_filter, String.eqb_eq.
      split.
      + intros [? Heq]. split; [done|]. intros p' Hp' _.
        assert (p' = p) as -> by congruence.
        destruct (priority t) as [q|].
        * exists q. split; [done|]. rewrite <- Heq. by destruct q.
        * symmetry in Heq. cbn in Heq. by apply (proj1 (toLowerCase_empty p)) in Heq.
      + intros [? H]. split; [done|]. destruct (H p E Hne) as (q & -> & Heq).
        rewrite <- Heq. by destruct q.
    - rewrite truthy_None in E. split; [|tauto]. intros ?. split; [done|].
      intros p Hp Hne. by apply E in Hp. }
  assert (H4 : t ∈ r4 <-> t ∈ r3 /\
            (forall p, TaskListFilter.parentTaskId f = Some p -> p <> "" ->
               exists parent, parentTaskId t = Some parent /\ parent <> "" /\
                 taskIdsEqual p parent = true)).
  { unfold r4. destruct (truthy (TaskListFilter.parentTaskId f)) as [p|] eqn:E.
    - apply truthy_Some in E as [E Hne]. rewrite elem_of_filter.
      split.
      + intros [? Heq]. split; [done|]. intros p' Hp' _.
        assert (p' = p) as -> by congruence.
        destruct (truthy (parentTaskId t)) as [parent|] eqn:Ep; [|done].
        apply truthy_Some in Ep as [Ep Hpne]. by exists parent.
      + intros [? H]. split; [done|]. destruct (H p E Hne) as (parent & Hp & Hpne & Heq).
        assert (Ht : truthy (parentTaskId t) = Some parent) by by apply truthy_Some.
        by rewrite Ht.
    - rewrite truthy_None in E. split; [|tauto]. intros ?. split; [done|].
      intros p Hp Hne. by apply E in Hp. }
  assert (Hrequired : forall ls l,
    l ∈ List.filter (fun label => negb (String.eqb label ""))
          (map JsString.toLowerCase ls) <->
    exists l0, l0 ∈ ls /\ l0 <> "" /\ l = JsString.toLowerCase l0).
  { intros ls l. rewrite elem_of_filter, negb_true_iff, String.eqb_neq.
    rewrite list_elem_of_fmap. split.
    - intros [(l0 & -> & Hl0) Hne]. exists l0. split; [done|]. split; [|done].
      by rewrite toLowerCase_empty in Hne.
    - intros (l0 & Hl0 & Hne & ->). split; [by exists l0|].
      by rewrite toLowerCase_empty. }
  set (r5 := match TaskListFilter.labels f with Some _ => _ | None => _ end).
  assert (H5 :
    t ∈ r5 <->
    t ∈ r4 /\
    (forall ls, TaskListFilter.labels f = Some ls ->
       (exists l, l ∈ ls /\ l <> "") ->
       exists l value, l ∈ ls /\ l <> "" /\ value ∈ labels t /\
         JsString.toLowerCase value = JsString.toLowerCase l)).
  { unfold r5. destruct (TaskListFilter.labels f) as [ls|] eqn:E.
    2: { split; [|tauto]. intros ?. split; [done|]. by intros ls [=]. }
    destruct ls as [|l0 ls0].
    { split; [|tauto]. intros ?. split; [done|]. intros ls [= <-] (l & Hl & _).
      by apply elem_of_nil in Hl. }
    set (ls := l0 :: ls0) in *.
    pose proof (Hrequired ls) as Hreq.
    destruct (List.filter _ (map JsString.toLowerCase ls)) as [|r rs] eqn:Er.
    { split; [|tauto]. intros ?. split; [done|]. intros ls' [= <-] (l & Hl & Hne).
      exfalso. assert (Hin : JsString.toLowerCase l ∈ []); [|by apply elem_of_nil in Hin].
      apply Hreq. by exists l. }
    rewrite elem_of_filter. split.
    - intros [? Hex]. split; [done|]. intros ls' [= <-] _.
      destruct (map JsString.toLowerCase (labels t)) as [|tl tls] eqn:Et; [done|].
      apply existsb_exists in Hex as (label & Hlabel & Hin).
      apply list_elem_of_In, Hreq in Hlabel as (l & Hl & Hne & ->).
      apply inb_spec in Hin. rewrite <- Et in Hin.
      apply list_elem_of_fmap in Hin as (value & Heq & Hvalue).
      exists l, value. done.
    - intros [? H]. split; [done|].
      assert (Hsome : exists l, l ∈ ls /\ l <> "").
      { destruct (proj1 (Hreq r)) as (l & Hl & Hne & _); [apply elem_of_cons; by left|].
        by exists l. }
      destruct (H ls eq_refl Hsome) as (l & value & Hl & Hne & Hvalue & Heq).
      assert (Hin : JsString.toLowerCase value ∈ map JsString.toLowerCase (labels t))
        by by apply list_elem_of_fmap_2.
      destruct (map JsString.toLowerCase (labels t)) as [|tl tls] eqn:Et;
        [by apply elem_of_nil in Hin|].
      apply existsb_exists. exists (JsString.toLowerCase l). split.
      + apply list_elem_of_In, Hreq. by exists l.
      + apply inb_spec. by rewrite <- Heq. }
  rewrite H5, H4, H3, H2, H1. tauto.
Qed.

(** *** What a query returns *)

Lemma firstById_NoDup seen results :
  NoDup (map id (firstById seen results)) /\
  Forall (fun t => id t ∉ seen) (firstById seen results) /\
  Forall (fun t => TaskResult t ∈ results) (firstById seen results).
Proof.
  revert seen. induction results as [|r results IH]; intros seen.
  - split; [apply NoDup_nil_2|]. split; constructor.
  - assert (Hweak : forall seen',
      Forall (fun t => TaskResult t ∈ results) (firstById seen' results) ->
      Forall (fun t => TaskResult t ∈ r :: results) (firstById seen' results)).
    { intros seen' H. eapply Forall_impl; [exact H|].
      intros t Ht. apply elem_of_cons. by right. }
    destruct r as [task| |]; cbn [firstById];
      [|destruct (IH seen) as (H1 & H2 & H3); by auto..].
    destruct (bool_decide (id task ∈ seen)) eqn:E.
    + destruct (IH seen) as (H1 & H2 & H3). by auto.
    + apply bool_decide_eq_false in E.
      destruct (IH (seen ∪ {[id task]})) as (H1 & H2 & H3).
      split; [|split].
      * cbn [map]. apply NoDup_cons. split; [|done].
        intros Hin. apply list_elem_of_fmap in Hin as (t & Ht & Hin).
        rewrite Forall_forall in H2. apply (H2 t Hin). rewrite <- Ht.
        apply elem_of_union. right. by apply elem_of_singleton.
      * constructor; [done|]. eapply Forall_impl; [exact H2|].
        intros t Ht Hs. apply Ht. apply elem_of_union. by left.
      * constructor; [apply elem_of_cons; by left|by apply Hweak].
Qed.

(** [queryTasks] never returns more tasks than a non-negative [limit];
    with [includeCrossBranch] false it returns only tasks that are
    editable locally; what it returns is, in order, part of the tasks that
    pass the filters among its candidates. Without a query (absent or
    blank) the candidates are the tasks of the content store; with a query
    they are tasks found by the search, and no two returned tasks share an
    id. *)
Theorem queryTasks_respects_options w options :
  (forall n, TaskQueryOptions.limit options = Some n -> 0 <= n ->
     (length (queryTasks w options) <= Z.to_nat n)%nat) /\
  (TaskQueryOptions.includeCrossBranch options = Some false ->
   Forall (fun t => isLocalEditableTask t = true) (queryTasks w options)) /\
  exists candidates,
    queryTasks w options
      `sublist_of` applyTaskFilters candidates (TaskQueryOptions.filters options) /\
    (truthy (JsString.trim <$> TaskQueryOptions.query options) = None ->
     candidates = storeTasks w) /\
    (truthy (JsString.trim <$> TaskQueryOptions.query options) <> None ->
     NoDup (map id (queryTasks w options)) /\
     exists q limit filters,
       Forall (fun t => TaskResult t ∈ search q limit filters) candidates).
Proof.
  unfold queryTasks.
  set (finish := fun collection : list Task =>
         match TaskQueryOptions.limit options with
         | Some n =>
             if 0 <=? n
             then take (Z.to_nat n)
                    (if negb (default true (TaskQueryOptions.includeCrossBranch options))
                     then filterLocalEditableTasks
                            (applyTaskFilters collection (TaskQueryOptions.filters options))
                     else applyTaskFilters collection (TaskQueryOptions.filters options))
             else
               if negb (default true (TaskQueryOptions.includeCrossBranch options))
               then filterLocalEditableTasks
                      (applyTaskFilters collection (TaskQueryOptions.filters options))
               else applyTaskFilters collection (TaskQueryOptions.filters options)
         | None =>
             if negb (default true (TaskQueryOptions.includeCrossBranch options))
             then filterLocalEditableTasks
                    (applyTaskFilters collection (TaskQueryOptions.filters options))
             else applyTaskFilters collection (TaskQueryOptions.filters options)
         end).
  assert (Hlimit : forall collection n,
    TaskQueryOptions.limit options = Some n -> 0 <= n ->
    (length (finish collection) <= Z.to_nat n)%nat).
  { intros collection n Hn Hpos. unfold finish. rewrite Hn.
    destruct (Z.leb_spec 0 n); [|lia]. rewrite length_take. lia. }
  assert (Hsub : forall collection,
    finish collection
      `sublist_of` applyTaskFilters collection (TaskQueryOptions.filters options)).
  { intros collection. unfold finish, filterLocalEditableTasks.
    destruct (TaskQueryOptions.limit options) as [n|]; [destruct (0 <=? n)|];
      destruct (negb _);
      repeat (first [done | etrans; [apply sublist_take|] | apply filter_sublist]). }
  assert (Hlocal : forall collection,
    TaskQueryOptions.includeCrossBranch options = Some false ->
    Forall (fun t => isLocalEditableTask t = true) (finish collection)).
  { intros collection Hc. unfold finish, filterLocalEditableTasks. rewrite Hc.
    cbn [default negb].
    assert (Hf : Forall (fun t => isLocalEditableTask t = true)
                   (List.filter isLocalEditableTask
                      (applyTaskFilters collection (TaskQueryOptions.filters options)))).
    { apply Forall_forall. intros t Ht. by apply elem_of_filter in Ht as [_ Ht]. }
    destruct (TaskQueryOptions.limit options) as [n|]; [destruct (0 <=? n)|];
      [by apply Forall_take|done|done]. }
  destruct (truthy (JsString.trim <$> TaskQueryOptions.query options)) as [q|] eqn:Eq.
  - split; [apply Hlimit|]. split; [apply Hlocal|].
    eexists. split; [apply Hsub|]. split; [done|]. intros _.
    match goal with
    | |- context [firstById ∅ ?results] =>
        destruct (firstById_NoDup ∅ results) as (Hnd & _ & Hfound)
    end.
    split; [|by eexists _, _, _].
    eapply sublist_NoDup; [exact Hnd|]. apply (fmap_sublist id).
    etrans; [apply Hsub|]. apply applyTaskFilters_sublist.
  - split; [apply Hlimit|]. split; [apply Hlocal|].
    exists (storeTasks w). split; [apply Hsub|]. split; [done|]. done.
Qed.
End Queries.

(** ** Statistics (core.ts, [loadAllTasksForStatistics]) *)
Section Statistics.
Variable parseDate : string -> Date.
Variable DEFAULT_STATUSES : list string.
Variable resolveTaskConflict : Task -> Task -> list string -> Strategy -> Task.

(** [loadAllTasksForStatistics]: the tasks, the drafts and the statuses.
    As for [loadTasks], what the loaders of task-loader.ts and the
    filesystem listings return are arguments. *)
Definition loadAllTasksForStatistics (config : option BacklogConfig)
    (localTasks completedTasks remoteTasks localBranchTasks drafts : list Task)
    (branchStateEntries : list StateEntry.t) : list Task * list Task * list string :=
  let statuses := configStatuses DEFAULT_STATUSES config in
  let resolutionStrategy := configStrategy config in
  let tasksById := localAndCompletedById localTasks completedTasks in
  let tasksById :=
    mergeTasks resolveTaskConflict statuses resolutionStrategy tasksById localBranchTasks in
  let tasksById :=
    mergeTasks resolveTaskConflict statuses resolutionStrategy tasksById remoteTasks in
  let tasks := JsMap.values tasksById in
  let activeTasks :=
    if crossBranchDisabled config then tasks
    else filterTasksByStateSnapshots tasks
           (buildLatestStateMap parseDate branchStateEntries localTasks) in
  (activeTasks, drafts, statuses).

Lemma get_elem_of {V} k (v : V) (m : JsMap.t V) : JsMap.get k m = Some v -> (k, v) ∈ m.
Proof.
  induction m as [|[k' v'] m IH]; simpl; [done|].
  destruct (String.eqb_spec k k') as [->|Hne].
  - intros [= ->]. apply elem_of_cons. by left.
  - intros H. apply elem_of_cons. right. by apply IH.
Qed.

Lemma has_keys {V} k (m : JsMap.t V) : JsMap.has k m = true <-> k ∈ JsMap.keys m.
Proof.
  unfold JsMap.has. destruct (JsMap.get k m) eqn:E.
  - split; [intros _|done]. destruct (decide (k ∈ JsMap.keys m)) as [|Hn]; [done|].
    apply JsMap.get_None_keys in Hn. congruence.
  - split; [done|]. intros H. apply JsMap.get_None_keys in E. done.
Qed.

Lemma elem_of_fold_set {V} (entries : list (string * V)) (m : JsMap.t V) e :
  e ∈ fold_left (fun m e => JsMap.set (fst e) (snd e) m) entries m ->
  e ∈ entries \/ e ∈ m.
Proof.
  revert m. induction entries as [|x entries IH]; intros m; simpl; [by right|].
  intros H. apply IH in H as [H|H].
  - left. apply elem_of_cons. by right.
  - apply JsMap.elem_of_set_inv in H as [[H1 H2]|H]; [|by right].
    left. apply elem_of_cons. left. destruct e, x. simpl in *. by subst.
Qed.

Lemma keys_fold_set {V} (entries : list (string * V)) (m : JsMap.t V) k :
  k ∈ map fst entries -> 
  k ∈ JsMap.keys (fold_left (fun m e => JsMap.set (fst e) (snd e) m) entries m).
Proof.
  assert (Hkeep : forall entries (m : JsMap.t V),
    k ∈ JsMap.keys m ->
    k ∈ JsMap.keys (fold_left (fun m e => JsMap.set (fst e) (snd e) m) entries m)).
  { clear. induction entries as [|x entries IH]; intros m Hk; simpl; [done|].
    apply IH. rewrite JsMap.keys_set. destruct (JsMap.has _ m); [done|].
    apply elem_of_app. by left. }
  revert m. induction entries as [|x entries IH]; intros m; simpl;
    [by intros H%elem_of_nil|].
  intros [->|H]%elem_of_cons; [|by apply IH].
  apply Hkeep. rewrite JsMap.keys_set. destruct (JsMap.has (fst x) m) eqn:E.
  - by apply has_keys.
  - apply elem_of_app. right. by apply list_elem_of_singleton.
Qed.

(** The map the merge starts from holds one record per id; a record of
    source completed in it is a completed task whose id no local task
    has. *)
Definition shadowed (localTasks completedTasks : list Task) (m : JsMap.t Task) : Prop :=
  forall e, e ∈ m -> source (snd e) = Some src_completed ->
    (fst e ∉ map id localTasks) /\
    exists c, c ∈ completedTasks /\ snd e = set_source c (Some src_completed).

Lemma localAndCompletedById_wf localTasks completedTasks :
  keyed (localAndCompletedById localTasks completedTasks) /\
  NoDup (JsMap.keys (localAndCompletedById localTasks completedTasks)) /\
  shadowed localTasks completedTasks (localAndCompletedById localTasks completedTasks).
Proof.
  unfold localAndCompletedById.
  assert (Hstart :
    keyed (localTasksById localTasks) /\
    NoDup (JsMap.keys (localTasksById localTasks)) /\
    (forall k, k ∈ map id localTasks -> k ∈ JsMap.keys (localTasksById localTasks)) /\
    shadowed localTasks completedTasks (localTasksById localTasks)).
  { destruct (of_entries_wf localTasks (fun t => set_source t (Some src_local)))
      as [Hk Hn]; [done|].
    split; [done|]. split; [done|]. split.
    - intros k Hk'. unfold localTasksById, JsMap.of_entries. apply keys_fold_set.
      by rewrite map_map.
    - intros e He Hs. unfold localTasksById, JsMap.of_entries in He.
      apply elem_of_fold_set in He as [He|He]; [|by apply elem_of_nil in He].
      apply list_elem_of_fmap in He as (t & -> & _). done. }
  revert Hstart. generalize (localTasksById localTasks).
  assert (Hsub : forall done todo : list Task, (forall c, c ∈ todo -> c ∈ completedTasks) ->
    forall m : JsMap.t Task,
    keyed m /\ NoDup (JsMap.keys m) /\
    (forall k, k ∈ map id localTasks -> k ∈ JsMap.keys m) /\
    shadowed localTasks completedTasks m ->
    let m' := fold_left
      (fun tasksById completedTask =>
         if JsMap.has (id completedTask) tasksById then tasksById
         else JsMap.set (id completedTask)
                (set_source completedTask (Some src_completed)) tasksById) todo m in
    keyed m' /\ NoDup (JsMap.keys m') /\ shadowed localTasks completedTasks m').
  { intros _ todo. induction todo as [|c todo IH]; intros Hin m (Hk & Hn & Hl & Hs); simpl;
      [done|].
    apply IH; [intros c' Hc'; apply Hin; apply elem_of_cons; by right|].
    destruct (JsMap.has (id c) m) eqn:E; [done|].
    split; [by apply keyed_set|]. split; [by apply JsMap.NoDup_keys_set|]. split.
    - intros k Hk'. rewrite JsMap.keys_set, E. apply elem_of_app. left. by apply Hl.
    - intros e He Hsrc. apply JsMap.elem_of_set_inv in He as [[He1 He2]|He];
        [|by apply Hs].
      split.
      + rewrite He1. intros Hloc. apply Hl, has_keys in Hloc. congruence.
      + exists c. split; [apply Hin; apply elem_of_cons; by left|done]. }
  intros m Hm. by apply (Hsub []).
Qed.

Section Selecting.
Hypothesis resolveTaskConflict_selects : forall a b statuses strategy,
  resolveTaskConflict a b statuses strategy = a \/
  resolveTaskConflict a b statuses strategy = b.

Lemma shadowed_mergeTasks localTasks completedTasks statuses strategy incoming m :
  Forall (fun t => source t <> Some src_completed) incoming ->
  shadowed localTasks completedTasks m ->
  shadowed localTasks completedTasks
    (mergeTasks resolveTaskConflict statuses strategy m incoming).
Proof.
  unfold mergeTasks. revert m.
  induction incoming as [|t ts IH]; intros m Hinc Hm; simpl; [done|].
  apply Forall_cons in Hinc as [Ht Hts]. apply IH; [done|].
  intros e He Hsrc. unfold mergeTask in He.
  destruct (JsMap.get (id t) m) as [existing|] eqn:E.
  - apply JsMap.elem_of_set_inv in He as [[He1 He2]|He]; [|by apply Hm].
    destruct (resolveTaskConflict_selects existing t statuses strategy) as [Hr|Hr];
      rewrite Hr in He2.
    + apply get_elem_of in E. rewrite He2 in Hsrc.
      destruct (Hm _ E Hsrc) as [H1 H2]. rewrite He1, He2. done.
    + rewrite He2 in Hsrc. done.
  - apply JsMap.elem_of_set_inv in He as [[He1 He2]|He]; [|by apply Hm].
    rewrite He2 in Hsrc. done.
Qed.

(** Provided the resolver returns one of the two copies it is given,
    [loadAllTasksForStatistics] returns at most one task per id, the
    drafts as listed and the configured statuses (the default ones
    without a configuration). Where the loaders yield no task of source
    completed, a returned task of that source is a completed task, marked
    so, whose id no local task has: a local copy shadows the completed
    copy of the same id. *)
Theorem loadAllTasksForStatistics_one_task_per_id config localTasks completedTasks
    remoteTasks localBranchTasks drafts branchStateEntries :
  let '(tasks, drafts', statuses') :=
    loadAllTasksForStatistics config localTasks completedTasks remoteTasks
      localBranchTasks drafts branchStateEntries in
  NoDup (map id tasks) /\
  drafts' = drafts /\
  statuses' = match config with Some c => statuses c | None => DEFAULT_STATUSES end /\
  (Forall (fun t => source t <> Some src_completed) (localBranchTasks ++ remoteTasks) ->
   forall t, t ∈ tasks -> source t = Some src_completed ->
     (id t ∉ map id localTasks) /\
     exists c, c ∈ completedTasks /\ t = set_source c (Some src_completed)).
Proof.
  unfold loadAllTasksForStatistics.
  set (merged := mergeTasks _ _ _ (mergeTasks _ _ _ _ _) _).
  destruct (localAndCompletedById_wf localTasks completedTasks) as (Hk0 & Hn0 & Hs0).
  assert (Hwf : keyed merged /\ NoDup (JsMap.keys merged)).
  { unfold merged.
    by do 2 apply (mergeTasks_wf resolveTaskConflict resolveTaskConflict_selects). }
  destruct Hwf as [Hk Hn].
  assert (Hall : NoDup (map id (JsMap.values merged))) by by rewrite keyed_values_ids.
  assert (Hin : forall t,
    t ∈ (if crossBranchDisabled config then JsMap.values merged
         else filterTasksByStateSnapshots (JsMap.values merged)
                (buildLatestStateMap parseDate branchStateEntries localTasks)) ->
    t ∈ JsMap.values merged).
  { intros t. destruct (crossBranchDisabled config); [done|].
    unfold filterTasksByStateSnapshots. rewrite elem_of_filter. tauto. }
  split; [|split; [done|split; [by destruct config|]]].
  - destruct (crossBranchDisabled config); [done|]. by apply NoDup_map_filter.
  - intros Hinc t Ht Hsrc. apply Hin in Ht.
    apply Forall_app in Hinc as [Hb Hr].
    assert (Hsh : shadowed localTasks completedTasks merged).
    { unfold merged. apply shadowed_mergeTasks; [done|].
      by apply shadowed_mergeTasks. }
    unfold JsMap.values in Ht. apply list_elem_of_fmap in Ht as (e & -> & He).
    destruct (Hsh e He Hsrc) as [H1 H2]. split; [|done].
    by rewrite (Hk e He).
Qed.
End Selecting.
End Statistics.

Lemma loadAllTasksForStatistics_example :
  let '(tasks, drafts', statuses') :=
    loadAllTasksForStatistics epochDate boardStatuses
      (TaskLoader.resolveTaskConflict epochDate true) None
      [taskCopy "task-1" "To Do" 50 None None]
      [taskCopy "task-1" "Done" 40 None None; taskCopy "task-4" "Done" 30 None None]
      [taskCopy "task-1" "In Progress" 120 (Some src_remote) (Some "origin/main")]
      [taskCopy "task-3" "Done" 70 (Some src_local_branch) (Some "feature")]
      [taskCopy "task-5" "Draft" 10 None None]
      [] in
  NoDup (map id tasks) /\
  drafts' = [taskCopy "task-5" "Draft" 10 None None] /\
  statuses' = boardStatuses /\
  (Forall (fun t => source t <> Some src_completed)
     ([taskCopy "task-3" "Done" 70 (Some src_local_branch) (Some "feature")] ++
      [taskCopy "task-1" "In Progress" 120 (Some src_remote) (Some "origin/main")]) ->
   forall t, t ∈ tasks -> source t = Some src_completed ->
     (id t ∉ map id [taskCopy "task-1" "To Do" 50 None None]) /\
     exists c,
       c ∈ [taskCopy "task-1" "Done" 40 None None; taskCopy "task-4" "Done" 30 None None] /\
       t = set_source c (Some src_completed)).
Proof.
  apply (loadAllTasksForStatistics_one_task_per_id epochDate boardStatuses
           (TaskLoader.resolveTaskConflict epochDate true)
           (TaskLoader.resolveTaskConflict_choice epochDate true) None
           [taskCopy "task-1" "To Do" 50 None None]
           [taskCopy "task-1" "Done" 40 None None; taskCopy "task-4" "Done" 30 None None]
           [taskCopy "task-1" "In Progress" 120 (Some src_remote) (Some "origin/main")]
           [taskCopy "task-3" "Done" 70 (Some src_local_branch) (Some "feature")]
           [taskCopy "task-5" "Draft" 10 None None]
           []).
Defined.

(** The completed copy of task-1 is shadowed; task-4 is listed as
    completed. *)
Example loadAllTasksForStatistics_sources :
  map (fun t => (id t, status t, source t))
    (loadAllTasksForStatistics epochDate boardStatuses
       (TaskLoader.resolveTaskConflict epochDate true) None
       [taskCopy "task-1" "To Do" 50 None None]
       [taskCopy "task-1" "Done" 40 None None; taskCopy "task-4" "Done" 30 None None]
       [] [] [] []).1.1
  = [("task-1", "To Do", Some src_local); ("task-4", "Done", Some src_completed)].
Proof. vm_compute. reflexivity. Qed.
End Core.

(** ** Edit arguments (types/task-edit-args.ts, utils/task-edit-builder.ts) *)
Module TaskEditBuilder.
Import Core.

(** The fields of [TaskEditArgs]; [milestone] may be [null]
    ([Some None]). *)
Module TaskEditArgs.
Record t : Type := mk {
  title : option string;
  description : option string;
  status : option string;
  priority : option string;
  milestone : option (option string);
  labels : option (list string);
  addLabels : option (list string);
  removeLabels : option (list string);
  assignee : option (list string);
  ordinal : option Z;
  dependencies : option (list string);
  implementationPlan : option string;
  planSet : option string;
  planAppend : option (list string);
  planClear : option bool;
  implementationNotes : option string;
  notesSet : option string;
  notesAppend : option (list string);
  notesClear : option bool;
  acceptanceCriteriaSet : option (list string);
  acceptanceCriteriaAdd : option (list string);
  acceptanceCriteriaRemove : option (list Z);
  acceptanceCriteriaCheck : option (list Z);
  acceptanceCriteriaUncheck : option (list Z);
  branchName : option string;
  gitTag : option string;
  prNumber : option string;
  historyEntry : option TaskHistoryEntry
}.

(** The arguments with no field set. *)
Definition empty : t :=
  mk None None None None None None None None None None None None None None None None
     None None None None None None None None None None None None.
End TaskEditArgs.

(** [values.map((value) => String(value).trim()).filter((value) => value.length > 0)] *)
Definition trimmedNonEmpty (values : list string) : list string :=
  List.filter (fun value => negb (Nat.eqb (String.length value) 0))
    (map JsString.trim values).

(** [sanitizeStringArray] *)
Definition sanitizeStringArray (values : option (list string)) : option (list string) :=
  match values with
  | None => None
  | Some values =>
      match trimmedNonEmpty values with
      | [] => None
      | trimmed => Some trimmed
      end
  end.

(** [sanitizeAppend] *)
Definition sanitizeAppend (values : option (list string)) : option (list string) :=
  match sanitizeStringArray values with
  | None => None
  | Some sanitized => Some sanitized
  end.

(** An entry made by [toAcceptanceCriteriaEntries]: a criterion input that
    also carries an index. *)
Record CriterionEntry : Type := mkEntry {
  entry_text : string;
  entry_checked : bool;
  entry_index : Z
}.

Fixpoint entriesFrom (i : Z) (texts : list string) : list CriterionEntry :=
  match texts with
  | [] => []
  | text :: rest => mkEntry text false (i + 1) :: entriesFrom (i + 1) rest
  end.

(** [toAcceptanceCriteriaEntries] *)
Definition toAcceptanceCriteriaEntries (values : option (list string))
    : option (list CriterionEntry) :=
  match values with
  | None => None
  | Some values =>
      match trimmedNonEmpty values with
      | [] => None
      | trimmed => Some (entriesFrom 0 trimmed)
      end
  end.

(** An entry read as the [AcceptanceCriterionInput] it is passed as. *)
Definition asCriterionInput (e : CriterionEntry) : AcceptanceCriterionInput :=
  mkCriterionInput (entry_text e) (Some (entry_checked e)).

(** [Array.isArray(values) && values.length > 0] *)
Definition nonEmptyArray {A} (values : option (list A)) : option (list A) :=
  match values with
  | Some ((_ :: _) as values) => Some values
  | _ => None
  end.

Section Builder.
(** [normalizeStringList] of utils/task-builders.ts, taken as given. *)
Variable normalizeStringList : option (list string) -> option (list string).

(** [buildTaskUpdateInput] *)
Definition buildTaskUpdateInput (args : TaskEditArgs.t) : UpdateInput.t :=
  {| UpdateInput.title := TaskEditArgs.title args;
     UpdateInput.description := TaskEditArgs.description args;
     UpdateInput.status := TaskEditArgs.status args;
     UpdateInput.priority := TaskEditArgs.priority args;
     UpdateInput.milestone :=
       match TaskEditArgs.milestone args with
       | Some None => Some None
       | Some (Some m) =>
           let trimmed := JsString.trim m in
           Some (if Nat.eqb (String.length trimmed) 0 then None else Some trimmed)
       | None => None
       end;
     UpdateInput.ordinal := TaskEditArgs.ordinal args;
     UpdateInput.labels := normalizeStringList (TaskEditArgs.labels args);
     UpdateInput.addLabels := normalizeStringList (TaskEditArgs.addLabels args);
     UpdateInput.removeLabels := normalizeStringList (TaskEditArgs.removeLabels args);
     UpdateInput.assignee := normalizeStringList (TaskEditArgs.assignee args);
     UpdateInput.dependencies := sanitizeStringArray (TaskEditArgs.dependencies args);
     UpdateInput.addDependencies := None;
     UpdateInput.removeDependencies := None;
     UpdateInput.implementationPlan :=
       match TaskEditArgs.planSet args with
       | Some planSet => Some planSet
       | None => TaskEditArgs.implementationPlan args
       end;
     UpdateInput.appendImplementationPlan := sanitizeAppend (TaskEditArgs.planAppend args);
     UpdateInput.clearImplementationPlan :=
       match TaskEditArgs.planClear args with
       | Some true => Some true
       | _ => None
       end;
     UpdateInput.implementationNotes :=
       match TaskEditArgs.notesSet args with
       | Some notesSet => Some notesSet
       | None => TaskEditArgs.implementationNotes args
       end;
     UpdateInput.appendImplementationNotes := sanitizeAppend (TaskEditArgs.notesAppend args);
     UpdateInput.clearImplementationNotes :=
       match TaskEditArgs.notesClear args with
       | Some true => Some true
       | _ => None
       end;
     UpdateInput.acceptanceCriteria :=
       map asCriterionInput
         <$> toAcceptanceCriteriaEntries (TaskEditArgs.acceptanceCriteriaSet args);
     UpdateInput.addAcceptanceCriteria :=
       match nonEmptyArray (TaskEditArgs.acceptanceCriteriaAdd args) with
       | Some texts =>
           match trimmedNonEmpty texts with
           | [] => None
           | additions =>
               Some (map (fun text => inr (mkCriterionInput text (Some false))) additions)
           end
       | None => None
       end;
     UpdateInput.removeAcceptanceCriteria :=
       nonEmptyArray (TaskEditArgs.acceptanceCriteriaRemove args);
     UpdateInput.checkAcceptanceCriteria :=
       nonEmptyArray (TaskEditArgs.acceptanceCriteriaCheck args);
     UpdateInput.uncheckAcceptanceCriteria :=
       nonEmptyArray (TaskEditArgs.acceptanceCriteriaUncheck args);
     UpdateInput.rawContent := None;
     UpdateInput.branchName := TaskEditArgs.branchName args;
     UpdateInput.gitTag := TaskEditArgs.gitTag args;
     UpdateInput.prNumber := TaskEditArgs.prNumber args;
     UpdateInput.addToHistory := TaskEditArgs.historyEntry args |}.

(** *** What the builder passes on *)

(** A text as the builder passes it on: trimmed and not empty. *)
Definition Clean (s : string) : Prop := JsString.trim s = s /\ s <> "".

Lemma trimmedNonEmpty_clean values : Forall Clean (trimmedNonEmpty values).
Proof.
  apply Forall_forall. intros s Hs. unfold trimmedNonEmpty in Hs.
  apply elem_of_filter in Hs as [Hs Hlen].
  apply list_elem_of_fmap in Hs as (v & -> & _). split.
  - apply JsText.trim_idempotent.
  - intros He. rewrite He in Hlen. done.
Qed.

Lemma trimmedNonEmpty_fixed values : Forall Clean values -> trimmedNonEmpty values = values.
Proof.
  unfold trimmedNonEmpty. induction values as [|v values IH]; [done|].
  intros [[Ht Hne] Hrest]%Forall_cons. cbn [map List.filter]. rewrite Ht.
  destruct v as [|c v]; [done|]. cbn [String.length Nat.eqb negb]. f_equal.
  by apply IH.
Qed.

(** [sanitizeStringArray] returns nothing or a non-empty list of trimmed,
    non-empty texts, and sanitizing what it returns changes nothing. *)
Theorem sanitizeStringArray_idempotent values :
  sanitizeStringArray (sanitizeStringArray values) = sanitizeStringArray values /\
  (forall trimmed, sanitizeStringArray values = Some trimmed ->
     trimmed <> [] /\ Forall Clean trimmed).
Proof.
  assert (Hsome : forall trimmed, sanitizeStringArray values = Some trimmed ->
            trimmed <> [] /\ Forall Clean trimmed).
  { intros trimmed. unfold sanitizeStringArray. destruct values as [l|]; [|done].
    pose proof (trimmedNonEmpty_clean l) as Hc.
    destruct (trimmedNonEmpty l) as [|x xs]; [done|]. by intros [= <-]. }
  split; [|done].
  destruct (sanitizeStringArray values) as [trimmed|] eqn:E; [|done].
  destruct (Hsome trimmed eq_refl) as [Hne Hc].
  unfold sanitizeStringArray. rewrite trimmedNonEmpty_fixed by done.
  by destruct trimmed.
Qed.

Lemma entriesFrom_spec i texts :
  map entry_text (entriesFrom i texts) = texts /\
  map entry_index (entriesFrom i texts) = seqZ (i + 1) (Z.of_nat (length texts)) /\
  Forall (fun e => entry_checked e = false) (entriesFrom i texts).
Proof.
  revert i. induction texts as [|t texts IH]; intros i; [by repeat split|].
  cbn [entriesFrom map length]. destruct (IH (i + 1)) as (H1 & H2 & H3).
  split; [by rewrite H1|]. split; [|by constructor].
  rewrite H2, (seqZ_cons (i + 1)) by lia. do 2 f_equal; lia.
Qed.

Lemma toAcceptanceCriteriaEntries_Some values entries :
  toAcceptanceCriteriaEntries values = Some entries ->
  exists texts,
    values = Some texts /\
    map entry_text entries = trimmedNonEmpty texts /\
    entries <> [] /\
    Forall (fun e => Clean (entry_text e) /\ entry_checked e = false) entries /\
    map entry_index entries = seqZ 1 (Z.of_nat (length entries)).
Proof.
  unfold toAcceptanceCriteriaEntries. destruct values as [texts|]; [|done].
  intros H. exists texts. split; [done|].
  assert (Hent : entries = entriesFrom 0 (trimmedNonEmpty texts) /\
                 trimmedNonEmpty texts <> []).
  { destruct (trimmedNonEmpty texts); [done|]. by injection H as <-. }
  clear H. destruct Hent as [-> Hne].
  pose proof (trimmedNonEmpty_clean texts) as Hc.
  destruct (entriesFrom_spec 0 (trimmedNonEmpty texts)) as (H1 & H2 & H3).
  split; [done|]. split.
  { intros He. rewrite He in H1. by symmetry in H1. }
  split.
  - apply Forall_forall. intros e He. split.
    + rewrite Forall_forall in Hc. apply Hc. rewrite <- H1. by apply list_elem_of_fmap_2.
    + rewrite Forall_forall in H3. by apply H3.
  - rewrite H2. f_equal. rewrite <- H1 at 1. by rewrite !length_map.
Qed.

(** [toAcceptanceCriteriaEntries] returns nothing when every text is
    blank; otherwise one entry per non-blank text, in order, with the
    trimmed text, unchecked, the indices being 1, 2, ... *)
Theorem toAcceptanceCriteriaEntries_numbers_from_one values entries :
  toAcceptanceCriteriaEntries values = Some entries ->
  exists texts,
    values = Some texts /\
    map entry_text entries = trimmedNonEmpty texts /\
    entries <> [] /\
    Forall (fun e => Clean (entry_text e) /\ entry_checked e = false) entries /\
    map entry_index entries = seqZ 1 (Z.of_nat (length entries)).
Proof. apply toAcceptanceCriteriaEntries_Some. Qed.

Lemma nonEmptyArray_Some {A} (values : option (list A)) l :
  nonEmptyArray values = Some l -> l <> [] /\ values = Some l.
Proof. destruct values as [[|x xs]|]; [done| |done]. by intros [= <-]. Qed.

(** Whatever the arguments, the update input built from them never
    carries an empty list where it sets a list itself (dependencies,
    appended plan and notes, acceptance criteria set, added, removed,
    checked or unchecked), every text in these lists is trimmed and not
    empty, a clear flag is set or absent but never false, a milestone
    that is set is trimmed and not empty, and [addDependencies],
    [removeDependencies] and [rawContent] are never set. *)
Theorem buildTaskUpdateInput_passes_clean_lists args :
  let input := buildTaskUpdateInput args in
  (forall l, UpdateInput.dependencies input = Some l -> l <> [] /\ Forall Clean l) /\
  (forall l, UpdateInput.appendImplementationPlan input = Some l ->
     l <> [] /\ Forall Clean l) /\
  (forall l, UpdateInput.appendImplementationNotes input = Some l ->
     l <> [] /\ Forall Clean l) /\
  (forall l, UpdateInput.acceptanceCriteria input = Some l ->
     l <> [] /\ Forall (fun c => Clean (in_text c) /\ in_checked c = Some false) l) /\
  (forall l, UpdateInput.addAcceptanceCriteria input = Some l ->
     l <> [] /\
     Forall (fun c => exists text, c = inr (mkCriterionInput text (Some false)) /\ Clean text)
       l) /\
  UpdateInput.removeAcceptanceCriteria input <> Some [] /\
  UpdateInput.checkAcceptanceCriteria input <> Some [] /\
  UpdateInput.uncheckAcceptanceCriteria input <> Some [] /\
  UpdateInput.clearImplementationPlan input <> Some false /\
  UpdateInput.clearImplementationNotes input <> Some false /\
  (forall m, UpdateInput.milestone input = Some (Some m) -> Clean m) /\
  UpdateInput.addDependencies input = None /\
  UpdateInput.removeDependencies input = None /\
  UpdateInput.rawContent input = None.
Proof.
  assert (Hsan : forall values l, sanitizeStringArray values = Some l ->
            l <> [] /\ Forall Clean l).
  { intros values l. unfold sanitizeStringArray. destruct values as [vs|]; [|done].
    pose proof (trimmedNonEmpty_clean vs) as Hc.
    destruct (trimmedNonEmpty vs) as [|x xs]; [done|]. by intros [= <-]. }
  assert (Happ : forall values l, sanitizeAppend values = Some l ->
            l <> [] /\ Forall Clean l).
  { intros values l. unfold sanitizeAppend.
    destruct (sanitizeStringArray values) as [x|] eqn:E; [|done].
    intros [= <-]. by apply (Hsan values). }
  cbn zeta. cbn [buildTaskUpdateInput UpdateInput.dependencies
    UpdateInput.appendImplementationPlan UpdateInput.appendImplementationNotes
    UpdateInput.acceptanceCriteria UpdateInput.addAcceptanceCriteria
    UpdateInput.removeAcceptanceCriteria UpdateInput.checkAcceptanceCriteria
    UpdateInput.uncheckAcceptanceCriteria UpdateInput.clearImplementationPlan
    UpdateInput.clearImplementationNotes UpdateInput.milestone
    UpdateInput.addDependencies UpdateInput.removeDependencies UpdateInput.rawContent].
  split; [apply Hsan|]. split; [apply Happ|]. split; [apply Happ|].
  split.
  { intros l Hl.
    destruct (toAcceptanceCriteriaEntries (TaskEditArgs.acceptanceCriteriaSet args))
      as [entries|] eqn:E; [|done].
    injection Hl as <-.
    apply toAcceptanceCriteriaEntries_Some in E
      as (texts & _ & _ & Hne & Hall & _).
    split; [by destruct entries|]. apply Forall_fmap.
    eapply Forall_impl; [exact Hall|]. intros e [Hc Hch]. split; [done|].
    unfold asCriterionInput. cbn. by rewrite Hch. }
  split.
  { intros l Hl.
    destruct (nonEmptyArray (TaskEditArgs.acceptanceCriteriaAdd args)) as [texts|];
      [|done].
    pose proof (trimmedNonEmpty_clean texts) as Hc.
    assert (Hl' : l = map (fun text => inr (mkCriterionInput text (Some false)))
                        (trimmedNonEmpty texts) /\
                  trimmedNonEmpty texts <> []).
    { destruct (trimmedNonEmpty texts); [done|]. by injection Hl as <-. }
    clear Hl. destruct Hl' as [-> Hne].
    split; [intros He; by apply map_eq_nil in He|].
    apply Forall_forall. intros c Hin.
    apply list_elem_of_fmap in Hin as (text & -> & Ht). exists text. split; [done|].
    rewrite Forall_forall in Hc. by apply Hc. }
  split; [intros H; by apply nonEmptyArray_Some in H as [? _]|].
  split; [intros H; by apply nonEmptyArray_Some in H as [? _]|].
  split; [intros H; by apply nonEmptyArray_Some in H as [? _]|].
  split; [by destruct (TaskEditArgs.planClear args) as [[]|]|].
  split; [by destruct (TaskEditArgs.notesClear args) as [[]|]|].
  split; [|done].
  intros m. destruct (TaskEditArgs.milestone args) as [[m0|]|]; [|done..].
  destruct (Nat.eqb (String.length (JsString.trim m0)) 0) eqn:E; [done|].
  intros [= <-]. split; [apply JsText.trim_idempotent|].
  intros He. by rewrite He in E.
Qed.
End Builder.

(** The entries built from texts typed with blanks around them. *)
Lemma toAcceptanceCriteriaEntries_example :
  toAcceptanceCriteriaEntries (Some [" Login works "; "   "; "Logout works"])
    = Some [mkEntry "Login works" false 1; mkEntry "Logout works" false 2] /\
  exists texts,
    Some [" Login works "; "   "; "Logout works"] = Some texts /\
    map entry_text [mkEntry "Login works" false 1; mkEntry "Logout works" false 2]
      = trimmedNonEmpty texts /\
    [mkEntry "Login works" false 1; mkEntry "Logout works" false 2] <> [] /\
    Forall (fun e => Clean (entry_text e) /\ entry_checked e = false)
      [mkEntry "Login works" false 1; mkEntry "Logout works" false 2] /\
    map entry_index [mkEntry "Login works" false 1; mkEntry "Logout works" false 2]
      = seqZ 1 (Z.of_nat
                  (length [mkEntry "Login works" false 1; mkEntry "Logout works" false 2])).
Proof.
  split; [reflexivity|].
  apply (toAcceptanceCriteriaEntries_numbers_from_one
           (Some [" Login works "; "   "; "Logout works"])
           [mkEntry "Login works" false 1; mkEntry "Logout works" false 2]).
  reflexivity.
Defined.
End TaskEditBuilder.

(** ** Task tools of the MCP server (mcp/tools/tasks/handlers.ts) *)
Module McpTaskHandlers.
Import Core.

(** What a handler throws: an [McpError] with its code, or an error of
    the core that it lets through. *)
Inductive Thrown : Type :=
| McpError (message code : string)
| CoreError (message : string).

Inductive outcome (A : Type) : Type :=
| Returned (a : A)
| Threw (e : Thrown).
Arguments Returned {A} a.
Arguments Threw {A} e.

(** A handler reads and writes the world of the core. *)
Definition H (A : Type) : Type := World -> outcome A * World.

#[global] Instance H_ret : MRet H := fun A a w => (Returned a, w).

#[global] Instance H_bind : MBind H := fun A B k m w =>
  match m w with
  | (Returned a, w') => k a w'
  | (Threw e, w') => (Threw e, w')
  end.

#[global] Instance H_throw : MThrow Thrown H := fun A e w => (Threw e, w).

(** A call into the core; what it throws passes through. *)
Definition core {A : Type} (m : M A) : H A := fun w =>
  match m w with
  | (Ok a, w') => (Returned a, w')
  | (Err msg, w') => (Threw (CoreError msg), w')
  end.

(** [try { ... } catch (error) { throw new McpError(error.message,
    "VALIDATION_ERROR") }] around calls into the core. *)
Definition validated {A : Type} (m : M A) : H A := fun w =>
  match m w with
  | (Ok a, w') => (Returned a, w')
  | (Err msg, w') => (Threw (McpError msg "VALIDATION_ERROR"), w')
  end.

(** [isDoneStatus] *)
Definition isDoneStatus (status : string) : bool :=
  let normalized := JsString.toLowerCase (JsString.trim status) in
  JsText.includes normalized "done" || JsText.includes normalized "complete".

(** [formatTaskSummaryLine] *)
Definition formatTaskSummaryLine (task : Task) (includeStatus : bool) : string :=
  let priorityIndicator :=
    match priority task with
    | Some p => "[" +:+ JsText.toUpperCase (priorityName p) +:+ "] "
    | None => ""
    end in
  let statusText :=
    if includeStatus && negb (String.eqb (status task) "")
    then " (" +:+ status task +:+ ")" else "" in
  "  " +:+ priorityIndicator +:+ id task +:+ " - " +:+ title task +:+ statusText.

Section Handlers.
Variable config : option BacklogConfig.
Variable now : string.
(** utils/assignee.ts, utils/task-path.ts, utils/task-builders.ts,
    utils/status.ts: taken as given, as for the core. *)
Variable normalizeAssignee : Task -> Task.
Variable taskIdsEqual : string -> string -> bool.
Variable normalizeTaskId : string -> string.
Variable normalizeStringList : option (list string) -> option (list string).
Variable stringArraysEqual : list string -> list string -> bool.
Variable normalizeDependencies : option (list string) -> list string.
Variable validateDependencies : World -> list string -> list string * list string.
Variable resolveCanonicalStatus : string -> option string.
Variable validStatuses : list string.
(** [core.archiveTask], [core.completeTask] and [core.demoteTask] move
    files through file-system/operations.ts: taken as given. *)
Variable coreArchiveTask : string -> M bool.
Variable coreCompleteTask : string -> M bool.
Variable coreDemoteTask : string -> bool -> M bool.
(** [formatTaskCallResult(task, summaryLines, { filePathOverride })] of
    mcp/utils/task-response.ts and
    [join(completedDir, basename(filePath))]: taken as given. *)
Variable CallToolResult : Type.
Variable formatTaskCallResult : Task -> list string -> option string -> CallToolResult.
Variable completedPath : string -> string.

(** [loadTaskOrThrow] *)
Definition loadTaskOrThrow (taskId : string) : H Task :=
  task ← core (getTask taskIdsEqual normalizeTaskId taskId);
  match task with
  | Some task => mret task
  | None => mthrow (McpError ("Task not found: " +:+ taskId) "TASK_NOT_FOUND")
  end.

(** [viewTask] *)
Definition viewTask (taskId : string) : H CallToolResult :=
  task ← loadTaskOrThrow taskId;
  mret (formatTaskCallResult task [] None).

(** [archiveTask] *)
Definition archiveTask (taskId : string) : H CallToolResult :=
  task ← loadTaskOrThrow taskId;
  (if negb (isLocalEditableTask task) then
     mthrow (McpError ("Cannot archive task from another branch: " +:+ id task)
               "VALIDATION_ERROR")
   else mret tt);;
  (if isDoneStatus (status task) then
     mthrow (McpError
               ("Task " +:+ id task +:+
                " is Done. Done tasks should be completed " +:+
                "(moved to the completed folder), not archived. " +:+
                "Use task_complete instead.")
               "VALIDATION_ERROR")
   else mret tt);;
  success ← core (coreArchiveTask (id task));
  (if negb success then
     mthrow (McpError ("Failed to archive task: " +:+ taskId) "OPERATION_FAILED")
   else mret tt);;
  refreshed ← core (getTask taskIdsEqual normalizeTaskId (id task));
  mret (formatTaskCallResult (default task refreshed) [] None).

(** [completeTask] *)
Definition completeTask (taskId : string) : H CallToolResult :=
  task ← loadTaskOrThrow taskId;
  (if negb (isLocalEditableTask task) then
     mthrow (McpError ("Cannot complete task from another branch: " +:+ id task)
               "VALIDATION_ERROR")
   else mret tt);;
  (if negb (isDoneStatus (status task)) then
     mthrow (McpError
               ("Task " +:+ id task +:+ " is not Done. Set status to " +:+
                JsString.quoted "Done" +:+ " with task_edit before completing it.")
               "VALIDATION_ERROR")
   else mret tt);;
  let completedFilePath :=
    match truthy (filePath task) with
    | Some filePath => Some (completedPath filePath)
    | None => None
    end in
  success ← core (coreCompleteTask (id task));
  (if negb success then
     mthrow (McpError ("Failed to complete task: " +:+ taskId) "OPERATION_FAILED")
   else mret tt);;
  mret (formatTaskCallResult task ["Completed task " +:+ id task +:+ "."]
          completedFilePath).

(** [demoteTask] *)
Definition demoteTask (taskId : string) : H CallToolResult :=
  task ← loadTaskOrThrow taskId;
  success ← core (coreDemoteTask (id task) false);
  (if negb success then
     mthrow (McpError ("Failed to demote task: " +:+ taskId) "OPERATION_FAILED")
   else mret tt);;
  refreshed ← core (getTask taskIdsEqual normalizeTaskId (id task));
  mret (formatTaskCallResult (default task refreshed) [] None).

(** [editTask]: the arguments are turned into an update input and handed
    to [core.editTask], that is to [updateTaskFromInput]. *)
Definition editTask (taskId : string) (args : TaskEditBuilder.TaskEditArgs.t)
    : H CallToolResult :=
  validated
    (let updateInput := TaskEditBuilder.buildTaskUpdateInput normalizeStringList args in
     updatedTask ←
       updateTaskFromInput config now normalizeAssignee normalizeStringList
         stringArraysEqual normalizeDependencies validateDependencies
         resolveCanonicalStatus validStatuses taskId updateInput None;
     mret (formatTaskCallResult updatedTask [] None)).

(** *** Archive or complete, never both *)

Lemma loadTaskOrThrow_run taskId w :
  loadTaskOrThrow taskId w =
    match findTask taskIdsEqual normalizeTaskId w taskId with
    | Some task => (Returned task, w)
    | None => (Threw (McpError ("Task not found: " +:+ taskId) "TASK_NOT_FOUND"), w)
    end.
Proof.
  unfold loadTaskOrThrow, core. unfold mbind, H_bind.
  rewrite getTask_reads. by destruct (findTask _ _ w taskId).
Qed.

(** Whatever the world and the id, [archiveTask] and [completeTask] check
    before they move anything. A task that cannot be loaded is reported
    as not found by both. A task of another branch is refused by both. A
    task that is editable locally is refused by [archiveTask] when its
    status reads as done, and by [completeTask] when it does not: no task
    passes the checks of both. Each refusal leaves the world as it
    was. *)
Theorem archiveTask_completeTask_exclusive taskId w :
  match findTask taskIdsEqual normalizeTaskId w taskId with
  | None =>
      archiveTask taskId w =
        (Threw (McpError ("Task not found: " +:+ taskId) "TASK_NOT_FOUND"), w) /\
      completeTask taskId w =
        (Threw (McpError ("Task not found: " +:+ taskId) "TASK_NOT_FOUND"), w)
  | Some task =>
      if negb (isLocalEditableTask task) then
        archiveTask taskId w =
          (Threw (McpError ("Cannot archive task from another branch: " +:+ id task)
                    "VALIDATION_ERROR"), w) /\
        completeTask taskId w =
          (Threw (McpError ("Cannot complete task from another branch: " +:+ id task)
                    "VALIDATION_ERROR"), w)
      else if isDoneStatus (status task) then
        exists message,
          archiveTask taskId w = (Threw (McpError message "VALIDATION_ERROR"), w)
      else
        exists message,
          completeTask taskId w = (Threw (McpError message "VALIDATION_ERROR"), w)
  end.
Proof.
  pose proof (loadTaskOrThrow_run taskId w) as Hload.
  assert (Harchive : forall task,
    loadTaskOrThrow taskId w = (Returned task, w) ->
    archiveTask taskId w =
      (if negb (isLocalEditableTask task) then
         (Threw (McpError ("Cannot archive task from another branch: " +:+ id task)
                   "VALIDATION_ERROR"), w)
       else if isDoneStatus (status task) then
         (Threw (McpError
                   ("Task " +:+ id task +:+
                    " is Done. Done tasks should be completed " +:+
                    "(moved to the completed folder), not archived. " +:+
                    "Use task_complete instead.")
                   "VALIDATION_ERROR"), w)
       else archiveTask taskId w)).
  { intros task Ht. destruct (negb (isLocalEditableTask task)) eqn:El;
      [|destruct (isDoneStatus (status task)) eqn:Ed; [|done]];
      unfold archiveTask; unfold mbind at 1; unfold H_bind at 1; rewrite Ht, El;
      [done|]. unfold mbind at 1; unfold H_bind at 1. unfold mret at 1. unfold H_ret at 1.
    rewrite Ed. done. }
  assert (Hcomplete : forall task,
    loadTaskOrThrow taskId w = (Returned task, w) ->
    completeTask taskId w =
      (if negb (isLocalEditableTask task) then
         (Threw (McpError ("Cannot complete task from another branch: " +:+ id task)
                   "VALIDATION_ERROR"), w)
       else if negb (isDoneStatus (status task)) then
         (Threw (McpError
                   ("Task " +:+ id task +:+ " is not Done. Set status to " +:+
                    JsString.quoted "Done" +:+ " with task_edit before completing it.")
                   "VALIDATION_ERROR"), w)
       else completeTask taskId w)).
  { intros task Ht. destruct (negb (isLocalEditableTask task)) eqn:El;
      [|destruct (negb (isDoneStatus (status task))) eqn:Ed; [|done]];
      unfold completeTask; unfold mbind at 1; unfold H_bind at 1; rewrite Ht, El;
      [done|]. unfold mbind at 1; unfold H_bind at 1. unfold mret at 1. unfold H_ret at 1.
    rewrite Ed. done. }
  destruct (findTask _ _ w taskId) as [task|].
  - rewrite (Harchive task Hload), (Hcomplete task Hload).
    destruct (negb (isLocalEditableTask task)); [done|].
    destruct (isDoneStatus (status task)); cbn [negb]; by eexists.
  - unfold archiveTask, completeTask. unfold mbind, H_bind. by rewrite Hload.
Qed.

(** *** Setting the acceptance criteria through [editTask] *)

(** The arguments that set nothing but [acceptanceCriteriaSet]. *)
Definition onlyCriteriaSet (texts : list string) : TaskEditBuilder.TaskEditArgs.t :=
  TaskEditBuilder.TaskEditArgs.mk None None None None None None None None None None None
    None None None None None None None None (Some texts) None None None None None None
    None None.

Lemma criterion_inputs_of_clean i texts :
  Forall TaskEditBuilder.Clean texts ->
  List.filter (fun c : string * bool => negb (Nat.eqb (String.length c.1) 0))
    (map (fun c => (JsString.trim (in_text c), default false (in_checked c)))
       (map TaskEditBuilder.asCriterionInput (TaskEditBuilder.entriesFrom i texts)))
  = map (fun text => (text, false)) texts.
Proof.
  intros Hc. revert i. induction Hc as [|t texts [Ht Hne] _ IH]; intros i; [done|].
  cbn [TaskEditBuilder.entriesFrom map TaskEditBuilder.asCriterionInput in_text
       in_checked TaskEditBuilder.entry_text TaskEditBuilder.entry_checked default].
  rewrite Ht. cbn [List.filter fst]. rewrite IH.
  destruct t as [|a t]; [done|]. done.
Qed.

Lemma applyUpdateInput_criteria_only w task texts :
  normalizeStringList None = None ->
  applyUpdateInput normalizeStringList stringArraysEqual normalizeDependencies
    validateDependencies resolveCanonicalStatus validStatuses w
    (TaskEditBuilder.buildTaskUpdateInput normalizeStringList (onlyCriteriaSet texts)) task
  = match TaskEditBuilder.trimmedNonEmpty texts with
    | [] =>
        Ok (set_acceptanceCriteriaItems task
              (Some (default [] (acceptanceCriteriaItems task))), false)
    | trimmed =>
        Ok (set_acceptanceCriteriaItems task
              (Some (numberFrom 1 (map (fun text => (text, false)) trimmed))), true)
    end.
Proof.
  intros Hnone.
  unfold applyUpdateInput, TaskEditBuilder.buildTaskUpdateInput, onlyCriteriaSet.
  cbn. rewrite !Hnone. cbn. rewrite !Hnone. cbn.
  unfold resolveDependencies. cbn. rewrite set_dependencies_same.
  unfold applyCriteria, resolveCriteria.
  cbn [UpdateInput.acceptanceCriteria UpdateInput.addAcceptanceCriteria
       UpdateInput.removeAcceptanceCriteria UpdateInput.checkAcceptanceCriteria
       UpdateInput.uncheckAcceptanceCriteria].
  pose proof (TaskEditBuilder.trimmedNonEmpty_clean texts) as Hc.
  destruct (TaskEditBuilder.trimmedNonEmpty texts) as [|x xs]; [done|].
  change ({| TaskEditBuilder.entry_text := x; TaskEditBuilder.entry_checked := false;
             TaskEditBuilder.entry_index := 0 + 1 |}
          :: TaskEditBuilder.entriesFrom (0 + 1) xs)
    with (TaskEditBuilder.entriesFrom 0 (x :: xs)).
  cbn [fmap option_fmap option_map].
  rewrite (criterion_inputs_of_clean 0 (x :: xs) Hc). done.
Qed.

(** [editTask] called with nothing but [acceptanceCriteriaSet], on a task
    that has a file, given that [normalizeStringList] maps an absent list
    to an absent list. When every text is blank the criteria are left
    alone and nothing is written: the set cannot empty the list. Otherwise
    the criteria become the trimmed non-blank texts, in their order,
    unchecked and numbered from one, and the task is saved once with a
    fresh [updatedDate]. *)
Theorem editTask_sets_acceptance_criteria taskId texts w task :
  normalizeStringList None = None ->
  files w !! taskId = Some task ->
  match TaskEditBuilder.trimmedNonEmpty texts with
  | [] =>
      editTask taskId (onlyCriteriaSet texts) w =
        (Returned
           (formatTaskCallResult
              (set_acceptanceCriteriaItems task
                 (Some (default [] (acceptanceCriteriaItems task)))) [] None), w)
  | trimmed =>
      let saved :=
        stamped now normalizeAssignee
          (set_acceptanceCriteriaItems task
             (Some (numberFrom 1 (map (fun text => (text, false)) trimmed)))) in
      exists result extra,
        editTask taskId (onlyCriteriaSet texts) w =
          (Returned result,
           mkWorld (storeTasks w) (<[id saved := saved]> (files w))
             (events w ++ SaveTask saved :: extra)) /\
        savedTasks extra = []
  end.
Proof.
  intros Hnone Hfile.
  pose proof (applyUpdateInput_criteria_only w task texts Hnone) as Happly.
  destruct (TaskEditBuilder.trimmedNonEmpty texts) as [|x xs];
    unfold editTask, validated; cbv zeta;
    unfold updateTaskFromInput, fs_loadTask, inWorld;
    unfold mbind at 1; unfold M_bind at 1;
    unfold mbind at 1; unfold M_bind at 1; rewrite Hfile;
    unfold mbind at 1; unfold M_bind at 1; rewrite Happly; [done|].
  cbv beta iota zeta. cbn [negb]. cbv beta iota zeta.
  set (task' := set_acceptanceCriteriaItems task _).
  destruct (updateTask_run config now normalizeAssignee task' None w)
    as (extra & Hrun & Hsaved & _).
  unfold mbind at 1. unfold M_bind at 1. rewrite Hrun.
  unfold mbind, M_bind, mret, M_ret. cbn [files].
  by eexists _, extra.
Qed.
End Handlers.

Lemma editTask_criteria_example :
  let saved :=
    stamped "2025-06-01 12:00" (fun t => t)
      (set_acceptanceCriteriaItems reviewedTask
         (Some [mkCriterion 1 "first" false; mkCriterion 2 "second" false])) in
  exists result extra,
    editTask None "2025-06-01 12:00" (fun t => t) (fun l => l) exactArraysEqual
      (fun l => default [] l) (fun _ l => (l, []))
      (fun s => if inb s boardStatuses then Some s else None) boardStatuses
      (Task * list string * option string)%type (fun t l o => (t, l, o))
      "task-1" (onlyCriteriaSet ["  first "; "   "; "second"]) reviewedWorld =
      (Returned result,
       mkWorld (storeTasks reviewedWorld) (<[id saved := saved]> (files reviewedWorld))
         (events reviewedWorld ++ SaveTask saved :: extra)) /\
    savedTasks extra = [].
Proof.
  apply (editTask_sets_acceptance_criteria None "2025-06-01 12:00" (fun t => t)
           (fun l => l) exactArraysEqual (fun l => default [] l) (fun _ l => (l, []))
           (fun s => if inb s boardStatuses then Some s else None) boardStatuses
           (Task * list string * option string)%type (fun t l o => (t, l, o))
           "task-1" ["  first "; "   "; "second"] reviewedWorld reviewedTask).
  - reflexivity.
  - reflexivity.
Defined.

(** *** The list of tasks *)

Module TaskListArgs.
Record t : Type := mk {
  status : option string;
  assignee : option string;
  labels : option (list string);
  search : option string;
  limit : option Z
}.
End TaskListArgs.

Section Listing.
Variable config : option BacklogConfig.
Variable taskIdsEqual : string -> string -> bool.
(** [searchService.search] of search-service.ts and
    [sortTasks(bucket, "priority")] of utils/task-sorting.ts: taken as
    given. *)
Variable search : string -> option Z -> option SearchFilters.t -> list SearchResult.
Variable sortByPriority : list Task -> list Task.

(** The options [listTasks] hands to [core.queryTasks]. *)
Definition listQuery (args : TaskListArgs.t) : TaskQueryOptions.t :=
  let filters :=
    TaskListFilter.mk (truthy (TaskListArgs.status args))
      (truthy (TaskListArgs.assignee args)) None None None in
  TaskQueryOptions.mk
    match filters with
    | TaskListFilter.mk None None _ _ _ => None
    | _ => Some filters
    end
    (TaskListArgs.search args) (TaskListArgs.limit args) (Some false).

(** The tasks that [listTasks] shows: those of the query that are
    editable locally and carry every label asked for. *)
Definition filteredByLabels (args : TaskListArgs.t) (w : World) : list Task :=
  let tasks := queryTasks taskIdsEqual search w (listQuery args) in
  let filteredByLabels := List.filter isLocalEditableTask tasks in
  match default [] (TaskListArgs.labels args) with
  | [] => filteredByLabels
  | labelFilters =>
      List.filter
        (fun task => forallb (fun label => inb label (labels task)) labelFilters)
        filteredByLabels
  end.

Definition listedStatuses : list string :=
  match config with
  | Some c => statuses c
  | None => []
  end.

Definition canonicalByLower : JsMap.t string :=
  fold_left (fun m status => JsMap.set (JsString.toLowerCase status) status m)
    listedStatuses [].

(** The key of the bucket a task falls in. *)
Definition bucketKey (task : Task) : string :=
  let rawStatus := JsString.trim (status task) in
  default rawStatus (JsMap.get (JsString.toLowerCase rawStatus) canonicalByLower).

Definition grouped (tasks : list Task) : JsMap.t (list Task) :=
  fold_left
    (fun grouped task =>
       let existing := default [] (JsMap.get (bucketKey task) grouped) in
       JsMap.set (bucketKey task) (existing ++ [task]) grouped)
    tasks [].

Definition orderedStatuses (grouped : JsMap.t (list Task)) : list string :=
  List.filter (fun status => JsMap.has status grouped) listedStatuses ++
  List.filter (fun status => negb (inb status listedStatuses)) (JsMap.keys grouped).

(** The sections of the list: a status and its tasks, sorted. *)
Definition sections (args : TaskListArgs.t) (w : World) : list (string * list Task) :=
  let grouped := grouped (filteredByLabels args w) in
  map (fun status => (status, sortByPriority (default [] (JsMap.get status grouped))))
    (orderedStatuses grouped).

Definition sectionText (section : string * list Task) : string :=
  let '(status, sortedBucket) := section in
  JsString.join JsString.newline
    (((if String.eqb status "" then "No Status" else status) +:+ ":") ::
     map (fun task => formatTaskSummaryLine task false) sortedBucket).

(** [listTasks]: the texts of the content items returned. *)
Definition listTasks (args : TaskListArgs.t) : H (list string) := fun w =>
  match filteredByLabels args w with
  | [] => (Returned ["No tasks found."], w)
  | _ =>
      match map sectionText (sections args w) with
      | [] => (Returned ["No tasks found."], w)
      | contentItems => (Returned contentItems, w)
      end
  end.

(** *** Every task shown is listed once *)

Lemma concat_map_bind {A B} (f : A -> list B) (l : list A) : concat (map f l) = l ≫= f.
Proof. induction l as [|x l IH]; [done|]. cbn. by rewrite IH. Qed.

Lemma bind_Permutation_pointwise {A B} (f g : A -> list B) (l : list A) :
  (forall x, f x ≡ₚ g x) -> l ≫= f ≡ₚ l ≫= g.
Proof.
  intros Hfg. induction l as [|x l IH]; [done|]. cbn. by rewrite (Hfg x), IH.
Qed.

Lemma values_by_keys {V} (d : V) (m : JsMap.t V) :
  NoDup (JsMap.keys m) ->
  map (fun k => default d (JsMap.get k m)) (JsMap.keys m) = JsMap.values m.
Proof.
  unfold JsMap.keys, JsMap.values. induction m as [|[k v] m IH]; [done|].
  cbn [map fst snd]. intros [Hk Hnd]%NoDup_cons.
  cbn [JsMap.get]. rewrite String.eqb_refl. cbn [default]. f_equal.
  rewrite <- (IH Hnd). apply map_ext_in. intros k' Hk'.
  destruct (String.eqb_spec k' k) as [->|_]; [|done].
  by apply list_elem_of_In in Hk'.
Qed.

(** Every bucket holds at least one task, and only tasks of its key. *)
Definition Bucketed (m : JsMap.t (list Task)) : Prop :=
  Forall (fun e => e.2 <> [] /\ Forall (fun task => bucketKey task = e.1) e.2) m.

Lemma push_values k task (m : JsMap.t (list Task)) :
  concat (JsMap.values (JsMap.set k (default [] (JsMap.get k m) ++ [task]) m))
  ≡ₚ concat (JsMap.values m) ++ [task].
Proof.
  unfold JsMap.values. induction m as [|[k' v'] m IH]; [done|].
  cbn [JsMap.set JsMap.get]. destruct (String.eqb k k'); cbn [map snd concat default].
  - rewrite <- !app_assoc. apply Permutation_app_head, Permutation_app_comm.
  - by rewrite IH, app_assoc.
Qed.

Lemma push_bucketed task (m : JsMap.t (list Task)) :
  Bucketed m ->
  Bucketed
    (JsMap.set (bucketKey task) (default [] (JsMap.get (bucketKey task) m) ++ [task]) m).
Proof.
  unfold Bucketed. induction m as [|[k' v'] m IH]; intros Hm.
  - cbn. constructor; [|done]. cbn. split; [done|]. by constructor.
  - apply Forall_cons in Hm as [[Hne Hkey] Hm]. cbn [fst snd] in Hne, Hkey.
    cbn [JsMap.set JsMap.get].
    destruct (String.eqb_spec (bucketKey task) k') as [He|_]; cbn [default].
    + constructor; [|done]. cbn [fst snd]. split; [by destruct v'|].
      apply Forall_app. split; [done|]. by constructor.
    + constructor; [done|]. by apply IH.
Qed.

Lemma grouped_fold tasks (m : JsMap.t (list Task)) before :
  NoDup (JsMap.keys m) -> concat (JsMap.values m) ≡ₚ before -> Bucketed m ->
  let m' :=
    fold_left
      (fun grouped task =>
         let existing := default [] (JsMap.get (bucketKey task) grouped) in
         JsMap.set (bucketKey task) (existing ++ [task]) grouped)
      tasks m in
  NoDup (JsMap.keys m') /\ concat (JsMap.values m') ≡ₚ before ++ tasks /\ Bucketed m'.
Proof.
  revert m before. induction tasks as [|task tasks IH]; intros m before Hnd Hperm Hb.
  - cbn. by rewrite app_nil_r.
  - cbn [fold_left]. cbv zeta.
    change (before ++ task :: tasks) with (before ++ [task] ++ tasks).
    rewrite app_assoc. apply IH.
    + by apply JsMap.NoDup_keys_set.
    + by rewrite push_values, Hperm.
    + by apply push_bucketed.
Qed.

Lemma grouped_spec tasks :
  NoDup (JsMap.keys (grouped tasks)) /\
  concat (JsMap.values (grouped tasks)) ≡ₚ tasks /\
  Bucketed (grouped tasks).
Proof.
  apply (grouped_fold tasks [] []); [apply NoDup_nil_2|done|by constructor].
Qed.

Section Sorted.
Hypothesis sortByPriority_permutes : forall tasks, sortByPriority tasks ≡ₚ tasks.
Hypothesis statuses_differ : NoDup listedStatuses.

Lemma orderedStatuses_NoDup (m : JsMap.t (list Task)) :
  NoDup (JsMap.keys m) -> NoDup (orderedStatuses m).
Proof.
  intros Hnd. unfold orderedStatuses. apply NoDup_app. split; [|split].
  - eapply sublist_NoDup; [exact statuses_differ|apply filter_sublist].
  - intros x [Hx _]%elem_of_filter [_ Hn]%elem_of_filter.
    apply inb_spec in Hx. by rewrite Hx in Hn.
  - eapply sublist_NoDup; [exact Hnd|apply filter_sublist].
Qed.

Lemma elem_of_orderedStatuses (m : JsMap.t (list Task)) x :
  x ∈ orderedStatuses m <-> x ∈ JsMap.keys m.
Proof.
  unfold orderedStatuses. rewrite elem_of_app, !elem_of_filter, has_keys. split.
  - intros [[_ H]|[H _]]; done.
  - intros H. destruct (inb x listedStatuses) eqn:E.
    + left. split; [by apply inb_spec|done].
    + by right.
Qed.

(** Provided the configured statuses are pairwise different and
    [sortTasks] only reorders, the sections of [listTasks] hold the tasks
    shown, each of them once: no two sections have the same status, no
    section is empty, a section holds only tasks of its status (the
    trimmed status of the task, in the spelling of the configuration when
    it is configured), the configured statuses come first, in the order of
    the configuration, and the call returns "No tasks found." exactly when
    no task is shown. *)
Theorem listTasks_lists_each_task_once args w :
  let shown := filteredByLabels args w in
  let listed := sections args w in
  concat (map snd listed) ≡ₚ shown /\
  NoDup (map fst listed) /\
  Forall (fun section =>
            section.2 <> [] /\ Forall (fun task => bucketKey task = section.1) section.2)
    listed /\
  (exists configured others,
     map fst listed = configured ++ others /\
     configured `sublist_of` listedStatuses /\
     Forall (fun status => status ∉ listedStatuses) others) /\
  listTasks args w =
    (Returned (match shown with
               | [] => ["No tasks found."]
               | _ => map sectionText listed
               end), w) /\
  (shown <> [] -> listed <> []).
Proof.
  intros shown listed.
  destruct (grouped_spec shown) as (Hnd & Hperm & Hb).
  set (m := grouped shown) in *.
  assert (Hkeys : map fst listed = orderedStatuses m).
  { unfold listed, sections. fold shown. fold m. rewrite map_map. cbn [fst].
    apply map_id. }
  assert (Hordered : orderedStatuses m ≡ₚ JsMap.keys m).
  { apply NoDup_Permutation; [by apply orderedStatuses_NoDup|done|].
    apply elem_of_orderedStatuses. }
  assert (Hall : concat (map snd listed) ≡ₚ shown).
  { unfold listed, sections. fold shown. fold m. rewrite map_map. cbn [snd].
    rewrite concat_map_bind.
    rewrite (bind_Permutation_pointwise _ (fun s => default [] (JsMap.get s m)))
      by (intros s; apply sortByPriority_permutes).
    rewrite Hordered, <- concat_map_bind, values_by_keys by done. done. }
  assert (Hsome : shown <> [] -> listed <> []).
  { intros Hne He. rewrite He in Hall. cbn in Hall.
    apply Permutation_nil_l in Hall. done. }
  split; [done|]. split; [rewrite Hkeys; by apply orderedStatuses_NoDup|].
  split; [|split; [|split; [|done]]].
  - unfold listed, sections. fold shown. fold m.
    apply Forall_forall. intros section Hs.
    apply list_elem_of_fmap in Hs as (s & -> & Hs). cbn [fst snd].
    apply elem_of_orderedStatuses in Hs.
    destruct (JsMap.get s m) as [bucket|] eqn:Eg.
    2:{ apply JsMap.get_None_keys in Eg. done. }
    change (default [] (Some bucket)) with bucket. apply get_elem_of in Eg.
    unfold Bucketed in Hb. rewrite Forall_forall in Hb.
    destruct (Hb _ Eg) as [Hne Hkey]. cbn [fst snd] in Hne, Hkey. split.
    + intros He. pose proof (sortByPriority_permutes bucket) as Hp.
      rewrite He in Hp. apply Permutation_nil_l in Hp. done.
    + rewrite Forall_forall in Hkey |- *. intros task Ht. apply Hkey.
      by rewrite <- (sortByPriority_permutes bucket).
  - exists (List.filter (fun status => JsMap.has status m) listedStatuses),
           (List.filter (fun status => negb (inb status listedStatuses)) (JsMap.keys m)).
    split; [done|]. split; [apply filter_sublist|].
    apply Forall_forall. intros s [_ Hs]%elem_of_filter Hin.
    apply inb_spec in Hin. by rewrite Hin in Hs.
  - unfold listTasks. fold shown. fold listed.
    destruct shown as [|task rest] eqn:Es; [done|].
    destruct listed as [|section more] eqn:El; [by destruct Hsome|]. done.
Qed.
End Sorted.
End Listing.

Definition boardConfig : option BacklogConfig :=
  Some (mkConfig boardStatuses None None None None None).

(** A store with a task to do, one done in another spelling, one of a
    status that is not configured and one of another branch. *)
Definition boardWorld : World :=
  mkWorld
    [reviewedTask;
     taskCopy "task-2" " done " 100 None None;
     taskCopy "task-3" "Blocked" 100 (Some src_local) None;
     taskCopy "task-4" "To Do" 100 (Some src_local_branch) (Some "feature");
     taskCopy "task-5" "Done" 100 None None]
    ∅ [].

Definition everything : TaskListArgs.t := TaskListArgs.mk None None None None None.

Lemma listTasks_example :
  concat
    (map snd
       (sections boardConfig String.eqb (fun _ _ _ => []) (fun tasks => tasks)
          everything boardWorld))
  ≡ₚ filteredByLabels String.eqb (fun _ _ _ => []) everything boardWorld.
Proof.
  refine (proj1 (listTasks_lists_each_task_once boardConfig String.eqb
                   (fun _ _ _ => []) (fun tasks => tasks) _ _ everything boardWorld)).
  - intros tasks. reflexivity.
  - apply (bool_decide_unpack _). vm_compute. reflexivity.
Defined.

Example listTasks_sections :
  map (fun section => (section.1, map id section.2))
    (sections boardConfig String.eqb (fun _ _ _ => []) (fun tasks => tasks)
       everything boardWorld)
  = [("To Do", ["task-1"]); ("Done", ["task-2"; "task-5"]); ("Blocked", ["task-3"])].
Proof. vm_compute. reflexivity. Qed.

End McpTaskHandlers.

(** ** Helpers of the command line (cli.ts) *)
Module Cli.
Import Core.

(** *** Dependencies given on the command line *)

(** What commander hands over for an option that may be repeated: nothing,
    one string, or the strings gathered by [createMultiValueAccumulator]. *)
Inductive OptionValue : Type :=
| Absent
| Single (value : string)
| Many (values : list string).

Lemma split_nonempty sep s : JsText.split sep s <> [].
Proof.
  destruct s as [|c s]; [done|]. cbn [JsText.split].
  destruct (Ascii.eqb c sep); [done|]. by destruct (JsText.split sep s).
Qed.

Lemma split_join sep a b :
  JsText.split sep (a +:+ String sep b) = JsText.split sep a ++ JsText.split sep b.
Proof.
  induction a as [|c a IH].
  - change ("" +:+ String sep b) with (String sep b). cbn [JsText.split app].
    by rewrite Ascii.eqb_refl.
  - change (String c a +:+ String sep b) with (String c (a +:+ String sep b)).
    cbn [JsText.split]. rewrite IH.
    destruct (Ascii.eqb c sep); [done|].
    pose proof (split_nonempty sep a) as Hne.
    by destruct (JsText.split sep a).
Qed.

Section Dependencies.
(** [normalizeTaskId] and [taskIdsEqual] of utils/task-path.ts. *)
Variable normalizeTaskId : string -> string.
Variable taskIdsEqual : string -> string -> bool.

(** The local [normalizeList] of [normalizeDependencies]. *)
Definition normalizeList (values : list string) : list string :=
  map normalizeTaskId
    (List.filter (fun value => negb (Nat.eqb (String.length value) 0))
       (map JsString.trim values)).

(** [normalizeDependencies] *)
Definition normalizeDependencies (dependencies : OptionValue) : list string :=
  match dependencies with
  | Absent => []
  | Single value =>
      if String.eqb value "" then [] else normalizeList (JsText.split "," value)
  | Many values =>
      normalizeList
        (flat_map (fun dep => map JsString.trim (JsText.split "," dep)) values)
  end.

(** [validateDependencies]; [w] holds the tasks that [core.queryTasks()]
    serves and [drafts] is what [core.fs.listDrafts()] lists. A stored id
    that is the empty string is falsy and counts as no match. *)
Definition validateDependencies (w : World) (drafts : list Task)
    (dependencies : list string) : list string * list string :=
  match dependencies with
  | [] => ([], [])
  | _ =>
      let knownIds := map id (storeTasks w) ++ map id drafts in
      fold_left
        (fun '(valid, invalid) dep =>
           match truthy (List.find (fun id => taskIdsEqual dep id) knownIds) with
           | Some matched => (valid ++ [matched], invalid)
           | None => (valid, invalid ++ [dep])
           end)
        dependencies ([], [])
  end.

Lemma normalizeList_app a b : normalizeList (a ++ b) = normalizeList a ++ normalizeList b.
Proof. unfold normalizeList. by rewrite map_app, List.filter_app, map_app. Qed.

Lemma normalizeList_trimmed values :
  normalizeList (map JsString.trim values) = normalizeList values.
Proof.
  unfold normalizeList. do 2 f_equal. rewrite map_map.
  apply map_ext. intros v. apply JsText.trim_idempotent.
Qed.

Lemma normalizeDependencies_Single value :
  normalizeDependencies (Single value) = normalizeList (JsText.split "," value).
Proof. cbn [normalizeDependencies]. by destruct value. Qed.

Lemma normalizeDependencies_Many values :
  normalizeDependencies (Many values) =
    flat_map (fun dep => normalizeDependencies (Single dep)) values.
Proof.
  unfold normalizeDependencies at 1.
  induction values as [|v values IH]; [done|].
  cbn [flat_map]. rewrite normalizeList_app, IH, normalizeList_trimmed.
  by rewrite normalizeDependencies_Single.
Qed.

(** Giving the option several times is the same as giving it once with
    the values joined by commas, and two values separated by a comma give
    the dependencies of the first followed by those of the second. Every
    dependency returned is [normalizeTaskId] of a piece that is trimmed
    and not empty. *)
Theorem normalizeDependencies_repeated_is_joined values a b :
  normalizeDependencies (Many values) =
    normalizeDependencies (Single (JsString.join "," values)) /\
  normalizeDependencies (Single (a +:+ "," +:+ b)) =
    normalizeDependencies (Single a) ++ normalizeDependencies (Single b) /\
  Forall (fun dep => exists piece,
            dep = normalizeTaskId piece /\ JsString.trim piece = piece /\ piece <> "")
    (normalizeDependencies (Many values)).
Proof.
  assert (Hcomma : forall x y,
    normalizeDependencies (Single (x +:+ "," +:+ y)) =
      normalizeDependencies (Single x) ++ normalizeDependencies (Single y)).
  { intros x y. rewrite !normalizeDependencies_Single.
    change (x +:+ "," +:+ y) with (x +:+ String "," y).
    by rewrite split_join, normalizeList_app. }
  split; [|split; [apply Hcomma|]].
  - rewrite normalizeDependencies_Many.
    induction values as [|v values IH]; [done|].
    cbn [flat_map]. rewrite IH. destruct values as [|v' values].
    + cbn [JsString.join]. rewrite normalizeDependencies_Single.
      change (normalizeDependencies (Single "")) with (@nil string).
      by rewrite app_nil_r.
    + change (JsString.join "," (v :: v' :: values))
        with (v +:+ "," +:+ JsString.join "," (v' :: values)).
      by rewrite Hcomma.
  - cbn [normalizeDependencies]. unfold normalizeList.
    apply Forall_forall. intros dep Hdep.
    apply list_elem_of_fmap in Hdep as (piece & -> & Hpiece).
    apply elem_of_filter in Hpiece as [Hpiece Hlen].
    apply list_elem_of_fmap in Hpiece as (raw & -> & _).
    exists (JsString.trim raw). split; [done|]. split; [apply JsText.trim_idempotent|].
    intros He. by rewrite He in Hlen.
Qed.

(** *** Every dependency is kept, as valid or as invalid *)

(** What the loop of [validateDependencies] finds for one dependency. *)
Definition knownMatch (knownIds : list string) (dep : string) : option string :=
  truthy (List.find (fun id => taskIdsEqual dep id) knownIds).

Lemma validate_fold knownIds dependencies valid invalid :
  fold_left
    (fun '(valid, invalid) dep =>
       match truthy (List.find (fun id => taskIdsEqual dep id) knownIds) with
       | Some matched => (valid ++ [matched], invalid)
       | None => (valid, invalid ++ [dep])
       end)
    dependencies (valid, invalid)
  = (valid ++ omap (knownMatch knownIds) dependencies,
     invalid ++ List.filter (fun dep => match knownMatch knownIds dep with Some _ => false | None => true end)
                  dependencies).
Proof.
  revert valid invalid. induction dependencies as [|dep deps IH]; intros valid invalid.
  - by rewrite !app_nil_r.
  - cbn [fold_left List.filter]. csimpl. fold (knownMatch knownIds dep).
    destruct (knownMatch knownIds dep) as [matched|]; rewrite IH;
      by rewrite <- app_assoc.
Qed.

Lemma knownMatch_Some knownIds dep matched :
  knownMatch knownIds dep = Some matched ->
  matched ∈ knownIds /\ matched <> "" /\ taskIdsEqual dep matched = true.
Proof.
  unfold knownMatch. intros H. apply truthy_Some in H as [H Hne].
  apply find_some in H as [Hin Heq]. by rewrite list_elem_of_In.
Qed.

(** [validateDependencies] keeps every dependency, in the order given:
    one that some stored id equals goes to [valid], replaced by the first
    such id of the tasks served and then the drafts; the others go to
    [invalid] as they were typed. A dependency that no stored id equals
    is always invalid. *)
Theorem validateDependencies_accounts_for_all w drafts dependencies :
  let knownIds := map id (storeTasks w) ++ map id drafts in
  let valid := (validateDependencies w drafts dependencies).1 in
  let invalid := (validateDependencies w drafts dependencies).2 in
  (length valid + length invalid = length dependencies)%nat /\
  Forall (fun matched =>
            matched ∈ knownIds /\ matched <> "" /\
            exists dep, dep ∈ dependencies /\ taskIdsEqual dep matched = true) valid /\
  invalid `sublist_of` dependencies /\
  (forall dep, dep ∈ dependencies ->
     (forall id, id ∈ knownIds -> taskIdsEqual dep id = false) -> dep ∈ invalid) /\
  (forall dep, dep ∈ invalid ->
     forall id, id ∈ knownIds -> taskIdsEqual dep id = true ->
     "" ∈ knownIds /\ taskIdsEqual dep "" = true).
Proof.
  cbv zeta. set (knownIds := map id (storeTasks w) ++ map id drafts).
  assert (Hrun : validateDependencies w drafts dependencies =
            (omap (knownMatch knownIds) dependencies,
             List.filter (fun dep => match knownMatch knownIds dep with Some _ => false | None => true end)
               dependencies)).
  { unfold validateDependencies. fold knownIds.
    destruct dependencies as [|dep deps]; [done|]. by rewrite validate_fold. }
  rewrite Hrun. cbn [fst snd]. clear Hrun.
  split; [|split; [|split; [apply filter_sublist|split]]].
  - induction dependencies as [|dep deps IH]; [done|]. csimpl.
    destruct (knownMatch knownIds dep); cbn [length] in IH |- *; rewrite ?length_app in *; cbn [length] in *; lia.
  - apply Forall_forall. intros matched Hm.
    apply list_elem_of_omap in Hm as (dep & Hdep & Hm).
    apply knownMatch_Some in Hm as (H1 & H2 & H3). split; [done|]. split; [done|].
    by exists dep.
  - intros dep Hdep Hnone. apply elem_of_filter. split; [done|].
    destruct (knownMatch knownIds dep) as [matched|] eqn:E; [|done].
    apply knownMatch_Some in E as (H1 & _ & H3). by rewrite (Hnone matched H1) in H3.
  - intros dep Hdep known Hknown Heq.
    apply elem_of_filter in Hdep as [_ Hnone].
    unfold knownMatch in Hnone.
    destruct (List.find (fun id => taskIdsEqual dep id) knownIds) as [first|] eqn:Ef.
    + destruct (String.eqb_spec first "") as [->|Hne].
      * apply find_some in Ef as [Hin Hfirst]. by rewrite list_elem_of_In.
      * assert (Ht : truthy (Some first) = Some first).
        { apply truthy_Some. done. }
        by rewrite Ht in Hnone.
    + apply list_elem_of_In in Hknown.
      by rewrite (find_none _ _ Ef known Hknown) in Heq.
Qed.
End Dependencies.

(** *** Ids of new documents and decisions *)

Module Document.
Inductive Kind : Type := Readme | Guide | Specification | Other.
Record t : Type := mk {
  id : string;
  title : string;
  type : Kind;
  createdDate : string;
  updatedDate : option string;
  rawContent : string;
  tags : option (list string);
  name : option string;
  path : option string;
  lastModified : option string
}.
End Document.

Module Decision.
Inductive Status : Type := Proposed | Accepted | Rejected | Superseded.
Record t : Type := mk {
  id : string;
  title : string;
  date : string;
  status : Status;
  context : string;
  decision : string;
  consequences : string;
  alternatives : option string;
  rawContent : string
}.
End Decision.

(** What [(\d+)] captures when [prefix] and at least one digit start [s]. *)
Definition numberAfter (prefix s : string) : option string :=
  match JsString.stripPrefix prefix s with
  | Some rest =>
      let digits := JsString.leadingDigits rest in
      if String.eqb digits "" then None else Some digits
  | None => None
  end.

(** [file.match(/doc-(\d+)/)] and [file.match(/decision-(\d+)/)]: the
    group of the leftmost match anywhere in [file]. *)
Fixpoint matchNumberInside (prefix file : string) : option string :=
  match numberAfter prefix file with
  | Some digits => Some digits
  | None =>
      match file with
      | EmptyString => None
      | String _ rest => matchNumberInside prefix rest
      end
  end.

(** [id.match(/^doc-(\d+)$/)] and [id.match(/^decision-(\d+)$/)] *)
Definition matchWholeNumber (prefix id : string) : option string :=
  match JsString.stripPrefix prefix id with
  | Some rest =>
      if JsString.allDigits rest && negb (String.eqb rest "") then Some rest else None
  | None => None
  end.

(** The loop that finds the highest numeric id; the numbers compared are
    the doubles that [Number.parseInt] returns. *)
Definition maxWholeNumber (prefix : string) (allIds : list string) : Z :=
  fold_left
    (fun max id =>
       match matchWholeNumber prefix id with
       | Some digits => raiseMax max (JsString.parseInt (orElse digits "0"))
       | None => max
       end)
    allIds 0.

(** The ids read off the files of every branch. *)
Definition branchIdsOf (prefix : string) (branchResults : list (list string))
    : list string :=
  flat_map
    (fun files =>
       omap (fun file => (fun digits => prefix +:+ digits) <$> matchNumberInside prefix file)
         files)
    branchResults.

(** [generateNextDocId]. [docs] is what [core.filesystem.listDocuments()]
    lists. [branchFiles] is what git yields inside the [try]: for every
    branch the files of its docs directory, or nothing when the fetch,
    the list of branches or one of the listings throws, in which case no
    id of a branch is counted. The sum [max + 1] is a sum of doubles. *)
Definition generateNextDocId (config : option BacklogConfig) (docs : list Document.t)
    (branchFiles : option (list (list string))) : string :=
  let allIds :=
    match branchFiles with
    | Some branchResults => branchIdsOf "doc-" branchResults
    | None => []
    end ++ map Document.id docs in
  let nextIdNumber := JsString.toDouble (maxWholeNumber "doc-" allIds + 1) in
  match zeroPadding config with
  | Some padding =>
      "doc-" +:+
      JsString.padStart (Z.to_nat padding) "0" (JsString.numberToString nextIdNumber)
  | None => "doc-" +:+ JsString.numberToString nextIdNumber
  end.

(** [generateNextDecisionId], with the decisions listed and the files of
    the decisions directory of every branch. *)
Definition generateNextDecisionId (config : option BacklogConfig)
    (decisions : list Decision.t) (branchFiles : option (list (list string))) : string :=
  let allIds :=
    match branchFiles with
    | Some branchResults => branchIdsOf "decision-" branchResults
    | None => []
    end ++ map Decision.id decisions in
  let nextIdNumber := JsString.toDouble (maxWholeNumber "decision-" allIds + 1) in
  match zeroPadding config with
  | Some padding =>
      "decision-" +:+
      JsString.padStart (Z.to_nat padding) "0" (JsString.numberToString nextIdNumber)
  | None => "decision-" +:+ JsString.numberToString nextIdNumber
  end.

(** The id [result] is new: it is [prefix] followed by the digits of a
    number [n >= 1], padded to the configured width, it is none of the
    ids listed locally, [n] is above the number of every local id made of
    [prefix] and digits, and above the number that follows [prefix] in
    every file of every branch. *)
Definition FreshId (config : option BacklogConfig) (prefix result : string)
    (localIds : list string) (branchFiles : option (list (list string))) : Prop :=
  exists n : Z,
    let width :=
      match zeroPadding config with
      | Some padding => Z.to_nat padding
      | None => 0%nat
      end in
    result = prefix +:+ JsString.padStart width "0" (JsString.numberToString n) /\
    1 <= n /\
    JsString.decimalValue (JsString.padStart width "0" (JsString.numberToString n)) = n /\
    (result ∉ localIds) /\
    (forall digits,
       prefix +:+ digits ∈ localIds ->
       JsString.allDigits digits = true -> digits <> "" ->
       JsString.decimalValue digits < n) /\
    (forall branchResults files file digits,
       branchFiles = Some branchResults ->
       files ∈ branchResults -> file ∈ files ->
       matchNumberInside prefix file = Some digits ->
       JsString.decimalValue digits < n /\ result <> prefix +:+ digits).

(** The numbers that count are below 2^53: the number of every local id
    made of [prefix] and digits, and the number that follows [prefix] in
    every file of every branch. *)
Definition SafeNumbers (prefix : string) (localIds : list string)
    (branchFiles : option (list (list string))) : Prop :=
  (forall id digits,
     id ∈ localIds -> matchWholeNumber prefix id = Some digits ->
     JsString.decimalValue digits < 2 ^ 53) /\
  (forall branchResults files file digits,
     branchFiles = Some branchResults ->
     files ∈ branchResults -> file ∈ files ->
     matchNumberInside prefix file = Some digits ->
     JsString.decimalValue digits < 2 ^ 53).

Lemma numberAfter_digits prefix s digits :
  numberAfter prefix s = Some digits ->
  JsString.allDigits digits = true /\ digits <> "".
Proof.
  unfold numberAfter. destruct (JsString.stripPrefix prefix s) as [rest|]; [|done].
  cbv zeta. destruct (String.eqb_spec (JsString.leadingDigits rest) "") as [|Hne]; [done|].
  intros [= <-]. split; [apply JsString.leadingDigits_allDigits|done].
Qed.

Lemma matchNumberInside_digits prefix file digits :
  matchNumberInside prefix file = Some digits ->
  JsString.allDigits digits = true /\ digits <> "".
Proof.
  induction file as [|c file IH]; cbn [matchNumberInside];
    destruct (numberAfter prefix _) as [found|] eqn:E; try done.
  - intros [= <-]. by apply numberAfter_digits in E.
  - intros [= <-]. by apply numberAfter_digits in E.
Qed.

Lemma matchWholeNumber_digits prefix digits :
  JsString.allDigits digits = true -> digits <> "" ->
  matchWholeNumber prefix (prefix +:+ digits) = Some digits.
Proof.
  intros Hd Hne. unfold matchWholeNumber. rewrite JsString.stripPrefix_app, Hd.
  by destruct (String.eqb_spec digits "").
Qed.

Lemma matchWholeNumber_inv prefix id digits :
  matchWholeNumber prefix id = Some digits ->
  JsString.allDigits digits = true /\ digits <> "".
Proof.
  unfold matchWholeNumber. destruct (JsString.stripPrefix prefix id) as [rest|]; [|done].
  destruct (JsString.allDigits rest) eqn:Hd; [|done].
  destruct (String.eqb_spec rest ""); [done|]. by intros [= <-].
Qed.

Lemma fold_maxWholeNumber_safe prefix ids max :
  0 <= max < 2 ^ 53 ->
  (forall id digits,
     id ∈ ids -> matchWholeNumber prefix id = Some digits ->
     JsString.decimalValue digits < 2 ^ 53) ->
  let result :=
    fold_left
      (fun max id =>
         match matchWholeNumber prefix id with
         | Some digits => raiseMax max (JsString.parseInt (orElse digits "0"))
         | None => max
         end)
      ids max in
  max <= result < 2 ^ 53 /\
  forall id digits,
    id ∈ ids -> matchWholeNumber prefix id = Some digits ->
    JsString.decimalValue digits <= result.
Proof.
  revert max. induction ids as [|i ids IH]; intros max Hmax Hsafe; cbn zeta.
  - cbn. split; [lia|]. intros id digits Hin. by apply elem_of_nil in Hin.
  - cbn [fold_left].
    set (max' := match matchWholeNumber prefix i with
                 | Some digits => raiseMax max (JsString.parseInt (orElse digits "0"))
                 | None => max
                 end).
    assert (Hstep : max <= max' < 2 ^ 53 /\
              forall digits, matchWholeNumber prefix i = Some digits ->
                JsString.decimalValue digits <= max').
    { pose proof (Hsafe i) as Hi. specialize (fun digits => Hi digits ltac:(by left)).
      unfold max'. destruct (matchWholeNumber prefix i) as [digits|] eqn:Hm;
        [|by split; [lia|]].
      destruct (matchWholeNumber_inv _ _ _ Hm) as [Hds Hne].
      pose proof (Hi _ eq_refl) as Hbelow.
      rewrite Core.orElse_nonempty, JsString.parseInt_digits by (done || lia).
      split.
      - split; [apply Core.raiseMax_ge|].
        apply Core.raiseMax_below; [lia|]. by intros n [= <-].
      - intros ? [= <-]. apply Core.raiseMax_Some_ge. }
    destruct Hstep as [Hstep Hi].
    destruct (IH max') as [Hrest Hids]; [lia| |].
    { intros id digits Hin. apply Hsafe. by right. }
    cbn zeta in Hrest, Hids.
    split; [lia|]. intros id digits [->|Hin]%elem_of_cons Hnum.
    + specialize (Hi _ Hnum). lia.
    + by apply (Hids id).
Qed.

Lemma elem_of_branchIdsOf prefix branchResults files file digits :
  files ∈ branchResults -> file ∈ files ->
  matchNumberInside prefix file = Some digits ->
  prefix +:+ digits ∈ branchIdsOf prefix branchResults.
Proof.
  intros Hfiles Hfile Hm. unfold branchIdsOf.
  apply list_elem_of_In, in_flat_map. exists files.
  split; [by apply list_elem_of_In|]. apply list_elem_of_In, list_elem_of_omap.
  exists file. split; [done|]. by rewrite Hm.
Qed.

Lemma elem_of_branchIdsOf_inv prefix branchResults id :
  id ∈ branchIdsOf prefix branchResults ->
  exists files file digits,
    files ∈ branchResults /\ file ∈ files /\
    matchNumberInside prefix file = Some digits /\ id = prefix +:+ digits.
Proof.
  unfold branchIdsOf. intros Hin. apply list_elem_of_In, in_flat_map in Hin.
  destruct Hin as (files & Hfiles & Hin).
  apply list_elem_of_In, list_elem_of_omap in Hin as (file & Hfile & Hid).
  destruct (matchNumberInside prefix file) as [digits|] eqn:Hm; [|done].
  injection Hid as <-. exists files, file, digits.
  split; [by apply list_elem_of_In|done].
Qed.

Lemma append_inj_l prefix a b : prefix +:+ a = prefix +:+ b -> a = b.
Proof.
  induction prefix as [|c prefix IH]; [done|].
  intros [= H]. by apply IH.
Qed.

Lemma next_id_fresh config prefix localIds branchFiles :
  SafeNumbers prefix localIds branchFiles ->
  let allIds :=
    match branchFiles with
    | Some branchResults => branchIdsOf prefix branchResults
    | None => []
    end ++ localIds in
  let nextIdNumber := JsString.toDouble (maxWholeNumber prefix allIds + 1) in
  FreshId config prefix
    match zeroPadding config with
    | Some padding =>
        prefix +:+
        JsString.padStart (Z.to_nat padding) "0" (JsString.numberToString nextIdNumber)
    | None => prefix +:+ JsString.numberToString nextIdNumber
    end
    localIds branchFiles.
Proof.
  intros [Hlocal Hbranches] allIds.
  assert (Hsafe : forall id digits,
            id ∈ allIds -> matchWholeNumber prefix id = Some digits ->
            JsString.decimalValue digits < 2 ^ 53).
  { intros id digits [Hin|Hin]%elem_of_app Hm; [|by apply (Hlocal id)].
    destruct branchFiles as [branchResults|]; [|by apply elem_of_nil in Hin].
    apply elem_of_branchIdsOf_inv in Hin as (files & file & found & Hfiles & Hfile & Hf & ->).
    destruct (matchNumberInside_digits _ _ _ Hf) as [Hds Hne].
    rewrite matchWholeNumber_digits in Hm by done. injection Hm as <-.
    by apply (Hbranches branchResults files file). }
  destruct (fold_maxWholeNumber_safe prefix allIds 0 ltac:(lia) Hsafe) as [Hmax Hnumbers].
  cbn zeta in Hmax, Hnumbers. fold (maxWholeNumber prefix allIds) in Hmax, Hnumbers.
  set (n := maxWholeNumber prefix allIds + 1).
  assert (Hexact : JsString.toDouble n = n)
    by (apply JsString.toDouble_exact; unfold n; lia).
  cbv zeta. rewrite Hexact. exists n. cbv zeta.
  set (width := match zeroPadding config with
                | Some padding => Z.to_nat padding
                | None => 0%nat
                end).
  assert (Hn : 1 <= n) by (unfold n; lia).
  destruct (JsString.numberToString_spec n) as (Hd & Hv & Hne); [lia|].
  destruct (JsString.padStart_zero_spec width _ Hd) as (Hpd & Hpv & Hpne).
  set (result := match zeroPadding config with Some _ => _ | None => _ end).
  assert (Hid : result =
            prefix +:+ JsString.padStart width "0" (JsString.numberToString n)).
  { unfold result, width. destruct (zeroPadding config); done. }
  assert (Hbound : forall digits,
            prefix +:+ digits ∈ allIds ->
            JsString.allDigits digits = true -> digits <> "" ->
            JsString.decimalValue digits < n).
  { intros digits Hin Hds Hnd.
    pose proof (Hnumbers _ digits Hin (matchWholeNumber_digits _ _ Hds Hnd)).
    unfold n. lia. }
  assert (Hfresh : result ∉ allIds).
  { rewrite Hid. intros Hin. specialize (Hbound _ Hin Hpd (Hpne Hne)).
    rewrite Hpv, Hv in Hbound. lia. }
  split; [done|]. split; [done|]. split; [by rewrite Hpv|].
  split; [|split].
  - intros Hin. apply Hfresh. unfold allIds. apply elem_of_app. by right.
  - intros digits Hin. apply Hbound. unfold allIds. apply elem_of_app. by right.
  - intros branchResults files file digits -> Hfiles Hfile Hm.
    destruct (matchNumberInside_digits _ _ _ Hm) as [Hds Hnd].
    assert (Hin : prefix +:+ digits ∈ allIds).
    { unfold allIds. apply elem_of_app. left. by eapply elem_of_branchIdsOf. }
    split; [by apply Hbound|]. intros He. apply Hfresh. by rewrite He.
Qed.

(** Let the numbers of the documents listed and of the files of every
    branch be below 2^53. Then the id that [generateNextDocId] returns is
    new among them, whatever git yields and whatever the padding. The same
    holds of [generateNextDecisionId] and the decisions. *)
Theorem generateNextDocId_and_DecisionId_fresh config docs decisions docFiles
    decisionFiles :
  SafeNumbers "doc-" (map Document.id docs) docFiles ->
  SafeNumbers "decision-" (map Decision.id decisions) decisionFiles ->
  FreshId config "doc-" (generateNextDocId config docs docFiles)
    (map Document.id docs) docFiles /\
  FreshId config "decision-" (generateNextDecisionId config decisions decisionFiles)
    (map Decision.id decisions) decisionFiles.
Proof.
  intros Hdocs Hdecisions. split.
  - by apply (next_id_fresh config "doc-" (map Document.id docs) docFiles).
  - by apply (next_id_fresh config "decision-" (map Decision.id decisions) decisionFiles).
Qed.

Example generateNextDocId_padded :
  generateNextDocId (Some (mkConfig [] None None (Some 3) None None))
    [Document.mk "doc-2" "Setup" Document.Guide "2025-01-01" None "" None None None None;
     Document.mk "doc-x" "Notes" Document.Other "2025-01-02" None "" None None None None]
    (Some [["backlog/docs/doc-7 - Plan.md"; "backlog/docs/readme.md"]; []])
  = "doc-008".
Proof. reflexivity. Qed.

Example generateNextDecisionId_offline :
  generateNextDecisionId None
    [Decision.mk "decision-4" "Use Bun" "2025-01-01" Decision.Accepted "" "" "" None ""]
    None
  = "decision-5".
Proof. reflexivity. Qed.

(** The documents of [generateNextDocId_padded] and the decisions of
    [generateNextDecisionId_offline] meet the bound, and the ids made for
    them are new. *)
Lemma generateNextDocId_and_DecisionId_example :
  let config := Some (mkConfig [] None None (Some 3) None None) in
  let docs :=
    [Document.mk "doc-2" "Setup" Document.Guide "2025-01-01" None "" None None None None;
     Document.mk "doc-x" "Notes" Document.Other "2025-01-02" None "" None None None None] in
  let docFiles := Some [["backlog/docs/doc-7 - Plan.md"; "backlog/docs/readme.md"]; []] in
  let decisions :=
    [Decision.mk "decision-4" "Use Bun" "2025-01-01" Decision.Accepted "" "" "" None ""] in
  SafeNumbers "doc-" (map Document.id docs) docFiles /\
  SafeNumbers "decision-" (map Decision.id decisions) None /\
  FreshId config "doc-" (generateNextDocId config docs docFiles)
    (map Document.id docs) docFiles /\
  FreshId config "decision-" (generateNextDecisionId config decisions None)
    (map Decision.id decisions) None.
Proof.
  intros config docs docFiles decisions.
  assert (Hdocs : SafeNumbers "doc-" (map Document.id docs) docFiles).
  { split.
    - intros id digits Hin Hm. cbn in Hin.
      repeat (apply elem_of_cons in Hin as [->|Hin]);
        [vm_compute in Hm; try discriminate; injection Hm as <-; vm_compute; done ..|].
      by apply elem_of_nil in Hin.
    - intros branchResults files file digits [= <-] Hfiles Hfile Hm.
      repeat (apply elem_of_cons in Hfiles as [->|Hfiles]);
        [| |by apply elem_of_nil in Hfiles].
      + repeat (apply elem_of_cons in Hfile as [->|Hfile]);
          [vm_compute in Hm; try discriminate; injection Hm as <-; vm_compute; done ..|].
        by apply elem_of_nil in Hfile.
      + by apply elem_of_nil in Hfile. }
  assert (Hdecisions : SafeNumbers "decision-" (map Decision.id decisions) None).
  { split; [|done].
    intros id digits Hin Hm. cbn in Hin.
    repeat (apply elem_of_cons in Hin as [->|Hin]);
      [vm_compute in Hm; try discriminate; injection Hm as <-; vm_compute; done ..|].
    by apply elem_of_nil in Hin. }
  split; [exact Hdocs|]. split; [exact Hdecisions|].
  exact (generateNextDocId_and_DecisionId_fresh config docs decisions docFiles None
           Hdocs Hdecisions).
Defined.

(** Past 2^53 the sum [max + 1] rounds back: with the document numbered
    2^53 listed, its id is returned again. *)
Example generateNextDocId_repeats_large_id :
  generateNextDocId None
    [Document.mk "doc-9007199254740992" "Setup" Document.Guide "2025-01-01" None ""
       None None None None]
    None
  = "doc-9007199254740992".
Proof. reflexivity. Qed.
End Cli.

(** ** Dates of the front matter (markdown/parser.ts) *)
Module MarkdownParser.

(** The value handed to [normalizeDate], by what the function looks at: a
    falsy value; a [Date], by its UTC hours, minutes and seconds and by
    its [toISOString()]; any other value, by its [String(value)]. *)
Inductive DateValue : Type :=
| Falsy
| DateObject (utcHours utcMinutes utcSeconds : Z) (isoString : string)
| Other (text : string).

(** The regular expressions of [normalizeDate] are sequences of digits
    and literal characters between [^] and [$]. *)
Inductive CharClass : Type :=
| Digit
| Lit (c : ascii).

Fixpoint matches (pattern : list CharClass) (s : string) : bool :=
  match pattern, s with
  | [], EmptyString => true
  | Digit :: pattern, String c s => JsString.isDigit c && matches pattern s
  | Lit l :: pattern, String c s => Ascii.eqb c l && matches pattern s
  | _, _ => false
  end.

(** [/^(\d{4})-(\d{2})-(\d{2}) (\d{2}):(\d{2})$/] *)
Definition dateTimePattern : list CharClass :=
  [Digit; Digit; Digit; Digit; Lit "-"; Digit; Digit; Lit "-"; Digit; Digit; Lit " ";
   Digit; Digit; Lit ":"; Digit; Digit].

(** [/^(\d{4})-(\d{2})-(\d{2})T(\d{2}):(\d{2})$/] *)
Definition isoDateTimePattern : list CharClass :=
  [Digit; Digit; Digit; Digit; Lit "-"; Digit; Digit; Lit "-"; Digit; Digit; Lit "T";
   Digit; Digit; Lit ":"; Digit; Digit].

(** [/^(\d{4})-(\d{2})-(\d{2})$/] *)
Definition dateOnlyPattern : list CharClass :=
  [Digit; Digit; Digit; Digit; Lit "-"; Digit; Digit; Lit "-"; Digit; Digit].

(** [/^(\d{2})-(\d{2})-(\d{2})$/], and the same with [\/] and [\.] *)
Definition legacyPattern (sep : ascii) : list CharClass :=
  [Digit; Digit; Lit sep; Digit; Digit; Lit sep; Digit; Digit].

Definition isQuote (c : ascii) : bool :=
  Ascii.eqb c "'" || Ascii.eqb c (ascii_of_nat 34).

Fixpoint dropLastQuote (s : string) : string :=
  match s with
  | EmptyString => EmptyString
  | String c EmptyString => if isQuote c then EmptyString else s
  | String c rest => String c (dropLastQuote rest)
  end.

(** The replacement that strips the outer quotes: a single or double
    quote that starts [s] goes, and so does one that ends what is left. *)
Definition stripQuotes (s : string) : string :=
  dropLastQuote
    match s with
    | String c rest => if isQuote c then rest else s
    | EmptyString => EmptyString
    end.

(** [s.replace(from, to)] for one-character strings: the first [from]. *)
Fixpoint replaceFirst (from to : ascii) (s : string) : string :=
  match s with
  | EmptyString => EmptyString
  | String c rest =>
      if Ascii.eqb c from then String to rest else String c (replaceFirst from to rest)
  end.

(** The legacy formats read day, month, year. *)
Definition fromLegacy (str : string) : string :=
  let day := String.substring 0 2 str in
  let month := String.substring 3 2 str in
  let year := String.substring 6 2 str in
  "20" +:+ year +:+ "-" +:+ month +:+ "-" +:+ day.

(** [normalizeDate] *)
Definition normalizeDate (value : DateValue) : string :=
  match value with
  | Falsy => ""
  | DateObject hours minutes seconds isoString =>
      if (hours =? 0) && (minutes =? 0) && (seconds =? 0)
      then String.substring 0 10 isoString
      else replaceFirst "T" " " (String.substring 0 16 isoString)
  | Other text =>
      let str := stripQuotes (JsString.trim text) in
      if String.eqb str "" then ""
      else if matches dateTimePattern str then str
      else if matches isoDateTimePattern str then replaceFirst "T" " " str
      else if matches dateOnlyPattern str then
        String.substring 0 4 str +:+ "-" +:+ String.substring 5 2 str +:+ "-" +:+
        String.substring 8 2 str
      else if matches (legacyPattern "-") str then fromLegacy str
      else if matches (legacyPattern "/") str then fromLegacy str
      else if matches (legacyPattern ".") str then fromLegacy str
      else str
  end.

(** The strings [normalizeDate] knows how to read, and the two forms it
    writes. *)
Definition recognised (str : string) : bool :=
  matches dateTimePattern str || matches isoDateTimePattern str ||
  matches dateOnlyPattern str || matches (legacyPattern "-") str ||
  matches (legacyPattern "/") str || matches (legacyPattern ".") str.

Definition canonical (str : string) : bool :=
  matches dateOnlyPattern str || matches dateTimePattern str.

Example normalizeDate_legacy : normalizeDate (Other " '31/12/24' ") = "2024-12-31".
Proof. reflexivity. Qed.

Example normalizeDate_iso : normalizeDate (Other "2025-03-09T08:05") = "2025-03-09 08:05".
Proof. reflexivity. Qed.

Example normalizeDate_midnight :
  normalizeDate (DateObject 0 0 0 "2025-03-09T00:00:00.000Z") = "2025-03-09".
Proof. reflexivity. Qed.

Example normalizeDate_timestamp :
  normalizeDate (DateObject 8 5 0 "2025-03-09T08:05:00.000Z") = "2025-03-09 08:05".
Proof. reflexivity. Qed.

(** A second pair of quotes survives the first pass and goes in the
    second. *)
Example normalizeDate_nested_quotes :
  let once := normalizeDate (Other (String "'" (JsString.quoted "2025-03-09") +:+ "'")) in
  once = JsString.quoted "2025-03-09" /\ normalizeDate (Other once) = "2025-03-09".
Proof. split; reflexivity. Qed.

(** *** What a pattern says about the string *)

Lemma matches_cons_inv x pattern s :
  matches (x :: pattern) s = true ->
  exists c rest,
    s = String c rest /\
    match x with Digit => JsString.isDigit c = true | Lit l => c = l end /\
    matches pattern rest = true.
Proof.
  destruct s as [|c rest]; [by destruct x|]. destruct x as [|l]; cbn [matches].
  - intros [H1 H2]%andb_true_iff. by exists c, rest.
  - intros [H1 H2]%andb_true_iff. apply Ascii.eqb_eq in H1. by exists c, rest.
Qed.

Lemma matches_nil_inv s : matches [] s = true -> s = "".
Proof. by destruct s. Qed.

Lemma matches_length pattern s :
  matches pattern s = true -> String.length s = length pattern.
Proof.
  revert s. induction pattern as [|x pattern IH]; intros s H.
  - by apply matches_nil_inv in H as ->.
  - apply matches_cons_inv in H as (c & rest & -> & _ & H).
    cbn [String.length length]. f_equal. by apply IH.
Qed.

Lemma digit_not_space c : JsString.isDigit c = true -> JsString.isWhiteSpace c = false.
Proof.
  unfold JsString.isDigit, JsString.isWhiteSpace. cbv zeta.
  intros [H1 H2]%andb_true_iff. apply Nat.leb_le in H1, H2.
  apply orb_false_iff. split; [apply orb_false_iff; split|].
  - apply Nat.eqb_neq. lia.
  - apply andb_false_iff. right. apply Nat.leb_gt. lia.
  - apply Nat.eqb_neq. lia.
Qed.

Lemma digit_not_quote c : JsString.isDigit c = true -> isQuote c = false.
Proof.
  intros H. unfold isQuote. apply orb_false_iff.
  split; apply Ascii.eqb_neq; intros ->; discriminate H.
Qed.

Lemma digit_not_T c : JsString.isDigit c = true -> Ascii.eqb c "T" = false.
Proof. intros H. apply Ascii.eqb_neq. intros ->. discriminate H. Qed.

(** A string that starts and ends with a digit has nothing to trim and no
    quote to strip. *)
Lemma digits_at_both_ends pattern s :
  matches (Digit :: pattern) s = true -> last (Digit :: pattern) = Some Digit ->
  stripQuotes (JsString.trim s) = s.
Proof.
  intros Hm Hlast.
  assert (Hend : forall p t,
            matches p t = true -> last p = Some Digit ->
            JsString.trimEnd t = t /\ dropLastQuote t = t /\ t <> "").
  { induction p as [|x p IH]; intros t Ht Hl; [done|].
    apply matches_cons_inv in Ht as (c & rest & -> & Hx & Ht).
    destruct p as [|y p].
    - apply matches_nil_inv in Ht as ->. cbn in Hl. injection Hl as ->.
      cbn [JsString.trimEnd dropLastQuote].
      by rewrite (digit_not_space c Hx), (digit_not_quote c Hx).
    - destruct (IH rest Ht) as (H1 & H2 & H3); [done|].
      destruct rest as [|d rest]; [done|].
      split; [|split; [|done]].
      + change (JsString.trimEnd (String c (String d rest))) with
          (match JsString.trimEnd (String d rest) with
           | EmptyString =>
               if JsString.isWhiteSpace c then EmptyString else String c EmptyString
           | r => String c r
           end).
        by rewrite H1.
      + change (dropLastQuote (String c (String d rest))) with
          (String c (dropLastQuote (String d rest))).
        by rewrite H2. }
  destruct (Hend _ _ Hm Hlast) as (Htrim & Hquote & _).
  apply matches_cons_inv in Hm as (c & rest & -> & Hc & _).
  unfold JsString.trim. cbn [JsString.skipWhiteSpace].
  rewrite (digit_not_space c Hc), Htrim. unfold stripQuotes.
  by rewrite (digit_not_quote c Hc), Hquote.
Qed.

Ltac explicit H :=
  repeat (apply matches_cons_inv in H as (? & ? & -> & ? & H));
  apply matches_nil_inv in H as ->.

Ltac digits :=
  repeat match goal with
         | Hd : JsString.isDigit ?c = true |- context [Ascii.eqb ?c "T"] =>
             rewrite (digit_not_T c Hd)
         | Hd : JsString.isDigit ?c = true |- context [JsString.isDigit ?c] =>
             rewrite Hd
         end.

Lemma replaceFirst_iso str :
  matches isoDateTimePattern str = true ->
  matches dateTimePattern (replaceFirst "T" " " str) = true.
Proof.
  intros H. unfold isoDateTimePattern in H. explicit H. subst.
  cbn [replaceFirst]. digits. cbn -[JsString.isDigit]. digits. reflexivity.
Qed.

Lemma rebuilt_date_only str :
  matches dateOnlyPattern str = true ->
  String.substring 0 4 str +:+ "-" +:+ String.substring 5 2 str +:+ "-" +:+
  String.substring 8 2 str = str.
Proof.
  intros H. unfold dateOnlyPattern in H. explicit H. subst.
  cbv [String.substring String.append]. reflexivity.
Qed.

Lemma fromLegacy_date_only sep str :
  matches (legacyPattern sep) str = true ->
  matches dateOnlyPattern (fromLegacy str) = true.
Proof.
  intros H. unfold legacyPattern in H. explicit H. subst.
  unfold fromLegacy, dateOnlyPattern. cbv [String.substring String.append].
  cbn [matches]. digits. reflexivity.
Qed.

(** Whatever the text, write [str] for the text trimmed and without its
    outer quotes. When [str] has one of the six forms that [normalizeDate]
    reads, the result is a date YYYY-MM-DD or a date and time
    YYYY-MM-DD HH:mm, and normalizing it again changes nothing. When [str]
    has none of them the result is [str] itself. A text that already is a
    date or a date and time comes back unchanged. *)
Theorem normalizeDate_canonical text :
  let str := stripQuotes (JsString.trim text) in
  (recognised str = true ->
     canonical (normalizeDate (Other text)) = true /\
     normalizeDate (Other (normalizeDate (Other text))) = normalizeDate (Other text)) /\
  (recognised str = false -> normalizeDate (Other text) = str) /\
  (canonical text = true -> normalizeDate (Other text) = text).
Proof.
  assert (Hfixed : forall t, canonical t = true -> normalizeDate (Other t) = t).
  { intros t Ht. unfold canonical in Ht. cbn [normalizeDate].
    apply orb_true_iff in Ht as [Ht|Ht].
    - rewrite (digits_at_both_ends _ t Ht eq_refl).
      pose proof (matches_length _ _ Ht) as Hlen.
      destruct (String.eqb_spec t "") as [->|_]; [done|].
      destruct (matches dateTimePattern t) eqn:E1.
      { apply matches_length in E1. rewrite E1 in Hlen. discriminate Hlen. }
      destruct (matches isoDateTimePattern t) eqn:E2.
      { apply matches_length in E2. rewrite E2 in Hlen. discriminate Hlen. }
      rewrite Ht. by apply rebuilt_date_only.
    - rewrite (digits_at_both_ends _ t Ht eq_refl).
      destruct (String.eqb_spec t "") as [->|_]; [done|]. by rewrite Ht. }
  assert (Hcanon : forall t,
            recognised (stripQuotes (JsString.trim t)) = true ->
            canonical (normalizeDate (Other t)) = true).
  { intros t. cbn [normalizeDate]. set (str := stripQuotes (JsString.trim t)).
    unfold recognised, canonical. intros Hr.
    destruct (String.eqb_spec str "") as [He|_]; [by rewrite He in Hr|].
    destruct (matches dateTimePattern str) eqn:E1; [by rewrite E1, orb_true_r|].
    destruct (matches isoDateTimePattern str) eqn:E2.
    { by rewrite (replaceFirst_iso str E2), orb_true_r. }
    destruct (matches dateOnlyPattern str) eqn:E3.
    { by rewrite (rebuilt_date_only str E3), E3. }
    destruct (matches (legacyPattern "-") str) eqn:E4.
    { by rewrite (fromLegacy_date_only _ str E4). }
    destruct (matches (legacyPattern "/") str) eqn:E5.
    { by rewrite (fromLegacy_date_only _ str E5). }
    destruct (matches (legacyPattern ".") str) eqn:E6.
    { by rewrite (fromLegacy_date_only _ str E6). }
    done. }
  cbv zeta. split; [|split; [|apply Hfixed]].
  - intros Hr. split; [by apply Hcanon|]. by apply Hfixed, Hcanon.
  - unfold recognised. intros Hr.
    repeat (apply orb_false_iff in Hr as [Hr ?]).
    cbn [normalizeDate].
    destruct (String.eqb_spec (stripQuotes (JsString.trim text)) "") as [->|_]; [done|].
    repeat match goal with H : matches _ _ = false |- _ => rewrite H; clear H end.
    done.
Qed.

(** *** Assignee and reporter lines of the front matter *)

Definition doubleQuote : ascii := ascii_of_nat 34.
Definition lineFeed : ascii := ascii_of_nat 10.
Definition carriageReturn : ascii := ascii_of_nat 13.

(** The characters [.] does not match. *)
Definition isLineTerminator (c : ascii) : bool :=
  Ascii.eqb c lineFeed || Ascii.eqb c carriageReturn.

Fixpoint noLineTerminator (s : string) : bool :=
  match s with
  | EmptyString => true
  | String c rest => negb (isLineTerminator c) && noLineTerminator rest
  end.

(** What a leading [\s*] takes. *)
Fixpoint takeWhiteSpace (s : string) : string :=
  match s with
  | EmptyString => EmptyString
  | String c rest =>
      if JsString.isWhiteSpace c then String c (takeWhiteSpace rest) else EmptyString
  end.

Definition startsWith (c : ascii) (s : string) : bool :=
  match s with
  | String d _ => Ascii.eqb d c
  | EmptyString => false
  end.

(** The match of a line against the pattern for assignee and reporter
    lines: white space, one of the two keys with its colon, white space
    (all this is the first group) and the rest of the line (the second
    group). The rest is matched by dots, which stop at a line terminator,
    so a line with one after the value does not match. *)
Definition matchField (line : string) : option (string * string) :=
  let indent := takeWhiteSpace line in
  let keyed (key : string) :=
    match JsString.stripPrefix key (JsString.skipWhiteSpace line) with
    | Some afterKey =>
        let raw := JsString.skipWhiteSpace afterKey in
        if noLineTerminator raw
        then Some (indent +:+ key +:+ takeWhiteSpace afterKey, raw)
        else None
    | None => None
    end in
  match keyed "assignee:" with
  | Some groups => Some groups
  | None => keyed "reporter:"
  end.

(** What may follow the closing bracket of a flow list: white space, then
    the end or a comment that runs to the end. The comment, if any. *)
Definition trailing (rest : string) : option (option string) :=
  match JsString.skipWhiteSpace rest with
  | EmptyString => Some None
  | String c _ as comment =>
      if Ascii.eqb c "#" && noLineTerminator comment then Some (Some comment) else None
  end.

(** The match of a flow list after its opening bracket: the list body up
    to the last closing bracket that what follows allows (the body is
    matched greedily), and the comment. *)
Fixpoint flowSplit (s : string) : option (string * option string) :=
  match s with
  | EmptyString => None
  | String c rest =>
      match (if isLineTerminator c then None else flowSplit rest) with
      | Some (body, comment) => Some (String c body, comment)
      | None =>
          if Ascii.eqb c "]" then
            match trailing rest with
            | Some comment => Some (EmptyString, comment)
            | None => None
            end
          else None
      end
  end.

(** The two replacements that escape an entry: every backslash is
    doubled, then every double quote gets a backslash in front. *)
Fixpoint escapeBackslashes (s : string) : string :=
  match s with
  | EmptyString => EmptyString
  | String c rest =>
      if Ascii.eqb c "\" then String "\" (String "\" (escapeBackslashes rest))
      else String c (escapeBackslashes rest)
  end.

Fixpoint escapeQuotes (s : string) : string :=
  match s with
  | EmptyString => EmptyString
  | String c rest =>
      if Ascii.eqb c doubleQuote then String "\" (String doubleQuote (escapeQuotes rest))
      else String c (escapeQuotes rest)
  end.

Definition escaped (s : string) : string := escapeQuotes (escapeBackslashes s).

(** The entries of a flow list: quoted ones stay, one that starts with
    [@] is put in double quotes. *)
Definition normalizeItem (entry : string) : string :=
  if startsWith "'" entry || startsWith doubleQuote entry then entry
  else if startsWith "@" entry then JsString.quoted (escaped entry)
  else entry.

Definition flowItems (listBody : string) : list string :=
  List.filter (fun entry => negb (Nat.eqb (String.length entry) 0))
    (map JsString.trim (JsText.split "," listBody)).

(** [normalizeFlowList] *)
Definition normalizeFlowList (prefix rawValue : string) : option string :=
  match rawValue with
  | String "[" afterBracket =>
      match flowSplit afterBracket with
      | Some (listBody, comment) =>
          let items := flowItems listBody in
          let normalizedItems := map normalizeItem items in
          let trailingComment :=
            match comment with
            | Some comment => " " +:+ comment
            | None => ""
            end in
          Some (prefix +:+ "[" +:+ JsString.join ", " normalizedItems +:+ "]" +:+
                trailingComment)
      | None => None
      end
  | _ => None
  end.

(** The function mapped over the lines by [preprocessFrontmatter]. *)
Definition preprocessLine (line : string) : string :=
  match matchField line with
  | None => line
  | Some (prefix, raw) =>
      let value := JsString.trim raw in
      match normalizeFlowList prefix value with
      | Some normalizedFlowList => normalizedFlowList
      | None =>
          if negb (String.eqb value "") && negb (startsWith "[" value) &&
             negb (startsWith "'" value) && negb (startsWith doubleQuote value) &&
             negb (startsWith "-" value)
          then prefix +:+ JsString.quoted (escaped value)
          else line
      end
  end.

(** [frontmatter.split(/\r?\n/)] *)
Fixpoint splitLines (s : string) : list string :=
  match s with
  | EmptyString => [EmptyString]
  | String c rest =>
      if Ascii.eqb c lineFeed then EmptyString :: splitLines rest
      else
        match rest with
        | String d rest' =>
            if Ascii.eqb c carriageReturn && Ascii.eqb d lineFeed
            then EmptyString :: splitLines rest'
            else
              match splitLines rest with
              | line :: lines => String c line :: lines
              | [] => [String c EmptyString]
              end
        | EmptyString => [String c EmptyString]
        end
  end.

(** [preprocessFrontmatter] *)
Definition preprocessFrontmatter (frontmatter : string) : string :=
  JsString.join JsString.newline (map preprocessLine (splitLines frontmatter)).

Example preprocessLine_handle :
  preprocessLine "assignee: @alice" = "assignee: " +:+ JsString.quoted "@alice".
Proof. reflexivity. Qed.

Example preprocessLine_flow_list :
  preprocessLine "  assignee:  [@a , b,, 'c']   # the team" =
    "  assignee:  [" +:+ JsString.quoted "@a" +:+ ", b, 'c'] # the team".
Proof. reflexivity. Qed.

Example preprocessLine_other_key : preprocessLine "title: @alice" = "title: @alice".
Proof. reflexivity. Qed.

Example preprocessLine_block_list : preprocessLine "assignee: - @a" = "assignee: - @a".
Proof. reflexivity. Qed.

Example preprocessFrontmatter_windows :
  preprocessFrontmatter
    ("id: task-1" +:+ String carriageReturn JsString.newline +:+ "reporter: @bob")
  = "id: task-1" +:+ JsString.newline +:+ "reporter: " +:+ JsString.quoted "@bob".
Proof. reflexivity. Qed.

(** *** Preprocessing twice is preprocessing once *)

Lemma append_cons c s t : String c s +:+ t = String c (s +:+ t).
Proof. reflexivity. Qed.

Fixpoint allWhite (s : string) : bool :=
  match s with
  | EmptyString => true
  | String c rest => JsString.isWhiteSpace c && allWhite rest
  end.

Lemma takeWhiteSpace_allWhite s : allWhite (takeWhiteSpace s) = true.
Proof.
  induction s as [|c s IH]; [done|]. cbn [takeWhiteSpace].
  destruct (JsString.isWhiteSpace c) eqn:E; [|done]. cbn [allWhite]. by rewrite E.
Qed.

Lemma takeWhiteSpace_skipWhiteSpace s :
  takeWhiteSpace s +:+ JsString.skipWhiteSpace s = s.
Proof.
  induction s as [|c s IH]; [done|]. cbn [takeWhiteSpace JsString.skipWhiteSpace].
  destruct (JsString.isWhiteSpace c); [|done]. by rewrite append_cons, IH.
Qed.

Lemma skipWhiteSpace_allWhite ws r :
  allWhite ws = true -> JsString.skipWhiteSpace (ws +:+ r) = JsString.skipWhiteSpace r.
Proof.
  induction ws as [|c ws IH]; [done|]. cbn [allWhite].
  intros [Hc Hws]%andb_true_iff. rewrite append_cons. cbn [JsString.skipWhiteSpace].
  rewrite Hc. by apply IH.
Qed.

Lemma takeWhiteSpace_allWhite_app ws r :
  allWhite ws = true -> takeWhiteSpace (ws +:+ r) = ws +:+ takeWhiteSpace r.
Proof.
  induction ws as [|c ws IH]; [done|]. cbn [allWhite].
  intros [Hc Hws]%andb_true_iff. rewrite !append_cons. cbn [takeWhiteSpace].
  rewrite Hc. by rewrite IH.
Qed.

(** A string that is empty or starts with something else than white space. *)
Definition Flush (s : string) : Prop := JsString.skipWhiteSpace s = s.

Lemma Flush_skipWhiteSpace s : Flush (JsString.skipWhiteSpace s).
Proof.
  unfold Flush. induction s as [|c s IH]; [done|]. cbn [JsString.skipWhiteSpace].
  destruct (JsString.isWhiteSpace c) eqn:E; [done|].
  cbn [JsString.skipWhiteSpace]. by rewrite E.
Qed.

Lemma Flush_cons c s : JsString.isWhiteSpace c = false -> Flush (String c s).
Proof. intros H. unfold Flush. cbn [JsString.skipWhiteSpace]. by rewrite H. Qed.

Lemma skipWhiteSpace_length s :
  (String.length (JsString.skipWhiteSpace s) <= String.length s)%nat.
Proof.
  induction s as [|c s IH]; [done|]. cbn [JsString.skipWhiteSpace].
  destruct (JsString.isWhiteSpace c); cbn [String.length]; lia.
Qed.

Lemma Flush_takeWhiteSpace s : Flush s -> takeWhiteSpace s = "".
Proof.
  unfold Flush. destruct s as [|c s]; [done|]. cbn [JsString.skipWhiteSpace takeWhiteSpace].
  destruct (JsString.isWhiteSpace c) eqn:E; [|done]. intros H.
  pose proof (skipWhiteSpace_length s) as Hlen. rewrite H in Hlen.
  cbn [String.length] in Hlen. lia.
Qed.

Definition IsKey (key : string) : Prop := key = "assignee:" \/ key = "reporter:".

Lemma matchField_inv line prefix raw :
  matchField line = Some (prefix, raw) ->
  exists indent key ws,
    allWhite indent = true /\ IsKey key /\ allWhite ws = true /\
    prefix = indent +:+ key +:+ ws /\ line = prefix +:+ raw /\
    noLineTerminator raw = true /\ Flush raw.
Proof.
  unfold matchField.
  assert (Hkeyed : forall key,
    IsKey key ->
    match JsString.stripPrefix key (JsString.skipWhiteSpace line) with
    | Some afterKey =>
        if noLineTerminator (JsString.skipWhiteSpace afterKey)
        then Some (takeWhiteSpace line +:+ key +:+ takeWhiteSpace afterKey,
                   JsString.skipWhiteSpace afterKey)
        else None
    | None => None
    end = Some (prefix, raw) ->
    exists indent key ws,
      allWhite indent = true /\ IsKey key /\ allWhite ws = true /\
      prefix = indent +:+ key +:+ ws /\ line = prefix +:+ raw /\
      noLineTerminator raw = true /\ Flush raw).
  { intros key Hkey.
    destruct (JsString.stripPrefix key _) as [afterKey|] eqn:Es; [|done].
    destruct (noLineTerminator _) eqn:En; [|done]. intros [= <- <-].
    exists (takeWhiteSpace line), key, (takeWhiteSpace afterKey).
    split; [apply takeWhiteSpace_allWhite|]. split; [done|].
    split; [apply takeWhiteSpace_allWhite|]. split; [done|].
    split; [|split; [done|apply Flush_skipWhiteSpace]].
    apply JsString.stripPrefix_Some in Es.
    rewrite !Core.append_assoc, takeWhiteSpace_skipWhiteSpace, <- Es.
    by rewrite takeWhiteSpace_skipWhiteSpace. }
  cbv zeta.
  destruct (match JsString.stripPrefix "assignee:" _ with Some _ => _ | None => _ end)
    as [groups|] eqn:E.
  - intros [= ->]. apply (Hkeyed "assignee:"); [by left|done].
  - apply (Hkeyed "reporter:"). by right.
Qed.

Lemma matchField_build indent key ws raw :
  allWhite indent = true -> IsKey key -> allWhite ws = true ->
  noLineTerminator raw = true -> Flush raw ->
  matchField (indent +:+ key +:+ ws +:+ raw) = Some (indent +:+ key +:+ ws, raw).
Proof.
  intros Hi Hkey Hws Hlt Hraw. unfold matchField. cbv zeta.
  assert (Hskip : JsString.skipWhiteSpace (indent +:+ key +:+ ws +:+ raw) =
                  key +:+ ws +:+ raw).
  { rewrite skipWhiteSpace_allWhite by done. by destruct Hkey as [->| ->]. }
  assert (Htake : takeWhiteSpace (indent +:+ key +:+ ws +:+ raw) = indent).
  { rewrite takeWhiteSpace_allWhite_app by done.
    destruct Hkey as [->| ->]; cbn [takeWhiteSpace String.append];
      apply JsString.append_empty_r. }
  rewrite Hskip, Htake.
  assert (Hafter : JsString.skipWhiteSpace (ws +:+ raw) = raw).
  { by rewrite skipWhiteSpace_allWhite. }
  assert (Hws' : takeWhiteSpace (ws +:+ raw) = ws).
  { rewrite takeWhiteSpace_allWhite_app, Flush_takeWhiteSpace by done.
    apply JsString.append_empty_r. }
  destruct Hkey as [->| ->].
  - rewrite JsString.stripPrefix_app, Hafter, Hlt, Hws'. done.
  - change (JsString.stripPrefix "assignee:" ("reporter:" +:+ ws +:+ raw)) with
      (@None string).
    rewrite JsString.stripPrefix_app, Hafter, Hlt, Hws'. done.
Qed.

Lemma append_nonempty_r s t : t <> "" -> s +:+ t <> "".
Proof. intros Ht. destruct s; [done|]. by rewrite append_cons. Qed.

Lemma trimEnd_app_fixed s t :
  JsString.trimEnd t = t -> t <> "" -> JsString.trimEnd (s +:+ t) = s +:+ t.
Proof.
  intros Ht Hne. induction s as [|c s IH]; [done|].
  rewrite append_cons. cbn [JsString.trimEnd]. rewrite IH.
  pose proof (append_nonempty_r s t Hne). by destruct (s +:+ t).
Qed.

Lemma trimEnd_suffix a b :
  JsString.trimEnd (a +:+ b) = a +:+ b -> b <> "" -> JsString.trimEnd b = b.
Proof.
  intros H Hne. induction a as [|c a IH]; [done|]. apply IH.
  rewrite append_cons in H. cbn [JsString.trimEnd] in H.
  pose proof (append_nonempty_r a b Hne) as Hab.
  destruct (JsString.trimEnd (a +:+ b)) as [|d r] eqn:E.
  - destruct (JsString.isWhiteSpace c); [done|]. injection H as H. by rewrite <- H in Hab.
  - by injection H.
Qed.

Lemma trimEnd_last s c :
  JsString.isWhiteSpace c = false ->
  JsString.trimEnd (s +:+ String c "") = s +:+ String c "".
Proof.
  intros Hc. apply trimEnd_app_fixed; [|done]. cbn [JsString.trimEnd]. by rewrite Hc.
Qed.

Lemma trim_flush s :
  Flush s -> JsString.trimEnd s = s -> JsString.trim s = s.
Proof. unfold Flush, JsString.trim. by intros -> ->. Qed.

Lemma trim_trimEnd s : JsString.trimEnd (JsString.trim s) = JsString.trim s.
Proof. unfold JsString.trim. apply JsText.trimEnd_idempotent. Qed.

Lemma Flush_trim s : Flush (JsString.trim s).
Proof.
  unfold JsString.trim.
  destruct (JsText.skipWhiteSpace_head s) as [->|(c & r & -> & Hc)]; [done|].
  destruct (JsText.trimEnd_head c r Hc) as [r' ->]. by apply Flush_cons.
Qed.

(** **** Line terminators *)

Lemma noLineTerminator_app a b :
  noLineTerminator (a +:+ b) = noLineTerminator a && noLineTerminator b.
Proof.
  induction a as [|c a IH]; [done|]. rewrite append_cons. cbn [noLineTerminator].
  by rewrite IH, andb_assoc.
Qed.

Lemma noLineTerminator_skipWhiteSpace s :
  noLineTerminator s = true -> noLineTerminator (JsString.skipWhiteSpace s) = true.
Proof.
  induction s as [|c s IH]; [done|]. cbn [JsString.skipWhiteSpace].
  destruct (JsString.isWhiteSpace c); [|done].
  cbn [noLineTerminator]. intros [_ H]%andb_true_iff. by apply IH.
Qed.

Lemma noLineTerminator_trimEnd s :
  noLineTerminator s = true -> noLineTerminator (JsString.trimEnd s) = true.
Proof.
  induction s as [|c s IH]; [done|]. cbn [noLineTerminator JsString.trimEnd].
  intros [Hc Hs]%andb_true_iff. specialize (IH Hs).
  destruct (JsString.trimEnd s) as [|d r].
  - destruct (JsString.isWhiteSpace c); [done|]. cbn [noLineTerminator]. by rewrite Hc.
  - cbn [noLineTerminator] in IH |- *. by rewrite Hc, IH.
Qed.

Lemma noLineTerminator_trim s :
  noLineTerminator s = true -> noLineTerminator (JsString.trim s) = true.
Proof.
  intros H. unfold JsString.trim.
  by apply noLineTerminator_trimEnd, noLineTerminator_skipWhiteSpace.
Qed.

Lemma noLineTerminator_split sep s :
  noLineTerminator s = true ->
  Forall (fun piece => noLineTerminator piece = true) (JsText.split sep s).
Proof.
  induction s as [|c s IH]; [by repeat constructor|].
  cbn [noLineTerminator JsText.split]. intros [Hc Hs]%andb_true_iff.
  specialize (IH Hs). destruct (Ascii.eqb c sep); [by constructor|].
  destruct (JsText.split sep s) as [|piece pieces].
  { constructor; [|constructor]. cbn [noLineTerminator]. by rewrite Hc. }
  apply Forall_cons in IH as [Hp Hps]. constructor; [|done].
  cbn [noLineTerminator]. by rewrite Hc, Hp.
Qed.

Lemma noLineTerminator_escaped s :
  noLineTerminator s = true -> noLineTerminator (escaped s) = true.
Proof.
  unfold escaped. intros H.
  assert (H1 : noLineTerminator (escapeBackslashes s) = true).
  { induction s as [|c s IH]; [done|]. cbn [noLineTerminator] in H.
    apply andb_true_iff in H as [Hc Hs]. cbn [escapeBackslashes].
    destruct (Ascii.eqb c "\"); cbn [noLineTerminator]; rewrite ?Hc, (IH Hs); done. }
  clear H. induction (escapeBackslashes s) as [|c r IH]; [done|].
  cbn [noLineTerminator] in H1. apply andb_true_iff in H1 as [Hc Hr].
  cbn [escapeQuotes].
  destruct (Ascii.eqb c doubleQuote); cbn [noLineTerminator]; rewrite ?Hc, (IH Hr); done.
Qed.

Lemma noLineTerminator_quoted s :
  noLineTerminator s = true -> noLineTerminator (JsString.quoted s) = true.
Proof.
  intros H. unfold JsString.quoted. cbn [noLineTerminator].
  by rewrite noLineTerminator_app, H.
Qed.

Lemma noLineTerminator_join parts :
  Forall (fun part => noLineTerminator part = true) parts ->
  noLineTerminator (JsString.join ", " parts) = true.
Proof.
  induction parts as [|x parts IH]; [done|]. intros [Hx Hparts]%Forall_cons.
  destruct parts as [|y parts]; [done|].
  change (JsString.join ", " (x :: y :: parts))
    with (x +:+ ", " +:+ JsString.join ", " (y :: parts)).
  rewrite !noLineTerminator_app, Hx, (IH Hparts). done.
Qed.

(** **** The closing bracket *)

Lemma flowSplit_Some s body comment :
  flowSplit s = Some (body, comment) ->
  exists tail,
    s = body +:+ String "]" tail /\ trailing tail = Some comment /\
    noLineTerminator body = true /\ flowSplit tail = None.
Proof.
  revert body. induction s as [|c s IH]; intros body; [done|]. cbn [flowSplit].
  destruct (isLineTerminator c) eqn:El.
  - destruct (Ascii.eqb_spec c "]") as [->|_]; [done|done].
  - destruct (flowSplit s) as [[body' comment']|] eqn:Es.
    + intros [= <- <-]. destruct (IH body' eq_refl) as (tail & -> & Ht & Hb & Hn).
      exists tail. split; [done|]. split; [done|]. split; [|done].
      cbn [noLineTerminator]. by rewrite El, Hb.
    + destruct (Ascii.eqb_spec c "]") as [->|_]; [|done].
      destruct (trailing s) as [found|] eqn:Et; [|done]. intros [= <- <-].
      by exists s.
Qed.

Lemma flowSplit_build body tail comment :
  noLineTerminator body = true -> trailing tail = Some comment ->
  flowSplit tail = None ->
  flowSplit (body +:+ String "]" tail) = Some (body, comment).
Proof.
  intros Hb Ht Hn. induction body as [|c body IH].
  - change ("" +:+ String "]" tail) with (String "]" tail). cbn [flowSplit].
    change (isLineTerminator "]") with false. cbv iota. by rewrite Hn, Ht.
  - cbn [noLineTerminator] in Hb. apply andb_true_iff in Hb as [Hc Hb].
    rewrite append_cons. cbn [flowSplit].
    apply negb_true_iff in Hc. by rewrite Hc, (IH Hb).
Qed.

Lemma flowSplit_skipWhiteSpace tail :
  noLineTerminator tail = true -> flowSplit tail = None ->
  flowSplit (JsString.skipWhiteSpace tail) = None.
Proof.
  induction tail as [|c tail IH]; [done|].
  cbn [noLineTerminator JsString.skipWhiteSpace]. intros [Hc Ht]%andb_true_iff.
  destruct (JsString.isWhiteSpace c); [|done]. cbn [flowSplit].
  apply negb_true_iff in Hc. rewrite Hc.
  destruct (flowSplit tail) as [[body comment]|]; [done|]. intros _. by apply IH.
Qed.

(** **** The entries of a flow list *)

Fixpoint lacks (c : ascii) (s : string) : bool :=
  match s with
  | EmptyString => true
  | String d rest => negb (Ascii.eqb d c) && lacks c rest
  end.

Lemma lacks_app c a b : lacks c (a +:+ b) = lacks c a && lacks c b.
Proof.
  induction a as [|d a IH]; [done|]. rewrite append_cons. cbn [lacks].
  by rewrite IH, andb_assoc.
Qed.

Lemma lacks_split sep s : lacks sep s = true -> JsText.split sep s = [s].
Proof.
  induction s as [|c s IH]; [done|]. cbn [lacks JsText.split].
  intros [Hc Hs]%andb_true_iff. apply negb_true_iff in Hc. by rewrite Hc, (IH Hs).
Qed.

Lemma split_lacks sep s : Forall (fun piece => lacks sep piece = true) (JsText.split sep s).
Proof.
  induction s as [|c s IH]; [by repeat constructor|]. cbn [JsText.split].
  destruct (Ascii.eqb c sep) eqn:E; [by constructor|].
  destruct (JsText.split sep s) as [|piece pieces].
  { constructor; [|constructor]. cbn [lacks]. by rewrite E. }
  apply Forall_cons in IH as [Hp Hps]. constructor; [|done].
  cbn [lacks]. by rewrite E, Hp.
Qed.

Lemma lacks_skipWhiteSpace c s :
  lacks c s = true -> lacks c (JsString.skipWhiteSpace s) = true.
Proof.
  induction s as [|d s IH]; [done|]. cbn [JsString.skipWhiteSpace].
  destruct (JsString.isWhiteSpace d); [|done].
  cbn [lacks]. intros [_ H]%andb_true_iff. by apply IH.
Qed.

Lemma lacks_trimEnd c s : lacks c s = true -> lacks c (JsString.trimEnd s) = true.
Proof.
  induction s as [|d s IH]; [done|]. cbn [lacks JsString.trimEnd].
  intros [Hd Hs]%andb_true_iff. specialize (IH Hs).
  destruct (JsString.trimEnd s) as [|e r].
  - destruct (JsString.isWhiteSpace d); [done|]. cbn [lacks]. by rewrite Hd.
  - cbn [lacks] in IH |- *. by rewrite Hd, IH.
Qed.

Lemma lacks_comma_escaped s : lacks "," s = true -> lacks "," (escaped s) = true.
Proof.
  unfold escaped. intros H.
  assert (H1 : lacks "," (escapeBackslashes s) = true).
  { induction s as [|c s IH]; [done|]. cbn [lacks] in H.
    apply andb_true_iff in H as [Hc Hs]. cbn [escapeBackslashes].
    destruct (Ascii.eqb c "\"); cbn [lacks]; rewrite ?Hc, (IH Hs); done. }
  clear H. induction (escapeBackslashes s) as [|c r IH]; [done|].
  cbn [lacks] in H1. apply andb_true_iff in H1 as [Hc Hr].
  cbn [escapeQuotes].
  destruct (Ascii.eqb c doubleQuote); cbn [lacks]; rewrite ?Hc, (IH Hr); done.
Qed.

(** What the entries of a flow list are: trimmed, not empty, without a
    comma and without a line terminator. *)
Definition Item (entry : string) : Prop :=
  JsString.trim entry = entry /\ entry <> "" /\ lacks "," entry = true /\
  noLineTerminator entry = true.

Lemma flowItems_Item listBody :
  noLineTerminator listBody = true -> Forall Item (flowItems listBody).
Proof.
  intros Hb. unfold flowItems. apply Forall_forall. intros entry He.
  apply Core.elem_of_filter in He as [He Hlen].
  apply list_elem_of_fmap in He as (piece & -> & Hpiece).
  pose proof (split_lacks "," listBody) as Hl.
  pose proof (noLineTerminator_split "," listBody Hb) as Hn.
  rewrite Forall_forall in Hl, Hn. split; [apply JsText.trim_idempotent|].
  split; [intros He; by rewrite He in Hlen|]. split.
  - unfold JsString.trim. by apply lacks_trimEnd, lacks_skipWhiteSpace, Hl.
  - by apply noLineTerminator_trim, Hn.
Qed.

Lemma quoted_fixed s : JsString.trim (JsString.quoted s) = JsString.quoted s.
Proof.
  apply trim_flush; [by apply Flush_cons|]. unfold JsString.quoted.
  change (String (ascii_of_nat 34) (s +:+ String (ascii_of_nat 34) ""))
    with (String (ascii_of_nat 34) s +:+ String (ascii_of_nat 34) "").
  by apply trimEnd_last.
Qed.

Lemma normalizeItem_quoted s : normalizeItem (JsString.quoted s) = JsString.quoted s.
Proof. reflexivity. Qed.

Lemma normalizeItem_Item entry :
  Item entry ->
  Item (normalizeItem entry) /\ normalizeItem (normalizeItem entry) = normalizeItem entry.
Proof.
  intros (Ht & Hne & Hc & Hl).
  destruct (startsWith "'" entry || startsWith doubleQuote entry) eqn:Eq.
  { assert (He : normalizeItem entry = entry) by (unfold normalizeItem; by rewrite Eq).
    by rewrite !He. }
  destruct (startsWith "@" entry) eqn:Ea.
  2:{ assert (He : normalizeItem entry = entry)
        by (unfold normalizeItem; by rewrite Eq, Ea).
      by rewrite !He. }
  assert (He : normalizeItem entry = JsString.quoted (escaped entry))
    by (unfold normalizeItem; by rewrite Eq, Ea).
  rewrite !He. split; [|apply normalizeItem_quoted].
  split; [apply quoted_fixed|]. split; [done|]. split.
  - unfold JsString.quoted. cbn [lacks]. rewrite lacks_app, lacks_comma_escaped by done.
    done.
  - by apply noLineTerminator_quoted, noLineTerminator_escaped.
Qed.

Lemma flowItems_join items :
  Forall Item items -> flowItems (JsString.join ", " items) = items.
Proof.
  assert (Hone : forall x, Item x -> flowItems x = [x]).
  { intros x (Ht & Hne & Hc & _). unfold flowItems.
    rewrite (lacks_split "," x Hc). cbn [map List.filter]. rewrite Ht.
    by destruct x. }
  induction items as [|x items IH]; [done|]. intros [Hx Hitems]%Forall_cons.
  destruct items as [|y items]; [by apply Hone|].
  change (JsString.join ", " (x :: y :: items))
    with (x +:+ String "," (String " " (JsString.join ", " (y :: items)))).
  specialize (IH Hitems). set (rest := JsString.join ", " (y :: items)) in *.
  unfold flowItems in IH |- *.
  rewrite Cli.split_join, map_app, List.filter_app. fold (flowItems x).
  rewrite (Hone x Hx). cbn [app]. f_equal. rewrite <- IH. f_equal.
  cbn [JsText.split]. change (Ascii.eqb " " ",") with false. cbv iota.
  pose proof (Cli.split_nonempty "," rest) as Hne.
  destruct (JsText.split "," rest) as [|piece pieces]; done.
Qed.

(** **** One line *)

Lemma trailing_comment tail comment :
  trailing tail = Some (Some comment) ->
  comment = JsString.skipWhiteSpace tail /\ startsWith "#" comment = true /\
  noLineTerminator comment = true.
Proof.
  unfold trailing. destruct (JsString.skipWhiteSpace tail) as [|c r]; [done|].
  destruct (Ascii.eqb c "#") eqn:Ec; [|done].
  destruct (noLineTerminator (String c r)) eqn:En; [|done]. by intros [= <-].
Qed.

Lemma flowSplit_space s : flowSplit s = None -> flowSplit (String " " s) = None.
Proof. intros H. cbn [flowSplit]. change (isLineTerminator " ") with false. by rewrite H. Qed.

(** The condition under which a plain value is put in quotes. *)
Definition plain (value : string) : bool :=
  negb (String.eqb value "") && negb (startsWith "[" value) &&
  negb (startsWith "'" value) && negb (startsWith doubleQuote value) &&
  negb (startsWith "-" value).

(** [raw] after [prefix] is left alone by [preprocessLine]. *)
Definition Settled (prefix raw : string) : Prop :=
  noLineTerminator raw = true /\ Flush raw /\ JsString.trim raw = raw /\
  (normalizeFlowList prefix raw = Some (prefix +:+ raw) \/
   (normalizeFlowList prefix raw = None /\ plain raw = false)).

Lemma quoted_Settled prefix value :
  noLineTerminator value = true -> Settled prefix (JsString.quoted (escaped value)).
Proof.
  intros Hv. split; [by apply noLineTerminator_quoted, noLineTerminator_escaped|].
  split; [by apply Flush_cons|]. split; [apply quoted_fixed|]. by right.
Qed.

Lemma flow_Settled prefix value normalized :
  noLineTerminator value = true -> JsString.trimEnd value = value ->
  normalizeFlowList prefix value = Some normalized ->
  exists raw, normalized = prefix +:+ raw /\ raw <> "" /\ Settled prefix raw.
Proof.
  intros Hv Hend. unfold normalizeFlowList at 1.
  destruct value as [|c afterBracket]; [done|].
  destruct (Ascii.eqb_spec c "[") as [->|Hc].
  2:{ by destruct c as [[] [] [] [] [] [] [] []]. }
  destruct (flowSplit afterBracket) as [[listBody comment]|] eqn:Es; [|done].
  cbv zeta. intros [= <-].
  apply flowSplit_Some in Es as (tail & -> & Ht & Hb & Hnone).
  set (items := map normalizeItem (flowItems listBody)).
  assert (Hitems : Forall Item items /\ map normalizeItem items = items).
  { pose proof (flowItems_Item listBody Hb) as Hi. unfold items.
    induction Hi as [|x l Hx _ IH]; [done|]. cbn [map].
    destruct (normalizeItem_Item x Hx) as [H1 H2]. destruct IH as [H3 H4].
    split; [by constructor|]. by rewrite H2, H4. }
  destruct Hitems as [Hitems Hsame].
  assert (Hjoin : noLineTerminator (JsString.join ", " items) = true).
  { apply noLineTerminator_join. eapply Forall_impl; [exact Hitems|].
    by intros x (_ & _ & _ & H). }
  set (trailingComment := match comment with Some c => " " +:+ c | None => "" end).
  cbn [noLineTerminator] in Hv. apply andb_true_iff in Hv as [_ Hv].
  rewrite noLineTerminator_app in Hv. apply andb_true_iff in Hv as [_ Hv].
  cbn [noLineTerminator] in Hv. apply andb_true_iff in Hv as [_ Htail].
  assert (Hc : noLineTerminator trailingComment = true /\
               trailing trailingComment = Some comment /\
               flowSplit trailingComment = None /\
               JsString.trimEnd ("]" +:+ trailingComment) = "]" +:+ trailingComment).
  { unfold trailingComment. destruct comment as [c|]; [|done].
    apply trailing_comment in Ht as (Hc & Hhash & Hlt).
    destruct c as [|h c]; [done|]. cbn [startsWith] in Hhash.
    apply Ascii.eqb_eq in Hhash. subst h.
    assert (Hflush : JsString.skipWhiteSpace (String "#" c) = String "#" c) by done.
    split; [done|]. split; [|split].
    - unfold trailing.
      change (JsString.skipWhiteSpace (" " +:+ String "#" c)) with (String "#" c).
      cbv beta iota. change (Ascii.eqb "#" "#") with true. by rewrite Hlt.
    - change (" " +:+ String "#" c) with (String " " (String "#" c)).
      apply flowSplit_space. rewrite Hc. by apply flowSplit_skipWhiteSpace.
    - change ("]" +:+ " " +:+ String "#" c) with ("] " +:+ String "#" c).
      apply trimEnd_app_fixed; [|done].
      apply (trimEnd_suffix (String "[" listBody +:+ String "]" (takeWhiteSpace tail))).
      + rewrite Hc, Core.append_assoc, !append_cons, takeWhiteSpace_skipWhiteSpace.
        exact Hend.
      + done. }
  destruct Hc as (Hclt & Hctrail & Hcnone & Hcend).
  set (raw := "[" +:+ JsString.join ", " items +:+ "]" +:+ trailingComment).
  exists raw. split; [done|]. split; [done|].
  assert (Hraw : raw = String "[" (JsString.join ", " items +:+ String "]" trailingComment))
    by done.
  split; [|split; [by apply Flush_cons|split]].
  - rewrite Hraw. cbn [noLineTerminator]. rewrite noLineTerminator_app, Hjoin.
    cbn [noLineTerminator]. by rewrite Hclt.
  - apply trim_flush; [by apply Flush_cons|].
    change raw with (("[" +:+ JsString.join ", " items) +:+ ("]" +:+ trailingComment)).
    apply trimEnd_app_fixed; [done|]. done.
  - left. rewrite Hraw. cbn [normalizeFlowList].
    rewrite (flowSplit_build _ _ comment Hjoin Hctrail Hcnone).
    rewrite (flowItems_join items Hitems), Hsame. done.
Qed.

Lemma preprocessLine_cases line :
  preprocessLine line = line \/
  exists prefix raw settled,
    matchField line = Some (prefix, raw) /\
    preprocessLine line = prefix +:+ settled /\ settled <> "" /\
    Settled prefix settled.
Proof.
  unfold preprocessLine.
  destruct (matchField line) as [[prefix raw]|] eqn:Em; [|by left].
  cbv zeta. fold (plain (JsString.trim raw)).
  apply matchField_inv in Em as Hinv.
  destruct Hinv as (indent & key & ws & _ & _ & _ & _ & _ & Hlt & _).
  pose proof (noLineTerminator_trim raw Hlt) as Hvalue.
  destruct (normalizeFlowList prefix (JsString.trim raw)) as [normalized|] eqn:En.
  - destruct (flow_Settled prefix _ normalized Hvalue (trim_trimEnd raw) En)
      as (settled & -> & Hne & Hs).
    right. by exists prefix, raw, settled.
  - destruct (plain (JsString.trim raw)); [|by left].
    right. exists prefix, raw, (JsString.quoted (escaped (JsString.trim raw))).
    split; [done|]. split; [done|]. split; [done|]. by apply quoted_Settled.
Qed.

Lemma preprocessLine_settled line prefix raw settled :
  matchField line = Some (prefix, raw) -> Settled prefix settled ->
  preprocessLine (prefix +:+ settled) = prefix +:+ settled.
Proof.
  intros Hm (Hlt & Hflush & Htrim & Hs).
  apply matchField_inv in Hm as (indent & key & ws & Hi & Hkey & Hws & -> & _).
  assert (Hm' : matchField ((indent +:+ key +:+ ws) +:+ settled) =
                Some (indent +:+ key +:+ ws, settled)).
  { rewrite !Core.append_assoc. by apply matchField_build. }
  unfold preprocessLine. rewrite Hm'. cbv zeta.
  fold (plain (JsString.trim settled)). rewrite Htrim.
  destruct Hs as [->|[-> ->]]; done.
Qed.

Lemma preprocessLine_idempotent line :
  preprocessLine (preprocessLine line) = preprocessLine line.
Proof.
  destruct (preprocessLine_cases line) as [He|(prefix & raw & settled & Hm & -> & _ & Hs)];
    [by rewrite !He|].
  by apply (preprocessLine_settled line prefix raw).
Qed.

(** **** All the lines *)

Fixpoint endsWithCarriageReturn (s : string) : bool :=
  match s with
  | EmptyString => false
  | String c EmptyString => Ascii.eqb c carriageReturn
  | String _ rest => endsWithCarriageReturn rest
  end.

Lemma splitLines_nonempty s : splitLines s <> [].
Proof.
  destruct s as [|c s]; [done|]. cbn [splitLines].
  destruct (Ascii.eqb c lineFeed); [done|]. destruct s as [|d s]; [done|].
  destruct (Ascii.eqb c carriageReturn && Ascii.eqb d lineFeed); [done|].
  by destruct (splitLines (String d s)).
Qed.

Lemma splitLines_single line : lacks lineFeed line = true -> splitLines line = [line].
Proof.
  induction line as [|c line IH]; [done|]. cbn [lacks].
  intros [Hc Hline]%andb_true_iff. apply negb_true_iff in Hc.
  specialize (IH Hline). cbn [splitLines]. rewrite Hc.
  destruct line as [|d line]; [done|]. rewrite IH.
  cbn [lacks] in Hline. apply andb_true_iff in Hline as [Hd _].
  apply negb_true_iff in Hd. by rewrite Hd, andb_false_r.
Qed.

Lemma splitLines_line line rest :
  lacks lineFeed line = true -> endsWithCarriageReturn line = false ->
  splitLines (line +:+ String lineFeed rest) = line :: splitLines rest.
Proof.
  induction line as [|c line IH].
  - intros _ _. change ("" +:+ String lineFeed rest) with (String lineFeed rest).
    cbn [splitLines]. by rewrite Ascii.eqb_refl.
  - cbn [lacks]. intros [Hc Hline]%andb_true_iff Hend. apply negb_true_iff in Hc.
    rewrite append_cons. cbn [splitLines]. rewrite Hc.
    destruct line as [|d line].
    + change ("" +:+ String lineFeed rest) with (String lineFeed rest).
      cbn [endsWithCarriageReturn] in Hend. rewrite Hend. cbn [andb].
      cbn [splitLines]. by rewrite Ascii.eqb_refl.
    + rewrite append_cons. rewrite <- append_cons.
      cbn [lacks] in Hline. apply andb_true_iff in Hline as [Hd Hline'].
      apply negb_true_iff in Hd. rewrite Hd, andb_false_r.
      rewrite IH; [done| |done]. cbn [lacks]. by rewrite Hd, Hline'.
Qed.

Lemma splitLines_join lines :
  lines <> [] ->
  Forall (fun line => lacks lineFeed line = true /\ endsWithCarriageReturn line = false)
    lines ->
  splitLines (JsString.join JsString.newline lines) = lines.
Proof.
  intros Hne Hall. induction Hall as [|line lines [Hlf Hcr] Hall IH]; [done|].
  destruct lines as [|next lines]; [by apply splitLines_single|].
  change (JsString.join JsString.newline (line :: next :: lines))
    with (line +:+ String lineFeed (JsString.join JsString.newline (next :: lines))).
  rewrite splitLines_line by done. f_equal. by apply IH.
Qed.

Lemma splitLines_lacks s :
  Forall (fun line => lacks lineFeed line = true) (splitLines s).
Proof.
  assert (Hgen : forall n s, (String.length s <= n)%nat ->
            Forall (fun line => lacks lineFeed line = true) (splitLines s)).
  { clear s. induction n as [|n IH]; intros s Hn.
    - destruct s; [by repeat constructor|cbn in Hn; lia].
    - destruct s as [|c s]; [by repeat constructor|]. cbn [String.length] in Hn.
      cbn [splitLines]. destruct (Ascii.eqb c lineFeed) eqn:Ec.
      { constructor; [done|]. apply IH. lia. }
      destruct s as [|d s].
      { constructor; [|constructor]. cbn [lacks]. by rewrite Ec. }
      destruct (Ascii.eqb c carriageReturn && Ascii.eqb d lineFeed).
      { constructor; [done|]. apply IH. cbn [String.length] in Hn. lia. }
      pose proof (IH (String d s) ltac:(lia)) as Hrest.
      destruct (splitLines (String d s)) as [|line lines].
      { constructor; [|constructor]. cbn [lacks]. by rewrite Ec. }
      apply Forall_cons in Hrest as [Hline Hlines]. constructor; [|done].
      cbn [lacks]. by rewrite Ec, Hline. }
  by apply (Hgen (String.length s)).
Qed.

Lemma noLineTerminator_lacks s :
  noLineTerminator s = true ->
  lacks lineFeed s = true /\ lacks carriageReturn s = true.
Proof.
  induction s as [|c s IH]; [done|]. cbn [noLineTerminator lacks].
  intros [Hc Hs]%andb_true_iff. destruct (IH Hs) as [H1 H2]. rewrite H1, H2.
  unfold isLineTerminator in Hc. apply negb_true_iff, orb_false_iff in Hc as [-> ->].
  done.
Qed.

Lemma endsWithCarriageReturn_lacks s :
  lacks carriageReturn s = true -> endsWithCarriageReturn s = false.
Proof.
  induction s as [|c s IH]; [done|]. cbn [lacks].
  intros [Hc Hs]%andb_true_iff. apply negb_true_iff in Hc.
  cbn [endsWithCarriageReturn]. destruct s; [done|]. by apply IH.
Qed.

Lemma endsWithCarriageReturn_app a b :
  b <> "" -> endsWithCarriageReturn (a +:+ b) = endsWithCarriageReturn b.
Proof.
  intros Hb. induction a as [|c a IH]; [done|]. rewrite append_cons.
  cbn [endsWithCarriageReturn]. pose proof (append_nonempty_r a b Hb).
  by destruct (a +:+ b).
Qed.

Lemma preprocessLine_keeps_line line :
  lacks lineFeed line = true -> endsWithCarriageReturn line = false ->
  lacks lineFeed (preprocessLine line) = true /\
  endsWithCarriageReturn (preprocessLine line) = false.
Proof.
  intros Hlf Hcr.
  destruct (preprocessLine_cases line)
    as [->|(prefix & raw & settled & Hm & -> & Hne & Hlt & _)]; [done|].
  apply matchField_inv in Hm as (_ & _ & _ & _ & _ & _ & _ & -> & _).
  rewrite lacks_app in Hlf. apply andb_true_iff in Hlf as [Hprefix _].
  destruct (noLineTerminator_lacks settled Hlt) as [H1 H2]. split.
  - by rewrite lacks_app, Hprefix, H1.
  - rewrite endsWithCarriageReturn_app by done. by apply endsWithCarriageReturn_lacks.
Qed.

(** Provided no line of the front matter ends with a carriage return of
    its own (one that is not part of the line ending), the lines of the
    preprocessed front matter are the preprocessed lines of the front
    matter, and preprocessing the result again changes nothing: an
    assignee or reporter value that has been quoted is not quoted a second
    time. *)
Theorem preprocessFrontmatter_idempotent frontmatter :
  Forall (fun line => endsWithCarriageReturn line = false) (splitLines frontmatter) ->
  splitLines (preprocessFrontmatter frontmatter) =
    map preprocessLine (splitLines frontmatter) /\
  preprocessFrontmatter (preprocessFrontmatter frontmatter) =
    preprocessFrontmatter frontmatter.
Proof.
  intros Hcr.
  assert (Hlines : splitLines (preprocessFrontmatter frontmatter) =
                   map preprocessLine (splitLines frontmatter)).
  { unfold preprocessFrontmatter. apply splitLines_join.
    - pose proof (splitLines_nonempty frontmatter).
      by destruct (splitLines frontmatter).
    - pose proof (splitLines_lacks frontmatter) as Hlf.
      induction Hcr as [|line lines Hline _ IH]; [constructor|].
      apply Forall_cons in Hlf as [Hl Hlf]. cbn [map]. constructor; [|by apply IH].
      by apply preprocessLine_keeps_line. }
  split; [done|]. unfold preprocessFrontmatter at 1. rewrite Hlines.
  unfold preprocessFrontmatter. f_equal. rewrite map_map. apply map_ext.
  apply preprocessLine_idempotent.
Qed.

Definition windowsFrontmatter : string :=
  "id: task-1" +:+ String carriageReturn JsString.newline +:+
  "assignee: [@alice, bob]  # owners" +:+ JsString.newline +:+
  "reporter: @carol".

Lemma preprocessFrontmatter_example :
  splitLines (preprocessFrontmatter windowsFrontmatter) =
    map preprocessLine (splitLines windowsFrontmatter) /\
  preprocessFrontmatter (preprocessFrontmatter windowsFrontmatter) =
    preprocessFrontmatter windowsFrontmatter.
Proof.
  apply (preprocessFrontmatter_idempotent windowsFrontmatter).
  vm_compute. repeat constructor.
Defined.

(** A carriage return in front of a Windows line ending is kept by the
    first pass and taken for a part of the line ending by the second. *)
Example preprocessFrontmatter_stray_carriage_return :
  let frontmatter :=
    "x" +:+ String carriageReturn (String carriageReturn JsString.newline) +:+ "y" in
  preprocessFrontmatter frontmatter = "x" +:+ String carriageReturn JsString.newline +:+ "y" /\
  preprocessFrontmatter (preprocessFrontmatter frontmatter) = "x" +:+ JsString.newline +:+ "y".
Proof. split; reflexivity. Qed.
End MarkdownParser.
